(* ===== verification/_CoqProject ===== *)
-Q . S2P
Prelude.v
Fairness.v
Mem.v
Queue.v
Hashtable.v
Datatype.v
ProcMan.v
State.v
MrCache.v
Query.v
Matching.v
Transfer.v
Progress.v
MsgSpec.v
Engine.v
Delivery.v
Eager.v
Api.v
Rendezvous.v
Fault.v
Net.v
Connection.v
Init.v
Serving.v
Client.v
Ibio.v
IbioServer.v
IbioSession.v
IbioProgram.v
IbioTest.v
IbioNet.v
IbioClients.v
IbioRead.v
IbioFaults.v
IbioDump.v
Example.v
IbioDwrite.v
Disconnect.v
Sends.v
Recvs.v
Stream.v
Crossing.v
