(* ===== verification/Prelude.v ===== *)
(** * libibtl: a message-passing library over InfiniBand, and its file server

    The library (src/src, src/include) gives a program the calls of fdmi.h:
    [fdmi_verbs_init], [_connect], [_isend], [_irecv], [_wait], [_iprobe].
    Small messages travel inside the control message (eager); for large ones the
    receiver reads the sender's memory (RDMA read) and answers with a FIN.  Two
    threads work beside the program: one takes connection events, one takes
    completions.  On top of it the example (src/examples/ibio_*.c) opens, writes
    and reads files on another machine.

    ** The parts and where they are

    - this file: outcomes of C code ([Done], [Fatal] for [fdmi_err], [Diverge],
      [Undef]), machine integers, typed heaps, record update, lists.
    - Mem.v (fdmi_mem.c): the counting allocator; [malloc] is the class [Malloc].
    - Queue.v (fdmi_queue.c): the queue on a heap of nodes with its mutex and its
      shared iterator.  The class [QueueContract] is what the other parts use.
    - Hashtable.v (fdmi_hashtable.c): the table over queues, with the class
      [HashtableContract].
    - Datatype.v (fdmi_datatype.c, the copy loops of fdmi.c): layouts, packing,
      sizes and reductions.
    - ProcMan.v (fdmi_proc_man.c): communicators, rank maps, states of
      processes, the table of connection identifiers.
    - State.v (the structures and globals of fdmi.c): the record [process], one
      heap for each kind of object; the class [Verbs] is libibverbs.
    - MrCache.v, Query.v, Matching.v, Transfer.v, Progress.v (fdmi.c): registered
      memory; the pool of queries and the invariant [proc_inv], which says who
      owns each query; matching; posting and copying; the handlers of
      completions, composed by [fdmi_poll_sendrecv_cq].
    - MsgSpec.v: the specification of the receiving side, a machine on lists.
      Engine.v: the relation [engine] between a process and the machine, and one
      law for each handler.  Delivery.v: the theorems about any sequence of
      arrivals and receives.  Eager.v: a small message from one process to
      another.  Rendezvous.v: a large one, with the read of the sender's buffer
      and the message that ends it.  Sends.v: the sending side, as a machine on
      lists of requests that the calls and handlers implement.  Recvs.v: the
      calls that receive, on the machine of MsgSpec.v.  Stream.v: the
      sending side of one process and the receiving side of another, for many
      small messages.  Crossing.v: two large messages, received in the other
      order.
    - Api.v (fdmi.c): the calls of the program.  What another thread does to
      the memory a call reads is an argument, a function from the number of the
      access to the state observed.
    - Fault.v (fdmi.c): failed ranks, the flush, the reports of failures.
    - Net.v, Connection.v, Init.v (fdmi.c, fdmi_param.c): domains, peers, queue
      pairs, the events of connections, the source of completions, the start.
      The calls that leave the program are a log; the class [Net] gives what
      they return from the log so far.  Serving.v, Client.v: from the start to a
      process that is connected to, or connects.  Disconnect.v: from a lost
      connection to the report of failures.
    - Fairness.v: runs of a system of actors and weak fairness.
    - Ibio.v, IbioServer.v (ibio_common.c, ibio_client.c, ibio_server.c): the
      client as programs of transfers, the server as steps of [main] and of its
      threads, with the class [OS].  IbioSession.v: one client and the server,
      and writing a file; IbioRead.v: reading one; IbioProgram.v: programs that
      open, write and close, by rules like those of a Hoare logic; IbioTest.v
      (ibio_test.c): the test program; IbioNet.v, IbioClients.v: several clients
      at once; IbioDwrite.v: the other way to write; IbioFaults.v: what goes
      wrong; IbioDump.v: the functions of the server that write a whole buffer.
    - Example.v (example_client.c, example_server.c): the ping-pong programs.

    ** What the theorems show

    - Data structures: the queue and the table refine a list and a map for every
      sequence of calls ([queue_refines_fifo], [hashtable_refines_table]); what
      a loop over a queue survives; what destroying frees; the read of a freed
      node in [fdmi_hashtable_remove].
    - Messages: the handlers implement the machine for every sequence of
      arrivals and receives ([engine_refines_machine]); messages of a class do
      not overtake ([messages_do_not_overtake]); nothing waits beside what it
      could meet; early and late arrival agree; small messages from one
      process to another reach the buffers of their receives, for every
      interleaving of the two programs, the adapter and the network
      ([stream_delivered], and [eager_message_delivered] for one); a large one is read
      from the sender's, on the queue pair its announcement came in on, and the
      answer goes back over the same one ([read_completion]) and finishes the
      send ([rendezvous_message_delivered]); the calls and handlers of the sending
      side implement a machine for every sequence of sends, reports and answers
      ([sending_refines_machine]), in which large sends finish in their order
      ([large_sends_finish_in_order]); a waiting call returns exactly when the
      flag is set.  Orders that go wrong: a large send finishes when another one
      has been read ([later_read_finishes_first]), a small send takes the answer
      to a large one ([small_send_takes_end]), and the status is read before it
      is stored ([status_read_too_early]).
    - Ranks: initial maps; the way from a virtual rank to a physical one and
      back, which closes for the own rank only ([comm_rank_roundtrip]);
      replacement of failed ranks, after which an elected rank that was in use
      is shared by two virtual ranks ([update_comm_world_replaces]), and where
      replacing twice fails.
    - Start and connections: a process that initialises and is connected to is
      [ready], the hypothesis of Delivery.v ([server_becomes_ready]), and so is
      one that initialises and connects ([client_becomes_ready]); clients are
      numbered in the order of their requests.
    - Failures: the flush keeps exactly what is to be preserved; lost connections
      are noticed and recorded, and never reported
      ([disconnections_not_reported]).
    - Memory: what the cache of regions returns, when it gives up, sizes that
      wrap ([small_send_bytes]), or wrap or fall short ([reg_size_covers]);
      packing and unpacking, which are inverse, and the payload, which is not
      the packed data ([pack_unpack_roundtrip]).
    - Remote files, one client: for every interleaving of the client, the server
      and its threads a write ends and the file has its bytes
      ([write_session_correct]); a read that returns has the bytes of the file
      ([read_session_correct]), and in a fair run it returns
      ([read_session_returns]); a program of an open, any writes and a close
      comes to its end ([file_program_correct]).  Several clients: programs
      made of the calls to open, write, read and close keep to the protocol, and
      every message has the payload its operation takes
      ([messages_well_typed]); writes to
      different files do not disturb each other ([concurrent_writes_correct]).
      The direct write leaves in the file what the ordinary one does, when a
      variable that is not initialised happens to be zero
      ([dwrite_equals_write]).  What goes wrong: a write of no bytes is never
      answered ([empty_write_hangs]), a close clears the entry of another file
      ([close_breaks_neighbour]), a read may block the writes after it
      ([read_blocks_writes]).
    - Other programs: a dump writes all its bytes ([dump_writes_all]); the
      ping-pong server answers every client, which learns its number when it has
      three digits at most ([ping_pong_answers]).

    ** Fuel and bounds

    Loops over a queue run on its length ([queue_fuel], [rep_fuel]); loops over a
    chain of communicators on the bound 256 of the code's array; registration is
    tried 1001 times as in the code; [CHUNK_FUEL] is 34 since the sum of 33
    chunks does not fit an [int].  Loops that wait for another thread take fuel,
    and their theorems say with which fuel they return, or that none is enough.
    [int] overflow is undefined ([c_int]), but for the lengths and the indices
    of queues and the count of completions, which wrap as compiled code does;
    conversions wrap ([i32], [u32], [u64]).

    ** Assumptions

    Hypotheses name what is outside src/: an allocator that succeeds
    ([malloc_total]), a driver that registers and posts ([reg_total],
    [post_total]), an adapter that places a message in a posted receive
    ([hca_deliver]) and copies the bytes of a read ([read_performed]), a network that grants every call ([net_grants]), a system
    whose calls succeed ([os_works], [can_open]), reads what the file has
    ([os_reads]) and writes a byte at least ([writes_some]).  Liveness of a read
    supposes that no actor that can move is passed over for ever ([fair]).  Each has an instance on which the
    theorems are evaluated.  Between client and server of IbioSession.v messages
    arrive in the order sent, which is what [messages_do_not_overtake] gives for
    one connection.

    ** Not modelled

    fdmi_exec.c (names that do not exist, in no build); fdmi_util.c and the
    printing half of fdmi_err.c; pgz.c and yarn.c (vendored pigz); functions
    nobody calls: compress_write (calls pigz), get_write_arg (over a list that is
    not in the repository) and those of fdmi_proc_man.c that are commented out;
    time stamps and debug output.  Memory is sequentially consistent: the races
    shown are between accesses, not reorderings of them.  Reads by several
    clients at once are steps of IbioNet.v of which only the types of the messages
    are proved. *)
From stdpp Require Export gmap list strings fin_maps.
From Stdlib Require Export ZArith Lia ZifyBool.

#[global] Open Scope Z_scope.

(** ** Outcomes of a C computation

    [Done a]     the call returns, with [a] its result and new state;
    [Fatal why]  [fdmi_err] was called: a message and [exit(1)];
    [Diverge]    the call never returns: it waits for a mutex nobody will
                 release, or its loop has no exit;
    [Undef]      undefined behaviour: a null, dangling or out-of-range access,
                 a division by zero, a read after [free]. *)
Inductive outcome (A : Type) : Type :=
| Done (a : A)
| Fatal (why : string)
| Diverge
| Undef.
Arguments Done {A} _.
Arguments Fatal {A} _.
Arguments Diverge {A}.
Arguments Undef {A}.

Definition obind {A B} (c : outcome A) (k : A → outcome B) : outcome B :=
  match c with
  | Done a => k a
  | Fatal why => Fatal why
  | Diverge => Diverge
  | Undef => Undef
  end.

Declare Scope c_scope.
Delimit Scope c_scope with c.
Notation "x <- c ;; k" := (obind c (λ x, k))
  (at level 60, c at next level, right associativity) : c_scope.
Notation "'let!' p ':=' c 'in' k" := (obind c (λ x, match x with p => k end))
  (at level 60, p pattern, c at next level, k at level 200, right associativity) : c_scope.
#[global] Open Scope c_scope.

(** Total correctness: the computation returns and its result satisfies [Q]. *)
Definition ends {A} (c : outcome A) (Q : A → Prop) : Prop :=
  match c with Done a => Q a | _ => False end.

(** The results that are not undefined behaviour. *)
Definition defined {A} (c : outcome A) : bool :=
  match c with Undef => false | _ => true end.

Lemma ends_Done {A} (c : outcome A) Q : ends c Q ↔ ∃ a, c = Done a ∧ Q a.
Proof.
  destruct c; simpl; split; try done; [eauto|..]; intros (? & [=] & ?); by subst.
Qed.

Lemma ends_bind {A B} (c : outcome A) (k : A → outcome B) Q :
  ends (obind c k) Q ↔ ends c (λ a, ends (k a) Q).
Proof. by destruct c. Qed.

Lemma ends_mono {A} (c : outcome A) (P Q : A → Prop) :
  ends c P → (∀ a, P a → Q a) → ends c Q.
Proof. destruct c; simpl; auto. Qed.

Lemma obind_Done_inv {A B} (c : outcome A) (k : A → outcome B) b :
  obind c k = Done b → ∃ a, c = Done a ∧ k a = Done b.
Proof. destruct c; simpl; naive_solver. Qed.

Lemma obind_assoc {A B C} (c : outcome A) (f : A → outcome B) (g : B → outcome C) :
  obind (obind c f) g = obind c (λ a, obind (f a) g).
Proof. by destruct c. Qed.

(** One call of a program, by the law [lem] of the callee: [p] names the result
    and what the law says about it.  [c_last] is for the last call. *)
Tactic Notation "c_last" uconstr(lem) "as" simple_intropattern(r) simple_intropattern(p) :=
  eapply ends_mono; [eapply lem; eauto | cbv beta; intros r; cbn [fst snd]; intros p].
Tactic Notation "c_step" uconstr(lem) "as" simple_intropattern(r) simple_intropattern(p) :=
  apply ends_bind; c_last lem as r p.

(** Splits a hypothesis [x <- c ;; k = Done r] along its binds. *)
Ltac inv_done :=
  repeat match goal with
  | H : obind _ _ = Done _ |- _ => apply obind_Done_inv in H as (? & ? & H)
  | H : Done _ = Done _ |- _ => injection H; clear H; intros; subst
  | p : (_ * _)%type |- _ => destruct p
  | H : (if ?b then _ else _) = Done _ |- _ => destruct b eqn:?; simplify_eq
  end; simpl in *.

(** ** Machine integers *)
Definition INT_MAX : Z := 2147483647.
Definition INT_MIN : Z := -2147483648.

(** Reduction to a type's width, as a conversion between integer types does it. *)
Definition u64 (z : Z) : Z := z mod 2 ^ 64.
Definition u32 (z : Z) : Z := z mod 2 ^ 32.
Definition u16 (z : Z) : Z := z mod 2 ^ 16.
Definition i32 (z : Z) : Z := (z + 2 ^ 31) mod 2 ^ 32 - 2 ^ 31.

Definition is_int (z : Z) : Prop := INT_MIN ≤ z ≤ INT_MAX.

(** The result of an [int] operation: signed overflow is undefined. *)
Definition c_int (z : Z) : outcome Z :=
  if (INT_MIN <=? z) && (z <=? INT_MAX) then Done z else Undef.

Lemma c_int_ok z : is_int z → c_int z = Done z.
Proof.
  unfold is_int, c_int. intros.
  by rewrite (proj2 (Z.leb_le _ _)), (proj2 (Z.leb_le _ _)) by lia.
Qed.

Lemma c_int_bounds z : 0 ≤ z ≤ INT_MAX → c_int z = Done z.
Proof. intros. apply c_int_ok. unfold is_int, INT_MIN, INT_MAX in *. lia. Qed.

Lemma c_int_inv z r : c_int z = Done r → r = z ∧ is_int z.
Proof. unfold c_int, is_int. case_match; intros; simplify_eq. split; lia. Qed.

Lemma i32_id z : is_int z → i32 z = z.
Proof.
  unfold is_int, INT_MIN, INT_MAX, i32. intros.
  rewrite Z.mod_small; lia.
Qed.

Lemma i32_is_int z : is_int (i32 z).
Proof.
  unfold is_int, INT_MIN, INT_MAX, i32.
  pose proof (Z.mod_pos_bound (z + 2 ^ 31) (2 ^ 32) ltac:(lia)). lia.
Qed.

Lemma u64_id z : 0 ≤ z < 2 ^ 64 → u64 z = z.
Proof. intros. unfold u64. by apply Z.mod_small. Qed.

Lemma u64_bounds z : 0 ≤ u64 z < 2 ^ 64.
Proof. apply Z.mod_pos_bound. lia. Qed.

Lemma u32_id z : 0 ≤ z < 2 ^ 32 → u32 z = z.
Proof. intros. unfold u32. by apply Z.mod_small. Qed.

Lemma u32_bounds z : 0 ≤ u32 z < 2 ^ 32.
Proof. apply Z.mod_pos_bound. lia. Qed.

Lemma u64_add_l a b : u64 (u64 a + b) = u64 (a + b).
Proof. unfold u64. by rewrite Z.add_mod_idemp_l by lia. Qed.

Lemma u64_sub_l a b : u64 (u64 a - b) = u64 (a - b).
Proof. unfold u64. by rewrite Zminus_mod_idemp_l. Qed.

Lemma i32_add_l a b : i32 (i32 a + b) = i32 (a + b).
Proof.
  unfold i32. f_equal.
  replace ((a + 2 ^ 31) mod 2 ^ 32 - 2 ^ 31 + b + 2 ^ 31)
    with ((a + 2 ^ 31) mod 2 ^ 32 + b) by lia.
  rewrite Z.add_mod_idemp_l by lia. f_equal. lia.
Qed.

(** An [int] stored in a [uint64_t] and read back as an [int] is unchanged,
    and two [int]s are equal as [uint64_t] only when they are equal. *)
Lemma i32_u64 z : is_int z → i32 (u64 z) = z.
Proof.
  unfold is_int, INT_MIN, INT_MAX, i32, u64. intros.
  destruct (decide (0 ≤ z)).
  - rewrite (Z.mod_small z) by lia. rewrite Z.mod_small; lia.
  - replace (z mod 2 ^ 64) with (z + 2 ^ 64)
      by (apply Z.mod_unique with (-1); lia).
    replace (z + 2 ^ 64 + 2 ^ 31) with (z + 2 ^ 31 + 2 ^ 32 * 2 ^ 32) by lia.
    rewrite Z_mod_plus_full, Z.mod_small; lia.
Qed.

Lemma u64_inj a b : is_int a → is_int b → u64 a = u64 b → a = b.
Proof. intros Ha Hb E. by rewrite <- (i32_u64 a), <- (i32_u64 b), E. Qed.

(** ** The C library's allocator

    One typed heap per kind of object: [cells] maps the addresses of the live
    objects to their contents. [malloc] may return any address that is not in
    use, or [NULL]. *)
Abbreviation NULL := 0 (only parsing).

Class Malloc : Type := {
  malloc : ∀ {A : Type}, gmap Z A → Z;
  malloc_fresh : ∀ {A : Type} (m : gmap Z A), malloc m ≠ NULL → m !! malloc m = None;
}.

(** An allocator that never runs out and returns multiples of 16. *)
Definition bump_malloc {A : Type} (m : gmap Z A) : Z :=
  16 * (1 + set_fold (λ a n, Z.max (Z.abs a) n) 0 (dom m)).

Lemma set_fold_max_le (s : gset Z) a :
  a ∈ s → Z.abs a ≤ set_fold (λ a n, Z.max (Z.abs a) n) 0 s.
Proof.
  revert a. apply (set_fold_ind_L (λ n s, ∀ a, a ∈ s → Z.abs a ≤ n)); [set_solver|].
  intros x s' r Hx IH a [->%elem_of_singleton|Ha]%elem_of_union; [lia|].
  specialize (IH a Ha). lia.
Qed.

Lemma set_fold_max_nonneg (s : gset Z) :
  0 ≤ set_fold (λ a n, Z.max (Z.abs a) n) 0 s.
Proof. apply (set_fold_ind_L (λ n _, 0 ≤ n)); lia. Qed.

Lemma bump_malloc_fresh {A} (m : gmap Z A) : m !! bump_malloc m = None.
Proof.
  apply not_elem_of_dom. intros Hin.
  pose proof (set_fold_max_le _ _ Hin). pose proof (set_fold_max_nonneg (dom m)).
  unfold bump_malloc in *. lia.
Qed.

Lemma bump_malloc_nonnull {A} (m : gmap Z A) : bump_malloc m ≠ NULL.
Proof. pose proof (set_fold_max_nonneg (dom m)). unfold bump_malloc. lia. Qed.

#[export] Instance Malloc_bump : Malloc.
Proof. refine {| malloc := @bump_malloc |}. intros. apply bump_malloc_fresh. Defined.

(** An allocator that never returns [NULL]. *)
Definition malloc_total `{Malloc} : Prop :=
  ∀ (A : Type) (m : gmap Z A), malloc m ≠ NULL.

Lemma Malloc_bump_total : malloc_total.
Proof. intros A m. apply bump_malloc_nonnull. Qed.

(** ** Loads and stores through a pointer *)
Definition load {A} (m : gmap Z A) (a : Z) : outcome A :=
  match m !! a with Some v => Done v | None => Undef end.

Definition store {A} (m : gmap Z A) (a : Z) (v : A) : outcome (gmap Z A) :=
  match m !! a with Some _ => Done (<[a := v]> m) | None => Undef end.

Lemma load_Done {A} (m : gmap Z A) a v : load m a = Done v ↔ m !! a = Some v.
Proof. unfold load. destruct (m !! a); naive_solver. Qed.

Lemma store_Done {A} (m : gmap Z A) a v m' :
  store m a v = Done m' ↔ is_Some (m !! a) ∧ m' = <[a := v]> m.
Proof.
  unfold store. destruct (m !! a) eqn:E; [naive_solver|].
  split; [done|]. by intros [[? ?] _].
Qed.

Lemma load_insert {A} (m : gmap Z A) a v : load (<[a := v]> m) a = Done v.
Proof. apply load_Done, lookup_insert_eq. Qed.

Create HintDb cmodel.
#[export] Hint Resolve malloc_fresh bump_malloc_nonnull c_int_ok i32_id : cmodel.


(** ** Updating a field of a record

    [r <| f := v |>] is [r] with [v] in field [f].  A record type registers its
    eta expansion; the instances of [Field] are computed from it by abstracting
    the field's projection. *)
Class Eta (R : Type) := eta_of : R → R.
Class Field {R T : Type} (proj : R → T) := set_field : T → R → R.
#[global] Arguments set_field {R T} proj {Field} _ _.

Ltac solve_field :=
  match goal with
  | |- @Field ?R ?T ?proj =>
      let body := eval cbv beta delta [eta_of] in (@eta_of R _) in
      let body := eval red in body in
      let f := eval pattern proj in body in
      match f with ?update _ => exact (λ v, update (λ _, v)) end
  end.
#[export] Hint Extern 1 (Field _) => solve_field : typeclass_instances.

Notation "r <| f := v |>" := (set_field f v r)
  (at level 12, f at next level, v at level 200, left associativity,
   format "r  <| f  :=  v |>") : c_scope.

(** ** Lists *)
Definition first_addr {A} (ns : list (Z * A)) : Z :=
  match ns with [] => NULL | (a, _) :: _ => a end.

Definition last_addr {A} (ns : list (Z * A)) : Z :=
  match last ns with Some (a, _) => a | None => NULL end.

(** The list without its first element equal to [d]. *)
Fixpoint remove_first (d : Z) (l : list Z) : list Z :=
  match l with
  | [] => []
  | x :: l' => if decide (x = d) then l' else x :: remove_first d l'
  end.

(** The first element that satisfies [p], [NULL] when there is none. *)
Fixpoint find_ptr (p : Z → bool) (l : list Z) : Z :=
  match l with
  | [] => NULL
  | x :: l' => if p x then x else find_ptr p l'
  end.

Lemma remove_first_not_in d l : d ∉ l → remove_first d l = l.
Proof.
  induction l as [|x l IH]; intros Hd; simpl; [done|].
  apply not_elem_of_cons in Hd as [? Hd].
  rewrite decide_False by done. by rewrite IH.
Qed.

Lemma remove_first_app d pre suf :
  d ∉ pre → remove_first d (pre ++ d :: suf) = pre ++ suf.
Proof.
  induction pre as [|x pre IH]; intros Hd; simpl; [by rewrite decide_True|].
  apply not_elem_of_cons in Hd as [? Hd].
  rewrite decide_False by done. by rewrite IH.
Qed.

Lemma remove_first_sublist d l : remove_first d l `sublist_of` l.
Proof.
  induction l as [|x l IH]; simpl; [done|].
  case_decide; [by apply sublist_cons|by apply sublist_skip].
Qed.

Lemma elem_of_remove_first d x l : x ∈ remove_first d l → x ∈ l.
Proof.
  intros. eapply elem_of_submseteq; [done|]. apply sublist_submseteq, remove_first_sublist.
Qed.

Lemma NoDup_remove_first d l : NoDup l → NoDup (remove_first d l).
Proof. intros. by eapply sublist_NoDup, remove_first_sublist. Qed.

Lemma NoDup_not_elem_remove_first d l : NoDup l → d ∉ remove_first d l.
Proof.
  induction l as [|x l IH]; intros Hl; [apply not_elem_of_nil|].
  apply NoDup_cons in Hl as [Hx Hl]. simpl.
  case_decide as E; [by subst|]. apply not_elem_of_cons. auto.
Qed.

Lemma find_ptr_Some p l x :
  find_ptr p l = x → x ≠ NULL →
  ∃ pre suf, l = pre ++ x :: suf ∧ p x = true ∧ ∀ y, y ∈ pre → p y = false.
Proof.
  induction l as [|y l IH]; simpl; intros Hf Hx; [done|].
  destruct (p y) eqn:Ey; [subst y|].
  - exists [], l. split_and!; auto. by intros ? ?%elem_of_nil.
  - destruct IH as (pre & suf & -> & ? & ?); auto.
    exists (y :: pre), suf. split_and!; auto. intros z [->|?]%elem_of_cons; auto.
Qed.

Lemma find_ptr_None p l :
  NULL ∉ l → find_ptr p l = NULL ↔ ∀ y, y ∈ l → p y = false.
Proof.
  induction l as [|y l IH]; simpl; intros Hn.
  - split; [by intros _ ? ?%elem_of_nil|done].
  - apply not_elem_of_cons in Hn as [? Hn]. rewrite <- (Forall_forall (λ y, p y = false)).
    rewrite Forall_cons, Forall_forall, <- IH by done.
    destruct (p y); naive_solver.
Qed.

Lemma find_ptr_app p pre suf :
  (∀ y, y ∈ pre → p y = false) → find_ptr p (pre ++ suf) = find_ptr p suf.
Proof.
  induction pre as [|y pre IH]; intros Hp; simpl; [done|].
  rewrite Hp by (apply list_elem_of_here). apply IH. intros. apply Hp. by right.
Qed.

Lemma last_addr_app {A} (ns : list (Z * A)) a d : last_addr (ns ++ [(a, d)]) = a.
Proof. unfold last_addr. by rewrite last_snoc. Qed.

Lemma last_addr_cons {A} (ns : list (Z * A)) x :
  ns ≠ [] → last_addr (x :: ns) = last_addr ns.
Proof. unfold last_addr. by destruct ns. Qed.

Lemma last_addr_app_ne {A} (ns ms : list (Z * A)) :
  ms ≠ [] → last_addr (ns ++ ms) = last_addr ms.
Proof. unfold last_addr. intros. rewrite last_app. by destruct (last ms) eqn:E; [|apply last_None in E]. Qed.

Lemma last_addr_elem_of {A} (ns : list (Z * A)) : ns ≠ [] → last_addr ns ∈ ns.*1.
Proof.
  intros Hne. unfold last_addr. destruct (last ns) as [[a d]|] eqn:E.
  - apply last_Some_elem_of in E. by apply (list_elem_of_fmap_2 fst) in E.
  - by apply last_None in E.
Qed.

Lemma delete_insert_replicate {A} m k (x y : A) : (k < m)%nat → delete k (<[k := y]> (replicate m x)) = replicate (m - 1) x.
Proof.
  intros Hk. rewrite delete_take_drop, take_insert_ge, drop_insert_lt by lia.
  rewrite take_replicate, drop_replicate, <- replicate_add. f_equal. lia.
Qed.
