(* ===== verification/Fairness.v ===== *)
(** * Fair runs

    Infinite runs of a system of several actors, in which an actor that can
    move does not wait for ever, and the rule that such a run comes to an end of
    its work: while an actor is helpful, nobody else takes that from it, and its
    move brings the end nearer. *)
From S2P Require Import Prelude.

Section fairness.
Context {St Actor : Type} (moves : Actor → St → St → Prop).
Implicit Types (e : nat → St) (a : Actor).

(** At each moment an actor moves or nothing happens. *)
Definition run e : Prop := ∀ i, e (S i) = e i ∨ ∃ a, moves a (e i) (e (S i)).

(** Weak fairness: from any moment on there is one at which the actor moves or
    cannot. *)
Definition fair e : Prop :=
  ∀ a n, ∃ m, (n ≤ m)%nat ∧ (moves a (e m) (e (S m)) ∨ ∀ s, ¬ moves a (e m) s).

(** [R d a s]: the work is at most [d] moves from its end in [s], and a move of
    [a] helps. *)
Context (R : nat → Actor → St → Prop) (finished : St → Prop).
Context (R_helps : ∀ d a s, R d a s → finished s ∨ ∃ s', moves a s s').
Context (R_moves : ∀ d a s b s', R d a s → moves b s s' →
  finished s ∨ (∃ d' a', (d' < d)%nat ∧ R d' a' s') ∨ b ≠ a ∧ R d a s').

(** Up to any later moment, the end has been reached, or come nearer, or the
    same actor is still the one that helps. *)
Lemma helpful_persists e d a n k :
  run e → R d a (e n) →
  (∃ m, (n ≤ m)%nat ∧ (finished (e m) ∨ ∃ d' a', (d' < d)%nat ∧ R d' a' (e m))) ∨ R d a (e (n + k)%nat).
Proof.
  intros Hrun HR. induction k as [|k IH]; [right; by rewrite Nat.add_0_r|].
  destruct IH as [IH|IH]; [by left|]. rewrite Nat.add_succ_r.
  destruct (Hrun (n + k)%nat) as [E|[b Hb]]; [right; by rewrite E|].
  destruct (R_moves _ _ _ _ _ IH Hb) as [Hf|[Hd|[_ H]]].
  - left. exists (n + k)%nat. split; [lia|by left].
  - left. exists (S (n + k)). split; [lia|by right].
  - by right.
Qed.

Lemma fair_finishes e d a n : run e → fair e → R d a (e n) → ∃ m, (n ≤ m)%nat ∧ finished (e m).
Proof.
  intros Hrun Hfair. revert a n. induction (lt_wf d) as [d _ IH]. intros a n HR.
  assert (Hnear : ∃ m, (n ≤ m)%nat ∧ (finished (e m) ∨ ∃ d' a', (d' < d)%nat ∧ R d' a' (e m))).
  { destruct (Hfair a n) as (m & Hm & Ha).
    destruct (helpful_persists e d a n (m - n) Hrun HR) as [H|H]; [done|].
    replace (n + (m - n))%nat with m in H by lia. destruct Ha as [Ha|Ha].
    - destruct (R_moves _ _ _ _ _ H Ha) as [Hf|[Hd|[Hne _]]]; [|exists (S m)|done].
      + exists m. split; [done|by left].
      + split; [lia|by right].
    - exists m. split; [done|left]. destruct (R_helps _ _ _ H) as [Hf|[s' Hs]]; [done|by destruct (Ha s')]. }
  destruct Hnear as (m & Hm & [Hf|(d' & a' & Hd & HR')]); [by eauto|].
  destruct (IH d' Hd a' m HR') as (m' & ? & ?). exists m'. split; [lia|done].
Qed.
End fairness.
