(* ===== verification/Mem.v ===== *)
(** * src/src/fdmi_mem.c: the counting allocator

    [fdmi_malloc] and [fdmi_free] wrap [malloc] and [free] and keep the global
    [total_alloc_count].  Each kind of object of the library has its own typed
    heap below; the global counter is the sum (modulo 2^64) of the counters of
    the typed heaps. *)
From S2P Require Import Prelude.

(** A typed heap: the live cells and this heap's share of [total_alloc_count],
    an [unsigned long]. *)
Record heap (A : Type) : Type := Heap {
  cells : gmap Z A;
  total_alloc_count : Z;
}.
Arguments Heap {A} _ _.
Arguments cells {A} _.
Arguments total_alloc_count {A} _.

Definition empty_heap {A} : heap A := Heap ∅ 0.

Section ops.
Context `{Malloc} {A : Type}.

(** [fdmi_malloc]: the cell's initial contents [v] are those its caller stores
    before anything reads it. *)
Definition fdmi_malloc (h : heap A) (v : A) : outcome (Z * heap A) :=
  let addr := malloc (cells h) in
  if addr =? NULL then Fatal "Memory allocation returned"
  else Done (addr, Heap (<[addr := v]> (cells h)) (u64 (total_alloc_count h + 1))).

(** [free] of [NULL] does nothing, of an address that is not live is
    undefined; the counter is decremented in both defined cases. *)
Definition fdmi_free (h : heap A) (addr : Z) : outcome (heap A) :=
  if addr =? NULL then Done (Heap (cells h) (u64 (total_alloc_count h - 1)))
  else match cells h !! addr with
       | Some _ => Done (Heap (delete addr (cells h)) (u64 (total_alloc_count h - 1)))
       | None => Undef
       end.
End ops.

(** Reading and writing a live object. *)
Definition peek {A} (h : heap A) (a : Z) : outcome A := load (cells h) a.

Definition poke {A} (h : heap A) (a : Z) (v : A) : outcome (heap A) :=
  m <- store (cells h) a v ;; Done (Heap m (total_alloc_count h)).

(** The heap whose counter is exact: the well-formed heaps. *)
Definition heap_of {A} (m : gmap Z A) : heap A := Heap m (u64 (Z.of_nat (size m))).

Lemma heap_of_empty {A} : heap_of (∅ : gmap Z A) = empty_heap.
Proof. done. Qed.

Section lemmas.
Context `{Malloc} {A : Type}.
Implicit Types (m : gmap Z A) (v : A) (h : heap A).

Lemma fdmi_malloc_ok h v :
  malloc (cells h) ≠ NULL →
  fdmi_malloc h v = Done (malloc (cells h),
    Heap (<[malloc (cells h) := v]> (cells h)) (u64 (total_alloc_count h + 1))).
Proof. intros Hn. unfold fdmi_malloc. simpl. by rewrite (proj2 (Z.eqb_neq _ _)). Qed.

Lemma fdmi_malloc_heap_of m v :
  malloc m ≠ NULL →
  fdmi_malloc (heap_of m) v = Done (malloc m, heap_of (<[malloc m := v]> m)).
Proof.
  intros Hn. unfold fdmi_malloc, heap_of. simpl.
  rewrite (proj2 (Z.eqb_neq _ _)) by done.
  rewrite map_size_insert_None by auto using malloc_fresh.
  rewrite u64_add_l. do 4 f_equal. lia.
Qed.

Lemma fdmi_malloc_NULL h v :
  malloc (cells h) = NULL → fdmi_malloc h v = Fatal "Memory allocation returned".
Proof. intros Hn. unfold fdmi_malloc. by rewrite Hn. Qed.

Lemma fdmi_free_heap_of m a v :
  a ≠ NULL → m !! a = Some v → fdmi_free (heap_of m) a = Done (heap_of (delete a m)).
Proof.
  intros Hn Ha. unfold fdmi_free, heap_of. simpl.
  rewrite (proj2 (Z.eqb_neq _ _)) by done. rewrite Ha.
  pose proof (map_size_delete a m) as Hs. rewrite Ha in Hs.
  assert (size m ≠ 0%nat).
  { intros E%map_size_empty_inv. by subst. }
  rewrite u64_sub_l. do 3 f_equal. rewrite Hs. lia.
Qed.

(** Using an object after [free] is undefined. *)
Lemma peek_after_free h h' a :
  a ≠ NULL → fdmi_free h a = Done h' → peek h' a = Undef.
Proof.
  unfold fdmi_free. intros Hn. rewrite (proj2 (Z.eqb_neq _ _)) by done.
  destruct (cells h !! a); intros; simplify_eq.
  unfold peek, load. simpl. by rewrite lookup_delete_eq.
Qed.

Lemma poke_ok h a v :
  is_Some (cells h !! a) → poke h a v = Done (Heap (<[a := v]> (cells h)) (total_alloc_count h)).
Proof. intros [x Hx]. unfold poke, store. by rewrite Hx. Qed.

Lemma peek_heap_of m a v : m !! a = Some v → peek (heap_of m) a = Done v.
Proof. intros. by apply load_Done. Qed.

Lemma poke_heap_of m a v v' :
  m !! a = Some v' → poke (heap_of m) a v = Done (heap_of (<[a := v]> m)).
Proof.
  intros Ha. unfold poke, heap_of, store. simpl. rewrite Ha. simpl.
  by rewrite map_size_insert_Some by eauto.
Qed.
End lemmas.
