(* ===== verification/Queue.v ===== *)
(** * src/src/fdmi_queue.c: the intrusive FIFO queue

    A queue is a singly linked list of heap nodes with [head], [tail] and an
    iterator [ite] that loops over the queue share.  The nodes live in a typed
    heap, so that a dangling [ite] or a forgotten [free] is visible. *)
From S2P Require Import Prelude Mem.

Inductive fdmi_queue_iterator_state := FDMI_QUEUE_HEAD | FDMI_QUEUE_NEXT.

(** [pthread_mutex_t], of the default kind. *)
Inductive mutex := Unlocked | Locked | Destroyed.

#[export] Instance mutex_eq_dec : EqDecision mutex.
Proof. solve_decision. Defined.

Record fdmi_queue_data := Node {
  next : Z;
  data : Z;
}.

Record fdmi_queue := Queue {
  q_head : Z;
  q_tail : Z;
  q_ite : Z;
  q_mut : mutex;
  q_length : Z;
  q_nodes : heap fdmi_queue_data;
}.

Definition set_ite (q : fdmi_queue) (i : Z) : fdmi_queue :=
  Queue (q_head q) (q_tail q) i (q_mut q) (q_length q) (q_nodes q).
Definition set_mut (q : fdmi_queue) (m : mutex) : fdmi_queue :=
  Queue (q_head q) (q_tail q) (q_ite q) m (q_length q) (q_nodes q).

(** ** Operations *)

(** [addr] is what [malloc] returns for the queue structure; [garbage] is the
    content of its [ite] field, which the code leaves uninitialised. *)
Definition fdmi_queue_create (addr garbage : Z) : outcome fdmi_queue :=
  if addr =? NULL then Fatal "Memory allocation returned"
  else Done (Queue NULL NULL garbage Unlocked 0 empty_heap).

Definition fdmi_queue_length (q : fdmi_queue) : Z := q_length q.

(** Locking a held mutex of the default kind blocks for ever; using a
    destroyed one, or unlocking one that is not held, is undefined. *)
Definition fdmi_queue_lock (q : fdmi_queue) : outcome fdmi_queue :=
  match q_mut q with
  | Unlocked => Done (set_mut q Locked)
  | Locked => Diverge
  | Destroyed => Undef
  end.

Definition fdmi_queue_unlock (q : fdmi_queue) : outcome fdmi_queue :=
  match q_mut q with
  | Locked => Done (set_mut q Unlocked)
  | _ => Undef
  end.

Definition fdmi_queue_enq `{Malloc} (q : fdmi_queue) (d : Z) : outcome fdmi_queue :=
  let! (a, ns) := fdmi_malloc (q_nodes q) (Node NULL d) in
  if (q_head q =? NULL) && (q_tail q =? NULL) then
    Done (Queue a a (q_ite q) (q_mut q) (i32 (q_length q + 1)) ns)
  else
    t <- peek ns (q_tail q) ;;
    ns <- poke ns (q_tail q) (Node a (data t)) ;;
    Done (Queue (q_head q) a (q_ite q) (q_mut q) (i32 (q_length q + 1)) ns).

Definition fdmi_queue_lock_enq `{Malloc} (q : fdmi_queue) (d : Z) : outcome fdmi_queue :=
  q <- fdmi_queue_lock q ;;
  q <- fdmi_queue_enq q d ;;
  fdmi_queue_unlock q.

Definition fdmi_queue_deq (q : fdmi_queue) : outcome (Z * fdmi_queue) :=
  if q_head q =? NULL then Done (NULL, q)
  else
    n <- peek (q_nodes q) (q_head q) ;;
    ns <- fdmi_free (q_nodes q) (q_head q) ;;
    let tail := if next n =? NULL then NULL else q_tail q in
    Done (data n, Queue (next n) tail (q_ite q) (q_mut q) (i32 (q_length q - 1)) ns).

Definition fdmi_queue_lock_deq (q : fdmi_queue) : outcome (Z * fdmi_queue) :=
  q <- fdmi_queue_lock q ;;
  let! (d, q) := fdmi_queue_deq q in
  q <- fdmi_queue_unlock q ;;
  Done (d, q).

(** The nodes of a queue bound the number of rounds of every loop over it. *)
Definition queue_fuel (q : fdmi_queue) : nat := S (size (cells (q_nodes q))).

(** [while ((data = fdmi_queue_deq(q)) != NULL) { }]. *)
Fixpoint queue_drain (fuel : nat) (q : fdmi_queue) : outcome fdmi_queue :=
  match fuel with
  | O => Diverge
  | S fuel =>
      let! (d, q) := fdmi_queue_deq q in
      if d =? NULL then Done q else queue_drain fuel q
  end.

(** What is left when the queue structure itself is freed. *)
Definition fdmi_queue_destroy (q : fdmi_queue) : outcome fdmi_queue :=
  match q_mut q with
  | Unlocked => queue_drain (queue_fuel q) (set_mut q Destroyed)
  | _ => Undef
  end.

Definition fdmi_queue_iterate (q : fdmi_queue) (state : fdmi_queue_iterator_state)
    : outcome (Z * fdmi_queue) :=
  match state with
  | FDMI_QUEUE_HEAD =>
      if q_head q =? NULL then Done (NULL, q)
      else n <- peek (q_nodes q) (q_head q) ;; Done (data n, set_ite q (next n))
  | FDMI_QUEUE_NEXT =>
      if q_ite q =? NULL then Done (NULL, q)
      else n <- peek (q_nodes q) (q_ite q) ;; Done (data n, set_ite q (next n))
  end.

(** The loop every client writes,
      for (x = fdmi_queue_iterate(q, FDMI_QUEUE_HEAD); x != NULL;
           x = fdmi_queue_iterate(q, FDMI_QUEUE_NEXT)) { body }
    where the body updates its state [s], may change [q], and tells with
    [true] that it leaves the loop ([break] or [return]). *)
Section loop.
Context {S : Type} (body : Z → S → fdmi_queue → outcome (bool * S * fdmi_queue)).

Fixpoint queue_loop (fuel : nat) (x : Z) (s : S) (q : fdmi_queue)
    : outcome (S * fdmi_queue) :=
  if x =? NULL then Done (s, q) else
  match fuel with
  | O => Diverge
  | Datatypes.S fuel =>
      let! (stop, s, q) := body x s q in
      if stop : bool then Done (s, q)
      else let! (x, q) := fdmi_queue_iterate q FDMI_QUEUE_NEXT in
           queue_loop fuel x s q
  end.

Definition queue_for (s : S) (q : fdmi_queue) : outcome (S * fdmi_queue) :=
  let! (x, q') := fdmi_queue_iterate q FDMI_QUEUE_HEAD in
  queue_loop (queue_fuel q) x s q'.
End loop.

(** A search loop: the first element for which the test answers yes. *)
Definition queue_find (test : Z → outcome bool) (q : fdmi_queue) : outcome (Z * fdmi_queue) :=
  queue_for (λ x s q, b <- test x ;; Done (b, (if b : bool then x else s), q)) NULL q.

Definition fdmi_queue_lock_index (q : fdmi_queue) (d : Z) : outcome (Z * fdmi_queue) :=
  q <- fdmi_queue_lock q ;;
  let! (s, q) :=
    queue_for (λ tmp '(tmp_index, index) q,
      if tmp =? d then Done (true, (tmp_index, tmp_index), q)
      else Done (false, (i32 (tmp_index + 1), index), q)) (0, -1) q in
  q <- fdmi_queue_unlock q ;;
  Done (snd s, q).

(** The [while (cur_d != NULL)] loop of [fdmi_queue_remove]. *)
Fixpoint remove_loop (fuel : nat) (q : fdmi_queue) (d old_d cur_d : Z) : outcome fdmi_queue :=
  if cur_d =? NULL then Done q else
  match fuel with
  | O => Diverge
  | S fuel =>
      n <- peek (q_nodes q) cur_d ;;
      if data n =? d then
        o <- peek (q_nodes q) old_d ;;
        ns <- poke (q_nodes q) old_d (Node (next n) (data o)) ;;
        let tail := if q_tail q =? cur_d then old_d else q_tail q in
        let ite := if q_ite q =? cur_d then next n else q_ite q in
        ns <- fdmi_free ns cur_d ;;
        Done (Queue (q_head q) tail ite (q_mut q) (i32 (q_length q - 1)) ns)
      else remove_loop fuel q d cur_d (next n)
  end.

Definition fdmi_queue_remove (q : fdmi_queue) (d : Z) : outcome fdmi_queue :=
  if q_head q =? NULL then Done q
  else
    n <- peek (q_nodes q) (q_head q) ;;
    if data n =? d then
      let head := next n in
      let tail := if head =? NULL then NULL else q_tail q in
      let ite := if head =? NULL then NULL else q_ite q in
      ns <- fdmi_free (q_nodes q) (q_head q) ;;
      Done (Queue head tail ite (q_mut q) (i32 (q_length q - 1)) ns)
    else remove_loop (queue_fuel q) q d (q_head q) (next n).

Definition fdmi_queue_lock_remove (q : fdmi_queue) (d : Z) : outcome fdmi_queue :=
  q <- fdmi_queue_lock q ;;
  q <- fdmi_queue_remove q d ;;
  fdmi_queue_unlock q.

(** ** The memory image of a list of nodes

    [ns] lists the nodes in queue order, each with its address and its data. *)
Fixpoint nodes_of (ns : list (Z * Z)) : gmap Z fdmi_queue_data :=
  match ns with
  | [] => ∅
  | (a, d) :: ns' => <[a := Node (first_addr ns') d]> (nodes_of ns')
  end.

Definition queue_of (ns : list (Z * Z)) (ite : Z) (m : mutex) : fdmi_queue :=
  Queue (first_addr ns) (last_addr ns) ite m (i32 (Z.of_nat (length ns)))
        (heap_of (nodes_of ns)).

Definition wf_nodes (ns : list (Z * Z)) : Prop := NoDup ns.*1 ∧ NULL ∉ ns.*1.

(** The queue [q], whose mutex is in state [m], holds the data [l], oldest
    first; its heap holds the nodes of [l] and nothing else. *)
Definition queue_rep (m : mutex) (q : fdmi_queue) (l : list Z) : Prop :=
  ∃ ns ite, wf_nodes ns ∧ ns.*2 = l ∧ q = queue_of ns ite m.

(** What a loop that only reads the queue computes. *)
Fixpoint fold_until {S} (f : Z → S → bool * S) (l : list Z) (s : S) : S :=
  match l with
  | [] => s
  | x :: l' => let '(stop, s') := f x s in
               if stop then s' else fold_until f l' s'
  end.

(** A loop body that removes the current element when [p] holds for it, and
    keeps it otherwise; [inv] relates the elements visited so far with the
    loop's own state. *)
Definition removes_or_keeps {S} (body : Z → S → fdmi_queue → outcome (bool * S * fdmi_queue))
    (p : Z → bool) (inv : list Z → S → Prop) (l : list Z) : Prop :=
  ∀ pre x suf s q, l = pre ++ x :: suf → inv pre s →
    if p x
    then ∃ s', inv (pre ++ [x]) s' ∧
               body x s q = (q' <- fdmi_queue_remove q x ;; Done (false, s', q'))
    else inv (pre ++ [x]) s ∧ body x s q = Done (false, s, q).

(** ** Abstract specification: a FIFO list

    The calls a client can make on a queue, what they return on a list, and
    their run on the real queue. *)
Inductive queue_op := Enq (d : Z) | Deq | Remove (d : Z) | Index (d : Z).

Fixpoint index_from (i d : Z) (l : list Z) : Z :=
  match l with
  | [] => -1
  | x :: l' => if x =? d then i else index_from (i32 (i + 1)) d l'
  end.

Definition spec_op (o : queue_op) (l : list Z) : Z * list Z :=
  match o with
  | Enq d => (0, l ++ [d])
  | Deq => match l with [] => (NULL, []) | d :: l' => (d, l') end
  | Remove d => (0, remove_first d l)
  | Index d => (index_from 0 d l, l)
  end.

Definition impl_op `{Malloc} (o : queue_op) (q : fdmi_queue) : outcome (Z * fdmi_queue) :=
  match o with
  | Enq d => q <- fdmi_queue_lock_enq q d ;; Done (0, q)
  | Deq => fdmi_queue_lock_deq q
  | Remove d => q <- fdmi_queue_lock_remove q d ;; Done (0, q)
  | Index d => fdmi_queue_lock_index q d
  end.

Fixpoint spec_run (os : list queue_op) (l : list Z) : list Z * list Z :=
  match os with
  | [] => ([], l)
  | o :: os => let '(r, l) := spec_op o l in
               let '(rs, l) := spec_run os l in (r :: rs, l)
  end.

Fixpoint impl_run `{Malloc} (os : list queue_op) (q : fdmi_queue)
    : outcome (list Z * fdmi_queue) :=
  match os with
  | [] => Done ([], q)
  | o :: os => let! (r, q) := impl_op o q in
               let! (rs, q) := impl_run os q in
               Done (r :: rs, q)
  end.

Definition enq_nonnull (o : queue_op) : Prop :=
  match o with Enq d => d ≠ NULL | _ => True end.

(** ** The contract other components use *)
Class QueueContract `{Malloc} (rep : mutex → fdmi_queue → list Z → Prop) : Prop := {
  rep_create addr garbage :
    addr ≠ NULL → ends (fdmi_queue_create addr garbage) (λ q, rep Unlocked q []);
  rep_lock q l :
    rep Unlocked q l → ends (fdmi_queue_lock q) (λ q, rep Locked q l);
  rep_unlock q l :
    rep Locked q l → ends (fdmi_queue_unlock q) (λ q, rep Unlocked q l);
  rep_enq m q l d :
    rep m q l → malloc (cells (q_nodes q)) ≠ NULL →
    ends (fdmi_queue_enq q d) (λ q, rep m q (l ++ [d]));
  rep_deq_nil m q :
    rep m q [] → fdmi_queue_deq q = Done (NULL, q);
  rep_deq_cons m q d l :
    rep m q (d :: l) → ends (fdmi_queue_deq q) (λ r, r.1 = d ∧ rep m r.2 l);
  rep_remove m q l d :
    rep m q l → ends (fdmi_queue_remove q d) (λ q, rep m q (remove_first d l));
  rep_fuel m q l : rep m q l → queue_fuel q = Datatypes.S (length l);
  rep_destroy q l :
    rep Unlocked q l → NULL ∉ l → ends (fdmi_queue_destroy q) (λ q, rep Destroyed q []);
  rep_for {S} (body : Z → S → fdmi_queue → outcome (bool * S * fdmi_queue)) f m q l s :
    rep m q l → NULL ∉ l →
    (∀ x s q, x ∈ l → body x s q = Done (f x s, q)) →
    ends (queue_for body s q) (λ r, r.1 = fold_until f l s ∧ rep m r.2 l);
  rep_for_until {S} (body : Z → S → fdmi_queue → outcome (bool * S * fdmi_queue))
      (p : Z → bool) (Q : Z → S → fdmi_queue → Prop) m q l s :
    rep m q l → NULL ∉ l →
    (∀ x q, x ∈ l → p x = false → body x s q = Done (false, s, q)) →
    (∀ x q, x ∈ l → p x = true → rep m q l →
       ends (body x s q) (λ r, r.1.1 = true ∧ Q x r.1.2 r.2)) →
    ends (queue_for body s q) (λ r,
      if find_ptr p l =? NULL then r.1 = s ∧ rep m r.2 l else Q (find_ptr p l) r.1 r.2);
  rep_for_remove {S} (body : Z → S → fdmi_queue → outcome (bool * S * fdmi_queue))
      (p : Z → bool) (inv : list Z → S → Prop) m q l s :
    rep m q l → NULL ∉ l → NoDup l → inv [] s →
    removes_or_keeps body p inv l →
    ends (queue_for body s q)
      (λ r, inv l r.1 ∧ rep m r.2 (filter (λ x, p x = false) l));
}.

(** ** Lemmas on the memory image *)
Lemma nodes_of_lookup_None ns a : a ∉ ns.*1 → nodes_of ns !! a = None.
Proof.
  induction ns as [|[b d] ns IH]; simpl; intros Ha; [done|].
  apply not_elem_of_cons in Ha as [? Ha].
  rewrite lookup_insert_ne by done. auto.
Qed.

Lemma nodes_of_lookup pre a d suf :
  NoDup (pre ++ (a, d) :: suf).*1 →
  nodes_of (pre ++ (a, d) :: suf) !! a = Some (Node (first_addr suf) d).
Proof.
  induction pre as [|[b e] pre IH]; simpl.
  - intros _. by rewrite lookup_insert_eq.
  - intros [Hb Hn]%NoDup_cons. rewrite lookup_insert_ne; [auto|].
    intros ->. apply Hb. rewrite fmap_app. simpl. set_solver.
Qed.

Lemma nodes_of_size ns : NoDup ns.*1 → size (nodes_of ns) = length ns.
Proof.
  induction ns as [|[a d] ns IH]; simpl; [done|].
  intros [Ha Hn]%NoDup_cons.
  rewrite map_size_insert_None by (by apply nodes_of_lookup_None). by rewrite IH.
Qed.

Lemma first_addr_app (ns ms : list (Z * Z)) :
  ns ≠ [] → first_addr (ns ++ ms) = first_addr ns.
Proof. by destruct ns as [|[??]]. Qed.

Lemma first_addr_snoc (ns : list (Z * Z)) x y :
  first_addr ((ns ++ [x]) ++ [y]) = first_addr (ns ++ [x]).
Proof. by destruct ns as [|[??]]. Qed.

(** Linking a new node after the last one. *)
Lemma nodes_of_snoc ns t dt a d :
  NoDup ((ns ++ [(t, dt)]) ++ [(a, d)]).*1 →
  nodes_of ((ns ++ [(t, dt)]) ++ [(a, d)]) =
  <[t := Node a dt]> (<[a := Node NULL d]> (nodes_of (ns ++ [(t, dt)]))).
Proof.
  induction ns as [|[b e] ns IH]; simpl.
  - intros [Hta _]%NoDup_cons.
    assert (t ≠ a) by set_solver.
    rewrite (insert_insert_ne _ a t), insert_insert_eq by done. done.
  - intros [Hb Hn]%NoDup_cons. rewrite (IH Hn), first_addr_snoc.
    rewrite !fmap_app in Hb. simpl in Hb.
    rewrite (insert_insert_ne _ a b), (insert_insert_ne _ t b) by set_solver. done.
Qed.

(** Unlinking the node [a] that follows the node [o]. *)
Lemma nodes_of_unlink pre o od a d suf :
  NoDup (pre ++ (o, od) :: (a, d) :: suf).*1 →
  nodes_of (pre ++ (o, od) :: suf) =
  delete a (<[o := Node (first_addr suf) od]>
              (nodes_of (pre ++ (o, od) :: (a, d) :: suf))).
Proof.
  induction pre as [|[b e] pre IH]; simpl.
  - intros [Ho [Ha Hn]%NoDup_cons]%NoDup_cons.
    assert (o ≠ a) by set_solver.
    rewrite insert_insert_eq, delete_insert_ne by done.
    by rewrite delete_insert_id by (by apply nodes_of_lookup_None).
  - intros [Hb Hn]%NoDup_cons. rewrite fmap_app in Hb. simpl in Hb.
    rewrite (insert_insert_ne _ o b), delete_insert_ne by set_solver.
    rewrite (IH Hn). f_equal. by destruct pre as [|[??]].
Qed.

Lemma nodes_of_tail a d ns :
  NoDup ((a, d) :: ns).*1 → nodes_of ns = delete a (nodes_of ((a, d) :: ns)).
Proof.
  simpl. intros [Ha _]%NoDup_cons.
  by rewrite delete_insert_id by (by apply nodes_of_lookup_None).
Qed.

Lemma wf_nodes_cons a d ns :
  wf_nodes ((a, d) :: ns) ↔ a ≠ NULL ∧ a ∉ ns.*1 ∧ wf_nodes ns.
Proof.
  unfold wf_nodes. simpl. rewrite NoDup_cons, not_elem_of_cons. naive_solver.
Qed.

Lemma wf_nodes_app ns ms : wf_nodes (ns ++ ms) → wf_nodes ns ∧ wf_nodes ms.
Proof.
  unfold wf_nodes. rewrite fmap_app, NoDup_app, not_elem_of_app. naive_solver.
Qed.

Lemma wf_nodes_sublist ns ms : ns `sublist_of` ms → wf_nodes ms → wf_nodes ns.
Proof.
  intros Hs%(fmap_sublist fst) [Hn H0]. split.
  - by eapply sublist_NoDup.
  - intros ?. apply H0. by eapply elem_of_submseteq, sublist_submseteq.
Qed.

Lemma wf_nodes_snoc ns a d :
  wf_nodes ns → a ∉ ns.*1 → a ≠ NULL → wf_nodes (ns ++ [(a, d)]).
Proof.
  intros [Hn H0] Ha Hz. unfold wf_nodes. rewrite fmap_app. simpl. split.
  - apply NoDup_app. split_and!; [done|set_solver|apply NoDup_singleton].
  - set_solver.
Qed.

Lemma first_addr_NULL ns : wf_nodes ns → first_addr ns = NULL ↔ ns = [].
Proof.
  destruct ns as [|[a d] ns]; simpl; [done|].
  rewrite wf_nodes_cons. naive_solver.
Qed.

Lemma first_addr_eqb ns :
  wf_nodes ns → (first_addr ns =? NULL) = match ns with [] => true | _ => false end.
Proof.
  destruct ns as [|[a d] ns]; [done|]. rewrite wf_nodes_cons. simpl.
  intros (? & _). by apply Z.eqb_neq.
Qed.

#[export] Hint Resolve nodes_of_lookup_None : cmodel.

(** ** The operations on memory images *)
Section ops.
Context `{Malloc}.
Implicit Types (ns pre suf : list (Z * Z)) (m : mutex).

Lemma enq_queue_of ns ite m d :
  wf_nodes ns → malloc (nodes_of ns) ≠ NULL →
  fdmi_queue_enq (queue_of ns ite m) d =
    Done (queue_of (ns ++ [(malloc (nodes_of ns), d)]) ite m)
  ∧ wf_nodes (ns ++ [(malloc (nodes_of ns), d)]).
Proof.
  intros Hwf Hm. pose proof (malloc_fresh _ Hm) as Hf.
  remember (malloc (nodes_of ns)) as a eqn:Ea.
  assert (Ha : a ∉ ns.*1).
  { intros ([b e] & -> & (pre & suf & ->)%list_elem_of_split)%list_elem_of_fmap.
    rewrite nodes_of_lookup in Hf by apply Hwf. done. }
  pose proof (wf_nodes_snoc ns a d Hwf Ha Hm) as Hwf'. split; [|done].
  unfold fdmi_queue_enq, queue_of at 1. simpl.
  rewrite fdmi_malloc_heap_of by (by rewrite <- Ea). rewrite <- Ea. simpl.
  rewrite i32_add_l, first_addr_eqb by done.
  destruct ns as [|x ns'] using rev_ind.
  { unfold queue_of, last_addr. simpl. done. }
  clear IHns'. destruct x as [t dt].
  replace (match ns' ++ [(t, dt)] with [] => true | _ => false end) with false
    by (by destruct ns').
  rewrite last_addr_app. simpl.
  assert (Ht : t ≠ a) by (rewrite fmap_app in Ha; set_solver).
  assert (Hlt : <[a:=Node NULL d]> (nodes_of (ns' ++ [(t, dt)])) !! t = Some (Node NULL dt)).
  { rewrite lookup_insert_ne by done. apply nodes_of_lookup, Hwf. }
  rewrite (peek_heap_of _ _ _ Hlt). simpl.
  rewrite (poke_heap_of _ _ _ _ Hlt). simpl.
  unfold queue_of. rewrite nodes_of_snoc by apply Hwf'.
  rewrite last_addr_app, first_addr_snoc.
  do 3 f_equal. rewrite !length_app. simpl. lia.
Qed.

Lemma deq_queue_of_nil ite m :
  fdmi_queue_deq (queue_of [] ite m) = Done (NULL, queue_of [] ite m).
Proof. done. Qed.

Lemma deq_queue_of_cons a d ns ite m :
  wf_nodes ((a, d) :: ns) →
  fdmi_queue_deq (queue_of ((a, d) :: ns) ite m) = Done (d, queue_of ns ite m).
Proof.
  intros Hwf. pose proof Hwf as (Ha & _ & Hwf')%wf_nodes_cons.
  unfold fdmi_queue_deq, queue_of at 1. simpl.
  rewrite (proj2 (Z.eqb_neq _ _)) by done.
  assert (Hl : nodes_of ((a, d) :: ns) !! a = Some (Node (first_addr ns) d))
    by apply lookup_insert_eq.
  pose proof (nodes_of_tail a d ns (proj1 Hwf)) as Ht.
  simpl in Hl, Ht |- *. rewrite (peek_heap_of _ _ _ Hl). simpl.
  rewrite (fdmi_free_heap_of _ _ _ Ha Hl). simpl. rewrite <- Ht.
  rewrite first_addr_eqb by done. unfold queue_of.
  replace (i32 _) with (i32 (Z.of_nat (length ns))).
  - by destruct ns.
  - unfold Z.sub. rewrite i32_add_l. f_equal. simpl. lia.
Qed.

Lemma iterate_head_queue_of ns ite m :
  wf_nodes ns →
  fdmi_queue_iterate (queue_of ns ite m) FDMI_QUEUE_HEAD =
    match ns with
    | [] => Done (NULL, queue_of ns ite m)
    | (_, d) :: suf => Done (d, queue_of ns (first_addr suf) m)
    end.
Proof.
  intros Hwf. unfold fdmi_queue_iterate. simpl. rewrite first_addr_eqb by done.
  destruct ns as [|[a d] suf]; [done|].
  assert (Hl : nodes_of ((a, d) :: suf) !! a = Some (Node (first_addr suf) d))
    by apply lookup_insert_eq.
  simpl in Hl |- *. by rewrite (peek_heap_of _ _ _ Hl).
Qed.

Lemma iterate_next_queue_of pre suf m :
  wf_nodes (pre ++ suf) →
  fdmi_queue_iterate (queue_of (pre ++ suf) (first_addr suf) m) FDMI_QUEUE_NEXT =
    match suf with
    | [] => Done (NULL, queue_of (pre ++ suf) NULL m)
    | (_, d) :: suf' => Done (d, queue_of (pre ++ suf) (first_addr suf') m)
    end.
Proof.
  intros Hwf. unfold fdmi_queue_iterate. simpl.
  rewrite first_addr_eqb by (by apply (wf_nodes_app pre)).
  destruct suf as [|[a d] suf]; [done|]. simpl.
  by rewrite (peek_heap_of _ _ _ (nodes_of_lookup pre a d suf (proj1 Hwf))).
Qed.

(** The node that [remove] unlinks: the first one that holds [d]. *)
Lemma remove_loop_skip pre o od suf ite m d fuel :
  wf_nodes (pre ++ (o, od) :: suf) → d ∉ suf.*2 → (length suf ≤ fuel)%nat →
  remove_loop fuel (queue_of (pre ++ (o, od) :: suf) ite m) d o (first_addr suf) =
    Done (queue_of (pre ++ (o, od) :: suf) ite m).
Proof.
  revert pre o od fuel. induction suf as [|[a e] suf IH]; intros pre o od fuel Hwf Hd Hf.
  { by destruct fuel. }
  destruct fuel as [|fuel]; simpl in *; [lia|].
  rewrite (cons_middle (o, od)), (assoc_L (++)) in Hwf |- *.
  pose proof (wf_nodes_app _ _ Hwf) as [_ (Ha & _)%wf_nodes_cons].
  rewrite (proj2 (Z.eqb_neq _ _)) by done.
  rewrite (peek_heap_of _ _ _ (nodes_of_lookup _ a e suf (proj1 Hwf))). simpl.
  apply not_elem_of_cons in Hd as [Hde Hd].
  rewrite (proj2 (Z.eqb_neq _ _)) by done.
  apply IH; [done|done|lia].
Qed.

Lemma remove_loop_hit pre o od mid a d suf ite m fuel :
  wf_nodes (pre ++ (o, od) :: mid ++ (a, d) :: suf) → d ∉ mid.*2 →
  (length mid < fuel)%nat →
  remove_loop fuel (queue_of (pre ++ (o, od) :: mid ++ (a, d) :: suf) ite m) d o
    (first_addr (mid ++ (a, d) :: suf)) =
  Done (queue_of (pre ++ (o, od) :: mid ++ suf)
          (if ite =? a then first_addr suf else ite) m).
Proof.
  revert pre o od fuel.
  induction mid as [|[b e] mid IH]; intros pre o od fuel Hwf Hd Hf;
    (destruct fuel as [|fuel]; [simpl in *; lia|]); simpl in *.
  - pose proof (wf_nodes_app _ _ Hwf) as [_ (Ho & _ & Hwf2)%wf_nodes_cons].
    pose proof Hwf2 as (Ha & _)%wf_nodes_cons.
    rewrite (proj2 (Z.eqb_neq _ _)) by done.
    pose proof (nodes_of_lookup (pre ++ [(o, od)]) a d suf) as Hla.
    rewrite <- (assoc_L (++)) in Hla. specialize (Hla (proj1 Hwf)). simpl in Hla.
    rewrite (peek_heap_of _ _ _ Hla). simpl. rewrite Z.eqb_refl.
    pose proof (nodes_of_lookup pre o od _ (proj1 Hwf)) as Hlo.
    rewrite (peek_heap_of _ _ _ Hlo). simpl.
    rewrite (poke_heap_of _ _ _ _ Hlo). simpl.
    assert (Hne : o ≠ a).
    { destruct (wf_nodes_app _ _ Hwf) as [_ [Hn _]]. simpl in Hn.
      apply NoDup_cons in Hn as [Hn _]. set_solver. }
    erewrite fdmi_free_heap_of by (done || rewrite lookup_insert_ne by done; exact Hla).
    simpl. rewrite <- (nodes_of_unlink pre o od a d suf) by apply Hwf.
    unfold queue_of. do 2 f_equal.
    + by destruct pre as [|[??]].
    + rewrite (last_addr_app_ne pre), (last_addr_app_ne pre ((o, od) :: suf)) by done.
      rewrite (last_addr_cons _ (o, od)) by done.
      destruct suf as [|x suf]; [by simpl; rewrite Z.eqb_refl|].
      rewrite !last_addr_cons by done.
      rewrite (proj2 (Z.eqb_neq _ _)); [done|]. intros E.
      apply wf_nodes_cons in Hwf2 as (_ & Hn & _). apply Hn. rewrite <- E.
      by apply last_addr_elem_of.
    + unfold Z.sub. rewrite i32_add_l. f_equal. rewrite !length_app. simpl. lia.
  - rewrite (cons_middle (o, od)), (assoc_L (++)) in Hwf |- *.
    rewrite (cons_middle (o, od) pre (_ :: mid ++ suf)), (assoc_L (++)).
    pose proof (wf_nodes_app _ _ Hwf) as [_ (Hb & _)%wf_nodes_cons].
    rewrite (proj2 (Z.eqb_neq _ _)) by done.
    rewrite (peek_heap_of _ _ _ (nodes_of_lookup _ b e _ (proj1 Hwf))). simpl.
    apply not_elem_of_cons in Hd as [Hde Hd].
    rewrite (proj2 (Z.eqb_neq _ _)) by done.
    apply IH; [done|done|lia].
Qed.

#[local] Arguments remove_loop : simpl never.

Lemma queue_fuel_queue_of ns ite m :
  wf_nodes ns → queue_fuel (queue_of ns ite m) = Datatypes.S (length ns).
Proof. intros [Hn _]. unfold queue_fuel. simpl. by rewrite nodes_of_size. Qed.

Lemma remove_queue_of_absent ns ite m d :
  wf_nodes ns → d ∉ ns.*2 →
  fdmi_queue_remove (queue_of ns ite m) d = Done (queue_of ns ite m).
Proof.
  intros Hwf Hd. unfold fdmi_queue_remove. rewrite queue_fuel_queue_of by done.
  simpl. rewrite first_addr_eqb by done. destruct ns as [|[a e] ns]; [done|].
  assert (Hl : nodes_of ((a, e) :: ns) !! a = Some (Node (first_addr ns) e))
    by apply lookup_insert_eq.
  simpl in Hl |- *. rewrite (peek_heap_of _ _ _ Hl). simpl.
  simpl in Hd. apply not_elem_of_cons in Hd as [Hde Hd].
  rewrite (proj2 (Z.eqb_neq _ _)) by done.
  apply (remove_loop_skip [] a e ns); simpl; [done|done|lia].
Qed.

(** Where the iterator points after the removal of the node [a] between [pre]
    and [suf]. *)
Definition ite_after_remove (pre suf : list (Z * Z)) (a ite : Z) : Z :=
  match pre, suf with
  | [], [] => NULL
  | [], _ => ite
  | _, _ => if ite =? a then first_addr suf else ite
  end.

Lemma remove_queue_of_present pre a d suf ite m :
  wf_nodes (pre ++ (a, d) :: suf) → d ∉ pre.*2 →
  fdmi_queue_remove (queue_of (pre ++ (a, d) :: suf) ite m) d =
    Done (queue_of (pre ++ suf) (ite_after_remove pre suf a ite) m).
Proof.
  intros Hwf Hd. unfold fdmi_queue_remove. rewrite queue_fuel_queue_of by done.
  change (q_head (queue_of (pre ++ (a, d) :: suf) ite m))
    with (first_addr (pre ++ (a, d) :: suf)).
  rewrite first_addr_eqb by done.
  destruct pre as [|[o od] pre]; simpl in *.
  - pose proof Hwf as (Ha & _ & Hwf')%wf_nodes_cons.
    assert (Hl : nodes_of ((a, d) :: suf) !! a = Some (Node (first_addr suf) d))
      by apply lookup_insert_eq.
    simpl in Hl. rewrite (peek_heap_of _ _ _ Hl). simpl. rewrite Z.eqb_refl.
    rewrite (fdmi_free_heap_of _ _ _ Ha Hl). simpl.
    pose proof (nodes_of_tail a d suf (proj1 Hwf)) as Ht. simpl in Ht. rewrite <- Ht.
    rewrite first_addr_eqb by done. unfold queue_of.
    replace (i32 _) with (i32 (Z.of_nat (length suf))).
    + by destruct suf as [|[??]].
    + unfold Z.sub. rewrite i32_add_l. f_equal. lia.
  - assert (Hl : nodes_of ((o, od) :: pre ++ (a, d) :: suf) !! o =
      Some (Node (first_addr (pre ++ (a, d) :: suf)) od)) by apply lookup_insert_eq.
    simpl in Hl. rewrite (peek_heap_of _ _ _ Hl). simpl.
    apply not_elem_of_cons in Hd as [Hde Hd].
    rewrite (proj2 (Z.eqb_neq _ _)) by done.
    apply (remove_loop_hit [] o od pre a d suf); [done|done|].
    rewrite length_app. simpl. lia.
Qed.
End ops.

(** ** Loops over the queue *)
#[local] Arguments remove_loop : simpl never.

Section loops.
Context `{Malloc} {S : Type}.
Context (body : Z → S → fdmi_queue → outcome (bool * S * fdmi_queue)).

Lemma queue_loop_read f pre a x suf m s fuel :
  wf_nodes (pre ++ (a, x) :: suf) → NULL ∉ x :: suf.*2 → (length suf < fuel)%nat →
  (∀ y s q, y ∈ x :: suf.*2 → body y s q = Done (f y s, q)) →
  ∃ ite, queue_loop body fuel x s (queue_of (pre ++ (a, x) :: suf) (first_addr suf) m)
    = Done (fold_until f (x :: suf.*2) s, queue_of (pre ++ (a, x) :: suf) ite m).
Proof.
  revert pre a x s fuel.
  induction suf as [|[b y] suf IH]; intros pre a x s fuel Hwf H0 Hf Hb;
    (destruct fuel as [|fuel]; [lia|]); pose proof H0 as [Hx H0']%not_elem_of_cons;
    simpl in Hf, H0'; cbn [queue_loop fold_until fmap list_fmap];
    rewrite (proj2 (Z.eqb_neq _ _)) by done; rewrite Hb by (apply list_elem_of_here); cbn [obind];
    destruct (f x s) as [stop s']; (destruct stop; [by eexists|]).
  - rewrite (cons_middle (a, x)), (assoc_L (++)) in Hwf |- *.
    rewrite (iterate_next_queue_of _ [] m Hwf). cbn [obind].
    destruct fuel; simpl; eauto.
  - rewrite (cons_middle (a, x)), (assoc_L (++)) in Hwf |- *.
    rewrite (iterate_next_queue_of _ _ m Hwf). cbn [obind].
    apply IH; [done|done|lia|]. intros. apply Hb. by right.
Qed.

(** A loop whose body leaves at the first element that passes [p]. *)
Lemma queue_loop_until p (Q : Z → S → fdmi_queue → Prop) pre a x suf m s fuel l :
  l = pre.*2 ++ x :: suf.*2 → NULL ∉ l →
  wf_nodes (pre ++ (a, x) :: suf) → (length suf < fuel)%nat →
  (∀ y q, y ∈ l → p y = false → body y s q = Done (false, s, q)) →
  (∀ y q, y ∈ l → p y = true → queue_rep m q l →
     ends (body y s q) (λ r, r.1.1 = true ∧ Q y r.1.2 r.2)) →
  ends (queue_loop body fuel x s (queue_of (pre ++ (a, x) :: suf) (first_addr suf) m)) (λ r,
    if find_ptr p (x :: suf.*2) =? NULL then r.1 = s ∧ queue_rep m r.2 l
    else Q (find_ptr p (x :: suf.*2)) r.1 r.2).
Proof.
  intros Hl H0 Hwf Hf Hno Hyes. revert pre a x fuel Hl Hwf Hf.
  induction suf as [|[b y] suf IH]; intros pre a x fuel Hl Hwf Hf;
    (destruct fuel as [|fuel]; [lia|]); simpl in Hf;
    (assert (Hx : x ≠ NULL) by (intros ->; apply H0; rewrite Hl; set_solver));
    (assert (Hin : x ∈ l) by (rewrite Hl; set_solver));
    cbn [queue_loop find_ptr fmap list_fmap]; rewrite (proj2 (Z.eqb_neq _ _)) by done;
    destruct (p x) eqn:Ep.
  1, 3: rewrite (proj2 (Z.eqb_neq _ _)) by done; apply ends_bind;
    (eapply ends_mono; [apply Hyes; [done|done|]|]);
    [eexists (pre ++ (a, x) :: _), _; split_and!; [exact Hwf|by rewrite Hl, fmap_app|done]|
     intros [[stop s'] q'] [Hs HQ]; cbn in *; by subst].
  - rewrite Hno by done. cbn [obind].
    rewrite (cons_middle (a, x)), (assoc_L (++)) in Hwf |- *.
    rewrite (iterate_next_queue_of _ [] m Hwf). cbn [obind].
    destruct fuel; simpl; (split; [done|]); rewrite app_nil_r in *;
      exists (pre ++ [(a, x)]), NULL; by rewrite fmap_app.
  - rewrite Hno by done. cbn [obind].
    rewrite (cons_middle (a, x)), (assoc_L (++)) in Hwf |- *.
    rewrite (iterate_next_queue_of _ _ m Hwf). cbn [obind].
    apply IH; [|done|lia]. rewrite Hl, fmap_app. simpl. by rewrite <- (assoc_L (++)).
Qed.

Lemma queue_body_step p inv l kept a x suf dn m s :
  l = dn ++ x :: suf.*2 → NoDup l → kept.*2 = filter (λ y, p y = false) dn →
  wf_nodes (kept ++ (a, x) :: suf) → inv dn s → removes_or_keeps body p inv l →
  ∃ s' kept', inv (dn ++ [x]) s' ∧ kept'.*2 = filter (λ y, p y = false) (dn ++ [x]) ∧
    wf_nodes (kept' ++ suf) ∧
    body x s (queue_of (kept ++ (a, x) :: suf) (first_addr suf) m) =
      Done (false, s', queue_of (kept' ++ suf) (first_addr suf) m).
Proof.
  intros Hl Hnd Hk Hwf Hi Hb.
  specialize (Hb dn x _ s (queue_of (kept ++ (a, x) :: suf) (first_addr suf) m) Hl Hi).
  rewrite filter_app, filter_cons, filter_nil.
  destruct (p x) eqn:Ep; case_decide; try done.
  - destruct Hb as (s' & Hi' & ->). exists s', kept. rewrite app_nil_r.
    rewrite remove_queue_of_present; [|done|].
    + split_and!; [done..| |].
      * eapply wf_nodes_sublist; [|exact Hwf].
        apply sublist_app; [done|by apply sublist_cons].
      * simpl. do 3 f_equal. destruct kept, suf; simpl; try done; by case_match.
    + rewrite Hk. intros [_ Hin]%list_elem_of_filter. subst l.
      apply NoDup_app in Hnd as (_ & Hnd & _). apply (Hnd x Hin). by left.
  - destruct Hb as (Hi' & ->). exists s, (kept ++ [(a, x)]).
    rewrite fmap_app, Hk, <- (assoc_L (++)). done.
Qed.

Lemma queue_loop_remove p inv kept a x suf dn m s fuel l :
  l = dn ++ x :: suf.*2 → NULL ∉ l → NoDup l → kept.*2 = filter (λ y, p y = false) dn →
  wf_nodes (kept ++ (a, x) :: suf) → (length suf < fuel)%nat →
  inv dn s → removes_or_keeps body p inv l →
  ends (queue_loop body fuel x s (queue_of (kept ++ (a, x) :: suf) (first_addr suf) m))
    (λ r, inv l r.1 ∧ queue_rep m r.2 (filter (λ y, p y = false) l)).
Proof.
  intros Hl H0 Hnd Hk Hwf Hf Hi Hb. revert kept a x dn s fuel Hl Hk Hwf Hf Hi.
  induction suf as [|[b y] suf IH]; intros kept a x dn s fuel Hl Hk Hwf Hf Hi;
    (destruct fuel as [|fuel]; [lia|]); simpl in Hf;
    (assert (Hx : x ≠ NULL) by (intros ->; apply H0; rewrite Hl; set_solver));
    cbn [queue_loop]; rewrite (proj2 (Z.eqb_neq _ _)) by done.
  - destruct (queue_body_step p inv l kept a x [] dn m s)
      as (s' & kept' & Hi' & Hk' & Hwf' & ->); [done..|].
    cbn [obind]. rewrite (iterate_next_queue_of kept' [] m Hwf'). cbn [obind].
    replace (queue_loop _ _ _ _ _) with (Done (s', queue_of (kept' ++ []) NULL m))
      by (by destruct fuel).
    cbn [ends fst snd]. rewrite Hl. simpl. split; [done|].
    exists (kept' ++ []), NULL. rewrite app_nil_r. rewrite app_nil_r in Hwf'. done.
  - destruct (queue_body_step p inv l kept a x ((b, y) :: suf) dn m s)
      as (s' & kept' & Hi' & Hk' & Hwf' & ->); [done..|].
    cbn [obind]. rewrite (iterate_next_queue_of kept' _ m Hwf'). cbn [obind].
    apply (IH kept' b y (dn ++ [x])); try done; [|lia].
    rewrite Hl. by rewrite <- (assoc_L (++)).
Qed.
End loops.

(** ** Destruction *)

(** What [fdmi_queue_destroy] leaves: its loop stops at the first [NULL]. *)
Fixpoint after_null (l : list Z) : list Z :=
  match l with
  | [] => []
  | x :: l' => if x =? NULL then l' else after_null l'
  end.

Lemma queue_rep_fuel m q l : queue_rep m q l → queue_fuel q = Datatypes.S (length l).
Proof.
  intros (ns & ite & Hwf & <- & ->). rewrite queue_fuel_queue_of by done.
  by rewrite length_fmap.
Qed.

Lemma queue_rep_deq_nil m q : queue_rep m q [] → fdmi_queue_deq q = Done (NULL, q).
Proof. intros (ns & ite & _ & Hl & ->). by apply fmap_nil_inv in Hl as ->. Qed.

Lemma queue_rep_deq_cons m q d l :
  queue_rep m q (d :: l) → ends (fdmi_queue_deq q) (λ r, r.1 = d ∧ queue_rep m r.2 l).
Proof.
  intros (ns & ite & Hwf & Hl & ->).
  destruct ns as [|[a e] ns]; simplify_eq/=.
  rewrite deq_queue_of_cons by done. simpl. split; [done|].
  exists ns, ite. split_and!; [|done..]. by apply wf_nodes_cons in Hwf as (_ & _ & ?).
Qed.

Lemma queue_rep_drain m q l fuel :
  queue_rep m q l → (length l < fuel)%nat →
  ends (queue_drain fuel q) (λ q', queue_rep m q' (after_null l)).
Proof.
  revert q fuel. induction l as [|x l IH]; intros q fuel Hq Hf;
    (destruct fuel as [|fuel]; [simpl in Hf; lia|]); cbn [queue_drain].
  - rewrite (queue_rep_deq_nil m) by done. done.
  - c_step queue_rep_deq_cons as [d q1] [-> H1]. simpl.
    destruct (x =? NULL); [done|]. apply IH; [done|simpl in Hf; lia].
Qed.

Lemma queue_rep_set_mut m m' q l : queue_rep m q l → queue_rep m' (set_mut q m') l.
Proof. intros (ns & ite & ? & ? & ->). by exists ns, ite. Qed.

(** The nodes of a queue are those of its list: nothing leaks. *)
Lemma queue_rep_size m q l : queue_rep m q l → size (cells (q_nodes q)) = length l.
Proof. intros H%queue_rep_fuel. unfold queue_fuel in H. lia. Qed.

Lemma queue_rep_destroy q l :
  queue_rep Unlocked q l →
  ends (fdmi_queue_destroy q) (λ q', queue_rep Destroyed q' (after_null l)).
Proof.
  intros Hq. unfold fdmi_queue_destroy.
  replace (q_mut q) with Unlocked by (by destruct Hq as (? & ? & _ & _ & ->)).
  apply queue_rep_drain; [by eapply queue_rep_set_mut|].
  rewrite (queue_rep_fuel Unlocked q l Hq). lia.
Qed.

Lemma after_null_nonnull l : NULL ∉ l → after_null l = [].
Proof.
  induction l as [|x l IH]; [done|]. intros [? ?]%not_elem_of_cons. simpl.
  rewrite (proj2 (Z.eqb_neq _ _)) by done. auto.
Qed.

(** ** The queue keeps its contract *)
Lemma queue_rep_remove `{Malloc} m q l d :
  queue_rep m q l → ends (fdmi_queue_remove q d) (λ q, queue_rep m q (remove_first d l)).
Proof.
  intros (ns & ite & Hwf & <- & ->).
  destruct (decide (d ∈ ns.*2)) as [Hd|Hd].
  - assert (∃ pre a suf, ns = pre ++ (a, d) :: suf ∧ d ∉ pre.*2) as (pre & a & suf & -> & Hp).
    { clear Hwf. induction ns as [|[a e] ns IH]; [by apply not_elem_of_nil in Hd|].
      destruct (decide (d = e)) as [->|Hne].
      - exists [], a, ns. split; [done|]. apply not_elem_of_nil.
      - simpl in Hd. apply elem_of_cons in Hd as [?|Hd]; [done|].
        destruct (IH Hd) as (pre & b & suf & -> & Hp).
        exists ((a, e) :: pre), b, suf. split; [done|]. by apply not_elem_of_cons. }
    rewrite remove_queue_of_present by done. simpl.
    eexists _, _. split_and!; [|..|done].
    + eapply wf_nodes_sublist; [|done]. apply sublist_app; [done|by apply sublist_cons].
    + rewrite !fmap_app. simpl. by rewrite remove_first_app.
  - rewrite remove_queue_of_absent by done. simpl.
    rewrite remove_first_not_in by done. by eexists _, _.
Qed.

#[export] Instance queue_contract `{Malloc} : QueueContract queue_rep.
Proof.
  split.
  - intros addr garbage Ha. unfold fdmi_queue_create.
    rewrite (proj2 (Z.eqb_neq _ _)) by done. simpl.
    exists [], garbage. split_and!; [|done..]. split; [constructor|apply not_elem_of_nil].
  - intros q l (ns & ite & ? & ? & ->). simpl. by exists ns, ite.
  - intros q l (ns & ite & ? & ? & ->). simpl. by exists ns, ite.
  - intros m q l d (ns & ite & Hwf & <- & ->) Hm.
    destruct (enq_queue_of ns ite m d Hwf Hm) as [-> Hwf']. simpl.
    eexists _, _. split_and!; [done| |done]. by rewrite fmap_app.
  - apply queue_rep_deq_nil.
  - apply queue_rep_deq_cons.
  - intros m q l d. apply queue_rep_remove.
  - apply queue_rep_fuel.
  - intros q l Hq H0. pose proof (queue_rep_destroy q l Hq) as Hd.
    by rewrite after_null_nonnull in Hd.
  - intros S body f m q l s (ns & ite & Hwf & <- & ->) H0 Hb. unfold queue_for.
    rewrite iterate_head_queue_of, queue_fuel_queue_of by done.
    destruct ns as [|[a x] suf].
    + simpl. split; [done|]. by exists [], ite.
    + cbn [obind]. destruct (queue_loop_read body f [] a x suf m s (Datatypes.S (length ((a, x) :: suf))))
        as [ite' E]; [done..|simpl; lia|done|].
      simpl app in E. rewrite E. simpl ends. split; [done|]. by eexists _, ite'.
  - intros S body p Q m q l s (ns & ite & Hwf & <- & ->) H0 Hno Hyes. unfold queue_for.
    rewrite iterate_head_queue_of, queue_fuel_queue_of by done.
    destruct ns as [|[a x] suf].
    + simpl. split; [done|]. by exists [], ite.
    + cbn [obind]. apply (queue_loop_until body p Q [] a x suf m s _ _); try done.
      simpl. lia.
  - intros S body p inv m q l s (ns & ite & Hwf & <- & ->) H0 Hnd Hi Hb. unfold queue_for.
    rewrite iterate_head_queue_of, queue_fuel_queue_of by done.
    destruct ns as [|[a x] suf].
    + simpl. split; [done|]. by exists [], ite.
    + cbn [obind]. apply (queue_loop_remove body p inv [] a x suf [] m s _ _); try done.
      simpl. lia.
Qed.

(** ** Derived laws, for every client of the contract *)
Section clients.
Context `{Malloc} {rep : mutex → fdmi_queue → list Z → Prop} `{!QueueContract rep}.

Lemma rep_lock_enq q l d :
  rep Unlocked q l → (∀ m : gmap Z fdmi_queue_data, malloc m ≠ NULL) →
  ends (fdmi_queue_lock_enq q d) (λ q, rep Unlocked q (l ++ [d])).
Proof.
  intros Hq Hm. c_step rep_lock as q1 H1. c_step rep_enq as q2 H2.
  by apply rep_unlock.
Qed.

Lemma rep_lock_deq q l :
  rep Unlocked q l →
  ends (fdmi_queue_lock_deq q) (λ r, r.1 = (spec_op Deq l).1 ∧ rep Unlocked r.2 (spec_op Deq l).2).
Proof.
  intros Hq. c_step rep_lock as q1 H1. apply ends_bind. destruct l as [|d l].
  - rewrite (rep_deq_nil Locked) by done. simpl. by c_step rep_unlock as q2 H2.
  - c_last rep_deq_cons as [d' q2] [-> H2]. by c_step rep_unlock as q3 H3.
Qed.

Lemma rep_lock_remove q l d :
  rep Unlocked q l →
  ends (fdmi_queue_lock_remove q d) (λ q, rep Unlocked q (remove_first d l)).
Proof.
  intros Hq. c_step rep_lock as q1 H1. c_step rep_remove as q2 H2.
  by apply rep_unlock.
Qed.

Lemma fold_until_find (p : Z → bool) l :
  fold_until (λ x s, (p x, if p x then x else s)) l NULL = find_ptr p l.
Proof. induction l as [|x l IH]; simpl; [done|]. by destruct (p x). Qed.

(** A search loop finds the first element that passes its test. *)
Lemma rep_find test p m q l :
  rep m q l → NULL ∉ l → (∀ x, x ∈ l → test x = Done (p x)) →
  ends (queue_find test q) (λ r, r.1 = find_ptr p l ∧ rep m r.2 l).
Proof.
  intros Hq H0 Ht. rewrite <- fold_until_find.
  apply (rep_for _ (λ x s, (p x, if p x then x else s))); [done..|].
  intros x s q' Hx. by rewrite (Ht x Hx).
Qed.

Lemma fold_until_index d l i :
  (fold_until (λ tmp '(tmp_index, index),
     if tmp =? d then (true, (tmp_index, tmp_index))
     else (false, (i32 (tmp_index + 1), index))) l (i, -1)).2 = index_from i d l.
Proof.
  revert i. induction l as [|x l IH]; intros i; simpl; [done|].
  destruct (x =? d); simpl; auto.
Qed.

Lemma rep_lock_index q l d :
  rep Unlocked q l → NULL ∉ l →
  ends (fdmi_queue_lock_index q d) (λ r, r.1 = index_from 0 d l ∧ rep Unlocked r.2 l).
Proof.
  intros Hq H0. c_step rep_lock as q1 H1. apply ends_bind. eapply ends_mono.
  { eapply (rep_for _ (λ tmp '(tmp_index, index),
      if tmp =? d then (true, (tmp_index, tmp_index))
      else (false, (i32 (tmp_index + 1), index)))); [done..|].
    intros x [ti ix] q' _. by destruct (x =? d). }
  intros [s q2] [Hs H2]. simpl in *. subst s. rewrite fold_until_index.
  by c_step rep_unlock as q3 H3.
Qed.

Lemma rep_impl_op o q l :
  rep Unlocked q l → NULL ∉ l → (∀ m : gmap Z fdmi_queue_data, malloc m ≠ NULL) →
  ends (impl_op o q) (λ r, r.1 = (spec_op o l).1 ∧ rep Unlocked r.2 (spec_op o l).2).
Proof.
  intros Hq H0 Hm. destruct o; simpl.
  - by c_step rep_lock_enq as q1 H1.
  - by apply rep_lock_deq.
  - by c_step rep_lock_remove as q1 H1.
  - by apply rep_lock_index.
Qed.

Lemma spec_op_nonnull o l : NULL ∉ l → enq_nonnull o → NULL ∉ (spec_op o l).2.
Proof.
  destruct o; simpl; intros Hl Ho; [|destruct l|..].
  - rewrite elem_of_app, list_elem_of_singleton. intros [?|?]; congruence.
  - done.
  - simpl. by apply not_elem_of_cons in Hl as [_ ?].
  - intros ?%elem_of_remove_first. done.
  - done.
Qed.

Lemma rep_impl_run os q l :
  rep Unlocked q l → NULL ∉ l → Forall enq_nonnull os →
  (∀ m : gmap Z fdmi_queue_data, malloc m ≠ NULL) →
  ends (impl_run os q) (λ r, r.1 = (spec_run os l).1 ∧ rep Unlocked r.2 (spec_run os l).2).
Proof.
  intros Hq H0 Ho Hm. revert q l Hq H0. induction Ho as [|o os Hoo Ho IH]; intros q l Hq H0; [done|].
  simpl. c_step rep_impl_op as [r q1] [Hr Hq1].
  simpl in *. pose proof (spec_op_nonnull o l H0 Hoo) as H0'.
  destruct (spec_op o l) as [r' l1]. simpl in *. subst r'.
  c_step IH as [rs q2] [Hrs Hq2].
  simpl in *. destruct (spec_run os l1). simpl in *. by subst.
Qed.
End clients.

(** ** Properties *)

(** C23: the linked queue implements a FIFO list.  For every sequence of
    [lock_enq], [lock_deq], [lock_remove] and [lock_index] calls the real
    operations return (no lock is left held, no access is undefined, no loop
    runs for ever) with the results of the list specification, and the queue
    they leave represents the specification's list. *)
Theorem queue_refines_fifo `{Malloc} os q l :
  queue_rep Unlocked q l → NULL ∉ l → Forall enq_nonnull os →
  (∀ m : gmap Z fdmi_queue_data, malloc m ≠ NULL) →
  ∃ q', impl_run os q = Done ((spec_run os l).1, q') ∧
        queue_rep Unlocked q' (spec_run os l).2.
Proof.
  intros Hq H0 Ho Hm. pose proof (rep_impl_run os q l Hq H0 Ho Hm) as E.
  apply ends_Done in E as ([rs q'] & -> & Hr & ?). simpl in *. subst rs. by eexists.
Qed.

Lemma queue_refines_fifo_witness :
  ∃ q', impl_run [Enq 7; Enq 8; Enq 9; Remove 8; Index 9; Deq; Deq; Deq]
          (queue_of [] 48879 Unlocked) = Done ([0; 0; 0; 0; 1; 7; 9; 0], q')
        ∧ queue_rep Unlocked q' [].
Proof.
  apply (queue_refines_fifo [Enq 7; Enq 8; Enq 9; Remove 8; Index 9; Deq; Deq; Deq]
           (queue_of [] 48879 Unlocked) []).
  - exists [], 48879. split_and!; [|done..]. split; [constructor|apply not_elem_of_nil].
  - apply not_elem_of_nil.
  - repeat constructor; done.
  - intros m. apply bump_malloc_nonnull.
Defined.

(** [fdmi_queue_destroy] drains the queue and frees its nodes, but its loop
    stops at the first [NULL] element: exactly the nodes after it are leaked,
    and none when the queue holds no [NULL]. *)
Theorem queue_destroy_leaves q l :
  queue_rep Unlocked q l →
  ∃ q', fdmi_queue_destroy q = Done q' ∧ q_mut q' = Destroyed ∧
        size (cells (q_nodes q')) = length (after_null l).
Proof.
  intros Hq%queue_rep_destroy%ends_Done. destruct Hq as (q' & Hd & Hr).
  exists q'. rewrite (queue_rep_size _ _ _ Hr). split_and!; [done| |done].
  by destruct Hr as (? & ? & _ & _ & ->).
Qed.

Lemma queue_destroy_leaves_witness :
  ∃ q', fdmi_queue_destroy (queue_of [(16, 5); (32, NULL); (48, 6)] 0 Unlocked) = Done q' ∧
        q_mut q' = Destroyed ∧ size (cells (q_nodes q')) = 1%nat.
Proof.
  apply (queue_destroy_leaves _ [5; NULL; 6]).
  exists [(16, 5); (32, NULL); (48, 6)], 0. split_and!; [|done..].
  split; [|set_solver by lia]. repeat constructor; set_solver by lia.
Defined.

(** The iterator is shared state.  After [iterate HEAD], one [deq] (which
    frees the node just visited) leaves the loop's next step well defined,
    a second [deq] frees the node [ite] points to and the next step of the
    loop is undefined: a loop over a queue must keep its lock. *)
Theorem queue_iterate_across_deq `{Malloc} m q x y l :
  queue_rep m q (x :: y :: l) →
  ends (let! (_, q) := fdmi_queue_iterate q FDMI_QUEUE_HEAD in
        let! (_, q) := fdmi_queue_deq q in
        fdmi_queue_iterate q FDMI_QUEUE_NEXT) (λ r, r.1 = y) ∧
  (let! (_, q) := fdmi_queue_iterate q FDMI_QUEUE_HEAD in
   let! (_, q) := fdmi_queue_deq q in
   let! (_, q) := fdmi_queue_deq q in
   fdmi_queue_iterate q FDMI_QUEUE_NEXT) = Undef.
Proof.
  intros (ns & ite & Hwf & Hl & ->).
  destruct ns as [|[a x'] [|[b y'] ns]]; simpl in Hl; simplify_eq.
  pose proof Hwf as (_ & _ & Hwf1)%wf_nodes_cons.
  pose proof Hwf1 as (Hb & Hn & Hwf2)%wf_nodes_cons.
  rewrite iterate_head_queue_of by done. cbn [obind].
  rewrite deq_queue_of_cons by done. cbn [obind]. split.
  - pose proof (iterate_next_queue_of [] ((b, y) :: ns) m Hwf1) as E.
    cbn [app] in E. by rewrite E.
  - rewrite deq_queue_of_cons by done. cbn [obind].
    unfold fdmi_queue_iterate, peek, load. simpl.
    rewrite (proj2 (Z.eqb_neq _ _)) by done.
    by rewrite nodes_of_lookup_None.
Qed.

Lemma queue_iterate_across_deq_witness :
  (let! (_, q) := fdmi_queue_iterate (queue_of [(16, 5); (32, 6)] 0 Unlocked) FDMI_QUEUE_HEAD in
   let! (_, q) := fdmi_queue_deq q in
   let! (_, q) := fdmi_queue_deq q in
   fdmi_queue_iterate q FDMI_QUEUE_NEXT) = Undef.
Proof.
  apply (queue_iterate_across_deq Unlocked _ 5 6 []).
  exists [(16, 5); (32, 6)], 0. split_and!; [|done..].
  split; [|set_solver by lia]. repeat constructor; set_solver by lia.
Defined.
