(* ===== verification/Hashtable.v ===== *)
(** * src/src/fdmi_hashtable.c: chained hash table over the queues

    Keys and data are pointers.  A bucket is a queue of pointers to nodes
    {key; data}; the nodes live in a typed heap. *)
From S2P Require Import Prelude Mem Queue.

Record fdmi_hashtable_node := HNode {
  hn_key : Z;
  hn_data : Z;
}.

(** [ht_list] is the array of [ht_len] bucket queues. *)
Record fdmi_hashtable := Hashtable {
  ht_len : Z;
  ht_list : list fdmi_queue;
  ht_nodes : heap fdmi_hashtable_node;
}.

Definition set_bucket (ht : fdmi_hashtable) (h : Z) (q : fdmi_queue) : fdmi_hashtable :=
  Hashtable (ht_len ht) (<[Z.to_nat h := q]> (ht_list ht)) (ht_nodes ht).
Definition set_hnodes (ht : fdmi_hashtable) (ns : heap fdmi_hashtable_node) : fdmi_hashtable :=
  Hashtable (ht_len ht) (ht_list ht) ns.

(** ** Operations *)
Section ops.
Context `{Malloc}.

(** The loop of [fdmi_hashtable_create] over its buckets; [garbage i] is the
    uninitialised part of the i-th queue, [addr i] where it is allocated. *)
Fixpoint create_buckets (n : nat) (addr garbage : nat → Z) : outcome (list fdmi_queue) :=
  match n with
  | O => Done []
  | S n' => qs <- create_buckets n' addr garbage ;;
            q <- fdmi_queue_create (addr n') (garbage n') ;;
            Done (qs ++ [q])
  end.

Definition fdmi_hashtable_create (length : Z) (addr garbage : nat → Z) : outcome fdmi_hashtable :=
  qs <- create_buckets (Z.to_nat length) addr garbage ;;
  Done (Hashtable length qs empty_heap).

(** [(unsigned long)data / 16 % ht->len]: the [int] length is converted to
    [unsigned long], and zero is a division by zero. *)
Definition fdmi_hash (ht : fdmi_hashtable) (d : Z) : outcome Z :=
  if u64 (ht_len ht) =? 0 then Undef else Done ((u64 d / 16) mod u64 (ht_len ht)).

Definition bucket (ht : fdmi_hashtable) (hash : Z) : outcome fdmi_queue :=
  match ht_list ht !! Z.to_nat hash with Some q => Done q | None => Undef end.

Definition fdmi_hashtable_add (ht : fdmi_hashtable) (key d : Z) : outcome fdmi_hashtable :=
  hash <- fdmi_hash ht key ;;
  q <- bucket ht hash ;;
  let! (nd, ns) := fdmi_malloc (ht_nodes ht) (HNode key d) in
  q <- fdmi_queue_enq q nd ;;
  Done (set_bucket (set_hnodes ht ns) hash q).

(** The loop the three lookups share: the first node whose key is [key]. *)
Definition find_node (ht : fdmi_hashtable) (q : fdmi_queue) (key : Z) : outcome (Z * fdmi_queue) :=
  queue_find (λ nd, n <- peek (ht_nodes ht) nd ;; Done (hn_key n =? key)) q.

Definition fdmi_hashtable_update (ht : fdmi_hashtable) (key new_data : Z)
    : outcome (Z * fdmi_hashtable) :=
  hash <- fdmi_hash ht key ;;
  q <- bucket ht hash ;;
  let! (nd, q) := find_node ht q key in
  let ht := set_bucket ht hash q in
  if nd =? NULL then
    ht <- fdmi_hashtable_add ht key new_data ;; Done (NULL, ht)
  else
    n <- peek (ht_nodes ht) nd ;;
    ns <- poke (ht_nodes ht) nd (HNode (hn_key n) new_data) ;;
    Done (hn_data n, set_hnodes ht ns).

Definition fdmi_hashtable_get (ht : fdmi_hashtable) (key : Z) : outcome (Z * fdmi_hashtable) :=
  hash <- fdmi_hash ht key ;;
  q <- bucket ht hash ;;
  let! (nd, q) := find_node ht q key in
  let ht := set_bucket ht hash q in
  if nd =? NULL then Done (NULL, ht)
  else n <- peek (ht_nodes ht) nd ;; Done (hn_data n, ht).

(** The local [data] is set and never used: the result is read from the node
    after it has been freed. *)
Definition fdmi_hashtable_remove (ht : fdmi_hashtable) (key : Z) : outcome (Z * fdmi_hashtable) :=
  hash <- fdmi_hash ht key ;;
  q <- bucket ht hash ;;
  let! (nd, q) := find_node ht q key in
  let ht := set_bucket ht hash q in
  if nd =? NULL then Done (NULL, ht)
  else
    q <- fdmi_queue_remove q nd ;;
    ns <- fdmi_free (ht_nodes ht) nd ;;
    n <- peek ns nd ;;
    Done (hn_data n, set_hnodes (set_bucket ht hash q) ns).

(** [while ((nd = fdmi_queue_deq(ht->list[i])) != NULL) fdmi_free(nd);]. *)
Fixpoint free_bucket (fuel : nat) (q : fdmi_queue) (ns : heap fdmi_hashtable_node)
    : outcome (fdmi_queue * heap fdmi_hashtable_node) :=
  match fuel with
  | O => Diverge
  | S fuel =>
      let! (nd, q) := fdmi_queue_deq q in
      if nd =? NULL then Done (q, ns)
      else ns <- fdmi_free ns nd ;; free_bucket fuel q ns
  end.

Fixpoint destroy_buckets (qs : list fdmi_queue) (ns : heap fdmi_hashtable_node)
    : outcome (list fdmi_queue * heap fdmi_hashtable_node) :=
  match qs with
  | [] => Done ([], ns)
  | q :: qs =>
      let! (q, ns) := free_bucket (queue_fuel q) q ns in
      q <- fdmi_queue_destroy q ;;
      let! (qs, ns) := destroy_buckets qs ns in
      Done (q :: qs, ns)
  end.

(** What is left when [ht->list] and [ht] are freed. *)
Definition fdmi_hashtable_destroy (ht : fdmi_hashtable) : outcome fdmi_hashtable :=
  let! (qs, ns) := destroy_buckets (ht_list ht) (ht_nodes ht) in
  Done (Hashtable (ht_len ht) qs ns).
End ops.

(** ** Abstract specification

    A table stores, for each key, the sequence of the data added for it, oldest
    first; [fdmi_hashtable_get] sees the oldest. *)
Definition table : Type := Z → list Z.

Definition empty_table : table := λ _, [].
Definition table_set (t : table) (key : Z) (ds : list Z) : table :=
  λ k, if decide (k = key) then ds else t k.

Definition spec_add (t : table) (key d : Z) : table := table_set t key (t key ++ [d]).
Definition spec_get (t : table) (key : Z) : Z := default NULL (head (t key)).
Definition spec_update (t : table) (key d : Z) : table := table_set t key (d :: tail (t key)).

(** The bucket of a key. *)
Definition hash_of (len key : Z) : Z := (u64 key / 16) mod len.

Definition key_data (m : gmap Z fdmi_hashtable_node) (key nd : Z) : option Z :=
  match m !! nd with
  | Some n => if decide (hn_key n = key) then Some (hn_data n) else None
  | None => None
  end.

Definition values (m : gmap Z fdmi_hashtable_node) (key : Z) (nds : list Z) : list Z :=
  omap (key_data m key) nds.

(** The representation: [B] lists the node pointers of each bucket, [m] is the
    memory of the nodes; every live node is in one bucket, the one of its key. *)
Record ht_inv (rep : mutex → fdmi_queue → list Z → Prop) (ht : fdmi_hashtable)
    (m : gmap Z fdmi_hashtable_node) (B : list (list Z)) (t : table) : Prop := {
  hi_len : 0 < ht_len ht ≤ INT_MAX;
  hi_blen : length B = Z.to_nat (ht_len ht);
  hi_queues : Forall2 (rep Unlocked) (ht_list ht) B;
  hi_nodup : NoDup (concat B);
  hi_null : NULL ∉ concat B;
  hi_heap : ht_nodes ht = heap_of m;
  hi_dom : ∀ nd, is_Some (m !! nd) ↔ nd ∈ concat B;
  hi_hash : ∀ i nds nd n, B !! i = Some nds → nd ∈ nds → m !! nd = Some n →
    i = Z.to_nat (hash_of (ht_len ht) (hn_key n));
  hi_table : ∀ k nds, B !! Z.to_nat (hash_of (ht_len ht) k) = Some nds →
    t k = values m k nds;
}.

Definition ht_rep (rep : mutex → fdmi_queue → list Z → Prop)
    (ht : fdmi_hashtable) (t : table) : Prop := ∃ m B, ht_inv rep ht m B t.

(** ** The contract other components use *)
Class HashtableContract `{Malloc} (hrep : fdmi_hashtable → table → Prop) : Prop := {
  hrep_create length addr garbage :
    0 < length ≤ INT_MAX → (∀ i, addr i ≠ NULL) →
    ends (fdmi_hashtable_create length addr garbage) (λ ht, hrep ht empty_table);
  hrep_add ht t key d :
    hrep ht t → (∀ m : gmap Z fdmi_hashtable_node, malloc m ≠ NULL) →
    (∀ m : gmap Z fdmi_queue_data, malloc m ≠ NULL) →
    ends (fdmi_hashtable_add ht key d) (λ ht, hrep ht (spec_add t key d));
  hrep_get ht t key :
    hrep ht t → ends (fdmi_hashtable_get ht key) (λ r, r.1 = spec_get t key ∧ hrep r.2 t);
  hrep_update ht t key d :
    hrep ht t → (∀ m : gmap Z fdmi_hashtable_node, malloc m ≠ NULL) →
    (∀ m : gmap Z fdmi_queue_data, malloc m ≠ NULL) →
    ends (fdmi_hashtable_update ht key d)
      (λ r, r.1 = spec_get t key ∧ hrep r.2 (spec_update t key d));
}.

(** ** Lemmas *)
Lemma table_set_eq t key ds : table_set t key ds key = ds.
Proof. unfold table_set. by rewrite decide_True. Qed.
Lemma table_set_ne t key k ds : k ≠ key → table_set t key ds k = t k.
Proof. intros. unfold table_set. by rewrite decide_False. Qed.

Lemma hash_of_bounds len k : 0 < len → 0 ≤ hash_of len k < len.
Proof. intros. by apply Z.mod_pos_bound. Qed.

Lemma fdmi_hash_ok ht k :
  0 < ht_len ht ≤ INT_MAX → fdmi_hash ht k = Done (hash_of (ht_len ht) k).
Proof.
  unfold INT_MAX. intros. unfold fdmi_hash. rewrite (u64_id (ht_len ht)) by lia.
  by rewrite (proj2 (Z.eqb_neq _ _)) by lia.
Qed.

(** Multiples of 16 spread over consecutive buckets. *)
Lemma hash_of_consecutive len n : 0 ≤ n < len → len ≤ INT_MAX → hash_of len (16 * n) = n.
Proof.
  unfold INT_MAX, hash_of. intros. rewrite u64_id by lia.
  rewrite Z.mul_comm, Z.div_mul by lia. apply Z.mod_small. lia.
Qed.

Lemma values_cons m k x nds :
  values m k (x :: nds) =
  match key_data m k x with Some d => d :: values m k nds | None => values m k nds end.
Proof. done. Qed.

Lemma values_fresh m k nds nd n :
  nd ∉ nds → values (<[nd := n]> m) k nds = values m k nds.
Proof.
  intros Hn. induction nds as [|x nds IH]; [done|].
  apply not_elem_of_cons in Hn as [Hx Hn]. rewrite !values_cons, (IH Hn).
  unfold key_data. by rewrite lookup_insert_ne by done.
Qed.

Lemma values_app m k xs ys : values m k (xs ++ ys) = values m k xs ++ values m k ys.
Proof. apply omap_app. Qed.

(** Storing in a node of key [key] is invisible to the other keys. *)
Lemma values_other m k key nds x n d :
  k ≠ key → m !! x = Some n → hn_key n = key →
  values (<[x := HNode key d]> m) k nds = values m k nds.
Proof.
  intros Hk Hx Hn. induction nds as [|y nds IH]; [done|]. rewrite !values_cons, IH.
  unfold key_data. destruct (decide (x = y)) as [->|]; [|by rewrite lookup_insert_ne].
  rewrite lookup_insert_eq, Hx. simpl. by rewrite !decide_False by congruence.
Qed.

Definition key_test (m : gmap Z fdmi_hashtable_node) (key nd : Z) : bool :=
  match m !! nd with Some n => hn_key n =? key | None => false end.

Lemma values_absent m k nds :
  (∀ y, y ∈ nds → key_test m k y = false) → values m k nds = [].
Proof.
  induction nds as [|y nds IH]; intros Hp; [done|].
  rewrite values_cons, IH by (intros; apply Hp; by right).
  specialize (Hp y (list_elem_of_here _ _)). unfold key_test in Hp. unfold key_data.
  destruct (m !! y) as [n|]; [|done]. apply Z.eqb_neq in Hp. by rewrite decide_False.
Qed.

Lemma values_hit m k x n nds :
  m !! x = Some n → hn_key n = k → values m k (x :: nds) = hn_data n :: values m k nds.
Proof.
  intros Hx Hk. rewrite values_cons. unfold key_data. by rewrite Hx, decide_True.
Qed.

(** What a search in a bucket tells about the data of the key. *)
Lemma find_key_spec m k nds :
  NULL ∉ nds →
  let nd := find_ptr (key_test m k) nds in
  (nd = NULL ∧ values m k nds = []) ∨
  (nd ≠ NULL ∧ ∃ pre suf n, nds = pre ++ nd :: suf ∧ m !! nd = Some n ∧ hn_key n = k ∧
     values m k pre = [] ∧ values m k nds = hn_data n :: values m k suf).
Proof.
  intros H0 nd. destruct (decide (nd = NULL)) as [E|E].
  - left. split; [done|]. apply values_absent. by apply find_ptr_None.
  - right. split; [done|].
    destruct (find_ptr_Some (key_test m k) nds nd) as (pre & suf & Hs & Hp & Hpre); [done..|].
    unfold key_test in Hp. destruct (m !! nd) as [n|] eqn:Hn; [|done].
    apply Z.eqb_eq in Hp. pose proof (values_absent m k pre Hpre) as Hv.
    exists pre, suf, n. split_and!; try done.
    rewrite Hs, values_app, Hv. by apply values_hit.
Qed.

Lemma concat_insert_snoc (B : list (list Z)) i nds nd :
  B !! i = Some nds → concat (<[i := nds ++ [nd]]> B) ≡ₚ nd :: concat B.
Proof.
  revert i. induction B as [|x B IH]; intros [|i] Hi; simplify_eq/=.
  - rewrite <- (assoc_L (++)). by rewrite Permutation_middle.
  - rewrite IH by done. by rewrite Permutation_middle.
Qed.

Lemma elem_of_concat (B : list (list Z)) x :
  x ∈ concat B ↔ ∃ i nds, B !! i = Some nds ∧ x ∈ nds.
Proof.
  rewrite list_elem_of_In, in_concat. split.
  - intros (nds & [i Hi]%list_elem_of_In%list_elem_of_lookup & ?%list_elem_of_In). eauto.
  - intros (i & nds & Hi & ?%list_elem_of_In). exists nds. split; [|done].
    apply list_elem_of_In, list_elem_of_lookup. eauto.
Qed.

(** Distinct buckets share no node. *)
Lemma concat_bucket_unique (B : list (list Z)) i j xs ys x :
  NoDup (concat B) → B !! i = Some xs → B !! j = Some ys → x ∈ xs → x ∈ ys → i = j.
Proof.
  revert i j. induction B as [|zs B IH]; intros i j Hnd Hi Hj Hx Hy; [done|].
  simpl in Hnd. apply NoDup_app in Hnd as (_ & Hd & Hnd).
  destruct i as [|i], j as [|j]; simpl in Hi, Hj; simplify_eq; [done|..].
  - exfalso. apply (Hd x Hx). apply elem_of_concat. eauto.
  - exfalso. apply (Hd x Hy). apply elem_of_concat. eauto.
  - f_equal. by eapply IH.
Qed.

Lemma bucket_nodup (B : list (list Z)) i nds : NoDup (concat B) → B !! i = Some nds → NoDup nds.
Proof.
  revert i. induction B as [|zs B IH]; intros [|i] Hnd Hi; simplify_eq/=;
    apply NoDup_app in Hnd as (? & _ & ?); eauto.
Qed.

Section proofs.
Context `{Malloc} {rep : mutex → fdmi_queue → list Z → Prop} `{!QueueContract rep}.
Implicit Types (ht : fdmi_hashtable) (t : table) (B : list (list Z)).

(** The bucket of a key and its queue. *)
Lemma ht_inv_bucket ht m B t k :
  ht_inv rep ht m B t →
  ∃ q nds, bucket ht (hash_of (ht_len ht) k) = Done q ∧
    ht_list ht !! Z.to_nat (hash_of (ht_len ht) k) = Some q ∧
    B !! Z.to_nat (hash_of (ht_len ht) k) = Some nds ∧ rep Unlocked q nds ∧
    NULL ∉ nds ∧ NoDup nds ∧ t k = values m k nds.
Proof.
  intros [Hlen Hbl Hq Hnd H0 _ _ _ Ht].
  pose proof (hash_of_bounds (ht_len ht) k (proj1 Hlen)) as Hb.
  remember (hash_of (ht_len ht) k) as h eqn:Eh.
  assert (is_Some (B !! Z.to_nat h)) as [nds Hnds] by (apply lookup_lt_is_Some; lia).
  destruct (Forall2_lookup_r _ _ _ _ _ Hq Hnds) as (q & Hql & Hr).
  exists q, nds. unfold bucket. rewrite Hql. split_and!; try done.
  - intros Hin. apply H0, elem_of_concat. eauto.
  - by eapply bucket_nodup.
  - apply Ht. by subst h.
Qed.

(** A bucket's queue may be replaced by one with the same content: iterating
    over it moves its iterator. *)
Lemma ht_inv_set_bucket ht m B t h q nds :
  ht_inv rep ht m B t → B !! Z.to_nat h = Some nds → rep Unlocked q nds →
  ht_inv rep (set_bucket ht h q) m B t.
Proof.
  intros [? ? Hq ? ? ? ? ? ?] Hb Hr. split; try done. simpl.
  rewrite <- (list_insert_id B (Z.to_nat h) nds) by done. by apply Forall2_insert.
Qed.

Lemma find_node_ok ht m B t q nds k :
  ht_inv rep ht m B t → B !! Z.to_nat (hash_of (ht_len ht) k) = Some nds →
  rep Unlocked q nds →
  ends (find_node ht q k) (λ r, r.1 = find_ptr (key_test m k) nds ∧ rep Unlocked r.2 nds).
Proof.
  intros Hi Hb Hq. unfold find_node. apply rep_find; [done|..].
  - intros Hin. apply (hi_null _ _ _ _ _ Hi), elem_of_concat. eauto.
  - intros nd Hnd.
    assert (is_Some (m !! nd)) as [n Hn]
      by (apply (hi_dom _ _ _ _ _ Hi), elem_of_concat; eauto).
    rewrite (hi_heap _ _ _ _ _ Hi), (peek_heap_of _ _ _ Hn). simpl.
    unfold key_test. by rewrite Hn.
Qed.

Lemma ht_get_ok ht t k :
  ht_rep rep ht t →
  ends (fdmi_hashtable_get ht k) (λ r, r.1 = spec_get t k ∧ ht_rep rep r.2 t).
Proof.
  intros (m & B & Hi). destruct (ht_inv_bucket ht m B t k Hi)
    as (q & nds & Hb & Hql & HB & Hr & H0 & Hnd & Ht).
  unfold fdmi_hashtable_get. rewrite fdmi_hash_ok by apply Hi. cbn [obind]. rewrite Hb. cbn [obind].
  c_step find_node_ok as [nd q'] [-> Hr'].
  pose proof (ht_inv_set_bucket ht m B t _ q' nds Hi HB Hr') as Hi'.
  unfold spec_get. rewrite Ht.
  destruct (find_key_spec m k nds H0) as [[-> ->]|(Hne & pre & suf & n & _ & Hn & _ & _ & ->)].
  - simpl. split; [done|]. by exists m, B.
  - rewrite (proj2 (Z.eqb_neq _ _)) by done. simpl.
    rewrite (hi_heap _ _ _ _ _ Hi), (peek_heap_of _ _ _ Hn). simpl. split; [done|]. by exists m, B.
Qed.

Lemma ht_add_ok ht t k d :
  ht_rep rep ht t → (∀ m : gmap Z fdmi_hashtable_node, malloc m ≠ NULL) →
  (∀ m : gmap Z fdmi_queue_data, malloc m ≠ NULL) →
  ends (fdmi_hashtable_add ht k d) (λ ht, ht_rep rep ht (spec_add t k d)).
Proof.
  intros (m & B & Hi) Hm Hm'. destruct (ht_inv_bucket ht m B t k Hi)
    as (q & nds & Hb & Hql & HB & Hr & H0 & Hnd & Ht).
  unfold fdmi_hashtable_add. rewrite fdmi_hash_ok by apply Hi. cbn [obind]. rewrite Hb. cbn [obind].
  destruct Hi as [Hlen Hbl Hq Hnd' H0' Hh Hdom Hhash Htab].
  rewrite Hh, fdmi_malloc_heap_of by done. cbn [obind].
  pose proof (malloc_fresh m (Hm m)) as Hf. specialize (Hm m). remember (malloc m) as nd eqn:End.
  assert (Hfresh : nd ∉ concat B) by (rewrite <- Hdom, Hf; by intros [? ?]).
  c_step rep_enq as q' Hr'. simpl.
  pose proof (concat_insert_snoc B _ nds nd HB) as HP.
  eexists _, (<[Z.to_nat (hash_of (ht_len ht) k) := nds ++ [nd]]> B).
  split; simpl; try done.
  - by rewrite length_insert.
  - by apply Forall2_insert.
  - rewrite HP. by apply NoDup_cons.
  - rewrite HP. by apply not_elem_of_cons.
  - intros x. rewrite HP, elem_of_cons, <- Hdom.
    destruct (decide (x = nd)) as [->|]; [rewrite lookup_insert_eq|rewrite lookup_insert_ne by done];
      naive_solver.
  - intros i xs x n Hi Hx Hn. destruct (decide (x = nd)) as [->|Hne].
    + rewrite lookup_insert_eq in Hn. simplify_eq/=.
      destruct (decide (i = Z.to_nat (hash_of (ht_len ht) k))) as [->|Hni]; [done|].
      rewrite list_lookup_insert_ne in Hi by done. exfalso. apply Hfresh, elem_of_concat. eauto.
    + rewrite lookup_insert_ne in Hn by done.
      destruct (decide (i = Z.to_nat (hash_of (ht_len ht) k))) as [->|Hni].
      * rewrite list_lookup_insert_eq in Hi by (by eapply lookup_lt_Some). simplify_eq.
        apply elem_of_app in Hx as [Hx|Hx%list_elem_of_singleton]; [|done]. by eapply Hhash.
      * rewrite list_lookup_insert_ne in Hi by done. by eapply Hhash.
  - intros k' xs Hi. unfold spec_add.
    assert (Hbk : ∀ i ys, B !! i = Some ys → nd ∉ ys)
      by (intros i ys ? Hin; apply Hfresh, elem_of_concat; eauto).
    destruct (decide (Z.to_nat (hash_of (ht_len ht) k') = Z.to_nat (hash_of (ht_len ht) k))) as [E|E].
    + rewrite E, list_lookup_insert_eq in Hi by (by eapply lookup_lt_Some). simplify_eq.
      rewrite values_app, values_fresh by (by eapply Hbk). rewrite values_cons. unfold key_data.
      rewrite lookup_insert_eq. simpl. destruct (decide (k' = k)) as [->|Hne].
      * by rewrite table_set_eq, decide_True, Ht.
      * rewrite table_set_ne, decide_False by done. rewrite (Htab k' nds) by (by rewrite E).
        simpl. by rewrite app_nil_r.
    + rewrite list_lookup_insert_ne in Hi by done.
      rewrite values_fresh by (by eapply Hbk). rewrite table_set_ne by congruence. by apply Htab.
Qed.

Lemma ht_update_ok ht t k d :
  ht_rep rep ht t → (∀ m : gmap Z fdmi_hashtable_node, malloc m ≠ NULL) →
  (∀ m : gmap Z fdmi_queue_data, malloc m ≠ NULL) →
  ends (fdmi_hashtable_update ht k d)
    (λ r, r.1 = spec_get t k ∧ ht_rep rep r.2 (spec_update t k d)).
Proof.
  intros (m & B & Hi) Hm Hm'. destruct (ht_inv_bucket ht m B t k Hi)
    as (q & nds & Hb & Hql & HB & Hr & H0 & Hnd & Ht).
  unfold fdmi_hashtable_update. rewrite fdmi_hash_ok by apply Hi. cbn [obind]. rewrite Hb. cbn [obind].
  c_step find_node_ok as [nd q'] [-> Hr'].
  pose proof (ht_inv_set_bucket ht m B t _ q' nds Hi HB Hr') as Hi'.
  unfold spec_get, spec_update. rewrite Ht.
  destruct (find_key_spec m k nds H0) as [[-> Hv]|(Hne & pre & suf & n & Hs & Hn & Hk & Hpre & Hv)].
  - simpl. rewrite Hv. simpl. c_step (ht_add_ok (set_bucket ht (hash_of (ht_len ht) k) q') t k d)
      as ht1 H1; [by exists m, B|].
    simpl. split; [done|]. unfold spec_add in H1. by rewrite Ht, Hv in H1.
  - rewrite (proj2 (Z.eqb_neq _ _)) by done. simpl.
    rewrite (hi_heap _ _ _ _ _ Hi), (peek_heap_of _ _ _ Hn), Hv. simpl.
    rewrite (poke_heap_of _ _ _ _ Hn). simpl. split; [done|]. rewrite Hk.
    remember (find_ptr (key_test m k) nds) as nd eqn:End.
    eexists _, B. destruct Hi' as [Hlen Hbl Hq Hnd' H0' Hh Hdom Hhash Htab]. split; try done; simpl.
    + intros x. rewrite <- Hdom. destruct (decide (x = nd)) as [->|];
        [rewrite lookup_insert_eq|by rewrite lookup_insert_ne by done]. naive_solver.
    + intros i xs x n' Hix Hx Hn'. destruct (decide (x = nd)) as [->|Hxn].
      * rewrite lookup_insert_eq in Hn'. simplify_eq/=. by eapply Hhash.
      * rewrite lookup_insert_ne in Hn' by done. by eapply Hhash.
    + intros k' xs Hix. destruct (decide (k' = k)) as [->|Hkk].
      * simpl in Hix. assert (xs = nds) as -> by congruence. rewrite table_set_eq.
        rewrite Hs, NoDup_app, NoDup_cons in Hnd. destruct Hnd as (_ & Hd & Hx & _).
        rewrite Hs, values_app, (values_hit _ _ nd (HNode k d)) by
          (done || by rewrite lookup_insert_eq).
        rewrite !values_fresh by (done || intros Hin; apply (Hd nd Hin); by left).
        by rewrite Hpre.
      * rewrite table_set_ne by done. rewrite (values_other _ _ _ _ _ n d) by done. by apply Htab.
Qed.

Lemma create_buckets_ok n addr garbage :
  (∀ i, addr i ≠ NULL) →
  ends (create_buckets n addr garbage)
    (λ qs, Forall2 (rep Unlocked) qs (replicate n [])).
Proof.
  intros Ha. induction n as [|n IH]; [constructor|]. cbn [create_buckets].
  c_step IH as qs Hqs. c_step (rep_create (addr n) (garbage n)) as q Hq. cbn [ends].
  rewrite replicate_S_end. by apply Forall2_app; [|constructor].
Qed.

Lemma concat_replicate_nil {A} n : concat (replicate n ([] : list A)) = [].
Proof. by induction n. Qed.

Lemma ht_create_ok length addr garbage :
  0 < length ≤ INT_MAX → (∀ i, addr i ≠ NULL) →
  ends (fdmi_hashtable_create length addr garbage) (λ ht, ht_rep rep ht empty_table).
Proof.
  intros Hl Ha. unfold fdmi_hashtable_create.
  c_step (create_buckets_ok (Z.to_nat length) addr garbage) as qs Hqs. simpl.
  exists ∅, (replicate (Z.to_nat length) []). split; simpl; rewrite ?concat_replicate_nil; try done.
  - by rewrite length_replicate.
  - constructor.
  - apply not_elem_of_nil.
  - intros nd. rewrite lookup_empty, elem_of_nil. by split; [intros [? ?]|].
  - intros k nds [-> _]%lookup_replicate. done.
Qed.

(** [fdmi_hashtable_remove] of a key that is present reads a freed node. *)
Lemma ht_remove_cases ht t k :
  ht_rep rep ht t →
  (t k = [] ∧ ends (fdmi_hashtable_remove ht k) (λ r, r.1 = NULL ∧ ht_rep rep r.2 t)) ∨
  (t k ≠ [] ∧ fdmi_hashtable_remove ht k = Undef).
Proof.
  intros (m & B & Hi). destruct (ht_inv_bucket ht m B t k Hi)
    as (q & nds & Hb & Hql & HB & Hr & H0 & Hnd & Ht).
  unfold fdmi_hashtable_remove. rewrite fdmi_hash_ok by apply Hi. cbn [obind]. rewrite Hb. cbn [obind].
  pose proof (find_node_ok ht m B t q nds k Hi HB Hr) as Hf.
  apply ends_Done in Hf as ([nd q'] & -> & Hnd' & Hr').
  cbn [obind fst snd] in *. subst nd.
  rewrite Ht. destruct (find_key_spec m k nds H0) as [[-> ->]|(Hne & pre & suf & n & _ & Hn & _ & _ & ->)].
  - left. split; [done|]. simpl. split; [done|]. exists m, B. by apply ht_inv_set_bucket with nds.
  - right. split; [done|]. rewrite (proj2 (Z.eqb_neq _ _)) by done.
    pose proof (rep_remove Unlocked q' nds (find_ptr (key_test m k) nds) Hr') as Hrm.
    apply ends_Done in Hrm as (q2 & -> & _). cbn [obind].
    change (ht_nodes (set_bucket ht (hash_of (ht_len ht) k) q')) with (ht_nodes ht).
    rewrite (hi_heap _ _ _ _ _ Hi), (fdmi_free_heap_of _ _ _ Hne Hn). cbn [obind].
    unfold peek, load. simpl. by rewrite lookup_delete_eq.
Qed.

(** ** Destruction *)
Lemma free_bucket_ok q nds fuel m :
  rep Unlocked q nds → NULL ∉ nds → NoDup nds → (∀ nd, nd ∈ nds → is_Some (m !! nd)) →
  (length nds < fuel)%nat →
  ends (free_bucket fuel q (heap_of m))
    (λ r, rep Unlocked r.1 [] ∧ r.2 = heap_of (foldr delete m nds)).
Proof.
  revert q m fuel. induction nds as [|nd nds IH]; intros q m fuel Hq H0 Hnd Hm Hf;
    (destruct fuel as [|fuel]; [simpl in Hf; lia|]); cbn [free_bucket].
  - rewrite (rep_deq_nil Unlocked) by done. done.
  - apply not_elem_of_cons in H0 as [Hne H0]. apply NoDup_cons in Hnd as [Hx Hnd].
    c_step rep_deq_cons as [d q1] [-> H1]. simpl.
    rewrite (proj2 (Z.eqb_neq _ _)) by done.
    destruct (Hm nd) as [n Hn]; [by left|].
    rewrite (fdmi_free_heap_of _ _ _ (not_eq_sym Hne) Hn). cbn [obind].
    c_last IH as [q2 ns] [H2 ->].
    + intros y Hy. rewrite lookup_delete_ne by (intros ->; done). apply Hm. by right.
    + simpl in Hf. lia.
    + split; [done|]. f_equal. clear. induction nds as [|y nds IH]; [done|].
      simpl. by rewrite IH, delete_delete.
Qed.

Lemma foldr_delete_app (m : gmap Z fdmi_hashtable_node) xs ys :
  foldr delete (foldr delete m xs) ys = foldr delete m (xs ++ ys).
Proof.
  apply map_eq. intros i. destruct (decide (i ∈ ys)), (decide (i ∈ xs));
    repeat first [rewrite lookup_foldr_delete by set_solver
                 |rewrite lookup_foldr_delete_not_elem_of by set_solver]; done.
Qed.

Lemma destroy_buckets_ok qs B m :
  Forall2 (rep Unlocked) qs B → NULL ∉ concat B → NoDup (concat B) →
  (∀ nd, nd ∈ concat B → is_Some (m !! nd)) →
  ends (destroy_buckets qs (heap_of m))
    (λ r, Forall2 (rep Destroyed) r.1 (replicate (length B) []) ∧
          r.2 = heap_of (foldr delete m (concat B))).
Proof.
  intros Hq. revert m. induction Hq as [|q nds qs B Hq Hqs IH]; intros m H0 Hnd Hm.
  { split; [constructor|done]. }
  cbn [destroy_buckets]. simpl in H0, Hnd, Hm.
  apply NoDup_app in Hnd as (Hnd & Hd & Hnd').
  rewrite not_elem_of_app in H0. destruct H0 as [H0 H0'].
  c_step (free_bucket_ok q nds) as [q1 ns] [H1 ->].
  { intros nd ?. apply Hm, elem_of_app. by left. }
  { rewrite (rep_fuel Unlocked q nds) by done. lia. }
  c_step rep_destroy as q2 H2; [apply not_elem_of_nil|].
  c_step IH as [qs' ns'] [H3 ->].
  { intros nd Hin. rewrite lookup_foldr_delete_not_elem_of by (intros ?; by eapply Hd).
    apply Hm, elem_of_app. by right. }
  cbn [ends fst snd length replicate]. split; [by constructor|].
  by rewrite foldr_delete_app.
Qed.

Lemma ht_destroy_ok ht t :
  ht_rep rep ht t →
  ends (fdmi_hashtable_destroy ht)
    (λ ht', cells (ht_nodes ht') = ∅ ∧
            Forall2 (rep Destroyed) (ht_list ht') (replicate (Z.to_nat (ht_len ht)) [])).
Proof.
  intros (m & B & [Hlen Hbl Hq Hnd H0 Hh Hdom Hhash Htab]).
  unfold fdmi_hashtable_destroy. rewrite Hh, <- Hbl.
  c_step (destroy_buckets_ok (ht_list ht) B m) as [qs ns] [H1 ->];
    [by intros nd ?%Hdom|].
  simpl. split; [|done]. apply map_eq. intros nd. rewrite lookup_empty.
  destruct (decide (nd ∈ concat B)); [by rewrite lookup_foldr_delete|].
  rewrite lookup_foldr_delete_not_elem_of by done.
  apply eq_None_not_Some. by rewrite Hdom.
Qed.
End proofs.

#[export] Instance hashtable_contract `{Malloc} : HashtableContract (ht_rep queue_rep).
Proof.
  split.
  - apply ht_create_ok.
  - apply ht_add_ok.
  - apply ht_get_ok.
  - apply ht_update_ok.
Qed.

(** ** A run of the table against its specification *)
Inductive ht_op := Add (key d : Z) | Update (key d : Z) | Get (key : Z).

Definition spec_ht_op (o : ht_op) (t : table) : Z * table :=
  match o with
  | Add key d => (0, spec_add t key d)
  | Update key d => (spec_get t key, spec_update t key d)
  | Get key => (spec_get t key, t)
  end.

Definition impl_ht_op `{Malloc} (o : ht_op) (ht : fdmi_hashtable) : outcome (Z * fdmi_hashtable) :=
  match o with
  | Add key d => ht <- fdmi_hashtable_add ht key d ;; Done (0, ht)
  | Update key d => fdmi_hashtable_update ht key d
  | Get key => fdmi_hashtable_get ht key
  end.

Fixpoint spec_ht_run (os : list ht_op) (t : table) : list Z * table :=
  match os with
  | [] => ([], t)
  | o :: os => let '(r, t) := spec_ht_op o t in
               let '(rs, t) := spec_ht_run os t in (r :: rs, t)
  end.

Fixpoint impl_ht_run `{Malloc} (os : list ht_op) (ht : fdmi_hashtable)
    : outcome (list Z * fdmi_hashtable) :=
  match os with
  | [] => Done ([], ht)
  | o :: os => let! (r, ht) := impl_ht_op o ht in
               let! (rs, ht) := impl_ht_run os ht in
               Done (r :: rs, ht)
  end.

Section run.
Context `{Malloc} {hrep : fdmi_hashtable → table → Prop} `{!HashtableContract hrep}.

Lemma hrep_run os ht t :
  malloc_total → hrep ht t →
  ends (impl_ht_run os ht) (λ r, r.1 = (spec_ht_run os t).1 ∧ hrep r.2 (spec_ht_run os t).2).
Proof.
  intros Hm. revert ht t. induction os as [|o os IH]; intros ht t Hr; [done|].
  cbn [impl_ht_run spec_ht_run].
  assert (Ho : ends (impl_ht_op o ht)
    (λ r, r.1 = (spec_ht_op o t).1 ∧ hrep r.2 (spec_ht_op o t).2)).
  { destruct o; simpl.
    - c_step hrep_add as ht1 H1; [apply Hm..|done].
    - apply hrep_update; [done|apply Hm..].
    - by apply hrep_get. }
  c_step Ho as [r ht1] [-> H1]. destruct (spec_ht_op o t) as [r' t1]. cbn [fst snd] in *.
  c_step IH as [rs ht2] [-> H2]. by destruct (spec_ht_run os t1).
Qed.
End run.


(** ** Properties *)

(** C24: the hash table implements a map from keys to the sequence of the data
    added for them.  Created with any positive [int] number of buckets, it
    answers every sequence of [add], [update] and [get] calls as the
    specification does: [get] and [update] return the oldest datum of the key
    ([NULL] when there is none), [update] replaces it, [add] never shadows it;
    keys that collide in a bucket do not disturb each other. *)
Theorem hashtable_refines_table `{Malloc} os length addr garbage :
  malloc_total → 0 < length ≤ INT_MAX → (∀ i, addr i ≠ NULL) →
  ∃ ht ht', fdmi_hashtable_create length addr garbage = Done ht ∧
    impl_ht_run os ht = Done ((spec_ht_run os empty_table).1, ht') ∧
    ht_rep queue_rep ht' (spec_ht_run os empty_table).2.
Proof.
  intros Hm Hl Ha. destruct (proj1 (ends_Done _ _) (hrep_create length addr garbage Hl Ha))
    as (ht & E & Hr).
  destruct (proj1 (ends_Done _ _) (hrep_run os ht empty_table Hm Hr)) as ([rs ht'] & E' & Hrs & Hr').
  simpl in *. subst rs. by exists ht, ht'.
Qed.

Lemma hashtable_refines_table_witness :
  ∃ ht ht', fdmi_hashtable_create 2 (λ _, 16) (λ _, 48879) = Done ht ∧
    impl_ht_run [Add 16 5; Add 48 6; Get 48; Update 48 7; Get 48; Get 16; Get 32] ht =
      Done ([0; 0; 6; 6; 7; 5; NULL], ht') ∧
    ht_rep queue_rep ht' (spec_ht_run
      [Add 16 5; Add 48 6; Get 48; Update 48 7; Get 48; Get 16; Get 32] empty_table).2.
Proof.
  apply (hashtable_refines_table
    [Add 16 5; Add 48 6; Get 48; Update 48 7; Get 48; Get 16; Get 32] 2 (λ _, 16) (λ _, 48879)).
  - exact Malloc_bump_total.
  - unfold INT_MAX. lia.
  - done.
Defined.

(** [fdmi_hashtable_remove] returns [nd->data] after [fdmi_free(nd)]: for
    every key that is present the call is undefined, for every other key it
    returns [NULL] and leaves the table as it was. *)
Theorem hashtable_remove_reads_freed_node `{Malloc} ht t key :
  ht_rep queue_rep ht t →
  (fdmi_hashtable_remove ht key = Undef ↔ t key ≠ []) ∧
  (t key = [] → ∃ ht', fdmi_hashtable_remove ht key = Done (NULL, ht') ∧ ht_rep queue_rep ht' t).
Proof.
  intros Hr. destruct (ht_remove_cases ht t key Hr) as [[Ht He]|[Ht He]].
  - apply ends_Done in He as ([r ht'] & -> & Hr1 & Hr2). simpl in *. subst r.
    split; [split; [done|congruence]|]. intros _. by exists ht'.
  - rewrite He. split; [split; congruence|]. congruence.
Qed.

(** [fdmi_hashtable_destroy] frees every node of the table and destroys
    every bucket with all of its queue nodes: nothing is leaked. *)
Theorem hashtable_destroy_frees_all `{Malloc} ht t :
  ht_rep queue_rep ht t →
  ∃ ht', fdmi_hashtable_destroy ht = Done ht' ∧ cells (ht_nodes ht') = ∅ ∧
    Forall (λ q, q_mut q = Destroyed ∧ size (cells (q_nodes q)) = 0%nat) (ht_list ht').
Proof.
  intros Hr%ht_destroy_ok. apply ends_Done in Hr as (ht' & -> & Hc & Hq).
  exists ht'. split_and!; [done..|].
  apply Forall_lookup. intros i q Hi.
  destruct (Forall2_lookup_l _ _ _ _ _ Hq Hi) as (? & [-> _]%lookup_replicate & Hd).
  rewrite (queue_rep_size _ _ _ Hd). by destruct Hd as (? & ? & _ & _ & ->).
Qed.

(** A table with two colliding keys, for the witnesses. *)
Definition sample_table : outcome fdmi_hashtable :=
  ht <- fdmi_hashtable_create 2 (λ _, 16) (λ _, 48879) ;;
  let! (_, ht) := impl_ht_run [Add 16 5; Add 48 6] ht in Done ht.

Lemma sample_table_ok :
  ends sample_table (λ ht, ht_rep queue_rep ht (spec_ht_run [Add 16 5; Add 48 6] empty_table).2).
Proof.
  unfold sample_table. c_step (hrep_create 2 (λ _, 16) (λ _, 48879)) as ht Hr;
    [unfold INT_MAX; lia|].
  c_step (hrep_run [Add 16 5; Add 48 6] ht empty_table) as [r ht'] [_ Hr'];
    [exact Malloc_bump_total|done].
Qed.

Lemma hashtable_remove_reads_freed_node_witness :
  ends sample_table (λ ht, fdmi_hashtable_remove ht 48 = Undef).
Proof.
  c_last sample_table_ok as ht Hr.
  by apply (hashtable_remove_reads_freed_node ht _ 48 Hr).
Defined.

Lemma hashtable_destroy_frees_all_witness :
  ends sample_table (λ ht, ∃ ht', fdmi_hashtable_destroy ht = Done ht' ∧
    cells (ht_nodes ht') = ∅ ∧
    Forall (λ q, q_mut q = Destroyed ∧ size (cells (q_nodes q)) = 0%nat) (ht_list ht')).
Proof.
  c_last sample_table_ok as ht Hr. by apply (hashtable_destroy_frees_all ht _ Hr).
Defined.
