(* ===== verification/Datatype.v ===== *)
(** * src/src/fdmi_datatype.c: datatypes, reductions and memory layout

    A datatype is [count] blocks of [blength] elements of [size] bytes, block
    starts [stride] elements apart.  This file also holds the two copy loops of
    src/src/fdmi.c that follow this layout: packing into the eager buffer
    (in [fdmi_post_send_msg]) and unpacking from it ([fdmi_cpy_eager_buff]). *)
From Stdlib Require Import SpecFloat.
From S2P Require Import Prelude.

Inductive fdmi_dtype :=
  FDMI_INT | FDMI_DOUBLE | FDMI_FLOAT | FDMI_BYTE | FDMI_CHAR | FDMI_USRDEF.
Inductive fdmi_op := FMI_MAX | FMI_MIN | FMI_SUM | FMI_NON.

#[export] Instance fdmi_dtype_eq_dec : EqDecision fdmi_dtype.
Proof. solve_decision. Defined.
#[export] Instance fdmi_op_eq_dec : EqDecision fdmi_op.
Proof. solve_decision. Defined.

(** The enumerators' values: the row and column indices of [dtype_op]. *)
Definition dtype_code (d : fdmi_dtype) : nat :=
  match d with
  | FDMI_INT => 0 | FDMI_DOUBLE => 1 | FDMI_FLOAT => 2
  | FDMI_BYTE => 3 | FDMI_CHAR => 4 | FDMI_USRDEF => 5
  end.
Definition op_code (o : fdmi_op) : nat :=
  match o with FMI_MAX => 0 | FMI_MIN => 1 | FMI_SUM => 2 | FMI_NON => 3 end.

(** [struct fdmi_datatype]: [size] is a [size_t], the others are [int]s. *)
Record fdmi_datatype := Datatype {
  dt_dtype : fdmi_dtype;
  dt_size : Z;
  dt_count : Z;
  dt_blength : Z;
  dt_stride : Z;
}.

Definition FMI_BYTE : fdmi_datatype := Datatype FDMI_BYTE 1 1 1 0.
Definition FMI_CHAR : fdmi_datatype := Datatype FDMI_CHAR 1 1 1 0.
Definition FMI_INT : fdmi_datatype := Datatype FDMI_INT 4 1 1 0.
Definition FMI_FLOAT : fdmi_datatype := Datatype FDMI_FLOAT 4 1 1 0.
Definition FMI_DOUBLE : fdmi_datatype := Datatype FDMI_DOUBLE 8 1 1 0.

(** [dtype.blength * dtype.count * dtype.size]: an [int] product, then a
    [size_t] one. *)
Definition fdmi_datatype_size (dtype : fdmi_datatype) : outcome Z :=
  bc <- c_int (dt_blength dtype * dt_count dtype) ;;
  Done (u64 (u64 bc * dt_size dtype)).

Definition fdmi_type_vector (count blocklength stride : Z) (oldtype : fdmi_datatype)
    : outcome fdmi_datatype :=
  if blocklength =? stride then
    b <- c_int (count * blocklength) ;;
    Done (Datatype FDMI_USRDEF (dt_size oldtype) 1 b 0)
  else
    Done (Datatype FDMI_USRDEF (dt_size oldtype) count blocklength stride).

Definition fdmi_type_commit (datatype : fdmi_datatype) : fdmi_datatype := datatype.

(** ** Reductions

    The object behind a [void*]: an [int], a [double] or a [float].  Doubles
    and floats are IEEE 754 binary64 and binary32. *)
Inductive cval :=
| VInt (z : Z)
| VDouble (f : spec_float)
| VFloat (f : spec_float).

Definition fp_gt (a b : spec_float) : bool := SFltb b a.
Definition fp_lt (a b : spec_float) : bool := SFltb a b.
Definition double_add : spec_float → spec_float → spec_float := SFadd 53 1024.
Definition float_add : spec_float → spec_float → spec_float := SFadd 24 128.

(** The four macros, for one type: [gt] and [lt] are its comparisons, [add] its
    addition; the result is the new value of [*a]. *)
Section macros.
Context {T : Type} (gt lt : T → T → bool) (add : T → T → outcome T).
Definition FDMI_MAX (a b : T) : outcome T := Done (if gt a b then a else b).
Definition FDMI_MIN (a b : T) : outcome T := Done (if lt a b then a else b).
Definition FDMI_SUM (a b : T) : outcome T := add a b.
Definition FDMI_NON (a b : T) : outcome T := Done a.
End macros.

(** A function of the table applied to its two pointers: they must point to
    objects of the function's type. *)
Definition on_int (f : Z → Z → outcome Z) (a b : cval) : outcome cval :=
  match a, b with VInt x, VInt y => r <- f x y ;; Done (VInt r) | _, _ => Undef end.
Definition on_double (f : spec_float → spec_float → outcome spec_float) (a b : cval) : outcome cval :=
  match a, b with VDouble x, VDouble y => r <- f x y ;; Done (VDouble r) | _, _ => Undef end.
Definition on_float (f : spec_float → spec_float → outcome spec_float) (a b : cval) : outcome cval :=
  match a, b with VFloat x, VFloat y => r <- f x y ;; Done (VFloat r) | _, _ => Undef end.

Definition int_add (a b : Z) : outcome Z := c_int (a + b).

(** [dtype_op[4][3]]. *)
Definition dtype_op : list (list (cval → cval → outcome cval)) :=
  [ [on_int (FDMI_MAX Z.gtb); on_double (FDMI_MAX fp_gt); on_float (FDMI_MAX fp_gt)];
    [on_int (FDMI_MIN Z.ltb); on_double (FDMI_MIN fp_lt); on_float (FDMI_MIN fp_lt)];
    [on_int (FDMI_SUM int_add); on_double (FDMI_SUM (λ a b, Done (double_add a b)));
     on_float (FDMI_SUM (λ a b, Done (float_add a b)))];
    [on_int FDMI_NON; on_double FDMI_NON; on_float FDMI_NON] ].

(** An index outside the table is undefined. *)
Definition fdmi_datatype_op (op : fdmi_op) (dtype : fdmi_datatype) (target source : cval)
    : outcome cval :=
  match dtype_op !! op_code op ≫= λ row, row !! dtype_code (dt_dtype dtype) with
  | Some f => f target source
  | None => Undef
  end.

(** ** Byte memory *)

(** The mapped bytes of the user's address space. *)
Abbreviation memory := (gmap Z Z).

Fixpoint read_bytes (m : memory) (a : Z) (n : nat) : outcome (list Z) :=
  match n with
  | O => Done []
  | S n => b <- load m a ;; bs <- read_bytes m (a + 1) n ;; Done (b :: bs)
  end.

Fixpoint write_bytes (m : memory) (a : Z) (bs : list Z) : outcome memory :=
  match bs with
  | [] => Done m
  | b :: bs => m <- store m a b ;; write_bytes m (a + 1) bs
  end.

Definition FDMI_EAGER_BUFF_SIZE : Z := 65536.

(** The eager buffer of a message: the bytes written so far; those above are
    uninitialised and reading them is undefined. *)
Definition eager_read (eb : list Z) (off n : Z) : outcome (list Z) :=
  if off + n <=? Z.of_nat (length eb)
  then Done (take (Z.to_nat n) (drop (Z.to_nat off) eb)) else Undef.

Definition eager_write (eb : list Z) (off : Z) (bs : list Z) : outcome (list Z) :=
  if (off + Z.of_nat (length bs) <=? FDMI_EAGER_BUFF_SIZE) && (off <=? Z.of_nat (length eb))
  then Done (take (Z.to_nat off) eb ++ bs ++ drop (Z.to_nat off + length bs) eb) else Undef.

(** [memcpy] from user memory to the eager buffer and back. *)
Definition memcpy_to_eager (m : memory) (eb : list Z) (off src n : Z) : outcome (list Z) :=
  bs <- read_bytes m src (Z.to_nat n) ;; eager_write eb off bs.
Definition memcpy_from_eager (m : memory) (eb : list Z) (dst off n : Z) : outcome memory :=
  bs <- eager_read eb off n ;; write_bytes m dst bs.

(** Bytes in a block and between block starts, as [size_t]s. *)
Definition block_bytes (d : fdmi_datatype) : Z := u64 (u64 (dt_blength d) * dt_size d).
Definition stride_bytes (d : fdmi_datatype) : Z := u64 (u64 (dt_stride d) * dt_size d).

(** Pointer arithmetic of the user's buffer pointer. *)
Definition padd (p n : Z) : Z := u64 (p + n).

(** The loops of [fdmi_post_send_msg] over the message's elements and, inside,
    over the blocks of one element. *)
Fixpoint pack_blocks (j : nat) (d : fdmi_datatype) (m : memory) (send_buff : Z)
    (eb : list Z) (off : Z) : outcome (Z * list Z * Z) :=
  match j with
  | O => Done (send_buff, eb, off)
  | S j => eb <- memcpy_to_eager m eb off send_buff (block_bytes d) ;;
           pack_blocks j d m (padd send_buff (stride_bytes d)) eb (off + block_bytes d)
  end.

Fixpoint pack_elements (i : nat) (d : fdmi_datatype) (m : memory) (send_buff : Z)
    (eb : list Z) (off : Z) : outcome (list Z * Z) :=
  match i with
  | O => Done (eb, off)
  | S i => let! (send_buff, eb, off) := pack_blocks (Z.to_nat (dt_count d)) d m send_buff eb off in
           pack_elements i d m send_buff eb off
  end.

(** The copy loops of [fdmi_cpy_eager_buff] and [fdmi_cpy_eager_buff2]. *)
Fixpoint unpack_blocks (j : nat) (d : fdmi_datatype) (eb : list Z) (m : memory)
    (recv_buff off : Z) : outcome (memory * Z * Z) :=
  match j with
  | O => Done (m, recv_buff, off)
  | S j => m <- memcpy_from_eager m eb recv_buff off (block_bytes d) ;;
           unpack_blocks j d eb m (padd recv_buff (stride_bytes d)) (off + block_bytes d)
  end.

Fixpoint unpack_elements (i : nat) (d : fdmi_datatype) (eb : list Z) (m : memory)
    (recv_buff off : Z) : outcome memory :=
  match i with
  | O => Done m
  | S i => let! (m, recv_buff, off) := unpack_blocks (Z.to_nat (dt_count d)) d eb m recv_buff off in
           unpack_elements i d eb m recv_buff off
  end.

(** The copy to the receive buffer: [count] is the sender's, [d] the
    receiver's. *)
Definition eager_copy (d : fdmi_datatype) (count : Z) (eb : list Z) (m : memory) (recv_buff : Z)
    : outcome memory :=
  if dt_count d =? 1 then
    memcpy_from_eager m eb recv_buff 0 (u64 (block_bytes d * u64 count))
  else unpack_elements (Z.to_nat count) d eb m recv_buff 0.

(** [total_send_size] of [fdmi_post_send_msg]: an [int] product times a
    [size_t], stored in a [uint32_t]. *)
Definition total_send_size (d : fdmi_datatype) (count : Z) : outcome Z :=
  bc <- c_int (dt_blength d * dt_count d) ;;
  bcc <- c_int (bc * count) ;;
  Done (u32 (u64 (u64 bcc * dt_size d))).

(** [reg_size] of [fdmi_post_send_msg_param] and [fdmi_init_passive_query]:
    the bytes to register, a [uint64_t]. *)
Definition reg_size (d : fdmi_datatype) (count : Z) : outcome Z :=
  c1 <- c_int (dt_count d - 1) ;;
  s <- c_int (dt_stride d * c1) ;;
  e <- c_int (s + dt_blength d) ;;
  Done (u64 (u64 (u64 e * dt_size d) * u64 count)).

(** The payload of an eager message (the second scatter/gather element of
    [fdmi_post_send_msg]): the user's buffer itself when the datatype is
    consecutive, otherwise [total] bytes from where the packing loop has left
    the pointer [eager_buff].  Also the new eager buffer and that offset. *)
Definition eager_payload (d : fdmi_datatype) (count total : Z) (m : memory) (addr : Z)
    (eb : list Z) : outcome (list Z * list Z * Z) :=
  if dt_count d =? 1 then
    bs <- read_bytes m addr (Z.to_nat total) ;; Done (bs, eb, 0)
  else
    let! (eb, off) := pack_elements (Z.to_nat count) d m addr eb 0 in
    bs <- eager_read eb off total ;; Done (bs, eb, off).

(** ** The layout a datatype describes *)

(** Whether the byte at offset [o] belongs to one of [k] blocks of [bb] bytes
    that start [st] bytes apart. *)
Fixpoint in_blocks (st bb : Z) (k : nat) (o : Z) : bool :=
  match k with
  | O => false
  | S k => ((0 <=? o) && (o <? bb)) || in_blocks st bb k (o - st)
  end.

(** The offsets of the bytes of a buffer of [n] elements. *)
Definition layout (d : fdmi_datatype) (n o : Z) : bool :=
  if dt_count d =? 1 then (0 <=? o) && (o <? dt_blength d * n * dt_size d)
  else in_blocks (dt_stride d * dt_size d) (dt_blength d * dt_size d)
         (Z.to_nat (n * dt_count d)) o.

(** The bytes of data of [n] elements. *)
Definition payload_size (d : fdmi_datatype) (n : Z) : Z :=
  dt_blength d * dt_count d * n * dt_size d.

(** A datatype a program can build: non-negative [int]s, a positive size. *)
Record wf_dtype (d : fdmi_datatype) : Prop := {
  wd_size : 0 < dt_size d < 2 ^ 31;
  wd_count : 0 ≤ dt_count d ≤ INT_MAX;
  wd_blength : 0 ≤ dt_blength d ≤ INT_MAX;
  wd_stride : 0 ≤ dt_stride d ≤ INT_MAX;
}.

(** ** Copying bytes *)
Lemma read_bytes_ok m a n :
  (∀ x, 0 ≤ x < Z.of_nat n → is_Some (m !! (a + x))) →
  ∃ bs, read_bytes m a n = Done bs ∧ length bs = n ∧
        ∀ x, 0 ≤ x < Z.of_nat n → bs !! Z.to_nat x = m !! (a + x).
Proof.
  revert a. induction n as [|n IH]; intros a Hm.
  - exists []. split_and!; [done..|lia].
  - destruct (Hm 0) as [b Hb]; [lia|]. rewrite Z.add_0_r in Hb.
    destruct (IH (a + 1)) as (bs & E & Hl & Hbs).
    { intros x Hx. replace (a + 1 + x) with (a + (x + 1)) by lia. apply Hm. lia. }
    exists (b :: bs). simpl. rewrite (proj2 (load_Done _ _ _) Hb). simpl. rewrite E.
    split_and!; [done|simpl; lia|]. intros x Hx.
    destruct (decide (x = 0)) as [->|]; [by rewrite Z.add_0_r|].
    replace (Z.to_nat x) with (S (Z.to_nat (x - 1))) by lia. simpl.
    rewrite Hbs by lia. f_equal. lia.
Qed.

Lemma write_bytes_ok m a bs :
  (∀ x, 0 ≤ x < Z.of_nat (length bs) → is_Some (m !! (a + x))) →
  ∃ m', write_bytes m a bs = Done m' ∧
        ∀ p, m' !! p = if (a <=? p) && (p <? a + Z.of_nat (length bs))
                       then bs !! Z.to_nat (p - a) else m !! p.
Proof.
  revert m a. induction bs as [|b bs IH]; intros m a Hm.
  - exists m. split; [done|]. intros p. destruct (_ && _) eqn:E; [cbn [length] in E; lia|done].
  - destruct (Hm 0) as [b' Hb]; [simpl; lia|]. rewrite Z.add_0_r in Hb.
    destruct (IH (<[a := b]> m) (a + 1)) as (m' & E & Hm').
    { intros x Hx. rewrite lookup_insert_ne by lia.
      replace (a + 1 + x) with (a + (x + 1)) by lia. apply Hm. simpl. lia. }
    exists m'. cbn [write_bytes]. unfold store. rewrite Hb. cbn [obind].
    rewrite E. split; [done|].
    intros p. rewrite Hm'. destruct (decide (p = a)) as [->|Hpa].
    + rewrite lookup_insert_eq. replace (a + 1 <=? a) with false by lia.
      replace ((a <=? a) && (a <? a + Z.of_nat (length (b :: bs)))) with true
        by (cbn [length]; lia).
      cbn [andb]. by rewrite Z.sub_diag.
    + rewrite lookup_insert_ne by done.
      destruct ((a + 1 <=? p) && (p <? a + 1 + Z.of_nat (length bs))) eqn:E1.
      * replace ((a <=? p) && (p <? a + Z.of_nat (length (b :: bs)))) with true
          by (cbn [length]; lia).
        by replace (Z.to_nat (p - a)) with (S (Z.to_nat (p - (a + 1)))) by lia.
      * by replace ((a <=? p) && (p <? a + Z.of_nat (length (b :: bs)))) with false
          by (cbn [length]; lia).
Qed.

Lemma eager_read_ok eb off n :
  0 ≤ off → 0 ≤ n → off + n ≤ Z.of_nat (length eb) →
  ∃ bs, eager_read eb off n = Done bs ∧ Z.of_nat (length bs) = n ∧
        ∀ x, 0 ≤ x < n → bs !! Z.to_nat x = eb !! Z.to_nat (off + x).
Proof.
  intros. unfold eager_read. rewrite (proj2 (Z.leb_le _ _)) by lia.
  eexists. split_and!; [done| |].
  - rewrite length_take, length_drop. lia.
  - intros x Hx. rewrite lookup_take_lt by lia. rewrite lookup_drop. f_equal. lia.
Qed.

Lemma eager_write_ok eb off bs :
  0 ≤ off ≤ Z.of_nat (length eb) → off + Z.of_nat (length bs) ≤ FDMI_EAGER_BUFF_SIZE →
  ∃ eb', eager_write eb off bs = Done eb' ∧
    length eb' = Nat.max (length eb) (Z.to_nat off + length bs) ∧
    ∀ i, eb' !! i = if decide (Z.to_nat off ≤ i < Z.to_nat off + length bs)%nat
                    then bs !! (i - Z.to_nat off)%nat else eb !! i.
Proof.
  intros Ho Hb. unfold eager_write.
  rewrite (proj2 (Z.leb_le _ _)) by lia. rewrite (proj2 (Z.leb_le _ _)) by lia. simpl.
  eexists. split_and!; [done| |].
  - rewrite !length_app, length_take, length_drop. lia.
  - intros i. destruct (decide (i < Z.to_nat off)%nat).
    { rewrite lookup_app_l by (rewrite length_take; lia).
      rewrite lookup_take_lt by lia. rewrite decide_False by lia. done. }
    rewrite lookup_app_r by (rewrite length_take; lia). rewrite length_take, Nat.min_l by lia.
    case_decide.
    + rewrite lookup_app_l by lia. done.
    + rewrite lookup_app_r by lia. rewrite lookup_drop. f_equal. lia.
Qed.

(** ** The loops *)

(** Every byte of the [k] blocks at [r] can be accessed. *)
Definition blocks_mapped (m : memory) (st bb : Z) (k : nat) (r : Z) : Prop :=
  ∀ o, in_blocks st bb k o = true → 0 ≤ r + o < 2 ^ 64 ∧ is_Some (m !! (r + o)).

Lemma blocks_mapped_S m st bb k r :
  blocks_mapped m st bb (S k) r →
  (∀ x, 0 ≤ x < bb → 0 ≤ r < 2 ^ 64 ∧ is_Some (m !! (r + x))) ∧
  blocks_mapped m st bb k (r + st).
Proof.
  intros Hm. split.
  - assert (Hi : ∀ x, 0 ≤ x < bb → in_blocks st bb (S k) x = true).
    { intros x Hx. cbn [in_blocks]. apply orb_true_iff. left. lia. }
    intros x Hx. destruct (Hm 0) as [? _]; [apply Hi; lia|].
    destruct (Hm x) as [_ ?]; [by apply Hi|]. split; [lia|done].
  - intros o Ho. replace (r + st + o) with (r + (st + o)) by lia. apply Hm. simpl.
    replace (st + o - st) with o by lia. rewrite Ho. by rewrite orb_true_r.
Qed.

Section loops.
Context (d : fdmi_datatype).
Let st := stride_bytes d.
Let bb := block_bytes d.

Lemma block_bytes_nonneg : 0 ≤ bb.
Proof. apply u64_bounds. Qed.

(** The ideal pointer [r + k * st] and the wrapped one agree modulo 2^64. *)
Lemma padd_step r k : padd (u64 r) st = u64 (r + st) ∧ u64 (r + st + Z.of_nat k * st) = u64 (r + Z.of_nat (S k) * st).
Proof. unfold padd. rewrite u64_add_l. split; [done|]. f_equal. lia. Qed.

Lemma pack_blocks_ok k m r eb off :
  blocks_mapped m st bb k r → 0 ≤ off ≤ Z.of_nat (length eb) →
  off + Z.of_nat k * bb ≤ FDMI_EAGER_BUFF_SIZE →
  ∃ eb', pack_blocks k d m (u64 r) eb off =
      Done (u64 (r + Z.of_nat k * st), eb', off + Z.of_nat k * bb) ∧
    off + Z.of_nat k * bb ≤ Z.of_nat (length eb') ∧
    (∀ i, 0 ≤ i < off ∨ off + Z.of_nat k * bb ≤ i → eb' !! Z.to_nat i = eb !! Z.to_nat i) ∧
    Z.of_nat (length eb') = Z.max (Z.of_nat (length eb)) (off + Z.of_nat k * bb) ∧
    ∀ b x, 0 ≤ b < Z.of_nat k → 0 ≤ x < bb →
      eb' !! Z.to_nat (off + b * bb + x) = m !! (r + (b * st + x)).
Proof.
  pose proof block_bytes_nonneg as Hbb.
  revert r eb off. induction k as [|k IH]; intros r eb off Hm Ho Hk.
  { exists eb. simpl. rewrite !Z.add_0_r. split_and!; [done|lia|done|lia|lia]. }
  destruct (blocks_mapped_S _ _ _ _ _ Hm) as [Hm0 Hm1].
  destruct (read_bytes_ok m (u64 r) (Z.to_nat bb)) as (bs & Er & Hl & Hbs).
  { intros x Hx. destruct (Hm0 x) as [? ?]; [lia|]. by rewrite u64_id. }
  destruct (eager_write_ok eb off bs) as (eb1 & Ew & Hl1 & Heb1); [done|lia|].
  destruct (IH (r + st) eb1 (off + bb)) as (eb' & E & Hlen & Hlow & Hll & Hdata); [done|lia|lia|].
  exists eb'. cbn [pack_blocks]. unfold memcpy_to_eager. fold bb st.
  rewrite Er. cbn [obind]. rewrite Ew. cbn [obind].
  rewrite (proj1 (padd_step r k)), E, (proj2 (padd_step r k)).
  split_and!.
  - by replace (off + bb + Z.of_nat k * bb) with (off + Z.of_nat (S k) * bb) by lia.
  - lia.
  - intros i Hi. rewrite Hlow by lia. rewrite Heb1. by rewrite decide_False by lia.
  - lia.
  - intros b x Hb Hx. destruct (decide (b = 0)) as [->|Hb0].
    + rewrite Hlow by lia. rewrite Heb1, decide_True by lia.
      replace (Z.to_nat (off + 0 * bb + x) - Z.to_nat off)%nat with (Z.to_nat x) by lia.
      rewrite Hbs by lia. destruct (Hm0 x) as [? _]; [done|]. rewrite u64_id by done. f_equal; lia.
    + specialize (Hdata (b - 1) x ltac:(lia) Hx).
      replace (off + b * bb + x) with (off + bb + (b - 1) * bb + x) by lia.
      rewrite Hdata. f_equal. lia.
Qed.

Lemma unpack_blocks_ok k m r eb off :
  blocks_mapped m st bb k r → 0 ≤ off → off + Z.of_nat k * bb ≤ Z.of_nat (length eb) →
  ∃ m', unpack_blocks k d eb m (u64 r) off =
      Done (m', u64 (r + Z.of_nat k * st), off + Z.of_nat k * bb) ∧
    (∀ o, in_blocks st bb k o = false → m' !! (r + o) = m !! (r + o)) ∧
    (∀ o, in_blocks st bb k o = true → ∃ b x, 0 ≤ b < Z.of_nat k ∧ 0 ≤ x < bb ∧
       o = b * st + x ∧ m' !! (r + o) = eb !! Z.to_nat (off + b * bb + x)).
Proof.
  pose proof block_bytes_nonneg as Hbb.
  revert r m off. induction k as [|k IH]; intros r m off Hm Ho Hk.
  { exists m. simpl. rewrite !Z.add_0_r. split_and!; done. }
  destruct (blocks_mapped_S _ _ _ _ _ Hm) as [Hm0 Hm1].
  destruct (eager_read_ok eb off bb) as (bs & Er & Hl & Hbs); [done|done|lia|].
  destruct (write_bytes_ok m (u64 r) bs) as (m1 & Ew & Hm').
  { intros x Hx. destruct (Hm0 x) as [? ?]; [lia|]. by rewrite u64_id. }
  assert (Hm1' : ∀ p, m1 !! p = if (r <=? p) && (p <? r + bb) then bs !! Z.to_nat (p - r) else m !! p).
  { intros p. rewrite Hm'. destruct (decide (bb = 0)) as [E0|].
    - replace ((_ <=? p) && _) with false by lia. by replace ((r <=? p) && _) with false by lia.
    - destruct (Hm0 0) as [? _]; [lia|]. rewrite u64_id by done. by rewrite Hl. }
  destruct (IH (r + st) m1 (off + bb)) as (m' & E & Hout & Hin); [|lia|lia|].
  { intros o Hio. destruct (Hm1 o Hio) as [? ?]. split; [done|]. rewrite Hm1'.
    destruct (_ && _) eqn:E; [|done]. apply lookup_lt_is_Some. lia. }
  exists m'. cbn [unpack_blocks]. unfold memcpy_from_eager. fold bb st.
  rewrite Er. cbn [obind]. rewrite Ew. cbn [obind].
  rewrite (proj1 (padd_step r k)), E, (proj2 (padd_step r k)).
  assert (Hsh : ∀ o, r + o = r + st + (o - st)) by (intros; lia).
  split_and!; [by replace (off + bb + Z.of_nat k * bb) with (off + Z.of_nat (S k) * bb) by lia|..].
  - intros o [Ho0 Ho1]%orb_false_iff. rewrite Hsh, Hout by done. rewrite <- Hsh, Hm1'.
    by replace ((r <=? r + o) && (r + o <? r + bb)) with false by lia.
  - intros o Hio. destruct (in_blocks st bb k (o - st)) eqn:Ek.
    + destruct (Hin _ Ek) as (b & x & Hb & Hx & Hox & Heq). exists (b + 1), x.
      split_and!; [lia|lia|lia|lia|lia|]. rewrite Hsh, Heq. f_equal. lia.
    + exists 0, o. simpl in Hio. rewrite Ek, orb_false_r in Hio.
      split_and!; [lia..|]. rewrite Hsh, Hout by done. rewrite <- Hsh, Hm1'.
      replace ((r <=? r + o) && (r + o <? r + bb)) with true by lia.
      rewrite Hbs by lia. f_equal. lia.
Qed.

(** The nested loops are one loop over all blocks. *)
Lemma pack_blocks_app a b m r eb off :
  pack_blocks (a + b) d m r eb off =
  (let! (r, eb, off) := pack_blocks a d m r eb off in pack_blocks b d m r eb off).
Proof.
  revert r eb off. induction a as [|a IH]; intros; [done|].
  simpl. rewrite obind_assoc. destruct (memcpy_to_eager _ _ _ _ _); simpl; auto.
Qed.

Lemma pack_elements_blocks i m r eb off :
  pack_elements i d m r eb off =
  (let! (_, eb, off) := pack_blocks (i * Z.to_nat (dt_count d)) d m r eb off in Done (eb, off)).
Proof.
  revert r eb off. induction i as [|i IH]; intros; [done|].
  cbn [pack_elements]. replace (S i * Z.to_nat (dt_count d))%nat
    with (Z.to_nat (dt_count d) + i * Z.to_nat (dt_count d))%nat by lia.
  rewrite pack_blocks_app, obind_assoc.
  destruct (pack_blocks _ d m r eb off) as [[[r1 eb1] off1]| | |]; simpl; auto.
Qed.

Lemma unpack_blocks_app a b eb m r off :
  unpack_blocks (a + b) d eb m r off =
  (let! (m, r, off) := unpack_blocks a d eb m r off in unpack_blocks b d eb m r off).
Proof.
  revert m r off. induction a as [|a IH]; intros; [done|].
  simpl. rewrite obind_assoc. destruct (memcpy_from_eager _ _ _ _ _); simpl; auto.
Qed.

Lemma unpack_elements_blocks i eb m r off :
  unpack_elements i d eb m r off =
  (let! (m, _, _) := unpack_blocks (i * Z.to_nat (dt_count d)) d eb m r off in Done m).
Proof.
  revert m r off. induction i as [|i IH]; intros; [done|].
  cbn [unpack_elements]. replace (S i * Z.to_nat (dt_count d))%nat
    with (Z.to_nat (dt_count d) + i * Z.to_nat (dt_count d))%nat by lia.
  rewrite unpack_blocks_app, obind_assoc.
  destruct (unpack_blocks _ d eb m r off) as [[[m1 r1] off1]| | |]; simpl; auto.
Qed.
End loops.

(** ** Sending and receiving eagerly *)
Lemma block_bytes_eq d : wf_dtype d → block_bytes d = dt_blength d * dt_size d.
Proof.
  intros [? ? ? ?]. unfold block_bytes, INT_MAX in *.
  rewrite (u64_id (dt_blength d)) by lia. apply u64_id. nia.
Qed.

Lemma stride_bytes_eq d : wf_dtype d → stride_bytes d = dt_stride d * dt_size d.
Proof.
  intros [? ? ? ?]. unfold stride_bytes, INT_MAX in *.
  rewrite (u64_id (dt_stride d)) by lia. apply u64_id. nia.
Qed.

Lemma total_send_size_ok d n :
  wf_dtype d → 0 < n → payload_size d n ≤ INT_MAX →
  total_send_size d n = Done (payload_size d n) ∧ 0 ≤ payload_size d n.
Proof.
  intros [? ? ? ?] Hn Hp. unfold total_send_size, payload_size in *.
  assert (0 ≤ dt_blength d * dt_count d) by nia.
  assert (dt_blength d * dt_count d ≤ dt_blength d * dt_count d * n) by nia.
  assert (dt_blength d * dt_count d * n ≤ dt_blength d * dt_count d * n * dt_size d) by nia.
  rewrite c_int_bounds by lia. cbn [obind]. rewrite c_int_bounds by lia. cbn [obind].
  unfold INT_MAX in *. rewrite (u64_id (_ * n)) by lia. rewrite u64_id by lia.
  rewrite u32_id by lia. split; [done|lia].
Qed.

(** Every byte of [n] elements at [a] can be accessed. *)
Definition buffer_mapped (m : memory) (d : fdmi_datatype) (n a : Z) : Prop :=
  0 ≤ a < 2 ^ 64 ∧
  ∀ o, layout d n o = true → 0 ≤ a + o < 2 ^ 64 ∧ is_Some (m !! (a + o)).

Lemma buffer_blocks m d n a :
  wf_dtype d → 0 < n → dt_count d ≠ 1 → buffer_mapped m d n a →
  blocks_mapped m (stride_bytes d) (block_bytes d) (Z.to_nat n * Z.to_nat (dt_count d)) a.
Proof.
  intros Hwf Hn Hc [_ Hm] o. rewrite block_bytes_eq, stride_bytes_eq by done.
  intros Ho. apply Hm. unfold layout. rewrite (proj2 (Z.eqb_neq _ _)) by done.
  destruct Hwf. by rewrite Z2Nat.inj_mul by lia.
Qed.

(** What the eager payload holds, by the branch of [fdmi_post_send_msg]. *)
Definition payload_holds (m : memory) (d : fdmi_datatype) (a : Z) (bs : list Z) (k : nat) : Prop :=
  if dt_count d =? 1 then
    ∀ x, 0 ≤ x < Z.of_nat (length bs) → bs !! Z.to_nat x = m !! (a + x)
  else ∀ b x, 0 ≤ b < Z.of_nat k → 0 ≤ x < block_bytes d →
    bs !! Z.to_nat (b * block_bytes d + x) = m !! (a + (b * stride_bytes d + x)).

Lemma eager_payload_consecutive d n m a eb :
  wf_dtype d → 0 < n → dt_count d = 1 → buffer_mapped m d n a →
  ends (eager_payload d n (payload_size d n) m a eb) (λ r,
    Z.of_nat (length r.1.1) = payload_size d n ∧ r.1.2 = eb ∧
    payload_holds m d a r.1.1 (Z.to_nat n * Z.to_nat (dt_count d))).
Proof.
  intros Hwf Hn Hc Hm. pose proof Hwf as [? ? ? ?].
  assert (0 ≤ payload_size d n) by (unfold payload_size; nia).
  unfold eager_payload, payload_holds. rewrite (proj2 (Z.eqb_eq _ _) Hc).
  destruct (read_bytes_ok m a (Z.to_nat (payload_size d n))) as (bs & E & Hl & Hbs).
  { intros x Hx. apply Hm. unfold layout, payload_size in *. rewrite Hc in *. simpl. lia. }
  rewrite E. cbn. split_and!; [lia|done|]. intros. apply Hbs. lia.
Qed.

(** The packing loop lays the blocks out one after the other from the start of
    the eager buffer, and leaves its pointer after the last one. *)
Lemma pack_elements_ok d n m a eb :
  wf_dtype d → 0 < n → dt_count d ≠ 1 → payload_size d n ≤ FDMI_EAGER_BUFF_SIZE →
  buffer_mapped m d n a →
  ends (pack_elements (Z.to_nat n) d m a eb 0) (λ r,
    r.2 = payload_size d n ∧
    Z.of_nat (length r.1) = Z.max (Z.of_nat (length eb)) (payload_size d n) ∧
    (∀ i, payload_size d n ≤ i → r.1 !! Z.to_nat i = eb !! Z.to_nat i) ∧
    payload_holds m d a r.1 (Z.to_nat n * Z.to_nat (dt_count d))).
Proof.
  intros Hwf Hn Hc Hp Hm. pose proof Hwf as [? ? ? ?]. rewrite pack_elements_blocks.
  assert (Hpk : Z.of_nat (Z.to_nat n * Z.to_nat (dt_count d)) * block_bytes d = payload_size d n).
  { rewrite block_bytes_eq by done. unfold payload_size. nia. }
  destruct (pack_blocks_ok d (Z.to_nat n * Z.to_nat (dt_count d)) m a eb 0)
    as (eb' & E & _ & Hhi & Hl & Hd); [by apply buffer_blocks|lia|lia|].
  destruct Hm as [? _]. rewrite (u64_id a) in E by done. rewrite E. cbn [obind ends fst snd].
  split_and!; [lia|lia|intros i Hi; apply Hhi; lia|].
  unfold payload_holds. rewrite (proj2 (Z.eqb_neq _ _) Hc). exact Hd.
Qed.

Lemma eager_copy_ok d n ms mr a r bs :
  wf_dtype d → 0 < n → payload_size d n ≤ FDMI_EAGER_BUFF_SIZE →
  payload_size d n ≤ Z.of_nat (length bs) →
  payload_holds ms d a bs (Z.to_nat n * Z.to_nat (dt_count d)) →
  buffer_mapped mr d n r →
  ends (eager_copy d n bs mr r) (λ mr', ∀ o,
    mr' !! (r + o) = if layout d n o then ms !! (a + o) else mr !! (r + o)).
Proof.
  intros Hwf Hn Hp Hl Hbs Hm. pose proof Hwf as [? ? ? ?].
  assert (0 ≤ payload_size d n) by (unfold payload_size; nia).
  unfold eager_copy, payload_holds, memcpy_from_eager in *. destruct (dt_count d =? 1) eqn:Ec.
  - assert (Hsz : u64 (block_bytes d * u64 n) = payload_size d n).
    { apply Z.eqb_eq in Ec. unfold payload_size in *. rewrite Ec in *.
      unfold FDMI_EAGER_BUFF_SIZE in Hp. rewrite block_bytes_eq by done.
      unfold INT_MAX in *.
      destruct (decide (dt_blength d = 0)) as [E0|]; [by rewrite E0|].
      assert (n ≤ 65536) by nia. rewrite (u64_id n) by lia. rewrite u64_id by lia. lia. }
    rewrite Hsz.
    destruct (eager_read_ok bs 0 (payload_size d n)) as (bs' & Er & Hlb & Hbs'); [lia..|].
    rewrite Er. cbn [obind].
    assert (Hlay : ∀ o, layout d n o = ((0 <=? o) && (o <? payload_size d n))).
    { intros o. unfold layout, payload_size. rewrite Ec. apply Z.eqb_eq in Ec. rewrite Ec.
      do 2 f_equal. lia. }
    destruct (write_bytes_ok mr r bs') as (m' & Ew & Hm').
    { intros x Hx. apply Hm. rewrite Hlay. lia. }
    rewrite Ew. cbn [ends]. intros o. rewrite Hm', Hlay, Hlb.
    destruct ((0 <=? o) && (o <? payload_size d n)) eqn:Eo.
    + replace ((r <=? r + o) && (r + o <? r + payload_size d n)) with true by lia.
      replace (r + o - r) with o by lia. rewrite Hbs' by lia. apply Hbs. lia.
    + by replace ((r <=? r + o) && (r + o <? r + payload_size d n)) with false by lia.
  - rewrite unpack_elements_blocks.
    assert (Hpk : Z.of_nat (Z.to_nat n * Z.to_nat (dt_count d)) * block_bytes d = payload_size d n).
    { rewrite block_bytes_eq by done. unfold payload_size. nia. }
    destruct (unpack_blocks_ok d (Z.to_nat n * Z.to_nat (dt_count d)) mr r bs 0)
      as (m' & E & Hout & Hin); [by apply buffer_blocks; [..|lia|]|lia|lia|].
    destruct Hm as [? _]. rewrite (u64_id r) in E by done. rewrite E. cbn [obind ends].
    intros o. replace (layout d n o) with
      (in_blocks (stride_bytes d) (block_bytes d) (Z.to_nat n * Z.to_nat (dt_count d)) o).
    2: { unfold layout. rewrite Ec, block_bytes_eq, stride_bytes_eq by done.
         by rewrite Z2Nat.inj_mul by lia. }
    destruct (in_blocks _ _ _ o) eqn:Eo; [|by apply Hout].
    destruct (Hin o Eo) as (b & x & Hb & Hx & -> & ->). by apply Hbs.
Qed.

(** Reading behind what a loop has written gives what was there before. *)
Lemma eager_read_same eb eb' n :
  0 ≤ n → Z.of_nat (length eb') = Z.max (Z.of_nat (length eb)) n →
  (∀ i, n ≤ i → eb' !! Z.to_nat i = eb !! Z.to_nat i) →
  eager_read eb' n n = eager_read eb n n.
Proof.
  intros Hn Hl Hhi. unfold eager_read.
  replace (n + n <=? Z.of_nat (length eb')) with (n + n <=? Z.of_nat (length eb)) by lia.
  destruct (n + n <=? _) eqn:E; [|done]. f_equal. apply list_eq. intros i.
  destruct (decide (i < Z.to_nat n)%nat); [|by rewrite !lookup_take_ge by lia].
  rewrite !lookup_take_lt, !lookup_drop by lia.
  replace (Z.to_nat n + i)%nat with (Z.to_nat (n + Z.of_nat i)) by lia. apply Hhi. lia.
Qed.

(** The sender's part and the receiver's part of an eager message. *)
Definition eager_transfer (d : fdmi_datatype) (n : Z) (ms : memory) (a : Z) (eb : list Z)
    (mr : memory) (r : Z) : outcome memory :=
  total <- total_send_size d n ;;
  let! (payload, _, _) := eager_payload d n total ms a eb in
  eager_copy d n payload mr r.

(** An eager transfer of [n] elements of a consecutive datatype whose data
    fits the eager buffer leaves in every byte of the receiver's buffer the byte
    the sender's has at the same offset, and changes no other byte. *)
Theorem eager_transfer_roundtrip d n ms a eb mr r :
  wf_dtype d → 0 < n → dt_count d = 1 → payload_size d n ≤ FDMI_EAGER_BUFF_SIZE →
  buffer_mapped ms d n a → buffer_mapped mr d n r →
  ends (eager_transfer d n ms a eb mr r) (λ mr', ∀ o,
    mr' !! (r + o) = if layout d n o then ms !! (a + o) else mr !! (r + o)).
Proof.
  intros Hwf Hn Hc Hp Hms Hmr. unfold eager_transfer.
  destruct (total_send_size_ok d n) as [-> ?]; [done..|unfold FDMI_EAGER_BUFF_SIZE, INT_MAX in *; lia|].
  cbn [obind]. c_step (eager_payload_consecutive d n ms a eb) as [[bs eb'] off] (Hl & _ & Hh).
  cbn [fst] in *. eapply eager_copy_ok; [done..|lia|done|done].
Qed.

(** C31: datatypes with gaps.  The packing loop of the sender and the unpacking
    loop of the receiver are inverse: unpacking the packed buffer restores every
    byte of the layout at its offset, changes no byte of a gap, and neither loop
    leaves the eager buffer.  But the loop leaves the pointer [eager_buff] after
    the packed data, and this is where [fdmi_post_send_msg] sends from: the
    payload it posts is not the packed data but what the eager buffer held
    behind it before the call, and is undefined where the buffer had not been
    written so far. *)
Theorem pack_unpack_roundtrip d n ms a eb mr r :
  wf_dtype d → 0 < n → dt_count d ≠ 1 → payload_size d n ≤ FDMI_EAGER_BUFF_SIZE →
  buffer_mapped ms d n a → buffer_mapped mr d n r →
  ends (pack_elements (Z.to_nat n) d ms a eb 0) (λ p,
    p.2 = payload_size d n ∧
    ends (unpack_elements (Z.to_nat n) d p.1 mr r 0) (λ mr', ∀ o,
      mr' !! (r + o) = if layout d n o then ms !! (a + o) else mr !! (r + o)) ∧
    eager_payload d n (payload_size d n) ms a eb =
      (bs <- eager_read eb (payload_size d n) (payload_size d n) ;; Done (bs, p.1, payload_size d n))).
Proof.
  intros Hwf Hn Hc Hp Hms Hmr. pose proof Hwf as [? ? ? ?].
  assert (0 ≤ payload_size d n) by (unfold payload_size; nia).
  pose proof (pack_elements_ok d n ms a eb Hwf Hn Hc Hp Hms) as E.
  apply ends_Done in E as ([eb' off] & E & Ho & Hl & Hhi & Hh). rewrite E. cbn [ends fst snd] in *. subst off.
  split; [done|]. split.
  - pose proof (eager_copy_ok d n ms mr a r eb' Hwf Hn Hp) as Hcopy.
    unfold eager_copy in Hcopy. rewrite (proj2 (Z.eqb_neq _ _) Hc) in Hcopy. apply Hcopy; [lia|done|done].
  - unfold eager_payload. rewrite (proj2 (Z.eqb_neq _ _) Hc), E. cbn [obind].
    by rewrite (eager_read_same eb eb').
Qed.

(** Two elements of two one-byte blocks three bytes apart. *)
Definition sample_vector : fdmi_datatype := Datatype FDMI_USRDEF 1 2 1 3.

Definition sample_buffer (a v : Z) : memory :=
  list_to_map (imap (λ i x, (a + Z.of_nat i, x)) (replicate 12 v)).

Lemma sample_vector_wf : wf_dtype sample_vector.
Proof. unfold INT_MAX. by split; cbn. Defined.

Lemma sample_buffer_mapped a v :
  0 ≤ a < 2 ^ 63 → buffer_mapped (sample_buffer a v) sample_vector 2 a.
Proof.
  intros Ha. split; [lia|]. intros o Ho.
  assert (E : o = 0 ∨ o = 3 ∨ o = 6 ∨ o = 9).
  { unfold layout in Ho. change (in_blocks 3 1 4 o = true) in Ho. cbn [in_blocks] in Ho. lia. }
  clear Ho. unfold sample_buffer. cbn -[Z.add Z.of_nat].
  split; [lia|]. destruct E as [->|[->|[->| ->]]]; rewrite !lookup_insert; by repeat case_decide; [..|lia].
Qed.


(** Two elements of three consecutive bytes. *)
Definition sample_block : fdmi_datatype := Datatype FDMI_USRDEF 1 1 3 0.

Lemma sample_block_wf : wf_dtype sample_block.
Proof. unfold INT_MAX. by split; cbn. Defined.

Lemma sample_block_mapped a v :
  0 ≤ a < 2 ^ 63 → buffer_mapped (sample_buffer a v) sample_block 2 a.
Proof.
  intros Ha. split; [lia|]. intros o Ho.
  assert (E : o = 0 ∨ o = 1 ∨ o = 2 ∨ o = 3 ∨ o = 4 ∨ o = 5).
  { unfold layout in Ho. change ((0 <=? o) && (o <? 6) = true) in Ho. lia. }
  clear Ho. unfold sample_buffer. cbn -[Z.add Z.of_nat]. split; [lia|].
  destruct E as [->|[->|[->|[->|[->| ->]]]]]; rewrite !lookup_insert; by repeat case_decide; [..|lia].
Qed.

Lemma eager_transfer_roundtrip_witness :
  wf_dtype sample_block ∧
  ends (eager_transfer sample_block 2 (sample_buffer 100 7) 100 [] (sample_buffer 300 9) 300)
    (λ mr', ∀ o, mr' !! (300 + o) =
       if layout sample_block 2 o then sample_buffer 100 7 !! (100 + o)
       else sample_buffer 300 9 !! (300 + o)).
Proof.
  split; [exact sample_block_wf|]. apply eager_transfer_roundtrip;
    [exact sample_block_wf|done|done|done|by apply sample_block_mapped|by apply sample_block_mapped].
Defined.

Lemma pack_unpack_roundtrip_witness :
  ends (pack_elements 2 sample_vector (sample_buffer 100 7) 100 (replicate 8 3) 0) (λ p,
    ends (unpack_elements 2 sample_vector p.1 (sample_buffer 300 9) 300 0) (λ mr', ∀ o,
      mr' !! (300 + o) = if layout sample_vector 2 o then sample_buffer 100 7 !! (100 + o)
                         else sample_buffer 300 9 !! (300 + o)) ∧
    eager_payload sample_vector 2 4 (sample_buffer 100 7) 100 (replicate 8 3) = Done ([3; 3; 3; 3], p.1, 4)).
Proof.
  eapply ends_mono; [apply (pack_unpack_roundtrip sample_vector 2 (sample_buffer 100 7) 100 (replicate 8 3)
    (sample_buffer 300 9) 300);
    [exact sample_vector_wf|done|done|done|by apply sample_buffer_mapped|by apply sample_buffer_mapped]|].
  intros p (_ & Hun & Hpay). split; [exact Hun|exact Hpay].
Defined.

Example pack_unpack_gaps :
  (let! (eb, _) := pack_elements 2 sample_vector (sample_buffer 100 7) 100 [] 0 in
   mr <- unpack_elements 2 sample_vector eb (sample_buffer 300 9) 300 0 ;;
   read_bytes mr 300 12) = Done [7; 9; 9; 7; 9; 9; 7; 9; 9; 7; 9; 9].
Proof. vm_compute. reflexivity. Qed.

(** ** Sizes of large messages *)

(** An [int] product of [count] elements of [FMI_INT] of 4 GiB and more is
    reduced modulo 2^32 when it is stored in [total_send_size]: the library
    announces only the bytes above 4 GiB, for every such count, without an
    error. *)
Theorem total_send_size_wraps n :
  2 ^ 30 ≤ n ≤ INT_MAX → total_send_size FMI_INT n = Done (payload_size FMI_INT n mod 2 ^ 32).
Proof.
  unfold INT_MAX. intros Hn. unfold total_send_size, payload_size, FMI_INT. cbn [dt_blength dt_count dt_size].
  rewrite c_int_bounds by done. cbn [obind]. rewrite c_int_bounds by (unfold INT_MAX; lia).
  cbn [obind]. rewrite (u64_id (1 * 1 * n)) by lia. by rewrite u64_id by lia.
Qed.

Lemma total_send_size_wraps_witness :
  2 ^ 30 ≤ 2 ^ 30 + 5 ≤ INT_MAX ∧ total_send_size FMI_INT (2 ^ 30 + 5) = Done 20.
Proof.
  split; [unfold INT_MAX; lia|].
  refine (eq_trans (total_send_size_wraps (2 ^ 30 + 5) _) _); [unfold INT_MAX; lia|reflexivity].
Defined.

(** The bytes from the first to the last one of [n] elements. *)
Definition span (d : fdmi_datatype) (n : Z) : Z :=
  if dt_count d =? 1 then dt_blength d * n * dt_size d
  else (dt_stride d * (n * dt_count d - 1) + dt_blength d) * dt_size d.

Lemma in_blocks_bound st bb k o : 0 ≤ st → in_blocks st bb k o = true → o < st * (Z.of_nat k - 1) + bb.
Proof.
  revert o. induction k as [|k IH]; intros o Hst Ho; [done|]. cbn [in_blocks] in Ho.
  apply orb_true_iff in Ho as [Ho|Ho]; [nia|]. apply IH in Ho; [lia|done].
Qed.

Lemma in_blocks_last st bb k : 0 < bb → in_blocks st bb (S k) (st * Z.of_nat k + bb - 1) = true.
Proof.
  intros Hbb. induction k as [|k IH]; cbn [in_blocks]; apply orb_true_iff; [left; lia|right].
  cbn [in_blocks] in IH. by replace (st * Z.of_nat (S k) + bb - 1 - st) with (st * Z.of_nat k + bb - 1) by lia.
Qed.

(** [span] is the end of the layout. *)
Lemma layout_span d n :
  wf_dtype d → 0 < dt_count d → 0 < dt_blength d → 0 < n →
  (∀ o, layout d n o = true → o < span d n) ∧ layout d n (span d n - 1) = true.
Proof.
  intros [? ? ? ?] Hc Hb Hn. unfold layout, span. destruct (dt_count d =? 1) eqn:Ec; [split; [lia|nia]|].
  assert (Hk : Z.of_nat (Z.to_nat (n * dt_count d)) = n * dt_count d) by nia. split.
  - intros o Ho%in_blocks_bound; [|nia]. rewrite Hk in Ho. nia.
  - destruct (Z.to_nat (n * dt_count d)) as [|k] eqn:Ek; [nia|].
    replace ((dt_stride d * (n * dt_count d - 1) + dt_blength d) * dt_size d - 1)
      with (dt_stride d * dt_size d * Z.of_nat k + dt_blength d * dt_size d - 1) by nia.
    apply in_blocks_last. nia.
Qed.

(** The bytes the library means to register: those of one element times the
    number of elements. *)
Definition elements_size (d : fdmi_datatype) (n : Z) : Z :=
  (dt_stride d * (dt_count d - 1) + dt_blength d) * dt_size d * n.

Lemma reg_size_value d n :
  wf_dtype d → 0 < dt_count d → 0 < n ≤ INT_MAX →
  dt_stride d * (dt_count d - 1) + dt_blength d ≤ INT_MAX → elements_size d n < 2 ^ 64 →
  reg_size d n = Done (elements_size d n).
Proof.
  intros [? ? ? ?] Hc Hn He Hr. unfold reg_size, elements_size in *.
  assert (0 ≤ dt_stride d * (dt_count d - 1)) by nia.
  rewrite c_int_bounds by lia. cbn [obind]. rewrite c_int_bounds by lia. cbn [obind].
  rewrite c_int_bounds by lia. cbn [obind].
  set (e := dt_stride d * (dt_count d - 1) + dt_blength d) in *. unfold INT_MAX in *.
  assert (0 ≤ e * dt_size d < 2 ^ 64) by nia.
  assert (0 ≤ e * dt_size d * n) by nia.
  rewrite (u64_id e), (u64_id (e * _)), (u64_id n) by lia. by rewrite u64_id by lia.
Qed.

(** The two sizes compared. *)
Lemma span_elements_size d n :
  wf_dtype d → 0 < dt_count d → 0 < n →
  (span d n ≤ elements_size d n ↔ dt_count d = 1 ∨ n = 1 ∨ dt_stride d ≤ dt_blength d) ∧
  (dt_count d = 1 ∨ dt_blength d ≤ dt_stride d → elements_size d n ≤ span d n).
Proof.
  intros [? ? ? ?] Hc Hn. unfold span, elements_size. destruct (dt_count d =? 1) eqn:Ec.
  - apply Z.eqb_eq in Ec. rewrite Ec. replace (1 - 1) with 0 by lia. rewrite Z.mul_0_r, Z.add_0_l.
    replace (dt_blength d * n * dt_size d) with (dt_blength d * dt_size d * n) by lia.
    split; [split; [by left|lia]|lia].
  - assert (E : (dt_stride d * (n * dt_count d - 1) + dt_blength d) * dt_size d =
      (dt_stride d * (dt_count d - 1) + dt_blength d) * dt_size d * n +
      (n - 1) * (dt_stride d - dt_blength d) * dt_size d) by ring.
    rewrite E. generalize ((dt_stride d * (dt_count d - 1) + dt_blength d) * dt_size d * n). intros x.
    clear E. apply Z.eqb_neq in Ec. split; [split|].
    + intros Hle. right. destruct (decide (n = 1)); [by left|right].
      assert ((n - 1) * (dt_stride d - dt_blength d) * dt_size d ≤ 0) by lia.
      assert ((n - 1) * (dt_stride d - dt_blength d) ≤ 0) by nia. nia.
    + intros [?|[->|?]]; [done|lia|].
      assert ((n - 1) * (dt_stride d - dt_blength d) ≤ 0) by nia. nia.
    + intros [?|?]; [done|].
      assert (0 ≤ (n - 1) * (dt_stride d - dt_blength d)) by nia. nia.
Qed.

(** ** Reductions of [int]s *)

(** The value of [FMI_INT] a reduction computes. *)
Definition int_op (op : fdmi_op) (a b : Z) : Z :=
  match op with
  | FMI_MAX => Z.max a b
  | FMI_MIN => Z.min a b
  | FMI_SUM => a + b
  | FMI_NON => a
  end.

Lemma fdmi_datatype_op_int op a b :
  fdmi_datatype_op op FMI_INT (VInt a) (VInt b) =
  if decide (op = FMI_SUM) then r <- c_int (a + b) ;; Done (VInt r) else Done (VInt (int_op op a b)).
Proof.
  destruct op; cbn; try done.
  - unfold Z.gtb. case_decide; [done|]. do 2 f_equal.
    destruct (Z.compare_spec a b); lia.
  - do 2 f_equal. destruct (a <? b) eqn:E; lia.
Qed.

(** Reducing a list of contributions into [acc], in the order they arrive. *)
Fixpoint reduce (op : fdmi_op) (d : fdmi_datatype) (acc : cval) (l : list cval) : outcome cval :=
  match l with
  | [] => Done acc
  | v :: l => acc <- fdmi_datatype_op op d acc v ;; reduce op d acc l
  end.

Lemma reduce_int op a l :
  op = FMI_MAX ∨ op = FMI_MIN →
  reduce op FMI_INT (VInt a) (VInt <$> l) = Done (VInt (foldl (int_op op) a l)).
Proof.
  intros Hop. revert a. induction l as [|b l IH]; intros a; [done|].
  cbn [reduce fmap list_fmap]. rewrite fdmi_datatype_op_int.
  rewrite decide_False by (by destruct Hop as [-> | ->]). apply IH.
Qed.

(** The maximum and the minimum of [int]s do not depend on the order in
    which the contributions of the ranks arrive, and are an upper and a lower
    bound of all of them. *)
Theorem reduce_order_independent op a l l' :
  op = FMI_MAX ∨ op = FMI_MIN → l ≡ₚ l' →
  ∃ r, reduce op FMI_INT (VInt a) (VInt <$> l) = Done (VInt r) ∧
       reduce op FMI_INT (VInt a) (VInt <$> l') = Done (VInt r) ∧
       r ∈ a :: l ∧ ∀ x, x ∈ a :: l → if decide (op = FMI_MAX) then x ≤ r else r ≤ x.
Proof.
  intros Hop Hl. exists (foldl (int_op op) a l). rewrite !reduce_int by done.
  split_and!; [done| | |].
  - do 2 f_equal. revert a. induction Hl; intros acc; simpl; [done|auto| |by rewrite IHHl2, IHHl1].
    f_equal. destruct Hop as [-> | ->]; simpl; lia.
  - clear Hl. revert a. induction l as [|b l IH]; intros a; simpl; [by left|].
    specialize (IH (int_op op a b)). apply elem_of_cons in IH as [E|?]; [|by right; right].
    rewrite E. assert (int_op op a b = a ∨ int_op op a b = b) as [-> | ->];
      [destruct Hop as [-> | ->]; simpl; lia|by left|by right; left].
  - clear Hl. revert a. induction l as [|b l IH]; intros a x Hx; simpl.
    { apply list_elem_of_singleton in Hx as ->. by case_decide. }
    assert (Ha : if decide (op = FMI_MAX) then a ≤ int_op op a b ∧ b ≤ int_op op a b
                 else int_op op a b ≤ a ∧ int_op op a b ≤ b).
    { destruct Hop as [-> | ->]; simpl; lia. }
    pose proof (IH (int_op op a b) (int_op op a b) (list_elem_of_here _ _)) as Hh.
    apply elem_of_cons in Hx as [->|[->|Hx]%elem_of_cons].
    + case_decide; lia.
    + case_decide; lia.
    + apply IH. by right.
Qed.

Lemma reduce_order_independent_witness :
  [3; 1; 2] ≡ₚ [1; 2; 3] ∧
  ∃ r, reduce FMI_MAX FMI_INT (VInt 0) (VInt <$> [3; 1; 2]) = Done (VInt r) ∧
       reduce FMI_MAX FMI_INT (VInt 0) (VInt <$> [1; 2; 3]) = Done (VInt r) ∧
       r ∈ 0 :: [3; 1; 2] ∧
       ∀ x, x ∈ 0 :: [3; 1; 2] → if decide (FMI_MAX = FMI_MAX) then x ≤ r else r ≤ x.
Proof.
  assert (P : [3; 1; 2] ≡ₚ [1; 2; 3]).
  { transitivity [1; 3; 2]; [apply perm_swap|apply perm_skip, perm_swap]. }
  split; [exact P|]. apply reduce_order_independent; [by left|exact P].
Defined.

(** The table has three columns: a reduction of bytes, characters or vectors
    reads outside it. *)
Lemma fdmi_datatype_op_outside op d a b :
  (3 ≤ dtype_code (dt_dtype d))%nat → fdmi_datatype_op op d a b = Undef.
Proof. destruct op, (dt_dtype d) eqn:E; unfold fdmi_datatype_op; rewrite E; simpl; lia || done. Qed.
