(* ===== verification/ProcMan.v ===== *)
(** * src/src/fdmi_proc_man.c: communicators, rank maps and process states

    A communicator maps virtual ranks to physical ranks ([rmap_vtop]) and back
    ([rmap_ptov]); communicators form chains through [comm_master].  The
    process manager also keeps the state of every physical rank and a table
    from connection identifiers to physical ranks. *)
From S2P Require Import Prelude Mem Queue Hashtable.

Definition EXTRA : Z := 2.

Inductive prank_state := FDMI_PFAILURE | FDMI_PCOMPUTE | FDMI_PSTANDBY | FDMI_PNOTHING.

#[export] Instance prank_state_eq_dec : EqDecision prank_state.
Proof. solve_decision. Defined.

(** [struct fdmi_communicator]. *)
Record fdmi_communicator := Comm {
  comm_master : Z;
  comm_id : Z;
  comm_vrank : Z;
  comm_psize : Z;
  comm_size : Z;
  rmap_ptov_size : Z;
  c_rmap_ptov : Z;
  rmap_vtop_size : Z;
  c_rmap_vtop : Z;
}.

(** The live communicators, the [int] arrays and the identifier counter. *)
Record comm_store := CommStore {
  cs_comms : heap fdmi_communicator;
  cs_arrays : heap (list Z);
  comm_id_counter : Z;
}.

(** The file's globals.  [pm_rmap_vtop] and [pm_rmap_ptov] are the global
    pointers [rmap_vtop] and [rmap_ptov], which no code assigns. *)
Record proc_man := ProcMan {
  pm_store : comm_store;
  prank_state_list : list prank_state;
  hstb_itop : fdmi_hashtable;
  starting_prank_q : fdmi_queue;
  pm_ints : heap Z;
  pm_rmap_vtop : Z;
  pm_rmap_ptov : Z;
  fdmi_psize : Z;
  fdmi_prank : Z;
  fdmi_next_prank : Z;
  fdmi_comm_master_ignore : Z;
  fdmi_comm_master_exclude : Z;
  fdmi_comm_master_elect : Z;
  fmi_comm_world : Z;
}.

Definition set_store (pm : proc_man) (cs : comm_store) : proc_man :=
  ProcMan cs (prank_state_list pm) (hstb_itop pm) (starting_prank_q pm) (pm_ints pm)
    (pm_rmap_vtop pm) (pm_rmap_ptov pm) (fdmi_psize pm) (fdmi_prank pm) (fdmi_next_prank pm)
    (fdmi_comm_master_ignore pm) (fdmi_comm_master_exclude pm) (fdmi_comm_master_elect pm)
    (fmi_comm_world pm).
Definition set_states (pm : proc_man) (l : list prank_state) (next : Z) : proc_man :=
  ProcMan (pm_store pm) l (hstb_itop pm) (starting_prank_q pm) (pm_ints pm)
    (pm_rmap_vtop pm) (pm_rmap_ptov pm) (fdmi_psize pm) (fdmi_prank pm) next
    (fdmi_comm_master_ignore pm) (fdmi_comm_master_exclude pm) (fdmi_comm_master_elect pm)
    (fmi_comm_world pm).
Definition set_itop (pm : proc_man) (ht : fdmi_hashtable) : proc_man :=
  ProcMan (pm_store pm) (prank_state_list pm) ht (starting_prank_q pm) (pm_ints pm)
    (pm_rmap_vtop pm) (pm_rmap_ptov pm) (fdmi_psize pm) (fdmi_prank pm) (fdmi_next_prank pm)
    (fdmi_comm_master_ignore pm) (fdmi_comm_master_exclude pm) (fdmi_comm_master_elect pm)
    (fmi_comm_world pm).
Definition set_starting (pm : proc_man) (q : fdmi_queue) (ints : heap Z) : proc_man :=
  ProcMan (pm_store pm) (prank_state_list pm) (hstb_itop pm) q ints
    (pm_rmap_vtop pm) (pm_rmap_ptov pm) (fdmi_psize pm) (fdmi_prank pm) (fdmi_next_prank pm)
    (fdmi_comm_master_ignore pm) (fdmi_comm_master_exclude pm) (fdmi_comm_master_elect pm)
    (fmi_comm_world pm).

(** ** Arrays: an index outside the array is undefined. *)
Definition aget {A} (l : list A) (i : Z) : outcome A :=
  if i <? 0 then Undef else match l !! Z.to_nat i with Some v => Done v | None => Undef end.
Definition aset {A} (l : list A) (i : Z) (v : A) : outcome (list A) :=
  if (i <? 0) || (Z.of_nat (length l) <=? i) then Undef else Done (<[Z.to_nat i := v]> l).

(** An array of [n] entries whose first [k] are the identity and the others
    [-1]: what the initialisation loops store. *)
Definition rank_map (n k : Z) : list Z := (λ i, if i <? k then i else -1) <$> seqZ 0 n.

Section ops.
Context `{Malloc}.

(** ** Creating communicators

    Each function allocates the arrays and the structure; as the heaps are
    typed, the order of the allocations does not show. *)
Definition new_comm (cs : comm_store) (master vrank psize size ptov_size vtop_size : Z)
    (ptov vtop : list Z) : outcome (Z * comm_store) :=
  counter <- c_int (comm_id_counter cs + 1) ;;
  let! (p, arrays) := fdmi_malloc (cs_arrays cs) ptov in
  let! (v, arrays) := fdmi_malloc arrays vtop in
  let! (c, comms) := fdmi_malloc (cs_comms cs)
     (Comm master (comm_id_counter cs) vrank psize size ptov_size p vtop_size v) in
  Done (c, CommStore comms arrays counter).

Definition fdmi_proc_man_comm_init (cs : comm_store) (psize numspare numproc prank : Z)
    : outcome (Z * comm_store) :=
  size <- c_int (psize * EXTRA) ;;
  new_comm cs NULL (if prank <? psize then prank else -1) psize psize size size
    (rank_map size psize) (rank_map size psize).

Definition fdmi_init_comm_world (cs : comm_store) (master : Z) : outcome (Z * comm_store) :=
  cm <- peek (cs_comms cs) master ;;
  new_comm cs master (comm_vrank cm) (comm_psize cm) (comm_size cm)
    (rmap_ptov_size cm) (rmap_vtop_size cm)
    (rank_map (rmap_ptov_size cm) (comm_size cm)) (rank_map (rmap_vtop_size cm) (comm_size cm)).

(** [memcpy] of [n] entries out of an array. *)
Definition copy_array (arrays : heap (list Z)) (a n : Z) : outcome (list Z) :=
  l <- peek arrays a ;;
  if n <=? Z.of_nat (length l) then Done (take (Z.to_nat n) l) else Undef.

Definition fdmi_verbs_comm_dup (cs : comm_store) (comm : Z) : outcome (Z * comm_store) :=
  cm <- peek (cs_comms cs) comm ;;
  ptov <- copy_array (cs_arrays cs) (c_rmap_ptov cm) (rmap_ptov_size cm) ;;
  vtop <- copy_array (cs_arrays cs) (c_rmap_vtop cm) (rmap_vtop_size cm) ;;
  new_comm cs (comm_master cm) (comm_vrank cm) (comm_psize cm) (comm_size cm)
    (rmap_ptov_size cm) (rmap_vtop_size cm) ptov vtop.

(** [fdmi_comm_set] uses the arrays it is given. *)
Definition fdmi_comm_set (cs : comm_store) (ocomm size vrank psize ptov vtop : Z)
    : outcome (Z * comm_store) :=
  counter <- c_int (comm_id_counter cs + 1) ;;
  cm <- peek (cs_comms cs) ocomm ;;
  let! (c, comms) := fdmi_malloc (cs_comms cs)
    (Comm ocomm (comm_id_counter cs) vrank psize size
       (rmap_ptov_size cm) ptov (rmap_vtop_size cm) vtop) in
  Done (c, CommStore comms (cs_arrays cs) counter).

Definition fdmi_init_comm_world_ignore (pm : proc_man) : outcome (Z * comm_store) :=
  fdmi_init_comm_world (pm_store pm) (fdmi_comm_master_ignore pm).
Definition fdmi_init_comm_world_exclude (pm : proc_man) : outcome (Z * comm_store) :=
  fdmi_init_comm_world (pm_store pm) (fdmi_comm_master_exclude pm).
Definition fdmi_init_comm_world_elect (pm : proc_man) : outcome (Z * comm_store) :=
  fdmi_init_comm_world (pm_store pm) (fdmi_comm_master_elect pm).

(** The states [fdmi_proc_man_init] stores. *)
Definition initial_states (psize vsize : Z) : list prank_state :=
  (λ i, if i <? vsize then FDMI_PCOMPUTE else if i <? psize then FDMI_PSTANDBY else FDMI_PNOTHING)
    <$> seqZ 0 (psize * EXTRA).

(** The start of the process: static variables are zero; [qaddr], [addr] and
    the garbage are those of the queues [fdmi_queue_create] makes. *)
Definition fdmi_proc_man_init (psize numspare numproc prank : Z)
    (addr garbage : nat → Z) (qaddr qgarbage : Z) : outcome proc_man :=
  spare <- c_int (numspare * numproc) ;;
  vsize <- c_int (psize - spare) ;;
  entries <- c_int (psize * EXTRA) ;;
  ht <- fdmi_hashtable_create (i32 (4 * psize * EXTRA)) addr garbage ;;
  q <- fdmi_queue_create qaddr qgarbage ;;
  let cs := CommStore empty_heap empty_heap 0 in
  let! (ignore, cs) := fdmi_proc_man_comm_init cs psize 0 numproc prank in
  let! (exclude, cs) := fdmi_proc_man_comm_init cs psize numspare numproc prank in
  let! (elect, cs) := fdmi_proc_man_comm_init cs psize numspare numproc prank in
  let! (world, cs) := fdmi_init_comm_world cs elect in
  Done (ProcMan cs (initial_states psize vsize) ht q empty_heap NULL NULL
          psize prank vsize ignore exclude elect world).

(** ** Translating ranks *)

(** The communicators [fdmi_comm_get_vrank] collects in [comms[128 * 2]]:
    the entry after the last one is written too. *)
Fixpoint master_chain (room : nat) (cs : comm_store) (c : Z) : outcome (list Z) :=
  match room with
  | O => Undef
  | S room =>
      cm <- peek (cs_comms cs) c ;;
      if comm_master cm =? NULL then Done [c]
      else l <- master_chain room cs (comm_master cm) ;; Done (c :: l)
  end.

Definition map_get (cs : comm_store) (a rank : Z) : outcome Z :=
  l <- peek (cs_arrays cs) a ;; aget l rank.

(** The rank through [rmap_ptov], from the last communicator to the first. *)
Fixpoint ptov_chain (cs : comm_store) (l : list Z) (rank : Z) : outcome Z :=
  match l with
  | [] => Done rank
  | c :: l => rank <- ptov_chain cs l rank ;;
              cm <- peek (cs_comms cs) c ;;
              map_get cs (c_rmap_ptov cm) rank
  end.

(** The parameter [prank] is not used: the global is. *)
Definition fdmi_comm_get_vrank (pm : proc_man) (comm prank : Z) : outcome Z :=
  l <- master_chain 255 (pm_store pm) comm ;;
  ptov_chain (pm_store pm) l (fdmi_prank pm).

Fixpoint get_prank_loop (fuel : nat) (cs : comm_store) (cur rank : Z) : outcome Z :=
  if cur =? NULL then Done rank else
  match fuel with
  | O => Diverge
  | S fuel =>
      cm <- peek (cs_comms cs) cur ;;
      rank <- map_get cs (c_rmap_vtop cm) rank ;;
      get_prank_loop fuel cs (comm_master cm) rank
  end.

(** A chain has at most as many communicators as are live: with one more round
    the loop is in a cycle. *)
Definition fdmi_comm_get_prank (cs : comm_store) (comm vrank : Z) : outcome Z :=
  if vrank =? -1 then Done vrank
  else get_prank_loop (size (cells (cs_comms cs))) cs comm vrank.

(** ** Replacing failed ranks *)

(** One pair of ranks [(f, e)] of the inner loop of [fdmi_update_comm_world]. *)
Definition update_pair (ptov vtop : list Z) (f e : Z) : outcome (list Z * list Z) :=
  old <- aget ptov f ;;
  if old =? -2 then Done (ptov, vtop)
  else
    vtop <- aset vtop old e ;;
    ptov <- aset ptov e old ;;
    ptov <- aset ptov f (-2) ;;
    Done (ptov, vtop).

Fixpoint update_range (fuel : nat) (f fend e eend : Z) (ptov vtop : list Z)
    : outcome (list Z * list Z) :=
  if (f <? fend) && (e <? eend) then
    match fuel with
    | O => Diverge
    | S fuel => let! (ptov, vtop) := update_pair ptov vtop f e in
                update_range fuel (f + 1) fend (e + 1) eend ptov vtop
    end
  else Done (ptov, vtop).

(** The four parallel arrays as one list of
    [(failed_offset, failed_range, elected_offset, elected_range)]. *)
Fixpoint update_ranges (rs : list (Z * Z * Z * Z)) (ptov vtop : list Z)
    : outcome (list Z * list Z) :=
  match rs with
  | [] => Done (ptov, vtop)
  | (fo, fr, eo, er) :: rs =>
      fend <- c_int (fo + fr) ;; eend <- c_int (eo + er) ;;
      let! (ptov, vtop) := update_range (Z.to_nat fr) fo fend eo eend ptov vtop in
      update_ranges rs ptov vtop
  end.

Definition fdmi_update_comm_world (pm : proc_man) (rs : list (Z * Z * Z * Z)) : outcome proc_man :=
  let cs := pm_store pm in
  cm <- peek (cs_comms cs) (fdmi_comm_master_elect pm) ;;
  ptov <- peek (cs_arrays cs) (c_rmap_ptov cm) ;;
  vtop <- peek (cs_arrays cs) (c_rmap_vtop cm) ;;
  let! (ptov, vtop) := update_ranges rs ptov vtop in
  arrays <- poke (cs_arrays cs) (c_rmap_ptov cm) ptov ;;
  arrays <- poke arrays (c_rmap_vtop cm) vtop ;;
  vrank <- aget ptov (fdmi_prank pm) ;;
  comms <- poke (cs_comms cs) (fdmi_comm_master_elect pm)
    (Comm (comm_master cm) (comm_id cm) vrank (comm_psize cm) (comm_size cm)
       (rmap_ptov_size cm) (c_rmap_ptov cm) (rmap_vtop_size cm) (c_rmap_vtop cm)) ;;
  Done (set_store pm (CommStore comms arrays (comm_id_counter cs))).

(** The three loops of [fdmi_reallocate_state_listd]; a range is an
    [(offset, range)] pair. *)
Fixpoint mark_failed (n : nat) (j : Z) (l : list prank_state) : outcome (list prank_state) :=
  match n with
  | O => Done l
  | S n => l <- aset l j FDMI_PFAILURE ;; mark_failed n (j + 1) l
  end.

Fixpoint mark_all_failed (failed : list (Z * Z)) (l : list prank_state) : outcome (list prank_state) :=
  match failed with
  | [] => Done l
  | (o, r) :: failed => l <- mark_failed (Z.to_nat r) o l ;; mark_all_failed failed l
  end.

(** [while (prank_state_list[++sid] != FDMI_PSTANDBY);]: the scan of [l] from
    index [sid] reads past its end when no rank stands by. *)
Fixpoint first_standby (l : list prank_state) (sid : Z) : outcome Z :=
  match l with
  | [] => Undef
  | s :: l => if decide (s = FDMI_PSTANDBY) then Done sid else first_standby l (sid + 1)
  end.

Fixpoint elect_ranges (sid : Z) (failed : list (Z * Z)) : outcome (list (Z * Z)) :=
  match failed with
  | [] => Done []
  | (_, r) :: failed => next <- c_int (sid + r) ;;
                        es <- elect_ranges next failed ;; Done ((sid, r) :: es)
  end.

(** The last loop over one elected range: the list is left as it was. *)
Fixpoint check_elected (n : nat) (j : Z) (l : list prank_state) : outcome (list prank_state) :=
  match n with
  | O => Done l
  | S n =>
      s <- aget l j ;;
      match s with
      | FDMI_PCOMPUTE => check_elected n (j + 1) l
      | FDMI_PSTANDBY => l <- aset l j FDMI_PSTANDBY ;; check_elected n (j + 1) l
      | FDMI_PFAILURE => Fatal "Cannot reallocate failed node rank"
      | FDMI_PNOTHING => check_elected n (j + 1) l
      end
  end.

Fixpoint check_all_elected (es : list (Z * Z)) (l : list prank_state) : outcome (list prank_state) :=
  match es with
  | [] => Done l
  | (o, r) :: es => l <- check_elected (Z.to_nat r) o l ;; check_all_elected es l
  end.

(** [elected] holds the ranges elected before, for the first failures; the
    result is the whole array. *)
Definition fdmi_reallocate_state_listd (pm : proc_man) (failed elected : list (Z * Z))
    : outcome (list (Z * Z) * proc_man) :=
  l <- mark_all_failed failed (prank_state_list pm) ;;
  sid <- first_standby l 0 ;;
  es <- elect_ranges sid (drop (length elected) failed) ;;
  l <- check_all_elected es l ;;
  Done (elected ++ es, set_states pm l (fdmi_next_prank pm)).

(** ** States of ranks *)
Definition fdmi_rmap_is_standby (pm : proc_man) (prank : Z) : outcome bool :=
  s <- aget (prank_state_list pm) prank ;; Done (bool_decide (s = FDMI_PSTANDBY)).

Definition fdmi_prank_state (pm : proc_man) : outcome Z :=
  b <- fdmi_rmap_is_standby pm (fdmi_prank pm) ;; Done (if (b : bool) then -1 else 0).

Fixpoint next_prank_loop (n : nat) (i : Z) (pm : proc_man) : outcome (Z * proc_man) :=
  match n with
  | O => Undef (* the end of a function that returns a value *)
  | S n =>
      start <- c_int (fdmi_next_prank pm + i) ;;
      let next_prank := Z.rem start (fdmi_psize pm) in
      s <- aget (prank_state_list pm) next_prank ;;
      if decide (s = FDMI_PSTANDBY) then
        l <- aset (prank_state_list pm) next_prank FDMI_PCOMPUTE ;;
        Done (next_prank, set_states pm l (next_prank + 1))
      else next_prank_loop n (i + 1) pm
  end.

Definition fdmi_get_next_prank (pm : proc_man) : outcome (Z * proc_man) :=
  next_prank_loop (Z.to_nat (fdmi_psize pm)) 0 pm.

(** ** The global maps and the connection table *)
Definition fdmi_rmap_btw_vandp_add (pm : proc_man) (vrank prank : Z) : outcome proc_man :=
  entries <- c_int (fdmi_psize pm * EXTRA) ;;
  if (entries <=? vrank) || (entries <=? prank)
  then Fatal "Size of vrank or prank exceeded mapping table size"
  else
    let cs := pm_store pm in
    vtop <- peek (cs_arrays cs) (pm_rmap_vtop pm) ;;
    vtop <- aset vtop vrank prank ;;
    arrays <- poke (cs_arrays cs) (pm_rmap_vtop pm) vtop ;;
    ptov <- peek arrays (pm_rmap_ptov pm) ;;
    ptov <- aset ptov prank vrank ;;
    arrays <- poke arrays (pm_rmap_ptov pm) ptov ;;
    Done (set_store pm (CommStore (cs_comms cs) arrays (comm_id_counter cs))).

Definition fdmi_rmap_ptov_get (pm : proc_man) (prank : Z) : outcome Z :=
  map_get (pm_store pm) (pm_rmap_ptov pm) prank.
Definition fdmi_rmap_vtop_get (pm : proc_man) (vrank : Z) : outcome Z :=
  map_get (pm_store pm) (pm_rmap_vtop pm) vrank.

Definition fdmi_rmap_itop_add (pm : proc_man) (id prank : Z) : outcome proc_man :=
  ht <- fdmi_hashtable_add (hstb_itop pm) id prank ;; Done (set_itop pm ht).
Definition fdmi_rmap_itop_get (pm : proc_man) (id : Z) : outcome (Z * proc_man) :=
  let! (d, ht) := fdmi_hashtable_get (hstb_itop pm) id in Done (i32 d, set_itop pm ht).

Definition fdmi_proc_update_map (pm : proc_man) (old_prank new_prank new_vrank : Z)
    : outcome proc_man :=
  l <- aset (prank_state_list pm) old_prank FDMI_PFAILURE ;;
  fdmi_rmap_btw_vandp_add (set_states pm l (fdmi_next_prank pm)) new_vrank new_prank.

Definition fdmi_proc_get_new_vp_pair (pm : proc_man) (old_prank : Z)
    : outcome (Z * Z * proc_man) :=
  l <- aset (prank_state_list pm) old_prank FDMI_PFAILURE ;;
  let pm := set_states pm l (fdmi_next_prank pm) in
  new_vrank <- fdmi_rmap_ptov_get pm old_prank ;;
  let! (new_prank, pm) := fdmi_get_next_prank pm in
  pm <- fdmi_rmap_btw_vandp_add pm new_vrank new_prank ;;
  Done (new_prank, new_vrank, pm).

Definition fdmi_rank_man_get_starting_prank (pm : proc_man) : outcome (Z * proc_man) :=
  let! (p, q) := fdmi_queue_lock_deq (starting_prank_q pm) in
  if p =? NULL then Done (-1, set_starting pm q (pm_ints pm))
  else prank <- peek (pm_ints pm) p ;;
       ints <- fdmi_free (pm_ints pm) p ;;
       Done (prank, set_starting pm q ints).
End ops.

(** ** Arrays *)
Lemma aget_Done {A} (l : list A) i v : aget l i = Done v ↔ 0 ≤ i ∧ l !! Z.to_nat i = Some v.
Proof.
  unfold aget. destruct (i <? 0) eqn:E; [split; [done|lia]|].
  destruct (l !! Z.to_nat i); naive_solver lia.
Qed.

Lemma aget_inrange {A} (l : list A) i v : aget l i = Done v → 0 ≤ i < Z.of_nat (length l).
Proof. intros [? ?%lookup_lt_Some]%aget_Done. lia. Qed.

Lemma aget_lt {A} (l : list A) i : 0 ≤ i < Z.of_nat (length l) → ∃ v, aget l i = Done v.
Proof.
  intros. destruct (lookup_lt_is_Some_2 l (Z.to_nat i)) as [v Hv]; [lia|].
  exists v. apply aget_Done. split; [lia|done].
Qed.

Lemma aset_ok {A} (l : list A) i v :
  0 ≤ i < Z.of_nat (length l) → aset l i v = Done (<[Z.to_nat i := v]> l).
Proof. intros. unfold aset. by replace ((i <? 0) || (Z.of_nat (length l) <=? i)) with false by lia. Qed.

Lemma aget_insert {A} (l : list A) i v j :
  0 ≤ i < Z.of_nat (length l) →
  aget (<[Z.to_nat i := v]> l) j = if decide (j = i) then Done v else aget l j.
Proof.
  intros Hi. unfold aget. destruct (j <? 0) eqn:E; case_decide; try lia; [done|subst|].
  - by rewrite list_lookup_insert_eq by lia.
  - by rewrite list_lookup_insert_ne by lia.
Qed.

Lemma aget_seqZ {A} (f : Z → A) n i : 0 ≤ i < n → aget (f <$> seqZ 0 n) i = Done (f i).
Proof.
  intros. apply aget_Done. split; [lia|]. rewrite list_lookup_fmap, lookup_seqZ_lt by lia.
  simpl. do 2 f_equal. lia.
Qed.

Lemma aget_rank_map n k i : 0 ≤ i < n → aget (rank_map n k) i = Done (if i <? k then i else -1).
Proof. apply (aget_seqZ (λ i, if i <? k then i else -1)). Qed.

Lemma length_rank_map n k : length (rank_map n k) = Z.to_nat n.
Proof. unfold rank_map. by rewrite length_fmap, length_seqZ. Qed.

(** ** Rank maps: two arrays that are inverse partial bijections *)
Record maps_ok (ptov vtop : list Z) : Prop := {
  vtop_ptov v p : aget vtop v = Done p → 0 ≤ p → aget ptov p = Done v;
  ptov_vtop p v : aget ptov p = Done v → 0 ≤ v → aget vtop v = Done p;
}.

Lemma rank_map_ok n k : 0 ≤ k → maps_ok (rank_map n k) (rank_map n k).
Proof.
  intros Hk. split; intros a b Ha Hb; pose proof (aget_inrange _ _ _ Ha) as Hr;
    rewrite length_rank_map in Hr; rewrite aget_rank_map in Ha by lia; injection Ha as Ha;
    destruct (a <? k) eqn:E; try lia; subst b; rewrite aget_rank_map by lia; by rewrite E.
Qed.

(** Half of it, which replacing ranks keeps: a virtual rank is on the physical
    rank that says it hosts it. *)
Definition hosts_ok (ptov vtop : list Z) : Prop :=
  ∀ p v, aget ptov p = Done v → 0 ≤ v → aget vtop v = Done p.

Section update.
Context (ptov vtop : list Z) (Hok : hosts_ok ptov vtop).

Lemma update_pair_skip f e : aget ptov f = Done (-2) → update_pair ptov vtop f e = Done (ptov, vtop).
Proof. unfold update_pair. by intros ->. Qed.

Lemma update_pair_move f e old :
  aget ptov f = Done old → 0 ≤ old → 0 ≤ e < Z.of_nat (length ptov) → f ≠ e →
  ∃ ptov' vtop', update_pair ptov vtop f e = Done (ptov', vtop') ∧ length ptov' = length ptov ∧
    (∀ p, aget ptov' p = if decide (p = f) then Done (-2) else if decide (p = e) then Done old
                         else aget ptov p) ∧
    (∀ v, aget vtop' v = if decide (v = old) then Done e else aget vtop v) ∧
    hosts_ok ptov' vtop'.
Proof.
  intros Hf Hold He Hne. pose proof (Hok _ _ Hf Hold) as Hv.
  pose proof (aget_inrange _ _ _ Hf). pose proof (aget_inrange _ _ _ Hv).
  unfold update_pair. rewrite Hf. cbn [obind]. rewrite (proj2 (Z.eqb_neq _ _)) by lia.
  rewrite aset_ok by lia. cbn [obind]. rewrite aset_ok by lia. cbn [obind].
  rewrite aset_ok by (rewrite length_insert; lia). cbn [obind].
  eexists _, _. split; [done|]. split; [by rewrite !length_insert|].
  assert (Hp : ∀ p, aget (<[Z.to_nat f:=-2]> (<[Z.to_nat e:=old]> ptov)) p =
     if decide (p = f) then Done (-2) else if decide (p = e) then Done old else aget ptov p).
  { intros p. rewrite aget_insert by (rewrite length_insert; lia). by rewrite aget_insert by lia. }
  split; [done|]. split; [intros v; by rewrite aget_insert by lia|].
  intros p v. rewrite Hp, aget_insert by lia. repeat case_decide; subst; intros E Hv0;
    try (injection E; lia); try congruence.
  - exfalso. rewrite (Hok _ _ E Hv0) in Hv. congruence.
  - by apply Hok.
Qed.
End update.

(** ** The pairs the loops of [fdmi_update_comm_world] visit *)
Fixpoint update_pairs (ps : list (Z * Z)) (ptov vtop : list Z) : outcome (list Z * list Z) :=
  match ps with
  | [] => Done (ptov, vtop)
  | (f, e) :: ps => let! (ptov, vtop) := update_pair ptov vtop f e in update_pairs ps ptov vtop
  end.

Definition range_pairs (r : Z * Z * Z * Z) : list (Z * Z) :=
  match r with (fo, fr, eo, er) => zip (seqZ fo fr) (seqZ eo er) end.

Definition ranges_pairs (rs : list (Z * Z * Z * Z)) : list (Z * Z) := concat (range_pairs <$> rs).

Lemma update_pairs_app ps qs ptov vtop :
  update_pairs (ps ++ qs) ptov vtop =
  (let! (ptov, vtop) := update_pairs ps ptov vtop in update_pairs qs ptov vtop).
Proof.
  revert ptov vtop. induction ps as [|[f e] ps IH]; intros; [done|].
  simpl. rewrite obind_assoc. destruct (update_pair ptov vtop f e) as [[? ?]| | |]; simpl; auto.
Qed.

Lemma update_range_pairs n fr f e er ptov vtop :
  fr ≤ Z.of_nat n →
  update_range n f (f + fr) e (e + er) ptov vtop =
  update_pairs (zip (seqZ f fr) (seqZ e er)) ptov vtop.
Proof.
  revert fr f e er ptov vtop. induction n as [|n IH]; intros fr f e er ptov vtop Hn; simpl;
    destruct (decide (0 < fr)) as [Hf|], (decide (0 < er)) as [He|];
    try (rewrite (seqZ_nil f) by lia); try (rewrite (seqZ_nil e) by lia); try lia;
    try (replace ((f <? f + fr) && (e <? e + er)) with false by lia; by destruct (seqZ f fr)).
  - replace ((f <? f + fr) && (e <? e + er)) with true by lia.
    rewrite (seqZ_cons f), (seqZ_cons e) by lia. simpl.
    destruct (update_pair ptov vtop f e) as [[p v]| | |]; simpl; [|done..].
    rewrite <- (IH (Z.pred fr) (Z.succ f) (Z.succ e) (Z.pred er)) by lia.
    f_equal; lia.
Qed.

Lemma update_ranges_pairs rs ptov vtop :
  Forall (λ r, match r with (fo, fr, eo, er) => is_int (fo + fr) ∧ is_int (eo + er) end) rs →
  update_ranges rs ptov vtop = update_pairs (ranges_pairs rs) ptov vtop.
Proof.
  revert ptov vtop. induction rs as [|[[[fo fr] eo] er] rs IH]; intros ptov vtop Hrs; [done|].
  apply Forall_cons in Hrs as [[? ?] Hrs]. unfold ranges_pairs. cbn [fmap list_fmap concat].
  rewrite update_pairs_app. cbn [update_ranges range_pairs].
  rewrite !c_int_ok by done. cbn [obind]. rewrite update_range_pairs by lia.
  destruct (update_pairs _ ptov vtop) as [[? ?]| | |]; simpl; auto.
Qed.

(** Whether a failed rank still hosts a virtual rank: the pairs of the others
    are skipped. *)
Definition hosting (ptov : list Z) (x : Z * Z) : bool :=
  match aget ptov x.1 with Done v => negb (v =? -2) | _ => true end.
Definition live (ptov : list Z) (ps : list (Z * Z)) : list (Z * Z) := List.filter (hosting ptov) ps.

(** The pairs are a replacement: every failed rank hosts a virtual rank or was
    replaced before; the ranks elected for those that host one are ranks of the
    map, elected once and not failed.  They may host virtual ranks. *)
Record pairs_ok (ptov : list Z) (ps : list (Z * Z)) : Prop := {
  po_failed f : f ∈ ps.*1 → ∃ v, aget ptov f = Done v ∧ (v = -2 ∨ 0 ≤ v);
  po_nodup : NoDup (live ptov ps).*2;
  po_range e : e ∈ (live ptov ps).*2 → 0 ≤ e < Z.of_nat (length ptov);
  po_alive e : e ∈ (live ptov ps).*2 → e ∉ ps.*1;
}.

(** What a replacement achieves. *)
Record replaced (ptov vtop : list Z) (ps : list (Z * Z)) (ptov' vtop' : list Z) : Prop := {
  rp_hosts : hosts_ok ptov' vtop';
  rp_length : length ptov' = length ptov;
  rp_failed f : f ∈ ps.*1 → aget ptov' f = Done (-2);
  rp_move f v : f ∈ ps.*1 → aget ptov f = Done v → 0 ≤ v →
    ∃ e, (f, e) ∈ live ptov ps ∧ aget vtop' v = Done e ∧ aget ptov' e = Done v;
  rp_stay v : 0 ≤ v → (∀ f, f ∈ ps.*1 → aget ptov f ≠ Done v) → aget vtop' v = aget vtop v;
  rp_other p : p ∉ ps.*1 → aget ptov' p = aget ptov p ∨
    ∃ f v, (f, p) ∈ live ptov ps ∧ aget ptov f = Done v ∧ 0 ≤ v ∧ aget vtop' v = Done p;
}.

Lemma live_cons ptov x ps :
  live ptov (x :: ps) = if hosting ptov x then x :: live ptov ps else live ptov ps.
Proof. done. Qed.

Lemma elem_of_live ptov x ps : x ∈ live ptov ps ↔ hosting ptov x = true ∧ x ∈ ps.
Proof. unfold live. rewrite !list_elem_of_In, filter_In. tauto. Qed.

Lemma live_elected ptov e ps : e ∈ (live ptov ps).*2 ↔ ∃ f, (f, e) ∈ ps ∧ hosting ptov (f, e) = true.
Proof.
  rewrite list_elem_of_fmap. split.
  - intros ([f e'] & -> & [? ?]%elem_of_live). by exists f.
  - intros (f & ? & ?). exists (f, e). split; [done|]. by apply elem_of_live.
Qed.

(** Fewer ranks host once some are replaced. *)
Lemma live_shrinks ptov ptov' ps :
  (∀ x, x ∈ ps → hosting ptov' x = true → hosting ptov x = true) →
  live ptov' ps `sublist_of` live ptov ps.
Proof.
  induction ps as [|x ps IH]; intros Hx; [done|]. rewrite !live_cons.
  assert (live ptov' ps `sublist_of` live ptov ps) by (apply IH; intros; apply Hx; [by right|done]).
  destruct (hosting ptov' x) eqn:E.
  - rewrite (Hx x) by (by left || done). by apply sublist_skip.
  - destruct (hosting ptov x); [by apply sublist_cons|done].
Qed.

Lemma pairs_ok_skip ptov f e ps :
  aget ptov f = Done (-2) → pairs_ok ptov ((f, e) :: ps) → pairs_ok ptov ps.
Proof.
  intros Hf [Hfail Hnd Hr Ha]. rewrite live_cons in *. unfold hosting in Hnd, Hr, Ha. cbn in *.
  rewrite Hf in *. cbn in *. split; [|done|done|].
  - intros f' Hf'. apply Hfail. by right.
  - intros e' He'. by apply Ha in He' as [_ ?]%not_elem_of_cons.
Qed.

Lemma hosting_moved ptov ptov' f e old x :
  (∀ p, aget ptov' p = if decide (p = f) then Done (-2) else if decide (p = e) then Done old else aget ptov p) →
  x.1 ≠ e → hosting ptov' x = true → hosting ptov x = true ∧ x.1 ≠ f.
Proof. unfold hosting. intros Hp Hx. rewrite Hp. case_decide; [done|]. by rewrite decide_False. Qed.

Lemma pairs_ok_step ptov ptov' f e old ps :
  pairs_ok ptov ((f, e) :: ps) → 0 ≤ old → aget ptov f = Done old → length ptov' = length ptov →
  (∀ p, aget ptov' p = if decide (p = f) then Done (-2) else if decide (p = e) then Done old
                       else aget ptov p) →
  pairs_ok ptov' ps ∧ e ∉ ps.*1 ∧ e ∉ (live ptov' ps).*2 ∧ 0 ≤ e < Z.of_nat (length ptov) ∧ f ≠ e.
Proof.
  intros [Hfail Hnd Hr Ha] Hold Hf Hlen Hp. rewrite live_cons in *.
  assert (Hh : hosting ptov (f, e) = true) by (unfold hosting; cbn; rewrite Hf; lia).
  rewrite Hh in *. cbn in Hnd. apply NoDup_cons in Hnd as [Hne Hnd].
  destruct (not_elem_of_cons (ps.*1) e f) as [Hcons _].
  destruct (Hcons (Ha e ltac:(cbn; by left))) as [Hef Heps].
  assert (Hsub : (live ptov' ps).*2 `sublist_of` (live ptov ps).*2).
  { apply fmap_sublist, live_shrinks. intros x Hx Hh'. apply (hosting_moved ptov ptov' f e old) in Hh' as [? _]; [done|done|].
    intros E. apply Heps. rewrite <- E. by apply list_elem_of_fmap_2. }
  assert (Hin : ∀ x, x ∈ (live ptov' ps).*2 → x ∈ (live ptov ps).*2) by (intros x Hx; by eapply elem_of_submseteq, sublist_submseteq).
  split; [|split_and!; [done|by intros ?%Hin|apply Hr; by left..|done]]. split.
  - intros f' Hf'. rewrite Hp. case_decide; [eauto|]. rewrite decide_False by (intros ->; done).
    apply Hfail. by right.
  - by eapply sublist_NoDup.
  - intros x Hx%Hin. rewrite Hlen. apply Hr. by right.
  - intros x Hx%Hin Hx'. apply (Ha x); by right.
Qed.

Lemma replaced_skip ptov vtop f e ps ptov' vtop' :
  aget ptov f = Done (-2) → pairs_ok ptov ((f, e) :: ps) →
  replaced ptov vtop ps ptov' vtop' → replaced ptov vtop ((f, e) :: ps) ptov' vtop'.
Proof.
  intros Hf Hps [Hh Hl Hfa Hmo Hst Hot].
  assert (Hlive : live ptov ((f, e) :: ps) = live ptov ps) by (rewrite live_cons; unfold hosting; cbn; by rewrite Hf).
  split; rewrite ?Hlive; cbn; try done.
  - intros f' [->|?]%elem_of_cons; [|by auto]. destruct (decide (f ∈ ps.*1)); [by auto|].
    destruct (Hot f) as [E|(f' & v & Hin & _)]; [done|by rewrite E|].
    exfalso. apply (po_alive _ _ Hps f); [rewrite Hlive; by apply (list_elem_of_fmap_2 snd) in Hin|by left].
  - intros f' v [->|?]%elem_of_cons Hv Hv0; [rewrite Hf in Hv; injection Hv; lia|by auto].
  - intros v Hv0 Hv. apply Hst; [done|]. intros f' ?. apply Hv. by right.
  - intros p [? ?]%not_elem_of_cons. by apply Hot.
Qed.

Lemma replaced_step ptov vtop f e old ps ptov1 vtop1 ptov' vtop' :
  hosts_ok ptov vtop → pairs_ok ptov ((f, e) :: ps) → aget ptov f = Done old → 0 ≤ old →
  length ptov1 = length ptov →
  (∀ p, aget ptov1 p = if decide (p = f) then Done (-2) else if decide (p = e) then Done old
                       else aget ptov p) →
  (∀ v, aget vtop1 v = if decide (v = old) then Done e else aget vtop v) →
  replaced ptov1 vtop1 ps ptov' vtop' → replaced ptov vtop ((f, e) :: ps) ptov' vtop'.
Proof.
  intros Hok Hps Hf Hold Hlen Hp Hv [Hh Hl Hfa Hmo Hst Hot].
  destruct (pairs_ok_step _ _ _ _ _ _ Hps Hold Hf Hlen Hp) as (_ & Heps & Hel & Her & Hfe).
  assert (Hlive : live ptov ((f, e) :: ps) = (f, e) :: live ptov ps).
  { rewrite live_cons. unfold hosting. cbn. rewrite Hf. by rewrite (proj2 (Z.eqb_neq _ _)) by lia. }
  assert (Hin : ∀ x y, (x, y) ∈ live ptov1 ps → (x, y) ∈ live ptov ps ∧ x ≠ f ∧ x ≠ e).
  { intros x y [Hh' Hx]%elem_of_live. assert (x ≠ e) by (intros ->; apply Heps; by apply (list_elem_of_fmap_2 fst) in Hx).
    destruct (hosting_moved _ _ _ _ _ (x, y) Hp) as [? ?]; [done..|]. split; [by apply elem_of_live|done]. }
  assert (Hvf : ∀ f' v, aget ptov f' = Done v → 0 ≤ v → f' ≠ f → v ≠ old).
  { intros f' v Hf' Hv0 Hne ->. apply Hne. pose proof (Hok _ _ Hf Hold). pose proof (Hok _ _ Hf' Hv0). congruence. }
  assert (Hp1 : ∀ x v, 0 ≤ v → x ∈ ps.*1 → aget ptov1 x = Done v → x ≠ f ∧ aget ptov x = Done v).
  { intros x v Hv0 Hx. rewrite Hp. case_decide; [intros [= <-]; lia|]. by rewrite decide_False by (intros ->; done). }
  assert (Hold' : aget vtop' old = Done e).
  { rewrite Hst, Hv, decide_True; [done..|]. intros x Hx [? E]%Hp1; [|done..]. by apply (Hvf x old). }
  split; rewrite ?Hlive; cbn; [done|congruence|..].
  - intros f' Hf'. destruct (decide (f' ∈ ps.*1)); [by auto|]. apply elem_of_cons in Hf' as [->|]; [|done].
    destruct (Hot f) as [->|(f' & v & Hx & _)]; [done|by rewrite Hp, decide_True|].
    exfalso. apply (po_alive _ _ Hps f); [|by left]. rewrite Hlive. right.
    apply Hin in Hx as [Hx _]. by apply (list_elem_of_fmap_2 snd) in Hx.
  - intros f' v Hf' Hfv Hv0. destruct (decide (f' = f)) as [->|Hne].
    + rewrite Hf in Hfv. injection Hfv as <-. exists e. split; [by left|]. split; [done|].
      destruct (Hot e Heps) as [->|(x & y & Hx & _)]; [by rewrite Hp, decide_False, decide_True by done|].
      exfalso. apply Hel. by apply (list_elem_of_fmap_2 snd) in Hx.
    + apply elem_of_cons in Hf' as [->|Hf']; [done|].
      destruct (Hmo f' v Hf') as (e' & Hx & Hve & Hpe); [|done|exists e'; split; [right; by apply Hin in Hx as [? _]|done]].
      rewrite Hp, !decide_False; [done| |done]. intros ->. done.
  - intros v Hv0 Hvs. assert (v ≠ old) by (intros ->; apply (Hvs f); [by left|done]).
    rewrite Hst, Hv, decide_False; [done..|]. intros x Hx [_ E]%Hp1; [|done..]. apply (Hvs x); [by right|done].
  - intros p [Hpf Hpp]%not_elem_of_cons. destruct (Hot p Hpp) as [E|(x & y & Hx & Hxy & Hy & Hyp)].
    + rewrite Hp, decide_False in E by done. case_decide as Epe; [|by left]. right. subst p.
      exists f, old. split_and!; [by left|done..].
    + right. exists x, y. apply Hin in Hx as (Hx & Hxf & Hxe). split_and!; [by right| |done|done].
      rewrite <- Hxy, Hp, !decide_False; done.
Qed.

Lemma update_pairs_ok ps ptov vtop :
  hosts_ok ptov vtop → pairs_ok ptov ps →
  ends (update_pairs ps ptov vtop) (λ r, replaced ptov vtop ps r.1 r.2).
Proof.
  revert ptov vtop. induction ps as [|[f e] ps IH]; intros ptov vtop Hok Hps.
  { split; cbn; auto; by intros ? ?%elem_of_nil || by intros ? ? ?%elem_of_nil. }
  destruct (po_failed _ _ Hps f) as (old & Hf & Hold); [by left|]. cbn [update_pairs].
  destruct (decide (old = -2)) as [->|].
  - rewrite update_pair_skip by done. cbn [obind]. eapply ends_mono; [apply IH; [done|by eapply pairs_ok_skip]|].
    intros r. by apply replaced_skip.
  - assert (H0 : 0 ≤ old) by lia.
    assert (He : 0 ≤ e < Z.of_nat (length ptov) ∧ f ≠ e).
    { assert (Hin : e ∈ (live ptov ((f, e) :: ps)).*2).
      { apply live_elected. exists f. split; [by left|]. unfold hosting. cbn. rewrite Hf.
        by rewrite (proj2 (Z.eqb_neq _ _)). }
      split; [by apply (po_range _ _ Hps)|]. intros ->. apply (po_alive _ _ Hps e Hin). by left. }
    destruct (update_pair_move ptov vtop Hok f e old) as (ptov1 & vtop1 & -> & Hl & Hp & Hv & Hok1); [done|done|apply He..|].
    cbn [obind]. destruct (pairs_ok_step ptov ptov1 f e old ps) as (Hps1 & _); [done..|].
    eapply ends_mono; [by apply IH|]. intros r. by eapply replaced_step.
Qed.

(** The virtual rank [v] moves from the failed rank [f] to [e]. *)
Definition moves (ptov vtop' : list Z) (ps : list (Z * Z)) (v f e : Z) : Prop :=
  (f, e) ∈ ps ∧ aget ptov f = Done v ∧ 0 ≤ v ∧ aget vtop' v = Done e.

Section sharing.
Context (ptov vtop ptov' vtop' : list Z) (ps : list (Z * Z)).
Hypothesis (Hps : pairs_ok ptov ps) (Hr : replaced ptov vtop ps ptov' vtop').

Lemma moves_alive v f e : moves ptov vtop' ps v f e → e ∉ ps.*1 ∧ aget ptov' e = Done v.
Proof using Hps Hr.
  intros (Hin & Hf & Hv & He). pose proof (list_elem_of_fmap_2 fst _ _ Hin) as Hf1. cbn in Hf1.
  destruct (rp_move _ _ _ _ _ Hr f v Hf1 Hf Hv) as (e' & Hl & Hve & Hpe). rewrite He in Hve. injection Hve as <-.
  split; [|done]. apply (po_alive _ _ Hps). by apply (list_elem_of_fmap_2 snd) in Hl.
Qed.

(** A virtual rank the elected rank hosted stays there and is forgotten. *)
Lemma moves_shares v f e w :
  hosts_ok ptov vtop → moves ptov vtop' ps v f e → aget ptov e = Done w → 0 ≤ w →
  w ≠ v ∧ aget vtop' w = Done e ∧ ∀ p, aget ptov' p ≠ Done w.
Proof using Hps Hr.
  intros Hok Hm Hw Hw0. destruct (moves_alive v f e Hm) as [Hea Hpe]. destruct Hm as (Hin & Hf & Hv & He).
  apply (list_elem_of_fmap_2 fst) in Hin. cbn in Hin.
  assert (Hne : w ≠ v) by (intros ->; pose proof (Hok _ _ Hw Hw0); pose proof (Hok _ _ Hf Hv); congruence).
  assert (Hwe : aget vtop' w = Done e).
  { rewrite (rp_stay _ _ _ _ _ Hr) by (try done; intros x Hx Hxw; pose proof (Hok _ _ Hxw Hw0); pose proof (Hok _ _ Hw Hw0); congruence).
    by apply Hok. }
  split_and!; [done..|]. intros p Hp. pose proof (rp_hosts _ _ _ _ _ Hr _ _ Hp Hw0). congruence.
Qed.

(** The maps stay inverse to each other exactly when the elected ranks hosted
    nothing. *)
Lemma replaced_one_to_one :
  maps_ok ptov vtop →
  (maps_ok ptov' vtop' ↔ ∀ v f e w, moves ptov vtop' ps v f e → aget vtop w ≠ Done e).
Proof using Hps Hr.
  intros Hok. pose proof (ptov_vtop _ _ Hok) as Hh. split.
  - intros Hok' v f e w Hm Hw. destruct (moves_alive v f e Hm) as [_ Hpe].
    assert (He0 : 0 ≤ e) by (apply aget_inrange in Hpe; lia).
    pose proof (aget_inrange _ _ _ Hw) as Hwr.
    destruct (moves_shares v f e w) as (Hne & Hwe & _); [exact Hh|done|by apply (vtop_ptov _ _ Hok)|lia|].
    pose proof (vtop_ptov _ _ Hok' _ _ Hwe He0). congruence.
  - intros Hfree. split; [|apply (rp_hosts _ _ _ _ _ Hr)]. intros v p Hv Hp0.
    pose proof (aget_inrange _ _ _ Hv) as Hvr.
    destruct (decide (Exists (λ x, 0 ≤ x ∧ ptov !! Z.to_nat x = Some v) ps.*1)) as [(f & Hf & Hfv%aget_Done)%Exists_exists|Hn].
    + destruct (rp_move _ _ _ _ _ Hr f v Hf Hfv) as (e & _ & Hve & Hpe); [lia|]. congruence.
    + assert (Hst : ∀ f, f ∈ ps.*1 → aget ptov f ≠ Done v).
      { intros f Hf E%aget_Done. apply Hn, Exists_exists. by exists f. }
      rewrite (rp_stay _ _ _ _ _ Hr) in Hv by (done || lia). pose proof (vtop_ptov _ _ Hok _ _ Hv Hp0) as Hpv.
      destruct (rp_other _ _ _ _ _ Hr p) as [->|(f & u & Hl & Hu & Hu0 & Hup)]; [by intros Hp%Hst|done|].
      exfalso. apply (Hfree u f p v); [|done]. apply elem_of_live in Hl as [_ Hl]. done.
Qed.
End sharing.

(** ** Communicators in the store *)
Definition has_comm (cs : comm_store) (c : Z) (cm : fdmi_communicator) (ptov vtop : list Z) : Prop :=
  c ≠ NULL ∧ cells (cs_comms cs) !! c = Some cm ∧
  cells (cs_arrays cs) !! c_rmap_ptov cm = Some ptov ∧
  cells (cs_arrays cs) !! c_rmap_vtop cm = Some vtop ∧ c_rmap_ptov cm ≠ c_rmap_vtop cm.

(** The store with more communicators. *)
Definition cs_le (cs cs' : comm_store) : Prop :=
  cells (cs_comms cs) ⊆ cells (cs_comms cs') ∧ cells (cs_arrays cs) ⊆ cells (cs_arrays cs').

#[export] Instance cs_le_preorder : PreOrder cs_le.
Proof. split; [done|]. intros ? ? ? [? ?] [? ?]. split; by etrans. Qed.

Lemma has_comm_le cs cs' c cm ptov vtop :
  cs_le cs cs' → has_comm cs c cm ptov vtop → has_comm cs' c cm ptov vtop.
Proof.
  intros [Hc Ha] (? & ? & ? & ? & ?). split_and!; try done; by eapply lookup_weaken.
Qed.

Lemma has_comm_peek cs c cm ptov vtop :
  has_comm cs c cm ptov vtop → peek (cs_comms cs) c = Done cm.
Proof. intros (_ & ? & _). by apply load_Done. Qed.

Lemma has_comm_maps cs c cm ptov vtop r :
  has_comm cs c cm ptov vtop →
  map_get cs (c_rmap_ptov cm) r = aget ptov r ∧ map_get cs (c_rmap_vtop cm) r = aget vtop r.
Proof.
  intros (_ & _ & Hp & Hv & _). unfold map_get, peek, load. by rewrite Hp, Hv.
Qed.

Lemma fdmi_update_comm_world_ok pm rs cm ptov vtop ptov' vtop' vrank :
  has_comm (pm_store pm) (fdmi_comm_master_elect pm) cm ptov vtop →
  update_ranges rs ptov vtop = Done (ptov', vtop') → aget ptov' (fdmi_prank pm) = Done vrank →
  ends (fdmi_update_comm_world pm rs) (λ pm', ∃ cm',
    has_comm (pm_store pm') (fdmi_comm_master_elect pm) cm' ptov' vtop' ∧ comm_vrank cm' = vrank).
Proof.
  intros Hcm Hu Ha. pose proof Hcm as (Hn & Hc & Hp & Hv & Hne).
  unfold fdmi_update_comm_world. rewrite (has_comm_peek _ _ _ _ _ Hcm). cbn [obind].
  unfold peek. rewrite (proj2 (load_Done _ _ _) Hp), (proj2 (load_Done _ _ _) Hv). cbn [obind].
  rewrite Hu. cbn [obind]. unfold poke, store. rewrite Hp. cbn [obind cells].
  rewrite lookup_insert_ne by done. rewrite Hv. cbn [obind]. rewrite Ha. cbn [obind].
  rewrite Hc. cbn [obind ends].
  exists (Comm (comm_master cm) (comm_id cm) vrank (comm_psize cm) (comm_size cm)
       (rmap_ptov_size cm) (c_rmap_ptov cm) (rmap_vtop_size cm) (c_rmap_vtop cm)).
  split; [|done]. unfold has_comm. cbn. split_and!; try done.
  - by rewrite lookup_insert_eq.
  - by rewrite lookup_insert_ne, lookup_insert_eq.
  - by rewrite lookup_insert_eq.
Qed.

(** C29: replacing failed ranks.  Every failed rank hosts a virtual rank (or was
    replaced before, and is then skipped), and the ranks elected for those that
    do are ranks of the map, elected once and not failed; they may host virtual
    ranks, as the ranks elected by [fdmi_reallocate_state_listd] do, and the
    process itself may be elected.  [fdmi_update_comm_world] then returns: no
    failed rank hosts a virtual rank any more, each virtual rank [v] hosted by a
    failed rank is on a rank [e] elected for it, and [e] says it hosts [v]; all
    other virtual ranks are where they were.  So a virtual rank [w] the elected
    rank hosted shares [e] with [v] from then on, and no rank says it hosts [w]:
    the maps stay inverse to each other exactly when no elected rank was in
    use.  The process's own [vrank] is looked up in the new map. *)
Theorem update_comm_world_replaces pm rs cm ptov vtop :
  has_comm (pm_store pm) (fdmi_comm_master_elect pm) cm ptov vtop →
  Forall (λ r, match r with (fo, fr, eo, er) => is_int (fo + fr) ∧ is_int (eo + er) end) rs →
  hosts_ok ptov vtop → pairs_ok ptov (ranges_pairs rs) →
  0 ≤ fdmi_prank pm < Z.of_nat (length ptov) →
  ends (fdmi_update_comm_world pm rs) (λ pm', ∃ cm' ptov' vtop',
    has_comm (pm_store pm') (fdmi_comm_master_elect pm) cm' ptov' vtop' ∧
    hosts_ok ptov' vtop' ∧
    (∀ f, f ∈ (ranges_pairs rs).*1 → aget ptov' f = Done (-2)) ∧
    (∀ v f, f ∈ (ranges_pairs rs).*1 → aget ptov f = Done v → 0 ≤ v →
       ∃ e, moves ptov vtop' (ranges_pairs rs) v f e ∧ aget ptov' e = Done v) ∧
    (∀ v, 0 ≤ v → (∀ f, f ∈ (ranges_pairs rs).*1 → aget ptov f ≠ Done v) → aget vtop' v = aget vtop v) ∧
    (∀ v f e w, moves ptov vtop' (ranges_pairs rs) v f e → aget ptov e = Done w → 0 ≤ w →
       w ≠ v ∧ aget vtop' w = Done e ∧ ∀ p, aget ptov' p ≠ Done w) ∧
    (maps_ok ptov vtop →
       (maps_ok ptov' vtop' ↔ ∀ v f e w, moves ptov vtop' (ranges_pairs rs) v f e → aget vtop w ≠ Done e)) ∧
    aget ptov' (fdmi_prank pm) = Done (comm_vrank cm')).
Proof.
  intros Hcm Hrs Hok Hps Hpr.
  pose proof (update_pairs_ok _ _ _ Hok Hps) as Hu. rewrite <- update_ranges_pairs in Hu by done.
  apply ends_Done in Hu as ([ptov' vtop'] & Hu & Hr). cbn [fst snd] in Hr.
  assert (∃ vr, aget ptov' (fdmi_prank pm) = Done vr) as [vr Hvr].
  { apply aget_lt. by rewrite (rp_length _ _ _ _ _ Hr). }
  c_last (fdmi_update_comm_world_ok pm rs cm ptov vtop) as pm' (cm' & Hc & Hv).
  exists cm', ptov', vtop'. split_and!; try done; try apply Hr; [|by intros; eapply moves_shares
    |by apply replaced_one_to_one|by rewrite Hv].
  intros v f Hf Hfv Hv0. destruct (rp_move _ _ _ _ _ Hr f v Hf Hfv Hv0) as (e & [_ Hl]%elem_of_live & Hve & Hpe).
  exists e. done.
Qed.

(** ** Chains of communicators *)

(** [chain cs c l]: [l] is [c], its master, the master's master, ...; the maps
    of each are inverse to each other. *)
Inductive chain (cs : comm_store) : Z → list Z → Prop :=
| chain_root c cm ptov vtop :
    has_comm cs c cm ptov vtop → maps_ok ptov vtop → comm_master cm = NULL → chain cs c [c]
| chain_sub c cm ptov vtop l :
    has_comm cs c cm ptov vtop → maps_ok ptov vtop → comm_master cm ≠ NULL →
    chain cs (comm_master cm) l → chain cs c (c :: l).

Lemma chain_le cs cs' c l : cs_le cs cs' → chain cs c l → chain cs' c l.
Proof.
  intros Hle. induction 1; [eapply chain_root|eapply chain_sub]; eauto using has_comm_le.
Qed.

Lemma master_chain_ok cs c l room :
  chain cs c l → (length l ≤ room)%nat → master_chain room cs c = Done l.
Proof.
  intros Hc. revert room. induction Hc as [c cm ? ? Hcm ? Hm|c cm ? ? l Hcm ? Hm Hc IH];
    intros [|room] Hl; cbn in *; try lia; rewrite (has_comm_peek _ _ _ _ _ Hcm); cbn [obind].
  - by rewrite Hm.
  - rewrite (proj2 (Z.eqb_neq _ _)) by done. by rewrite IH by lia.
Qed.

(** A communicator chain longer than [comms] overruns it. *)
Lemma master_chain_overflow cs c l room :
  chain cs c l → (room < length l)%nat → master_chain room cs c = Undef.
Proof.
  intros Hc. revert room. induction Hc as [c cm ? ? Hcm ? Hm|c cm ? ? l Hcm ? Hm Hc IH];
    intros [|room] Hl; cbn in *; try lia; try done; rewrite (has_comm_peek _ _ _ _ _ Hcm); cbn [obind].
  rewrite (proj2 (Z.eqb_neq _ _)) by done. by rewrite IH by lia.
Qed.

Lemma get_prank_loop_inverse cs c l fuel v p :
  chain cs c l → get_prank_loop fuel cs c v = Done p → 0 ≤ p → ptov_chain cs l p = Done v.
Proof.
  intros Hc. revert fuel v. induction Hc as [c cm ? ? Hcm Hok Hm|c cm ? ? l Hcm Hok Hm Hc IH];
    intros fuel v Hp H0; pose proof Hcm as [Hcn _]; destruct fuel as [|fuel]; cbn in Hp;
    rewrite (proj2 (Z.eqb_neq _ _)) in Hp by done; try done;
    rewrite (has_comm_peek _ _ _ _ _ Hcm) in Hp; cbn [obind] in Hp;
    rewrite (proj2 (has_comm_maps _ _ _ _ _ v Hcm)) in Hp;
    apply obind_Done_inv in Hp as (r & Hr & Hp).
  - rewrite Hm in Hp. destruct fuel; cbn in Hp; injection Hp as ->; cbn;
      rewrite (has_comm_peek _ _ _ _ _ Hcm); cbn [obind];
      rewrite (proj1 (has_comm_maps _ _ _ _ _ p Hcm)); by apply (vtop_ptov _ _ Hok).
  - cbn. rewrite (IH fuel r) by done. cbn [obind].
    rewrite (has_comm_peek _ _ _ _ _ Hcm). cbn [obind].
    rewrite (proj1 (has_comm_maps _ _ _ _ _ r Hcm)). apply (vtop_ptov _ _ Hok); [done|].
    destruct Hc as [c' cm' pt vt Hcm' _ Hm'|c' cm' pt vt l' Hcm' _ Hm' _];
      pose proof Hcm' as [Hcn' _]; destruct fuel as [|fuel]; cbn in Hp;
      rewrite (proj2 (Z.eqb_neq _ _)) in Hp by done; try done;
      rewrite (has_comm_peek _ _ _ _ _ Hcm') in Hp; cbn [obind] in Hp;
      rewrite (proj2 (has_comm_maps _ _ _ _ _ r Hcm')) in Hp;
      apply obind_Done_inv in Hp as (r' & Hr' & _); apply aget_inrange in Hr'; lia.
Qed.

Lemma get_prank_loop_fuel cs n m c v p :
  get_prank_loop n cs c v = Done p → (n ≤ m)%nat → get_prank_loop m cs c v = Done p.
Proof.
  revert m c v. induction n as [|n IH]; intros m c v Hp Hle.
  - cbn in Hp. destruct (c =? NULL) eqn:E; [|done]. destruct m; cbn; by rewrite E.
  - destruct m as [|m]; [lia|]. cbn in *. destruct (c =? NULL); [done|].
    apply obind_Done_inv in Hp as (cm & -> & Hp). cbn.
    apply obind_Done_inv in Hp as (r & -> & Hp). cbn. apply IH; [done|lia].
Qed.

(** The other direction: what the maps give for a physical rank leads back to
    it. *)
Lemma ptov_chain_inverse cs c l fuel p v :
  chain cs c l → (length l ≤ fuel)%nat → ptov_chain cs l p = Done v → 0 ≤ v →
  get_prank_loop fuel cs c v = Done p.
Proof.
  intros Hc. revert fuel v. induction Hc as [c cm ? ? Hcm Hok Hm|c cm ? ? l Hcm Hok Hm Hc IH];
    intros [|fuel] v Hl Hp H0; cbn [length] in Hl; try lia; pose proof Hcm as [Hcn _];
    cbn in Hp |- *; rewrite (proj2 (Z.eqb_neq _ _)) by done;
    rewrite (has_comm_peek _ _ _ _ _ Hcm); cbn [obind];
    rewrite (proj2 (has_comm_maps _ _ _ _ _ v Hcm)).
  - rewrite (has_comm_peek _ _ _ _ _ Hcm) in Hp. cbn [obind] in Hp.
    rewrite (proj1 (has_comm_maps _ _ _ _ _ p Hcm)) in Hp. rewrite (ptov_vtop _ _ Hok _ _ Hp H0). cbn [obind].
    rewrite Hm. by destruct fuel.
  - apply obind_Done_inv in Hp as (r & Hr & Hp).
    rewrite (has_comm_peek _ _ _ _ _ Hcm) in Hp. cbn [obind] in Hp.
    rewrite (proj1 (has_comm_maps _ _ _ _ _ r Hcm)) in Hp. rewrite (ptov_vtop _ _ Hok _ _ Hp H0). cbn [obind].
    apply aget_inrange in Hp. apply IH; [lia|done|lia].
Qed.

(** C37: virtual and physical ranks are translated into each other, for the
    process's own rank only.  [fdmi_comm_get_vrank] ignores the physical rank
    it is given.  On a chain of at most 255 communicators whose maps are
    inverse, [fdmi_comm_get_prank] sends the virtual rank [v] to the physical
    rank [p]; then [fdmi_comm_get_vrank] called with [p], or with any other
    rank, gives [v] back exactly when [p] is the rank of the calling process.
    On a longer chain it writes past its local array. *)
Theorem comm_rank_roundtrip pm comm l v p arg :
  chain (pm_store pm) comm l → 0 ≤ v →
  fdmi_comm_get_prank (pm_store pm) comm v = Done p → 0 ≤ p →
  if decide (length l ≤ 255)%nat
  then fdmi_comm_get_vrank pm comm arg = Done v ↔ fdmi_prank pm = p
  else fdmi_comm_get_vrank pm comm arg = Undef.
Proof.
  intros Hc Hv Hp H0. unfold fdmi_comm_get_vrank, fdmi_comm_get_prank in *. case_decide.
  2:{ by rewrite (master_chain_overflow _ _ _ _ Hc) by lia. }
  rewrite (master_chain_ok _ _ _ _ Hc) by done. cbn [obind].
  destruct (v =? -1) eqn:E; [lia|]. split; [|intros ->; by eapply get_prank_loop_inverse].
  intros Hvr. pose proof (ptov_chain_inverse _ _ _ (size (cells (cs_comms (pm_store pm))) + length l) _ _ Hc ltac:(lia) Hvr Hv) as Hq.
  eapply get_prank_loop_fuel in Hp; [|apply (Nat.le_add_r _ (length l))]. congruence.
Qed.

Section store.
Context `{Malloc}.

(** ** A new communicator *)
Lemma new_comm_ok cs master vrank psize size ps vs ptov vtop :
  malloc_total → 0 ≤ comm_id_counter cs < INT_MAX →
  ends (new_comm cs master vrank psize size ps vs ptov vtop) (λ r, ∃ cm,
    (cells (cs_arrays cs) !! NULL = None → cells (cs_arrays r.2) !! NULL = None) ∧
    has_comm r.2 r.1 cm ptov vtop ∧ cells (cs_comms cs) !! r.1 = None ∧ cs_le cs r.2 ∧
    comm_id_counter r.2 = comm_id_counter cs + 1 ∧
    comm_id cm = comm_id_counter cs ∧ comm_master cm = master ∧ comm_vrank cm = vrank ∧
    comm_psize cm = psize ∧ comm_size cm = size ∧ rmap_ptov_size cm = ps ∧ rmap_vtop_size cm = vs).
Proof.
  intros Hm Hc. unfold new_comm, malloc_total in *.
  rewrite c_int_ok by (unfold is_int, INT_MIN, INT_MAX in *; lia). cbn [obind].
  rewrite !fdmi_malloc_ok by auto. cbn [obind]. rewrite fdmi_malloc_ok by auto. cbn [obind].
  rewrite fdmi_malloc_ok by auto. cbn [obind ends fst snd].
  set (a1 := malloc (cells (cs_arrays cs))). cbn [cells].
  set (a2 := malloc (<[a1 := ptov]> (cells (cs_arrays cs)))).
  assert (Ha2 : <[a1 := ptov]> (cells (cs_arrays cs)) !! a2 = None) by (apply malloc_fresh, Hm).
  assert (Hne : a1 ≠ a2) by (intros E; by rewrite <- E, lookup_insert_eq in Ha2).
  assert (Ha1 : cells (cs_arrays cs) !! a1 = None) by (apply malloc_fresh, Hm).
  exists (Comm master (comm_id_counter cs) vrank psize size ps a1 vs a2).
  split_and!; [|unfold has_comm|by apply malloc_fresh, Hm| |done..].
  - intros Hn. cbn. rewrite !lookup_insert_ne; [done|apply Hm|apply Hm].
  - split_and!; cbn; [by apply Hm|by rewrite lookup_insert_eq| | |done].
    + rewrite lookup_insert_ne by done. by rewrite lookup_insert_eq.
    + by rewrite lookup_insert_eq.
  - split; cbn.
    + apply insert_subseteq, malloc_fresh, Hm.
    + etrans; [by apply insert_subseteq|]. by apply insert_subseteq.
Qed.

(** The root communicators and the world [fdmi_proc_man_init] builds. *)
Lemma comm_init_ok cs psize numspare numproc prank :
  malloc_total → 0 ≤ comm_id_counter cs < INT_MAX → 0 < psize < 2 ^ 28 →
  ends (fdmi_proc_man_comm_init cs psize numspare numproc prank) (λ r, ∃ cm,
    (cells (cs_arrays cs) !! NULL = None → cells (cs_arrays r.2) !! NULL = None) ∧
    has_comm r.2 r.1 cm (rank_map (psize * EXTRA) psize) (rank_map (psize * EXTRA) psize) ∧
    cs_le cs r.2 ∧ comm_id_counter r.2 = comm_id_counter cs + 1 ∧
    comm_id cm = comm_id_counter cs ∧
    comm_master cm = NULL ∧ comm_size cm = psize ∧ rmap_ptov_size cm = psize * EXTRA ∧
    rmap_vtop_size cm = psize * EXTRA ∧ comm_vrank cm = if prank <? psize then prank else -1).
Proof.
  intros Hm Hc Hps. unfold fdmi_proc_man_comm_init, EXTRA in *.
  rewrite c_int_ok by (unfold is_int, INT_MIN, INT_MAX; lia). cbn [obind].
  c_last (new_comm_ok cs) as [c cs'] (cm & ?). exists cm. naive_solver.
Qed.

Lemma init_comm_world_ok cs master cm ptov vtop :
  malloc_total → 0 ≤ comm_id_counter cs < INT_MAX → has_comm cs master cm ptov vtop →
  ends (fdmi_init_comm_world cs master) (λ r, ∃ cm',
    (cells (cs_arrays cs) !! NULL = None → cells (cs_arrays r.2) !! NULL = None) ∧
    has_comm r.2 r.1 cm' (rank_map (rmap_ptov_size cm) (comm_size cm))
      (rank_map (rmap_vtop_size cm) (comm_size cm)) ∧
    cs_le cs r.2 ∧ comm_id_counter r.2 = comm_id_counter cs + 1 ∧
    comm_id cm' = comm_id_counter cs ∧ comm_master cm' = master).
Proof.
  intros Hm Hc Hcm. unfold fdmi_init_comm_world.
  rewrite (has_comm_peek _ _ _ _ _ Hcm). cbn [obind].
  c_last (new_comm_ok cs) as [c cs'] (cm' & ?). exists cm'. naive_solver.
Qed.

(** What [fdmi_proc_man_init] sets up. *)
Record initialised (psize numspare numproc prank : Z) (pm : proc_man) : Prop := {
  in_chain : ∃ w e, has_comm (pm_store pm) (fmi_comm_world pm) w
               (rank_map (psize * EXTRA) psize) (rank_map (psize * EXTRA) psize) ∧
             comm_master w = fdmi_comm_master_elect pm ∧
             has_comm (pm_store pm) (fdmi_comm_master_elect pm) e
               (rank_map (psize * EXTRA) psize) (rank_map (psize * EXTRA) psize) ∧
             comm_master e = NULL ∧ comm_id w = 3 ∧ comm_id e = 2;
  in_states : prank_state_list pm = initial_states psize (psize - numspare * numproc);
  in_itop : ht_rep queue_rep (hstb_itop pm) empty_table;
  in_prank : fdmi_prank pm = prank;
  in_psize : fdmi_psize pm = psize;
  in_next : fdmi_next_prank pm = psize - numspare * numproc;
  in_global : pm_rmap_vtop pm = NULL ∧ pm_rmap_ptov pm = NULL;
  in_starting : queue_rep Unlocked (starting_prank_q pm) [];
  in_heap : cells (cs_arrays (pm_store pm)) !! NULL = None;
}.

Lemma proc_man_init_ok psize numspare numproc prank addr garbage qaddr qgarbage :
  malloc_total → (∀ i, addr i ≠ NULL) → qaddr ≠ NULL →
  0 < psize < 2 ^ 28 → 0 ≤ numspare * numproc ≤ psize →
  ends (fdmi_proc_man_init psize numspare numproc prank addr garbage qaddr qgarbage)
    (initialised psize numspare numproc prank).
Proof.
  intros Hm Ha Hqa Hps Hsp. unfold fdmi_proc_man_init.
  unfold EXTRA. do 3 (rewrite c_int_ok by (unfold is_int, INT_MIN, INT_MAX; lia); cbn [obind]).
  rewrite i32_id by (unfold is_int, INT_MIN, INT_MAX; lia).
  c_step (hrep_create (hrep := ht_rep queue_rep)) as ht Hht; [unfold INT_MAX; lia|].
  c_step (rep_create (rep := queue_rep)) as q Hq.
  c_step (comm_init_ok (CommStore empty_heap empty_heap 0)) as [ign cs1] (cm1 & Hz1 & _ & Hle1 & Hc1 & _);
    [unfold INT_MAX; cbn; lia|]. cbn in Hc1.
  c_step (comm_init_ok cs1) as [exc cs2] (cm2 & Hz2 & _ & Hle2 & Hc2 & _); [unfold INT_MAX; cbn in *; lia|].
  c_step (comm_init_ok cs2) as [ele cs3] (cm3 & Hz3 & Hh3 & Hle3 & Hc3 & Hi3 & Hm3 & Hs3 & Hps3 & Hvs3 & _);
    [unfold INT_MAX; cbn in *; lia|].
  cbn [fst snd] in *.
  c_step (init_comm_world_ok cs3 ele cm3) as [w cs4] (cm4 & Hz4 & Hh4 & Hle4 & Hc4 & Hi4 & Hm4);
    [unfold INT_MAX; cbn in *; lia|]. cbn [fst snd] in *.
  rewrite Hps3, Hvs3, Hs3 in Hh4. unfold EXTRA in *. cbn [ends].
  split; cbn; auto.
  exists cm4, cm3. split_and!; try done; [by eapply has_comm_le|lia|lia].
Qed.
End store.

Lemma initialised_chain psize numspare numproc prank pm :
  0 < psize → initialised psize numspare numproc prank pm →
  chain (pm_store pm) (fmi_comm_world pm) [fmi_comm_world pm; fdmi_comm_master_elect pm].
Proof.
  intros Hps [(w & e & Hw & Hwm & He & Hem & _) _ _ _ _ _ _ _ _].
  eapply chain_sub; [exact Hw|apply rank_map_ok; lia| |].
  - rewrite Hwm. by destruct He.
  - rewrite Hwm. eapply chain_root; [exact He|apply rank_map_ok; lia|done].
Qed.

Lemma initialised_get_prank psize numspare numproc prank pm v :
  initialised psize numspare numproc prank pm → 0 ≤ v < psize →
  get_prank_loop 2 (pm_store pm) (fmi_comm_world pm) v = Done v.
Proof.
  intros [(w & e & Hw & Hwm & He & Hem & _) _ _ _ _ _ _ _ _] Hv.
  pose proof Hw as [Hwn _]. pose proof He as [Hen _]. unfold EXTRA in *.
  cbn. rewrite (proj2 (Z.eqb_neq _ _)) by done. rewrite (has_comm_peek _ _ _ _ _ Hw). cbn.
  rewrite (proj2 (has_comm_maps _ _ _ _ _ v Hw)), aget_rank_map by lia.
  replace (v <? psize) with true by lia. cbn. rewrite Hwm.
  rewrite (proj2 (Z.eqb_neq _ _)) by done. rewrite (has_comm_peek _ _ _ _ _ He). cbn.
  rewrite (proj2 (has_comm_maps _ _ _ _ _ v He)), aget_rank_map by lia.
  replace (v <? psize) with true by lia. cbn. by rewrite Hem.
Qed.

Lemma two_live {A} (m : gmap Z A) a b :
  a ≠ b → is_Some (m !! a) → is_Some (m !! b) → (2 ≤ size m)%nat.
Proof.
  intros Hne Ha Hb. rewrite <- size_dom. etrans; [|apply (subseteq_size {[a; b]})].
  - rewrite size_union, !size_singleton; [lia|].
    apply disjoint_singleton_l. by intros ?%elem_of_singleton.
  - intros x [->%elem_of_singleton| ->%elem_of_singleton]%elem_of_union; by apply elem_of_dom.
Qed.

(** After [fdmi_proc_man_init] the world communicator is the identity:
    every rank below [psize] is translated to itself in both directions, the
    ranks up to [numspare * numproc] below it stand by, and [FMI_ANY_SOURCE]
    stays [-1]. *)
Theorem init_world_identity `{Malloc} psize numspare numproc prank addr garbage qaddr qgarbage :
  malloc_total → (∀ i, addr i ≠ NULL) → qaddr ≠ NULL →
  0 < psize < 2 ^ 28 → 0 ≤ numspare * numproc ≤ psize → 0 ≤ prank < psize →
  ends (fdmi_proc_man_init psize numspare numproc prank addr garbage qaddr qgarbage) (λ pm,
    (∀ v, -1 ≤ v < psize → fdmi_comm_get_prank (pm_store pm) (fmi_comm_world pm) v = Done v) ∧
    (∀ arg, fdmi_comm_get_vrank pm (fmi_comm_world pm) arg = Done prank) ∧
    (∀ r, 0 ≤ r < psize → fdmi_rmap_is_standby pm r = Done (psize - numspare * numproc <=? r))).
Proof.
  intros Hm Ha Hq Hps Hsp Hpr.
  c_last (proc_man_init_ok psize numspare numproc prank addr garbage) as pm Hin.
  pose proof (initialised_chain _ _ _ _ _ (proj1 Hps) Hin) as Hch.
  assert (Hsz : (2 ≤ size (cells (cs_comms (pm_store pm))))%nat).
  { destruct Hin as [(w & e & (_ & Hw & _) & Hwm & (He0 & He & _) & Hem & Hiw & Hie) _ _ _ _ _ _ _ _].
    assert (Hne : fmi_comm_world pm ≠ fdmi_comm_master_elect pm).
    { intros E. rewrite E, He in Hw. injection Hw as ->. congruence. }
    apply (two_live _ (fmi_comm_world pm) (fdmi_comm_master_elect pm)); [done|by eexists|by eexists]. }
  assert (Hgp : ∀ v, 0 ≤ v < psize →
    fdmi_comm_get_prank (pm_store pm) (fmi_comm_world pm) v = Done v).
  { intros v Hv. unfold fdmi_comm_get_prank. rewrite (proj2 (Z.eqb_neq _ _)) by lia.
    eapply get_prank_loop_fuel; [by eapply initialised_get_prank|done]. }
  pose proof (in_prank _ _ _ _ _ Hin) as Hipr. pose proof (in_states _ _ _ _ _ Hin) as Hst.
  split_and!.
  - intros v Hv. destruct (decide (v = -1)) as [->|]; [done|]. apply Hgp. lia.
  - intros arg. unfold fdmi_comm_get_vrank. rewrite (master_chain_ok _ _ _ _ Hch) by (cbn; lia).
    cbn [obind]. rewrite Hipr. eapply get_prank_loop_inverse; [exact Hch| |lia].
    by eapply initialised_get_prank.
  - intros r Hr. unfold fdmi_rmap_is_standby. rewrite Hst. unfold initial_states, EXTRA.
    rewrite (aget_seqZ (λ i, if i <? _ then _ else _)) by lia. cbn.
    replace (r <? psize) with true by lia.
    destruct (r <? psize - numspare * numproc) eqn:E1, (psize - numspare * numproc <=? r) eqn:E2;
      done || lia.
Qed.

Lemma init_world_identity_witness :
  ends (fdmi_proc_man_init 4 1 1 0 (λ _, 16) (λ _, 48879) 32 48879) (λ pm,
    (∀ v, -1 ≤ v < 4 → fdmi_comm_get_prank (pm_store pm) (fmi_comm_world pm) v = Done v) ∧
    (∀ arg, fdmi_comm_get_vrank pm (fmi_comm_world pm) arg = Done 0) ∧
    (∀ r, 0 ≤ r < 4 → fdmi_rmap_is_standby pm r = Done (4 - 1 * 1 <=? r))).
Proof. apply init_world_identity; [exact Malloc_bump_total|done|done|lia..]. Defined.

Lemma comm_rank_roundtrip_witness :
  ends (fdmi_proc_man_init 4 1 1 2 (λ _, 16) (λ _, 48879) 32 48879) (λ pm,
    fdmi_comm_get_vrank pm (fmi_comm_world pm) 2 = Done 2 ∧
    fdmi_comm_get_prank (pm_store pm) (fmi_comm_world pm) 1 = Done 1 ∧
    fdmi_comm_get_vrank pm (fmi_comm_world pm) 1 ≠ Done 1).
Proof.
  c_last (proc_man_init_ok 4 1 1 2 (λ _, 16) (λ _, 48879)) as pm Hin;
    [exact Malloc_bump_total|lia..|].
  assert (Hch : chain (pm_store pm) (fmi_comm_world pm) [fmi_comm_world pm; fdmi_comm_master_elect pm])
    by (by apply (initialised_chain 4 1 1 2)).
  assert (Hgp : ∀ v, 0 ≤ v < 4 → fdmi_comm_get_prank (pm_store pm) (fmi_comm_world pm) v = Done v).
  { intros v Hv. unfold fdmi_comm_get_prank. rewrite (proj2 (Z.eqb_neq _ _)) by lia.
    eapply get_prank_loop_fuel; [by eapply (initialised_get_prank 4)|].
    destruct (in_chain _ _ _ _ _ Hin) as (w & e & (_ & Hw & _) & Hwm & (_ & He & _) & Hem & Hiw & Hie).
    assert (Hne : fmi_comm_world pm ≠ fdmi_comm_master_elect pm).
    { intros E. rewrite E, He in Hw. congruence. }
    apply (two_live _ (fmi_comm_world pm) (fdmi_comm_master_elect pm)); [done|by eexists|by eexists]. }
  pose proof (in_prank _ _ _ _ _ Hin) as Hpr.
  split_and!; [|by apply Hgp|].
  - apply (comm_rank_roundtrip pm (fmi_comm_world pm) [fmi_comm_world pm; fdmi_comm_master_elect pm] 2 2 2);
      [done|lia|by apply Hgp|lia|done].
  - intros E. apply (comm_rank_roundtrip pm (fmi_comm_world pm) [fmi_comm_world pm; fdmi_comm_master_elect pm] 1 1 1) in E;
      [rewrite Hpr in E; done|done|lia|by apply Hgp|lia].
Defined.

Lemma reallocate_first pm :
  prank_state_list pm = initial_states 4 3 →
  fdmi_reallocate_state_listd pm [(1, 1)] [] =
    Done ([(3, 1)], set_states pm (<[1%nat := FDMI_PFAILURE]> (initial_states 4 3)) (fdmi_next_prank pm)).
Proof. unfold fdmi_reallocate_state_listd. by intros ->. Qed.

(** Rank 1 of four fails; the process is the standby rank 3, which
    [fdmi_reallocate_state_listd] elects.  Afterwards the virtual ranks 1 and 3
    are both on rank 3 and the process takes itself for the virtual rank 1. *)
Lemma update_comm_world_replaces_witness :
  ends (fdmi_proc_man_init 4 1 1 3 (λ _, 16) (λ _, 48879) 32 48879) (λ pm,
    ends (fdmi_reallocate_state_listd pm [(1, 1)] []) (λ r, r.1 = [(3, 1)] ∧
      ends (fdmi_update_comm_world r.2 [(1, 1, 3, 1)]) (λ pm', ∃ cm' ptov' vtop',
        has_comm (pm_store pm') (fdmi_comm_master_elect r.2) cm' ptov' vtop' ∧
        aget vtop' 1 = Done 3 ∧ aget vtop' 3 = Done 3 ∧ aget vtop' 2 = Done 2 ∧
        ¬ maps_ok ptov' vtop' ∧ comm_vrank cm' = 1))).
Proof.
  c_last (proc_man_init_ok 4 1 1 3 (λ _, 16) (λ _, 48879)) as pm Hin;
    [exact Malloc_bump_total|lia..|].
  destruct (in_chain _ _ _ _ _ Hin) as (w & e & _ & _ & He & _).
  rewrite (reallocate_first pm) by apply (in_states _ _ _ _ _ Hin). split; [done|]. cbn [fst snd].
  assert (Hlive : live (rank_map 8 4) (ranges_pairs [(1, 1, 3, 1)]) = [(1, 3)]) by done.
  set (pm1 := set_states _ _ _). assert (Hpr : fdmi_prank pm1 = 3) by apply (in_prank _ _ _ _ _ Hin).
  eapply ends_mono; [apply (update_comm_world_replaces pm1 [(1, 1, 3, 1)] e
    (rank_map 8 4) (rank_map 8 4) He)|].
  - repeat constructor; unfold is_int, INT_MIN, INT_MAX; lia.
  - exact (ptov_vtop _ _ (rank_map_ok 8 4 ltac:(lia))).
  - split; rewrite ?Hlive; cbn.
    + intros x [->|[]%elem_of_nil]%elem_of_cons. eexists. split; [done|by right].
    + apply NoDup_singleton.
    + intros x [->|[]%elem_of_nil]%elem_of_cons. by split.
    + intros x [->|[]%elem_of_nil]%elem_of_cons. set_solver by lia.
  - rewrite Hpr, length_rank_map. lia.
  - intros pm' (cm' & ptov' & vtop' & Hh & _ & _ & Hmv & Hst & Hsh & Hiff & Hvr). exists cm', ptov', vtop'.
    destruct (Hmv 1 1) as (e' & Hm1 & Hpe); [by left|done|lia|].
    assert (e' = 3) as -> by (destruct Hm1 as (Hi & _); vm_compute in Hi; set_solver by lia).
    pose proof Hm1 as (_ & _ & _ & Hv1). split_and!; [done|done| | | |].
    + by apply (Hsh 1 1 3 3).
    + rewrite (Hst 2); [done|lia|]. cbn. intros f [->|[]%elem_of_nil]%elem_of_cons. done.
    + rewrite Hiff by (apply rank_map_ok; lia). intros Hno. by apply (Hno 1 1 3 3 Hm1).
    + rewrite Hpr, Hpe in Hvr. by injection Hvr.
Defined.

(** ** The next standby rank *)
Definition standby (pm : proc_man) (p : Z) : Prop := aget (prank_state_list pm) p = Done FDMI_PSTANDBY.

(** The [i]-th rank [fdmi_get_next_prank] looks at. *)
Definition candidate (pm : proc_man) (i : Z) : Z := (fdmi_next_prank pm + i) mod fdmi_psize pm.

Lemma next_prank_loop_ok n i pm :
  0 < fdmi_psize pm → fdmi_psize pm ≤ Z.of_nat (length (prank_state_list pm)) →
  0 ≤ fdmi_next_prank pm → 0 ≤ i → fdmi_next_prank pm + i + Z.of_nat n ≤ INT_MAX →
  match next_prank_loop n i pm with
  | Done (p, pm') => ∃ k, i ≤ k < i + Z.of_nat n ∧ p = candidate pm k ∧ standby pm p ∧
      pm' = set_states pm (<[Z.to_nat p := FDMI_PCOMPUTE]> (prank_state_list pm)) (p + 1) ∧
      ∀ j, i ≤ j < k → ¬ standby pm (candidate pm j)
  | Undef => ∀ j, i ≤ j < i + Z.of_nat n → ¬ standby pm (candidate pm j)
  | _ => False
  end.
Proof.
  intros Hps Hlen Hnx. revert i. induction n as [|n IH]; intros i Hi Hb; cbn; [lia|].
  rewrite c_int_bounds by lia. cbn [obind]. rewrite Z.rem_mod_nonneg by lia.
  fold (candidate pm i). pose proof (Z.mod_pos_bound (fdmi_next_prank pm + i) _ Hps) as Hc.
  fold (candidate pm i) in Hc.
  destruct (aget_lt (prank_state_list pm) (candidate pm i)) as [s Hs]; [lia|]. rewrite Hs. cbn [obind].
  destruct (decide (s = FDMI_PSTANDBY)) as [->|Hns].
  - rewrite aset_ok by lia. cbn [obind]. exists i. split_and!; try done; lia.
  - assert (Hn : ¬ standby pm (candidate pm i)) by (unfold standby; rewrite Hs; congruence).
    specialize (IH (i + 1) ltac:(lia) ltac:(lia)).
    destruct (next_prank_loop n (i + 1) pm) as [[p pm']| | |]; [|done..|].
    + destruct IH as (k & ? & ? & ? & ? & Hj). exists k. split_and!; try done; try lia.
      intros j ?. destruct (decide (j = i)) as [->|]; [done|]. apply Hj. lia.
    + intros j ?. destruct (decide (j = i)) as [->|]; [done|]. apply IH. lia.
Qed.

(** [fdmi_get_next_prank] hands out each standby rank once.  It returns the
    first standby rank in cyclic order from [fdmi_next_prank] and changes its
    state to compute, and nothing else; when no rank below [psize] stands by
    it runs off its end without a value. *)
Theorem get_next_prank_spec pm :
  0 < fdmi_psize pm → fdmi_psize pm ≤ Z.of_nat (length (prank_state_list pm)) →
  0 ≤ fdmi_next_prank pm → fdmi_next_prank pm + fdmi_psize pm ≤ INT_MAX →
  ((∃ p, 0 ≤ p < fdmi_psize pm ∧ standby pm p) →
   ends (fdmi_get_next_prank pm) (λ r,
    0 ≤ r.1 < fdmi_psize pm ∧ standby pm r.1 ∧ ¬ standby r.2 r.1 ∧
    (∀ p, p ≠ r.1 → aget (prank_state_list r.2) p = aget (prank_state_list pm) p) ∧
    ∃ k, 0 ≤ k < fdmi_psize pm ∧ r.1 = candidate pm k ∧
         ∀ j, 0 ≤ j < k → ¬ standby pm (candidate pm j))) ∧
  ((∀ p, 0 ≤ p < fdmi_psize pm → ¬ standby pm p) → fdmi_get_next_prank pm = Undef).
Proof.
  intros Hps Hlen Hnx Hb.
  pose proof (next_prank_loop_ok (Z.to_nat (fdmi_psize pm)) 0 pm Hps Hlen Hnx) as Hl.
  specialize (Hl ltac:(lia) ltac:(lia)). unfold fdmi_get_next_prank.
  destruct (next_prank_loop _ 0 pm) as [[p pm']| | |]; try done.
  - destruct Hl as (k & Hk & -> & Hsb & -> & Hj).
    pose proof (Z.mod_pos_bound (fdmi_next_prank pm + k) _ Hps) as Hc. fold (candidate pm k) in Hc.
    split; [intros _|intros Hn; by destruct (Hn _ Hc)].
    cbn. split_and!; try done; try lia.
    + unfold standby. cbn. rewrite aget_insert by lia. by rewrite decide_True.
    + intros p Hp. rewrite aget_insert by lia. by rewrite decide_False.
    + exists k. split_and!; done || lia.
  - split; [|done]. intros (p & Hp & Hsb). exfalso.
    apply (Hl ((p - fdmi_next_prank pm) mod fdmi_psize pm)).
    { pose proof (Z.mod_pos_bound (p - fdmi_next_prank pm) _ Hps). lia. }
    unfold candidate. rewrite Z.add_mod_idemp_r by lia.
    replace (fdmi_next_prank pm + (p - fdmi_next_prank pm)) with p by lia.
    by rewrite Z.mod_small.
Qed.

Lemma get_next_prank_spec_witness :
  ends (fdmi_proc_man_init 4 1 1 0 (λ _, 16) (λ _, 48879) 32 48879) (λ pm,
    ends (fdmi_get_next_prank pm) (λ r, r.1 = 3)).
Proof.
  c_last (proc_man_init_ok 4 1 1 0 (λ _, 16) (λ _, 48879)) as pm Hin;
    [exact Malloc_bump_total|lia..|].
  pose proof (in_psize _ _ _ _ _ Hin) as Hp. pose proof (in_next _ _ _ _ _ Hin) as Hn.
  pose proof (in_states _ _ _ _ _ Hin) as Hs.
  destruct (get_next_prank_spec pm) as [He _]; [rewrite ?Hp, ?Hn, ?Hs; done..|].
  eapply ends_mono.
  - apply He. exists 3. unfold standby. by rewrite Hp, Hs.
  - intros [r pm'] (Hr & Hsb & _). cbn in *. unfold standby in Hsb. rewrite Hs in Hsb. rewrite Hp in Hr.
    assert (r = 0 ∨ r = 1 ∨ r = 2 ∨ r = 3) as [->|[->|[->| ->]]] by lia; done.
Defined.

(** ** Reallocation *)
Lemma mark_failed_ok n j l l' :
  mark_failed n j l = Done l' →
  ∀ i, l' !! i = if decide (j ≤ Z.of_nat i < j + Z.of_nat n) then Some FDMI_PFAILURE else l !! i.
Proof.
  revert j l. induction n as [|n IH]; intros j l Hm i; cbn in Hm.
  - injection Hm as ->. by rewrite decide_False by lia.
  - apply obind_Done_inv in Hm as (l1 & H1 & Hm). rewrite (IH _ _ Hm).
    unfold aset in H1. destruct (_ || _) eqn:E; [done|]. injection H1 as <-.
    destruct (decide (Z.of_nat i = j)) as [Ei|].
    + rewrite decide_False, decide_True by lia.
      replace i with (Z.to_nat j) by lia. rewrite list_lookup_insert_eq; [done|lia].
    + rewrite list_lookup_insert_ne by lia.
      repeat case_decide; done || lia.
Qed.

(** Whether rank [i] is in one of the ranges. *)
Definition in_ranges (rs : list (Z * Z)) (i : Z) : bool :=
  existsb (λ r, (fst r <=? i) && (i <? fst r + snd r)) rs.

Lemma in_ranges_cons o r rs i :
  in_ranges ((o, r) :: rs) i = ((o <=? i) && (i <? o + r)) || in_ranges rs i.
Proof. done. Qed.

Lemma mark_all_failed_ok failed l l' :
  mark_all_failed failed l = Done l' →
  ∀ i, l' !! i = if in_ranges failed (Z.of_nat i) then Some FDMI_PFAILURE else l !! i.
Proof.
  revert l. induction failed as [|[o r] failed IH]; intros l Hm i; cbn [mark_all_failed] in Hm;
    [by injection Hm as ->|].
  apply obind_Done_inv in Hm as (l1 & H1 & Hm). rewrite (IH _ Hm), (mark_failed_ok _ _ _ _ H1), in_ranges_cons.
  destruct (in_ranges failed (Z.of_nat i)); [by rewrite orb_true_r|]. rewrite orb_false_r.
  destruct (_ && _) eqn:E; case_decide; done || lia.
Qed.

Lemma first_standby_ok l sid k :
  first_standby l sid = Done k ↔
  sid ≤ k ∧ l !! Z.to_nat (k - sid) = Some FDMI_PSTANDBY ∧
  ∀ i, (Z.of_nat i < k - sid) → l !! i ≠ Some FDMI_PSTANDBY.
Proof.
  revert sid. induction l as [|s l IH]; intros sid; cbn.
  - split; [done|]. by intros (_ & ? & _).
  - case_decide as Es.
    + split.
      * intros [= ->]. rewrite Z.sub_diag. subst. split_and!; [lia|done|lia].
      * intros (? & ? & Hi). destruct (decide (k = sid)) as [->|]; [done|].
        exfalso. apply (Hi 0%nat); [lia|]. by subst.
    + rewrite IH. split; intros (? & Hk & Hi).
      * replace (Z.to_nat (k - sid)) with (S (Z.to_nat (k - (sid + 1)))) by lia.
        split_and!; [lia|done|]. intros [|i] ?; [cbn; congruence|]. cbn. apply Hi. lia.
      * destruct (decide (k = sid)) as [->|].
        { rewrite Z.sub_diag in Hk. injection Hk as ->. done. }
        replace (Z.to_nat (k - sid)) with (S (Z.to_nat (k - (sid + 1)))) in Hk by lia.
        split_and!; [lia|done|]. intros i ?. apply (Hi (S i)). lia.
Qed.

Lemma check_elected_same n j l l' : check_elected n j l = Done l' → l' = l.
Proof.
  revert j l. induction n as [|n IH]; intros j l Hc; cbn in Hc; [congruence|].
  apply obind_Done_inv in Hc as (s & Hs & Hc). destruct s; [done|eauto| |eauto].
  apply obind_Done_inv in Hc as (l1 & H1 & Hc). apply IH in Hc as ->.
  unfold aset in H1. destruct (_ || _); [done|]. injection H1 as <-.
  apply aget_Done in Hs as [_ Hs]. by apply list_insert_id.
Qed.

Lemma check_all_elected_same es l l' : check_all_elected es l = Done l' → l' = l.
Proof.
  revert l. induction es as [|[o r] es IH]; intros l Hc; cbn in Hc; [congruence|].
  apply obind_Done_inv in Hc as (l1 & ->%check_elected_same & Hc). eauto.
Qed.

Lemma reallocate_inv pm failed elected es pm' :
  fdmi_reallocate_state_listd pm failed elected = Done (es, pm') →
  ∃ sid es', mark_all_failed failed (prank_state_list pm) = Done (prank_state_list pm') ∧
    first_standby (prank_state_list pm') 0 = Done sid ∧
    elect_ranges sid (drop (length elected) failed) = Done es' ∧ es = elected ++ es'.
Proof.
  unfold fdmi_reallocate_state_listd. intros Hr.
  apply obind_Done_inv in Hr as (l & Hl & Hr). apply obind_Done_inv in Hr as (sid & Hs & Hr).
  apply obind_Done_inv in Hr as (es' & He & Hr).
  apply obind_Done_inv in Hr as (l' & ->%check_all_elected_same & Hr).
  injection Hr as <- <-. cbn. by exists sid, es'.
Qed.

(** [fdmi_reallocate_state_listd] does not mark the ranks it elects: it
    stores [FDMI_PSTANDBY] over [FDMI_PSTANDBY].  When a second failure is
    reallocated with the accumulated lists, as the function is meant to be
    used, the range elected for it starts at the same rank as the range
    elected for the first failure (as long as that rank itself is alive): one
    standby node replaces two failed ones. *)
Theorem reallocate_elects_again pm pm1 pm2 o1 r1 o2 r2 es1 es2 :
  fdmi_reallocate_state_listd pm [(o1, r1)] [] = Done (es1, pm1) →
  fdmi_reallocate_state_listd pm1 [(o1, r1); (o2, r2)] es1 = Done (es2, pm2) →
  ∃ sid, es1 = [(sid, r1)] ∧
    (in_ranges [(o2, r2)] sid = false → es2 = [(sid, r1); (sid, r2)]).
Proof.
  intros H1 H2. apply reallocate_inv in H1 as (sid & es & Hm1 & Hs1 & He & ->).
  cbn in He. apply obind_Done_inv in He as (_ & _ & He). injection He as <-.
  exists sid. split; [done|]. intros Hin. cbn [app] in *.
  apply reallocate_inv in H2 as (sid' & es & Hm2 & Hs2 & He & ->).
  cbn in He. apply obind_Done_inv in He as (_ & _ & He). injection He as <-. cbn.
  do 3 f_equal. enough (first_standby (prank_state_list pm2) 0 = Done sid) by congruence.
  apply first_standby_ok in Hs1 as (? & Hk & Hi). apply first_standby_ok. rewrite Z.sub_0_r in *.
  pose proof (mark_all_failed_ok _ _ _ Hm1) as Hl1. pose proof (mark_all_failed_ok _ _ _ Hm2) as Hl2.
  cbn in Hl1, Hl2, Hin. split_and!; [done|..].
  - rewrite Hl2, Z2Nat.id, Hk, Hin by lia.
    destruct ((o1 <=? sid) && (sid <? o1 + r1)) eqn:E; [|done].
    rewrite Hl1, Z2Nat.id, E in Hk by lia. done.
  - intros i ?. rewrite Hl2. case_match; [done|]. apply Hi. lia.
Qed.

Definition sample_states : list prank_state :=
  [FDMI_PCOMPUTE; FDMI_PCOMPUTE; FDMI_PCOMPUTE; FDMI_PCOMPUTE; FDMI_PSTANDBY; FDMI_PSTANDBY].

Definition sample_pm : proc_man :=
  ProcMan (CommStore empty_heap empty_heap 0) sample_states
    (Hashtable 1 [] empty_heap) (queue_of [] 0 Unlocked) empty_heap NULL NULL 6 0 4 0 0 0 0.

Lemma reallocate_elects_again_witness :
  ends (fdmi_reallocate_state_listd sample_pm [(0, 1)] []) (λ r1,
    ends (fdmi_reallocate_state_listd r1.2 [(0, 1); (2, 1)] r1.1) (λ r2, r2.1 = [(4, 1); (4, 1)])).
Proof.
  destruct (fdmi_reallocate_state_listd sample_pm [(0, 1)] []) as [[es1 pm1]| | |] eqn:E1;
    vm_compute in E1; try done.
  destruct (fdmi_reallocate_state_listd pm1 [(0, 1); (2, 1)] es1) as [[es2 pm2]| | |] eqn:E2;
    [|injection E1 as <- <-; vm_compute in E2; done..].
  cbn. rewrite E2. cbn.
  destruct (reallocate_elects_again sample_pm pm1 pm2 0 1 2 1 es1 es2) as (sid & Hs & He); [done|done|].
  injection E1 as <- <-. injection Hs as <-. by apply He.
Defined.

(** ** The connection table *)

(** [fdmi_rmap_itop_get] returns the rank stored first for an identifier;
    for an identifier that was never stored it returns 0, which is also the
    rank of the first process. *)
Theorem itop_get_add `{Malloc} pm t id prank id' :
  ht_rep queue_rep (hstb_itop pm) t → malloc_total → is_int prank → t id = [] →
  ends (pm' <- fdmi_rmap_itop_add pm id prank ;; fdmi_rmap_itop_get pm' id') (λ r,
    r.1 = if decide (id' = id) then prank else i32 (spec_get t id')).
Proof.
  intros Ht Hm Hp He. unfold fdmi_rmap_itop_add, fdmi_rmap_itop_get. rewrite obind_assoc.
  c_step (hrep_add (hrep := ht_rep queue_rep)) as ht Hht. cbn [obind].
  c_step (hrep_get (hrep := ht_rep queue_rep)) as [d ht'] [Hd _]. cbn in *. subst d.
  unfold spec_get, spec_add. case_decide as E.
  - subst. rewrite table_set_eq, He. cbn. by apply i32_id.
  - by rewrite table_set_ne.
Qed.

Lemma itop_get_add_witness :
  ends (fdmi_proc_man_init 4 1 1 0 (λ _, 16) (λ _, 48879) 32 48879) (λ pm,
    ends (pm' <- fdmi_rmap_itop_add pm 1600 3 ;; fdmi_rmap_itop_get pm' 1600) (λ r, r.1 = 3) ∧
    ends (pm' <- fdmi_rmap_itop_add pm 1600 3 ;; fdmi_rmap_itop_get pm' 3200) (λ r, r.1 = 0)).
Proof.
  c_last (proc_man_init_ok 4 1 1 0 (λ _, 16) (λ _, 48879)) as pm Hin;
    [exact Malloc_bump_total|lia..|].
  pose proof (in_itop _ _ _ _ _ Hin) as Ht.
  split; apply (itop_get_add pm empty_table 1600 3); try done;
    exact Malloc_bump_total || (unfold is_int, INT_MIN, INT_MAX; lia).
Defined.

(** The global maps are never allocated: using them is undefined from the
    initialisation on. *)
Lemma global_maps_undefined psize numspare numproc prank pm r v :
  initialised psize numspare numproc prank pm → 0 < psize < 2 ^ 28 →
  fdmi_rmap_ptov_get pm r = Undef ∧ fdmi_rmap_vtop_get pm r = Undef ∧
  (r < psize * EXTRA → v < psize * EXTRA → fdmi_rmap_btw_vandp_add pm v r = Undef).
Proof.
  intros Hin Hps. destruct (in_global _ _ _ _ _ Hin) as [Hv Hp]. pose proof (in_heap _ _ _ _ _ Hin) as Hn.
  unfold fdmi_rmap_ptov_get, fdmi_rmap_vtop_get, fdmi_rmap_btw_vandp_add, map_get, peek, load.
  rewrite Hv, Hp, Hn. split_and!; [done..|]. intros. rewrite (in_psize _ _ _ _ _ Hin). unfold EXTRA in *.
  rewrite c_int_bounds by (unfold INT_MAX; lia). cbn [obind].
  by replace ((psize * 2 <=? v) || (psize * 2 <=? r)) with false by lia.
Qed.
