(* ===== verification/State.v ===== *)
(** * src/src/fdmi.c: data and global state

    The structures of fdmi.c with one typed heap per kind of object, the
    process's globals, and the interface of libibverbs and librdmacm as far as
    the code relies on it. *)
From S2P Require Import Prelude Mem Queue Hashtable Datatype ProcMan.

(** ** Constants *)
Definition IBTL_LISTEN_PORT : Z := 841015.
Definition FDMI_MAX_PENDING_RECV_QUERY : nat := 10.
Definition FMI_ANY_SOURCE : Z := -1.
Definition FMI_ANY_TAG : Z := -1.
Definition FMI_SUCCESS : Z := 0.
Definition FDMI_REG_MR_CACHE_SIZE : Z := 2 * 1024 * 1024 * 1024.

(** [enum fdmi_state]. *)
Inductive fdmi_state := FDMI_COMPUTE | FDMI_FAILURE | FDMI_RECOVERY | FDMI_JOINING.
#[export] Instance fdmi_state_eq_dec : EqDecision fdmi_state.
Proof. solve_decision. Defined.

(** [enum fdmi_msg_type], [enum fdmi_opcode] and [enum fdmi_option]: the fields
    of a message are [int]s a peer has written, so the enumerators are numbers. *)
Definition FDMI_COMM_INIT : Z := 0.
Definition FDMI_COMM_FIN : Z := 1.
Definition FDMI_EAGER : Z := 0.
Definition FDMI_RDMA_READ : Z := 1.
Definition FDMI_LOOP : Z := 2.
Definition FDMI_ABORT : Z := Z.shiftl 1 0.
Definition FDMI_FORCE : Z := Z.shiftl 1 1.
Definition FDMI_PRESV : Z := Z.shiftl 1 2.

(** [sizeof(struct fdmi_msg)] on the platform's ABI, and the offsets of the
    fields whose addresses the code takes. *)
Definition sizeof_fdmi_msg : Z := 152 + FDMI_EAGER_BUFF_SIZE.
Definition offsetof_eager_buff : Z := 152.
Definition offsetof_request_flag : Z := 20.
Definition offsetof_query_request_flag : Z := 32.

(** ** Structures *)

(** [struct ibv_mr] of libibverbs, as far as it is used. *)
Record ibv_mr := MR {
  mr_addr : Z;
  mr_length : Z;
  mr_pd : Z;
  mr_lkey : Z;
  mr_rkey : Z;
}.

(** [struct fdmi_msg]: [addr], [rank], [order] and [tag] are 64-bit words.
    [eager_buff] holds the bytes of the buffer that have been written. *)
Record fdmi_msg := Msg {
  msg_type : Z;
  msg_opcode : Z;
  msg_epoch : Z;
  msg_addr : Z;
  msg_rank : Z;
  msg_order : Z;
  msg_tag : Z;
  msg_op : Z;
  msg_count : Z;
  msg_comm_id : Z;
  msg_dtype : fdmi_datatype;
  msg_rdma_mr : ibv_mr;
  msg_loop : Z;
  eager_size : Z;
  eager_buff : list Z;
}.
#[export] Instance eta_msg : Eta fdmi_msg := λ m,
  Msg (msg_type m) (msg_opcode m) (msg_epoch m) (msg_addr m) (msg_rank m) (msg_order m)
    (msg_tag m) (msg_op m) (msg_count m) (msg_comm_id m) (msg_dtype m) (msg_rdma_mr m)
    (msg_loop m) (eager_size m) (eager_buff m).

(** [struct fdmi_query]: pointers. *)
Record fdmi_query := Query {
  qu_conn : Z;
  qu_msg : Z;
  qu_msg_mr : Z;
  active_query_to_free : Z;
  qu_request_flag : Z;
  qu_request : Z;
}.
#[export] Instance eta_query : Eta fdmi_query := λ q,
  Query (qu_conn q) (qu_msg q) (qu_msg_mr q) (active_query_to_free q) (qu_request_flag q)
    (qu_request q).

(** [struct fdmi_connection]; its fields [msg] and [msg_mr] are not used. *)
Record fdmi_connection := Connection {
  cn_rcid : Z;
  cn_qp : Z;
  cn_dctx : Z;
}.

(** [struct fdmi_query_qp]: the passive and the active queue. *)
Record fdmi_query_qp := QueryQp { qp_pq : fdmi_queue; qp_aq : fdmi_queue }.
#[export] Instance eta_query_qp : Eta fdmi_query_qp := λ x, QueryQp (qp_pq x) (qp_aq x).

(** [struct fdmi_domain_context], with its two queues in place. *)
Record fdmi_domain_context := DomainContext {
  dc_ctx : Z;
  dc_cc : Z;
  dc_pd : Z;
  dc_cq : Z;
  dc_tmp_cq : Z;
  dc_query_qp : fdmi_query_qp;
}.
#[export] Instance eta_domain_context : Eta fdmi_domain_context := λ d,
  DomainContext (dc_ctx d) (dc_cc d) (dc_pd d) (dc_cq d) (dc_tmp_cq d) (dc_query_qp d).

Record fdmi_domain := Domain { dom_rec : Z; dom_rcid : Z; dom_dctx : Z }.

Record fdmi_peer := Peer {
  p_conn : list Z;
  is_connected : Z;
  on_connecting_lock : mutex;
}.
#[export] Instance eta_peer : Eta fdmi_peer := λ p,
  Peer (p_conn p) (is_connected p) (on_connecting_lock p).

(** [struct fdmi_request], in the user's memory. *)
Record fdmi_request := Request {
  rq_prank : Z;
  rq_comm : Z;
  rq_tag : Z;
  rq_flag : Z;
}.
#[export] Instance eta_request : Eta fdmi_request := λ r,
  Request (rq_prank r) (rq_comm r) (rq_tag r) (rq_flag r).

(** [struct fdmi_ft_msg], the fields in use: the failed ranges [(offset, range)]
    and the elected ones. *)
Record fdmi_ft_msg := FtMsg {
  ft_id : Z;
  ft_failed : list (Z * Z);
  ft_elected : list (Z * Z);
  ft_epoch : Z;
}.

(** The parameters of an operation; [pp_comm] points to the communicator. *)
Record fdmi_post_param := PostParam {
  pp_rank : Z;
  pp_tag : Z;
  pp_addr : Z;
  pp_count : Z;
  pp_dtype : fdmi_datatype;
  pp_comm : Z;
  pp_request_flag : Z;
  pp_request : Z;
  pp_op : Z;
}.

(** ** Work requests handed to libibverbs *)
Record ibv_sge := Sge { sge_addr : Z; sge_length : Z; sge_lkey : Z }.

(** [payload] is what the second element of a send gathers. *)
Inductive wr :=
| WSend (qp wr_id : Z) (sges : list ibv_sge) (ctl : fdmi_msg) (payload : list Z)
| WRecv (qp wr_id : Z) (sges : list ibv_sge)
| WRead (qp wr_id : Z) (sge : ibv_sge) (remote_addr rkey : Z).

Definition wr_id_of (w : wr) : Z :=
  match w with WSend _ id _ _ _ => id | WRecv _ id _ => id | WRead _ id _ _ _ => id end.

(** ** The process *)
Record process := Process {
  ps_queries : heap fdmi_query;
  ps_msgs : heap fdmi_msg;
  ps_conns : heap fdmi_connection;
  ps_dctxs : heap fdmi_domain_context;
  ps_mrs : gmap Z ibv_mr;
  ps_requests : gmap Z fdmi_request;
  ps_memory : memory;
  ps_ints : heap Z;
  free_query_q : fdmi_queue;
  send_req_q : fdmi_queue;
  locked_request_sem_q : fdmi_queue;
  reg_mr_q : fdmi_queue;
  failed_prank_q : fdmi_queue;
  disconnected_prank_q : fdmi_queue;
  reg_mr_cached_size : Z;
  state : fdmi_state;
  ft_msg : fdmi_ft_msg;
  ps_prank : Z;
  ps_numproc : Z;
  ps_counter : Z;
  ps_ct : Z;
  connected_rank : Z;
  is_recv_cq_polling : Z;
  ps_peers : list fdmi_peer;
  ps_domains : list fdmi_domain;
  ps_pm : proc_man;
  ps_posted : list wr;
}.
#[export] Instance eta_process : Eta process := λ s,
  Process (ps_queries s) (ps_msgs s) (ps_conns s) (ps_dctxs s) (ps_mrs s) (ps_requests s)
    (ps_memory s) (ps_ints s) (free_query_q s) (send_req_q s) (locked_request_sem_q s)
    (reg_mr_q s) (failed_prank_q s) (disconnected_prank_q s) (reg_mr_cached_size s)
    (state s) (ft_msg s) (ps_prank s) (ps_numproc s) (ps_counter s) (ps_ct s)
    (connected_rank s) (is_recv_cq_polling s) (ps_peers s) (ps_domains s) (ps_pm s)
    (ps_posted s).

(** ** The environment

    [ibv_reg_mr mrs k pd addr size]: the [k]-th attempt to register a region,
    [None] when it fails.  [ibv_post posted w]: the error number of posting
    [w].  The other fields are contents the code leaves uninitialised: of a
    fresh query, of a fresh message, of the field [op] of a parameter block,
    and the address of a local variable. *)
Class Verbs : Type := {
  ibv_reg_mr : gmap Z ibv_mr → nat → Z → Z → Z → option (Z * ibv_mr);
  ibv_reg_mr_spec mrs k pd addr size a mr :
    ibv_reg_mr mrs k pd addr size = Some (a, mr) →
    a ≠ NULL ∧ mrs !! a = None ∧ mr_pd mr = pd ∧ mr_addr mr = addr ∧ mr_length mr = size;
  ibv_post : list wr → wr → Z;
  garbage_query : Z → fdmi_query;
  garbage_msg : Z → fdmi_msg;
  garbage_op : Z;
  local_addr : Z;
}.

(** ** Accessors *)
Section access.
Implicit Types (s : process).

Definition query_at s (a : Z) : outcome fdmi_query := peek (ps_queries s) a.
Definition msg_at s (a : Z) : outcome fdmi_msg := peek (ps_msgs s) a.

Definition set_query s (a : Z) (q : fdmi_query) : outcome process :=
  h <- poke (ps_queries s) a q ;; Done (s <| ps_queries := h |>).
Definition set_msg s (a : Z) (m : fdmi_msg) : outcome process :=
  h <- poke (ps_msgs s) a m ;; Done (s <| ps_msgs := h |>).

(** [query->msg->...]. *)
Definition query_msg s (a : Z) : outcome fdmi_msg :=
  q <- query_at s a ;; msg_at s (qu_msg q).
Definition set_query_msg s (a : Z) (m : fdmi_msg) : outcome process :=
  q <- query_at s a ;; set_msg s (qu_msg q) m.

(** [query->conn->dctx->pd] and the like. *)
Definition conn_at s (a : Z) : outcome fdmi_connection := peek (ps_conns s) a.
Definition dctx_at s (a : Z) : outcome fdmi_domain_context := peek (ps_dctxs s) a.
Definition conn_pd s (c : Z) : outcome Z :=
  cn <- conn_at s c ;; d <- dctx_at s (cn_dctx cn) ;; Done (dc_pd d).

(** Stores through [int *request_flag], which points into a request. *)
Definition set_flag s (p v : Z) : outcome process :=
  r <- load (ps_requests s) (p - offsetof_request_flag) ;;
  rs <- store (ps_requests s) (p - offsetof_request_flag) (r <| rq_flag := v |>) ;;
  Done (s <| ps_requests := rs |>).
(** [request->prank = rank; request->tag = tag;]: the 64-bit words of the
    message become [int]s. *)
Definition set_request_source s (a rank tag : Z) : outcome process :=
  r <- load (ps_requests s) a ;;
  rs <- store (ps_requests s) a (r <| rq_prank := i32 rank |> <| rq_tag := i32 tag |>) ;;
  Done (s <| ps_requests := rs |>).

(** [comm->id]. *)
Definition comm_id_at s (comm : Z) : outcome Z :=
  cm <- peek (cs_comms (pm_store (ps_pm s))) comm ;; Done (comm_id cm).

(** Operations on the two queues of a domain context. *)
Definition on_aq {A} s (d : Z) (op : fdmi_queue → outcome (A * fdmi_queue)) : outcome (A * process) :=
  dc <- dctx_at s d ;;
  let! (r, q) := op (qp_aq (dc_query_qp dc)) in
  h <- poke (ps_dctxs s) d (dc <| dc_query_qp := dc_query_qp dc <| qp_aq := q |> |>) ;;
  Done (r, s <| ps_dctxs := h |>).
Definition on_pq {A} s (d : Z) (op : fdmi_queue → outcome (A * fdmi_queue)) : outcome (A * process) :=
  dc <- dctx_at s d ;;
  let! (r, q) := op (qp_pq (dc_query_qp dc)) in
  h <- poke (ps_dctxs s) d (dc <| dc_query_qp := dc_query_qp dc <| qp_pq := q |> |>) ;;
  Done (r, s <| ps_dctxs := h |>).
End access.

(** An operation that returns nothing. *)
Definition unit_op (op : fdmi_queue → outcome fdmi_queue) (q : fdmi_queue) : outcome (unit * fdmi_queue) :=
  q <- op q ;; Done (tt, q).

(** [fdmi_test]: exits on a null pointer. *)
Definition fdmi_test (p : Z) : outcome unit :=
  if p =? NULL then Fatal "NULL POINTER EXCEPTION" else Done tt.

(** ** A concrete environment and process, for the examples *)

(** A driver that accepts every region and every work request. *)
#[export] Instance Verbs_sample : Verbs.
Proof.
  refine {| ibv_reg_mr mrs k pd addr size := Some (bump_malloc mrs, MR addr size pd 0 0);
            ibv_post _ _ := 0;
            garbage_query _ := Query 48879 48879 48879 48879 48879 48879;
            garbage_msg _ := Msg 0 0 0 0 0 0 0 48879 0 0 FMI_BYTE (MR 0 0 0 0 0) 0 0 [];
            garbage_op := 48879;
            local_addr := 140000 |}.
  intros mrs k pd addr size a mr [= <- <-].
  split_and!; [apply bump_malloc_nonnull|apply bump_malloc_fresh|done..].
Defined.

Definition empty_queue : fdmi_queue := queue_of [] 0 Unlocked.

Lemma empty_queue_rep : queue_rep Unlocked empty_queue [].
Proof. exists [], 0. split_and!; [split; [constructor|apply not_elem_of_nil]|done..]. Qed.

(** Rank 0 of two, connected to rank 1 by the connection 32 (whose identifier
    is 1600) over the domain context 16; two requests at 4096 and 8192. *)
Definition sample_dctx : fdmi_domain_context :=
  DomainContext 1 2 3 4 0 (QueryQp empty_queue empty_queue).

Definition sample_comms : comm_store :=
  CommStore (Heap {[ 16 := Comm NULL 3 0 2 2 4 16 4 32 ]} 1)
    (Heap (<[16 := rank_map 4 2]> {[ 32 := rank_map 4 2 ]}) 2) 4.

Definition sample_itop : fdmi_hashtable :=
  match (ht <- fdmi_hashtable_create 8 (λ _, 16) (λ _, 0) ;; fdmi_hashtable_add ht 1600 1) with
  | Done ht => ht
  | _ => Hashtable 0 [] empty_heap
  end.

Definition sample_process : process :=
  Process empty_heap empty_heap (Heap {[ 32 := Connection 1600 64 16 ]} 1)
    (Heap {[ 16 := sample_dctx ]} 1) ∅
    (<[4096 := Request 0 0 0 0]> {[ 8192 := Request 0 0 0 0 ]}) ∅ empty_heap
    empty_queue empty_queue empty_queue empty_queue empty_queue empty_queue 0
    FDMI_COMPUTE (FtMsg 0 [] [] 0) 0 1 0 0 1 0
    [Peer [NULL] 0 Unlocked; Peer [32] 1 Unlocked] [Domain 5 6 16]
    (ProcMan sample_comms sample_states sample_itop empty_queue empty_heap NULL NULL 2 0 2 0 0 0 16)
    [].
