(* ===== verification/MrCache.v ===== *)
(** * src/src/fdmi.c: the cache of registered memory regions

    [fdmi_reg_mr] keeps every region it registers in [reg_mr_q] and reuses one
    that starts at the same address, covers the size and belongs to the same
    protection domain; a registration is retried a bounded number of times. *)
From S2P Require Import Prelude Mem Queue Datatype State.

Section ops.
Context {HMalloc : Malloc} {HVerbs : Verbs}.

(** The [do ... while (mr == NULL)] loop; [try] is the variable of that name,
    [k] counts the attempts. *)
Fixpoint reg_mr_loop (try k : nat) (s : process) (pd addr size : Z) : outcome (Z * ibv_mr) :=
  match ibv_reg_mr (ps_mrs s) k pd addr size with
  | Some mr => Done mr
  | None => match try with
            | O => Fatal "ibv_reg_mr failed after several trial"
            | Datatypes.S try => reg_mr_loop try (Datatypes.S k) s pd addr size
            end
  end.

(** The parameter [size] is a [uint32_t]. *)
Definition mr_hit (s : process) (addr size pd tmp_mr : Z) : outcome bool :=
  mr <- load (ps_mrs s) tmp_mr ;;
  if negb (mr_pd mr =? pd) then Done false
  else Done ((mr_addr mr =? addr) && (padd addr size <=? padd (mr_addr mr) (mr_length mr))).

Definition fdmi_reg_mr (s : process) (addr size0 pd : Z) : outcome (Z * process) :=
  let size := u32 size0 in
  q <- fdmi_queue_lock (reg_mr_q s) ;;
  let! (hit, q) := queue_find (mr_hit s addr size pd) q in
  q <- fdmi_queue_unlock q ;;
  let s := s <| reg_mr_q := q |> in
  if negb (hit =? NULL) then Done (hit, s)
  else
    let! (a, mr) := reg_mr_loop 1000 0 s pd addr size in
    let s := s <| ps_mrs := <[a := mr]> (ps_mrs s) |> in
    q <- fdmi_queue_lock (reg_mr_q s) ;;
    q <- fdmi_queue_enq q a ;;
    let s := s <| reg_mr_cached_size := u64 (reg_mr_cached_size s + mr_length mr) |> in
    q <- fdmi_queue_unlock q ;;
    Done (a, s <| reg_mr_q := q |>).

(** [fdmi_err] exits before the loop that deregisters. *)
Definition fdmi_dereg_mr (s : process) (mr : Z) : outcome process :=
  if FDMI_REG_MR_CACHE_SIZE <? reg_mr_cached_size s then Fatal "exceeded" else Done s.
End ops.

(** ** Laws *)

(** The driver registers any region within the attempts the code makes. *)
Definition reg_total `{Verbs} : Prop :=
  ∀ mrs pd addr size, ∃ k, (k ≤ 1000)%nat ∧ is_Some (ibv_reg_mr mrs k pd addr size).

(** The cached regions are live. *)
Definition regs_ok (rep : mutex → fdmi_queue → list Z → Prop) (s : process) (l : list Z) : Prop :=
  rep Unlocked (reg_mr_q s) l ∧ NULL ∉ l ∧ (∀ a, a ∈ l → is_Some (ps_mrs s !! a)) ∧
  ps_mrs s !! NULL = None.

(** What a caller relies on: the region [a] is registered in [pd], starts at
    [addr] and covers [size] bytes. *)
Definition mr_covers (mrs : gmap Z ibv_mr) (a addr size pd : Z) : Prop :=
  a ≠ NULL ∧ ∃ mr, mrs !! a = Some mr ∧ mr_pd mr = pd ∧ mr_addr mr = addr ∧
                   padd addr size ≤ padd addr (mr_length mr).

Section proofs.
Context {HMalloc : Malloc} {HVerbs : Verbs} {rep : mutex → fdmi_queue → list Z → Prop} `{!QueueContract rep}.

Lemma reg_mr_loop_ok try k s pd addr size :
  (∃ j, (k ≤ j ≤ k + try)%nat ∧ is_Some (ibv_reg_mr (ps_mrs s) j pd addr size)) →
  ends (reg_mr_loop try k s pd addr size) (λ r,
    r.1 ≠ NULL ∧ ps_mrs s !! r.1 = None ∧ mr_pd r.2 = pd ∧ mr_addr r.2 = addr ∧ mr_length r.2 = size).
Proof.
  revert k. induction try as [|try IH]; intros k (j & Hj & Hs); cbn;
    destruct (ibv_reg_mr (ps_mrs s) k pd addr size) as [[a mr]|] eqn:E;
    try (by eapply ibv_reg_mr_spec).
  - replace j with k in Hs by lia. rewrite E in Hs. by destruct Hs.
  - apply IH. exists j. split; [|done]. destruct (decide (j = k)) as [->|]; [|lia].
    rewrite E in Hs. by destruct Hs.
Qed.

Lemma reg_mr_loop_fails try k s pd addr size :
  (∀ j, (k ≤ j ≤ k + try)%nat → ibv_reg_mr (ps_mrs s) j pd addr size = None) →
  reg_mr_loop try k s pd addr size = Fatal "ibv_reg_mr failed after several trial".
Proof.
  revert k. induction try as [|try IH]; intros k Hf; cbn; rewrite Hf by lia; [done|].
  apply IH. intros. apply Hf. lia.
Qed.

(** The test of the search loop, on live regions. *)
Definition hit_test (s : process) (addr size pd a : Z) : bool :=
  match ps_mrs s !! a with
  | Some mr => (mr_pd mr =? pd) && ((mr_addr mr =? addr) &&
                 (padd addr size <=? padd (mr_addr mr) (mr_length mr)))
  | None => false
  end.

Lemma mr_hit_ok s addr size pd a :
  is_Some (ps_mrs s !! a) → mr_hit s addr size pd a = Done (hit_test s addr size pd a).
Proof.
  intros [mr E]. unfold mr_hit, hit_test, load. rewrite E. cbn. by destruct (mr_pd mr =? pd).
Qed.

Lemma hit_test_covers s addr size pd a :
  hit_test s addr size pd a = true → a ≠ NULL → mr_covers (ps_mrs s) a addr size pd.
Proof.
  unfold hit_test. destruct (ps_mrs s !! a) as [mr|] eqn:E; [|done].
  intros [Hp%Z.eqb_eq [Ha%Z.eqb_eq Hc]%andb_true_iff]%andb_true_iff Hn. split; [done|]. exists mr.
  rewrite Ha in Hc. split_and!; try done. lia.
Qed.

(** The search, with the lock around it. *)
Lemma reg_search_ok s addr size pd l :
  regs_ok rep s l →
  ends (q <- fdmi_queue_lock (reg_mr_q s) ;;
        let! (hit, q) := queue_find (mr_hit s addr size pd) q in
        q <- fdmi_queue_unlock q ;; Done (hit, q))
    (λ r, r.1 = find_ptr (hit_test s addr size pd) l ∧ rep Unlocked r.2 l).
Proof.
  intros (Hq & H0 & Hl & _). c_step rep_lock as q1 H1. apply ends_bind.
  eapply ends_mono; [apply (rep_find _ (hit_test s addr size pd)); [exact H1|done|]|].
  - intros a Ha. by apply mr_hit_ok, Hl.
  - intros [hit q2] [Hh H2]. cbn in *. by c_step rep_unlock as q3 H3.
Qed.

(** The components [fdmi_reg_mr] may change. *)
Definition with_regs (s : process) (q : fdmi_queue) (mrs : gmap Z ibv_mr) (n : Z) : process :=
  s <| reg_mr_q := q |> <| ps_mrs := mrs |> <| reg_mr_cached_size := n |>.

Lemma with_regs_id s q : s <| reg_mr_q := q |> = with_regs s q (ps_mrs s) (reg_mr_cached_size s).
Proof. by destruct s. Qed.

Lemma fdmi_reg_mr_cases s addr size pd l :
  regs_ok rep s l → (∀ m : gmap Z fdmi_queue_data, malloc m ≠ NULL) →
  let hit := find_ptr (hit_test s addr (u32 size) pd) l in
  if hit =? NULL then
    (∃ j, (j ≤ 1000)%nat ∧ is_Some (ibv_reg_mr (ps_mrs s) j pd addr (u32 size))) →
    ends (fdmi_reg_mr s addr size pd) (λ r, ∃ q mr,
      r.2 = with_regs s q (<[r.1 := mr]> (ps_mrs s))
              (u64 (reg_mr_cached_size s + u32 size)) ∧
      ps_mrs s !! r.1 = None ∧ r.1 ≠ NULL ∧ rep Unlocked q (l ++ [r.1]) ∧
      mr_pd mr = pd ∧ mr_addr mr = addr ∧ mr_length mr = u32 size)
  else ends (fdmi_reg_mr s addr size pd) (λ r, ∃ q,
         r = (hit, with_regs s q (ps_mrs s) (reg_mr_cached_size s)) ∧ rep Unlocked q l).
Proof.
  intros Hr Hm hit. unfold fdmi_reg_mr.
  pose proof (reg_search_ok s addr (u32 size) pd l Hr) as E. apply ends_Done in E as ([h q] & E & Hh & Hq).
  cbn in Hh, Hq. fold hit in Hh. subst h.
  apply obind_Done_inv in E as (q1 & -> & E). cbn [obind].
  apply obind_Done_inv in E as ([h q2] & -> & E). cbn [obind].
  apply obind_Done_inv in E as (q3 & -> & E). cbn [obind]. injection E as -> ->.
  destruct (hit =? NULL) eqn:Eh; cbn [negb].
  - intros (j & Hj & Hs). rewrite with_regs_id.
    c_step (reg_mr_loop_ok 1000 0) as [a mr] (Ha0 & Ha & Hp & Had & Hlen); [exists j; split; [lia|exact Hs]|].
    cbn in Ha, Ha0. cbn [fst snd] in *. cbn.
    c_step rep_lock as q4 H4. c_step rep_enq as q5 H5. c_step rep_unlock as q6 H6.
    exists q6, mr. rewrite <- Hlen. by destruct s.
  - cbn. exists q. by rewrite with_regs_id.
Qed.

Lemma fdmi_reg_mr_ok s addr size pd l :
  regs_ok rep s l → (∀ m : gmap Z fdmi_queue_data, malloc m ≠ NULL) → reg_total →
  ends (fdmi_reg_mr s addr size pd) (λ r, ∃ q mrs n l',
    r.2 = with_regs s q mrs n ∧ regs_ok rep r.2 l' ∧ r.1 ∈ l' ∧ ps_mrs s ⊆ mrs ∧
    mr_covers mrs r.1 addr (u32 size) pd).
Proof.
  intros Hr Hm Ht. pose proof (fdmi_reg_mr_cases s addr size pd l Hr Hm) as Hc. cbn in Hc.
  destruct Hr as (Hq & H0 & Hl & Hnull). destruct (find_ptr _ l =? NULL) eqn:Eh.
  - eapply ends_mono; [apply Hc, Ht|]. intros [a s'] (q & mr & -> & Ha & Ha0 & Hq' & Hp & Had & Hlen).
    cbn [fst snd] in *. eexists q, _, _, (l ++ [a]). split_and!; [done| | |by apply insert_subseteq|].
    + split_and!; [done| | |by cbn; rewrite lookup_insert_ne by done].
      * rewrite elem_of_app, list_elem_of_singleton. naive_solver.
      * cbn. intros b [Hb| ->%list_elem_of_singleton]%elem_of_app;
          [|by rewrite lookup_insert_eq; eexists].
        destruct (Hl b Hb) as [mb Hmb]. exists mb. rewrite lookup_insert_ne; [done|congruence].
    + apply elem_of_app. right. by apply list_elem_of_singleton.
    + split; [done|]. exists mr. rewrite lookup_insert_eq. split_and!; try done. by rewrite Hlen.
  - eapply ends_mono; [exact Hc|]. intros r (q & -> & Hq'). cbn [fst snd].
    apply Z.eqb_neq in Eh.
    destruct (find_ptr_Some _ l _ eq_refl Eh) as (pre & suf & Hpre & Hh & _).
    eexists q, _, _, l. split_and!; [done|done| |done|].
    { rewrite Hpre at 2. apply elem_of_app. right. by left. }
    by apply hit_test_covers.
Qed.
End proofs.

(** ** Properties *)

(** C30: registering memory.  Whenever the driver accepts the region within 1001
    attempts, [fdmi_reg_mr] returns a region of the right protection domain
    that starts at [addr] and covers the size it was given (an [uint32_t]), the
    cache stays well formed with its lock released, and registering the same or
    a smaller region again returns a cached one without a new registration. *)
Theorem reg_mr_covers_and_caches `{Malloc} `{Verbs} s addr size size' pd l :
  regs_ok queue_rep s l → malloc_total → reg_total →
  0 ≤ addr → addr + 2 ^ 32 ≤ 2 ^ 64 → u32 size' ≤ u32 size →
  ends (fdmi_reg_mr s addr size pd) (λ r,
    mr_covers (ps_mrs r.2) r.1 addr (u32 size) pd ∧
    ends (fdmi_reg_mr r.2 addr size' pd) (λ r',
      (∃ l', regs_ok queue_rep r'.2 l') ∧
      ps_mrs r'.2 = ps_mrs r.2 ∧ mr_covers (ps_mrs r.2) r'.1 addr (u32 size') pd)).
Proof.
  intros Hr Hm Ht Ha Hw Hs. c_last (fdmi_reg_mr_ok (rep := queue_rep) s addr size pd l) as [a s1]
    (q & mrs & n & l' & -> & Hr' & Hin & _ & Hc). cbn [fst snd] in *.
  split; [done|]. pose proof Hr' as (Hq' & Hnn & _).
  pose proof (fdmi_reg_mr_cases _ addr size' pd l' Hr' (Hm _)) as Hcase. cbn zeta in Hcase.
  destruct (find_ptr _ l' =? NULL) eqn:Eh.
  - exfalso. apply Z.eqb_eq in Eh. apply (find_ptr_None _ _ Hnn) with (y := a) in Eh; [|done].
    destruct Hc as (_ & mr & Hmr & Hp & Had & Hcov). revert Eh. unfold hit_test. cbn. rewrite Hmr, Hp, Had.
    rewrite !Z.eqb_refl. cbn. rewrite Z.leb_gt. unfold padd in *. pose proof (u32_bounds size).
    pose proof (u32_bounds size'). rewrite (u64_id (addr + u32 size')) by lia.
    rewrite (u64_id (addr + u32 size)) in Hcov by lia. lia.
  - eapply ends_mono; [exact Hcase|]. intros r (q' & -> & Hq''). cbn [fst snd]. split_and!; [|done|].
    + exists l'. split; [done|]. by destruct Hr' as (_ & ? & ? & ?).
    + apply Z.eqb_neq in Eh.
      destruct (find_ptr_Some _ l' _ eq_refl Eh) as (_ & _ & _ & Hh & _).
      by apply (hit_test_covers _ _ _ _ _ Hh).
Qed.

Lemma reg_mr_covers_and_caches_witness :
  ends (fdmi_reg_mr sample_process 4096 64 3) (λ r,
    mr_covers (ps_mrs r.2) r.1 4096 64 3 ∧
    ends (fdmi_reg_mr r.2 4096 32 3) (λ r',
      (∃ l', regs_ok queue_rep r'.2 l') ∧
      ps_mrs r'.2 = ps_mrs r.2 ∧ mr_covers (ps_mrs r.2) r'.1 4096 32 3)).
Proof.
  apply (reg_mr_covers_and_caches sample_process 4096 64 32 3 []).
  - split_and!; [apply empty_queue_rep|apply not_elem_of_nil|by intros ? ?%elem_of_nil|done].
  - exact Malloc_bump_total.
  - intros mrs pd addr size. exists 0%nat. split; [lia|by eexists].
  - lia.
  - lia.
  - by vm_compute.
Defined.

(** C40: the region registered for [n] elements of a datatype at [addr].  The size
    is computed as that of one element times the number of elements and is
    handed over as an [uint32_t].  When no cached region serves, the new region
    has that size.  Below 4 GiB it contains every byte of the layout exactly
    when the datatype is one block, there is one element, or the blocks are not
    spaced out: with several elements of a spaced-out type it ends before the
    last one does.  A size of 4 GiB or more is reduced, and the region of a
    buffer whose blocks do not overlap never contains it. *)
Theorem reg_size_covers `{Malloc} `{Verbs} s addr pd l d n :
  regs_ok queue_rep s l → malloc_total → reg_total → wf_dtype d → 0 < dt_count d → 0 < dt_blength d →
  0 < n ≤ INT_MAX → dt_stride d * (dt_count d - 1) + dt_blength d ≤ INT_MAX → elements_size d n < 2 ^ 64 →
  find_ptr (hit_test s addr (u32 (elements_size d n)) pd) l = NULL →
  ends (size <- reg_size d n ;; fdmi_reg_mr s addr size pd) (λ r, ∃ mr,
    ps_mrs r.2 !! r.1 = Some mr ∧ mr_addr mr = addr ∧ mr_length mr = u32 (elements_size d n) ∧
    (elements_size d n < 2 ^ 32 →
      (∀ o, layout d n o = true → o < mr_length mr) ↔
      dt_count d = 1 ∨ n = 1 ∨ dt_stride d ≤ dt_blength d) ∧
    (2 ^ 32 ≤ elements_size d n → dt_count d = 1 ∨ dt_blength d ≤ dt_stride d →
      ¬ ∀ o, layout d n o = true → o < mr_length mr)).
Proof.
  intros Hr Hm Ht Hwf Hc Hb Hn He Hsz Hmiss. rewrite reg_size_value by done. cbn [obind].
  pose proof (fdmi_reg_mr_cases s addr (elements_size d n) pd l Hr (Hm _)) as Hcase. cbn zeta in Hcase.
  rewrite Hmiss in Hcase. cbn in Hcase. eapply ends_mono; [apply Hcase, Ht|].
  intros [a s'] (q & mr & Hs' & _ & _ & _ & _ & Had & Hlen). cbn [fst snd] in *. exists mr.
  destruct (layout_span d n Hwf Hc Hb) as [Hle Hlast]; [lia|].
  destruct (span_elements_size d n Hwf Hc) as [Hiff Hgap]; [lia|].
  assert (Hnn : 0 ≤ elements_size d n) by (unfold elements_size; destruct Hwf; nia).
  assert (Hcov : (∀ o, layout d n o = true → o < mr_length mr) ↔ span d n ≤ mr_length mr).
  { split; [intros H1; apply H1 in Hlast; lia|intros H1 o Ho%Hle; lia]. }
  rewrite Hcov, Hlen. split_and!; [rewrite Hs'; cbn; apply lookup_insert_eq|done|done| |].
  - intros Hsm. rewrite u32_id by lia. exact Hiff.
  - intros Hbig Hov%Hgap. pose proof (u32_bounds (elements_size d n)). lia.
Qed.

(** Two elements of two one-byte blocks three bytes apart end at offset 10; 8
    bytes are registered. *)
Lemma reg_size_covers_witness :
  ends (size <- reg_size sample_vector 2 ;; fdmi_reg_mr sample_process 4096 size 3) (λ r, ∃ mr,
    ps_mrs r.2 !! r.1 = Some mr ∧ mr_addr mr = 4096 ∧ mr_length mr = 8 ∧ layout sample_vector 2 9 = true ∧
    ¬ ∀ o, layout sample_vector 2 o = true → o < mr_length mr).
Proof.
  eapply ends_mono; [apply (reg_size_covers sample_process 4096 3 [] sample_vector 2)|].
  - split_and!; [apply empty_queue_rep|apply not_elem_of_nil|by intros ? ?%elem_of_nil|done].
  - exact Malloc_bump_total.
  - intros mrs pd addr size. exists 0%nat. split; [lia|by eexists].
  - exact sample_vector_wf.
  - done.
  - done.
  - done.
  - done.
  - done.
  - done.
  - intros r (mr & Hmr & Had & Hlen & Hiff & _). exists mr. split_and!; [done|done|by rewrite Hlen|done|].
    rewrite Hiff by done. cbn. lia.
Defined.

(** Registration gives up.  When no cached region serves and the driver
    refuses 1001 attempts, [fdmi_reg_mr] ends the process with an error: it
    never returns [NULL] and never loops for ever. *)
Theorem reg_mr_gives_up `{Malloc} `{Verbs} s addr size pd l :
  regs_ok queue_rep s l → find_ptr (hit_test s addr (u32 size) pd) l = NULL →
  (∀ j, (j ≤ 1000)%nat → ibv_reg_mr (ps_mrs s) j pd addr (u32 size) = None) →
  fdmi_reg_mr s addr size pd = Fatal "ibv_reg_mr failed after several trial".
Proof.
  intros Hr Hh Hf. unfold fdmi_reg_mr.
  pose proof (reg_search_ok (rep := queue_rep) s addr (u32 size) pd l Hr) as E.
  apply ends_Done in E as ([h q] & E & Hh' & Hq). cbn in Hh', Hq. rewrite Hh in Hh'. subst h.
  apply obind_Done_inv in E as (q1 & -> & E). cbn [obind].
  apply obind_Done_inv in E as ([h q2] & -> & E). cbn [obind].
  apply obind_Done_inv in E as (q3 & -> & E). cbn [obind]. injection E as -> ->.
  cbn [negb Z.eqb]. rewrite reg_mr_loop_fails; [done|]. intros j ?. apply Hf. lia.
Qed.

(** A driver that refuses everything. *)
Definition Verbs_refusing : Verbs.
Proof.
  refine {| ibv_reg_mr _ _ _ _ _ := None; ibv_post _ _ := 0;
            garbage_query _ := Query 0 0 0 0 0 0;
            garbage_msg _ := Msg 0 0 0 0 0 0 0 0 0 0 FMI_BYTE (MR 0 0 0 0 0) 0 0 [];
            garbage_op := 0; local_addr := 0 |}.
  done.
Defined.

Lemma reg_mr_gives_up_witness :
  @fdmi_reg_mr _ Verbs_refusing sample_process 4096 64 3 =
  Fatal "ibv_reg_mr failed after several trial".
Proof.
  apply (@reg_mr_gives_up _ Verbs_refusing sample_process 4096 64 3 []).
  - split_and!; [apply empty_queue_rep|apply not_elem_of_nil|by intros ? ?%elem_of_nil|done].
  - done.
  - done.
Defined.
