(* ===== verification/Query.v ===== *)
(** * src/src/fdmi.c: the pool of queries, and who owns a query

    A query is created from the pool [free_query_q] or allocated, and is never
    freed: [fdmi_destroy_query] puts it back.  The invariant [proc_inv] says
    where the queries of a process are: in the pool, in the active or passive
    queue, or held by a handler or a posted work request, in one place only. *)
From S2P Require Import Prelude Mem Queue Datatype ProcMan State MrCache.

Section ops.
Context {HMalloc : Malloc} {HVerbs : Verbs}.

(** The body of the search loop of [fdmi_create_query]. *)
Definition take_from_pool (s : process) (conn tmp_query query : Z) (q : fdmi_queue)
    : outcome (bool * Z * fdmi_queue) :=
  tq <- query_at s tmp_query ;;
  if (qu_conn tq =? NULL) && (conn =? NULL) then
    q <- fdmi_queue_remove q tmp_query ;; Done (true, tmp_query, q)
  else if (conn =? NULL) || (qu_conn tq =? NULL) then Done (false, query, q)
  else
    pd1 <- conn_pd s (qu_conn tq) ;; pd2 <- conn_pd s conn ;;
    if pd1 =? pd2 then q <- fdmi_queue_remove q tmp_query ;; Done (true, tmp_query, q)
    else Done (false, query, q).

(** The allocation when the pool has no suitable query: a fresh query with a
    fresh message, registered when there is a connection. *)
Definition alloc_query (s : process) (conn : Z) : outcome (Z * process) :=
  let! (query, qs) := fdmi_malloc (ps_queries s) (garbage_query (ps_counter s)) in
  let s := s <| ps_queries := qs |> in
  let! (m, ms) := fdmi_malloc (ps_msgs s) (garbage_msg (ps_counter s)) in
  let s := s <| ps_msgs := ms |> in
  qu <- query_at s query ;;
  s <- set_query s query (qu <| qu_msg := m |>) ;;
  if conn =? NULL then Done (query, s)
  else
    pd <- conn_pd s conn ;;
    let! (mr, s) := fdmi_reg_mr s m sizeof_fdmi_msg pd in
    qu <- query_at s query ;;
    s <- set_query s query (qu <| qu_msg_mr := mr |>) ;;
    Done (query, s).

Definition fdmi_create_query (s : process) (conn : Z) : outcome (Z * process) :=
  let s := s <| ps_counter := i32 (ps_counter s + 1) |> in
  q <- fdmi_queue_lock (free_query_q s) ;;
  let! (query, q) := queue_for (take_from_pool s conn) NULL q in
  q <- fdmi_queue_unlock q ;;
  let s := s <| free_query_q := q |> in
  let! (query, s) :=
    (if query =? NULL then alloc_query s conn else Done (query, s)) in
  qu <- query_at s query ;;
  s <- set_query s query
    (qu <| qu_conn := conn |> <| qu_request_flag := NULL |> <| active_query_to_free := NULL |>) ;;
  _ <- fdmi_test query ;;
  Done (query, s).

Definition fdmi_destroy_query (s : process) (query : Z) : outcome process :=
  q <- fdmi_queue_lock (free_query_q s) ;;
  q <- fdmi_queue_enq q query ;;
  let s := s <| ps_counter := i32 (ps_counter s - 1) |> in
  q <- fdmi_queue_unlock q ;;
  Done (s <| free_query_q := q |>).
End ops.

(** ** The invariant *)

(** A query has its own live message; with a connection it has a registered
    message as well. *)
Definition wf_query (s : process) (q : fdmi_query) : Prop :=
  is_Some (cells (ps_msgs s) !! qu_msg q) ∧
  (qu_conn q ≠ NULL → is_Some (cells (ps_conns s) !! qu_conn q) ∧
                      is_Some (ps_mrs s !! qu_msg_mr q)).

(** [ma] and [mp] are the states of the mutexes of the queues [aq] and [pq] of
    the domain context [D]; [held] lists the queries of the running handler and
    of the posted work requests. *)
Record proc_inv (rep : mutex → fdmi_queue → list Z → Prop) (s : process) (D : Z)
    (ma mp : mutex) (free aq pq held : list Z) : Prop := {
  pi_free : rep Unlocked (free_query_q s) free;
  pi_regs : ∃ l, regs_ok rep s l;
  pi_sreq : ∃ l, rep Unlocked (send_req_q s) l;
  pi_lreq : ∃ l, rep Unlocked (locked_request_sem_q s) l;
  pi_dctx : ∃ dc, cells (ps_dctxs s) !! D = Some dc ∧
              rep ma (qp_aq (dc_query_qp dc)) aq ∧ rep mp (qp_pq (dc_query_qp dc)) pq;
  pi_conns c cn : cells (ps_conns s) !! c = Some cn → cn_dctx cn = D;
  pi_nodup : NoDup (free ++ aq ++ pq ++ held);
  pi_live a : a ∈ free ++ aq ++ pq ++ held → a ≠ NULL ∧ is_Some (cells (ps_queries s) !! a);
  pi_query a q : cells (ps_queries s) !! a = Some q → wf_query s q;
  pi_msgs a b qa qb : cells (ps_queries s) !! a = Some qa → cells (ps_queries s) !! b = Some qb →
              qu_msg qa = qu_msg qb → a = b;
  pi_null : cells (ps_msgs s) !! NULL = None;
}.

Arguments pi_free {_ _ _ _ _ _ _ _ _} _.
Arguments pi_regs {_ _ _ _ _ _ _ _ _} _.
Arguments pi_sreq {_ _ _ _ _ _ _ _ _} _.
Arguments pi_lreq {_ _ _ _ _ _ _ _ _} _.
Arguments pi_dctx {_ _ _ _ _ _ _ _ _} _.
Arguments pi_conns {_ _ _ _ _ _ _ _ _} _ _ _ _.
Arguments pi_nodup {_ _ _ _ _ _ _ _ _} _.
Arguments pi_live {_ _ _ _ _ _ _ _ _} _ _ _.
Arguments pi_query {_ _ _ _ _ _ _ _ _} _ _ _ _.
Arguments pi_null {_ _ _ _ _ _ _ _ _} _.
Arguments pi_msgs {_ _ _ _ _ _ _ _ _} _ _ _ _ _ _ _ _.

(** The components the pool operations may change. *)
Definition with_pool (s : process) (fq : fdmi_queue) (qs : heap fdmi_query) (ms : heap fdmi_msg)
    (rq : fdmi_queue) (mrs : gmap Z ibv_mr) (n cnt : Z) : process :=
  s <| free_query_q := fq |> <| ps_queries := qs |> <| ps_msgs := ms |> <| reg_mr_q := rq |>
    <| ps_mrs := mrs |> <| reg_mr_cached_size := n |> <| ps_counter := cnt |>.

Section proofs.
Context {HMalloc : Malloc} {HVerbs : Verbs}.
Context {rep : mutex → fdmi_queue → list Z → Prop} `{!QueueContract rep}.
Context (Hm : malloc_total) (Hreg : reg_total).
Context (s : process) (D : Z) (ma mp : mutex) (free aq pq held : list Z).
Hypothesis (Hinv : proc_inv rep s D ma mp free aq pq held).

Lemma conn_pd_ok c :
  is_Some (cells (ps_conns s) !! c) →
  ∃ dc, cells (ps_dctxs s) !! D = Some dc ∧ conn_pd s c = Done (dc_pd dc).
Proof.
  intros [cn Hc]. destruct (pi_dctx Hinv) as (dc & Hd & _).
  exists dc. split; [done|]. unfold conn_pd, conn_at, dctx_at, peek.
  rewrite (proj2 (load_Done _ _ _) Hc). cbn. rewrite (pi_conns Hinv _ _ Hc).
  by rewrite (proj2 (load_Done _ _ _) Hd).
Qed.

Lemma query_at_live a : a ∈ free ++ aq ++ pq ++ held → ∃ q, query_at s a = Done q ∧
  cells (ps_queries s) !! a = Some q.
Proof.
  intros Ha. destruct (pi_live Hinv a Ha) as [_ [q Hq]].
  exists q. split; [|done]. by apply load_Done.
Qed.

(** Which pooled queries suit a connection. *)
Definition suits (conn a : Z) : bool :=
  match cells (ps_queries s) !! a with
  | Some q => if qu_conn q =? NULL then conn =? NULL else negb (conn =? NULL)
  | None => false
  end.

Lemma take_from_pool_ok conn a query q :
  (conn = NULL ∨ is_Some (cells (ps_conns s) !! conn)) → a ∈ free →
  take_from_pool s conn a query q =
  if suits conn a then q <- fdmi_queue_remove q a ;; Done (true, a, q) else Done (false, query, q).
Proof.
  intros Hc Ha. destruct (query_at_live a) as (qu & E & Hq); [set_solver|].
  unfold take_from_pool, suits. rewrite E, Hq. cbn [obind].
  destruct (qu_conn qu =? NULL) eqn:E1, (conn =? NULL) eqn:E2; cbn [andb orb negb]; try done.
  destruct (pi_query Hinv a qu Hq) as [_ Hcn].
  destruct (conn_pd_ok (qu_conn qu)) as (dc & Hd & ->); [apply Hcn; lia|].
  destruct Hc as [->|Hc]; [done|]. destruct (conn_pd_ok conn Hc) as (dc' & Hd' & ->).
  rewrite Hd in Hd'. injection Hd' as <-. cbn [obind]. by rewrite Z.eqb_refl.
Qed.

Lemma NULL_not_free : NULL ∉ free.
Proof. intros Hn. destruct (pi_live Hinv NULL) as [? _]; [set_solver|done]. Qed.

(** The search of [fdmi_create_query]: it takes the first suitable query out of
    the pool. *)
Lemma pool_search_ok conn :
  (conn = NULL ∨ is_Some (cells (ps_conns s) !! conn)) →
  ends (q <- fdmi_queue_lock (free_query_q s) ;;
        let! (query, q) := queue_for (take_from_pool s conn) NULL q in
        q <- fdmi_queue_unlock q ;; Done (query, q))
    (λ r, r.1 = find_ptr (suits conn) free ∧
          rep Unlocked r.2 (if r.1 =? NULL then free else remove_first r.1 free)).
Proof.
  intros Hc. pose proof NULL_not_free as Hn. pose proof (pi_free Hinv) as Hf.
  c_step rep_lock as q1 H1. apply ends_bind. eapply ends_mono.
  - apply (rep_for_until _ (suits conn)
      (λ a r q, r = a ∧ rep Locked q (remove_first a free)) Locked _ free); [done|done|..].
    + intros a q Ha Hs. rewrite take_from_pool_ok by done. by rewrite Hs.
    + intros a q Ha Hs Hq. rewrite take_from_pool_ok by done. rewrite Hs.
      c_step rep_remove as q2 H2. done.
  - intros [a q2] Hq2. cbn [fst snd] in *.
    destruct (find_ptr (suits conn) free =? NULL) eqn:E.
    + destruct Hq2 as [-> Hq2]. c_step rep_unlock as q3 H3. cbn. split; [lia|done].
    + destruct Hq2 as [-> Hq2]. c_step rep_unlock as q3 H3. cbn [ends fst snd]. by rewrite E.
Qed.

(** ** Changing queries and messages *)

(** The invariant does not mention the other components of the process. *)
Lemma inv_with_pool fq qs ms rq mrs n cnt free' held' :
  rep Unlocked fq free' →
  (∃ l, regs_ok rep (with_pool s fq qs ms rq mrs n cnt) l) →
  NoDup (free' ++ aq ++ pq ++ held') →
  (∀ a, a ∈ free' ++ aq ++ pq ++ held' → a ≠ NULL ∧ is_Some (cells qs !! a)) →
  (∀ a q, cells qs !! a = Some q → wf_query (with_pool s fq qs ms rq mrs n cnt) q) →
  (∀ a b qa qb, cells qs !! a = Some qa → cells qs !! b = Some qb → qu_msg qa = qu_msg qb → a = b) →
  cells ms !! NULL = None →
  proc_inv rep (with_pool s fq qs ms rq mrs n cnt) D ma mp free' aq pq held'.
Proof. destruct Hinv. by split. Qed.

(** The three fields [fdmi_create_query] initialises at the end. *)
Definition init_query (conn : Z) (qu : fdmi_query) : fdmi_query :=
  qu <| qu_conn := conn |> <| qu_request_flag := NULL |> <| active_query_to_free := NULL |>.

Lemma destroy_query_ok q held' :
  held ≡ₚ q :: held' →
  ends (fdmi_destroy_query s q) (λ s', ∃ fq cnt,
    s' = s <| ps_counter := cnt |> <| free_query_q := fq |> ∧
    proc_inv rep s' D ma mp (free ++ [q]) aq pq held').
Proof.
  intros Hp. unfold fdmi_destroy_query. pose proof (pi_free Hinv) as Hf.
  c_step rep_lock as q1 H1. c_step rep_enq as q2 H2. c_step rep_unlock as q3 H3.
  eexists q3, _. split; [done|].
  assert (Hperm : (free ++ [q]) ++ aq ++ pq ++ held' ≡ₚ free ++ aq ++ pq ++ held)
    by (rewrite Hp; solve_Permutation).
  destruct Hinv. split; cbn; try done.
  - by rewrite Hperm.
  - intros a. rewrite Hperm. auto.
Qed.
End proofs.

(** ** Creating a query *)
Section create.
Context {HMalloc : Malloc} {HVerbs : Verbs}.
Context {rep : mutex → fdmi_queue → list Z → Prop} `{!QueueContract rep}.
Context (Hm : malloc_total) (Hreg : reg_total).
Context (D : Z) (ma mp : mutex) (aq pq : list Z).

(** What a caller of [fdmi_create_query] gets: a query that nobody else holds,
    connected as asked, with a registered message if it has a connection; the
    queries and messages of the others are as they were. *)
Definition created (s : process) (conn : Z) (held : list Z) (q : Z) (s' : process) : Prop :=
  ∃ fq qs ms rq mrs n cnt free' qu, s' = with_pool s fq qs ms rq mrs n cnt ∧
    proc_inv rep s' D ma mp free' aq pq (q :: held) ∧
    cells qs !! q = Some qu ∧ qu_conn qu = conn ∧ qu_request_flag qu = NULL ∧
    active_query_to_free qu = NULL ∧
    (∀ a x, a ≠ q → cells (ps_queries s) !! a = Some x → cells qs !! a = Some x) ∧
    cells (ps_msgs s) ⊆ cells ms ∧ ps_mrs s ⊆ mrs.

(** A pooled query: only its fields and the pool change. *)
Lemma create_from_pool s free held conn q fq cnt :
  proc_inv rep s D ma mp free aq pq held →
  (conn = NULL ∨ is_Some (cells (ps_conns s) !! conn)) →
  q ∈ free → suits s conn q = true → rep Unlocked fq (remove_first q free) →
  ∃ qu, cells (ps_queries s) !! q = Some qu ∧
    created s conn held q
      (with_pool s fq (Heap (<[q := init_query conn qu]> (cells (ps_queries s)))
                         (total_alloc_count (ps_queries s)))
         (ps_msgs s) (reg_mr_q s) (ps_mrs s) (reg_mr_cached_size s) cnt).
Proof.
  intros Hinv Hc Hq Hs Hfq. destruct (query_at_live s D ma mp free aq pq held Hinv q) as (qu & _ & Hqu);
    [set_solver|]. exists qu. split; [done|].
  assert (Hwf : wf_query s (init_query conn qu)).
  { destruct (pi_query Hinv q qu Hqu) as [Hmsg Hcn]. split; [done|]. cbn. intros Hcn'.
    destruct Hc as [->|Hc]; [done|]. split; [done|]. apply Hcn. unfold suits in Hs. rewrite Hqu in Hs.
    destruct (qu_conn qu =? NULL) eqn:E; [|lia]. apply Z.eqb_eq in Hs. done. }
  assert (Hperm : remove_first q free ++ aq ++ pq ++ q :: held ≡ₚ free ++ aq ++ pq ++ held).
  { apply list_elem_of_split in Hq as (l1 & l2 & ->). pose proof (pi_nodup Hinv) as Hnd.
    rewrite remove_first_app; [solve_Permutation|]. intros Hin. rewrite <- app_assoc in Hnd.
    apply NoDup_app in Hnd as (_ & Hnd & _). apply (Hnd q Hin). by left. }
  eexists fq, _, _, _, _, _, _, _, (init_query conn qu). split; [done|].
  split; [|cbn; rewrite lookup_insert_eq; split_and!; try done;
           intros; by rewrite lookup_insert_ne].
  eapply inv_with_pool; [exact Hinv|exact Hfq|by apply Hinv|rewrite Hperm; apply Hinv|..]; cbn.
  - intros a. rewrite Hperm. intros Ha. destruct (pi_live Hinv a Ha) as [? ?].
    split; [done|]. destruct (decide (a = q)) as [->|]; [rewrite lookup_insert_eq; by eexists|].
    by rewrite lookup_insert_ne.
  - intros a x. destruct (decide (a = q)) as [->|].
    + rewrite lookup_insert_eq. by intros [= <-].
    + rewrite lookup_insert_ne by done. apply Hinv.
  - intros a b qa qb. rewrite !lookup_insert. pose proof (pi_msgs Hinv) as Hms.
    case_decide as Ea; case_decide as Eb; subst; try done.
    + intros [= <-] Hb. cbn. by apply Hms.
    + intros Ha [= <-]. cbn. by apply Hms.
    + by apply Hms.
  - apply Hinv.
Qed.

(** The state after the allocation of [alloc_query]. *)
Definition alloc_result (s : process) (conn : Z) (r : Z * process) : Prop :=
  ∃ qs ms rq mrs n m qu l, r.2 = with_pool s (free_query_q s) qs ms rq mrs n (ps_counter s) ∧
    regs_ok rep r.2 l ∧ ps_mrs s ⊆ mrs ∧
    r.1 ≠ NULL ∧ cells (ps_queries s) !! r.1 = None ∧
    cells qs = <[r.1 := qu]> (cells (ps_queries s)) ∧
    m ≠ NULL ∧ cells (ps_msgs s) !! m = None ∧ cells ms = <[m := garbage_msg (ps_counter s)]> (cells (ps_msgs s)) ∧
    qu_msg qu = m ∧ (conn ≠ NULL → is_Some (mrs !! qu_msg_mr qu)).

Lemma alloc_state s qs ms qs' :
  s <| ps_queries := qs |> <| ps_msgs := ms |> <| ps_queries := qs' |> =
  with_pool s (free_query_q s) qs' ms (reg_mr_q s) (ps_mrs s) (reg_mr_cached_size s) (ps_counter s).
Proof. by destruct s. Qed.

Lemma alloc_state_reg s qs ms qs' qs'' rq mrs n :
  with_regs (s <| ps_queries := qs |> <| ps_msgs := ms |> <| ps_queries := qs' |>) rq mrs n
    <| ps_queries := qs'' |> =
  with_pool s (free_query_q s) qs'' ms rq mrs n (ps_counter s).
Proof. by destruct s. Qed.

Lemma alloc_query_ok s free held conn :
  proc_inv rep s D ma mp free aq pq held →
  (conn = NULL ∨ is_Some (cells (ps_conns s) !! conn)) →
  ends (alloc_query s conn) (alloc_result s conn).
Proof.
  intros Hinv Hc. unfold alloc_query. rewrite fdmi_malloc_ok by apply Hm. cbn [obind].
  rewrite fdmi_malloc_ok by apply Hm. cbn [obind].
  set (q := malloc (cells (ps_queries s))). set (m := malloc _).
  unfold query_at, set_query, peek. cbn. rewrite load_insert. cbn [obind].
  rewrite poke_ok by (cbn; rewrite lookup_insert_eq; by eexists). cbn.
  assert (Hq0 : q ≠ NULL) by apply Hm. assert (Hqf : cells (ps_queries s) !! q = None) by (apply malloc_fresh, Hm).
  assert (Hmf : cells (ps_msgs s) !! m = None) by (apply malloc_fresh, Hm).
  assert (Hm0 : m ≠ NULL) by apply Hm.
  destruct (conn =? NULL) eqn:Ec.
  - destruct (pi_regs Hinv) as [l Hl]. cbn [ends].
    eexists _, _, (reg_mr_q s), (ps_mrs s), (reg_mr_cached_size s), m, _, l.
    split_and!; [apply alloc_state|done|done|done|done|cbn; by rewrite insert_insert_eq|done|done|done|done|lia].
  - destruct Hc as [->|Hc]; [done|].
    destruct (conn_pd_ok s D ma mp free aq pq held Hinv conn Hc) as (dc & _ & Hpd).
    match goal with |- context [conn_pd ?x conn] => change (conn_pd x conn) with (conn_pd s conn) end.
    rewrite Hpd. cbn [obind]. destruct (pi_regs Hinv) as [l Hl].
    match goal with |- context [fdmi_reg_mr ?x _ _ _] =>
      assert (Hl' : regs_ok rep x l) by exact Hl end.
    c_step (fdmi_reg_mr_ok (rep := rep)) as [mr s'] (rq & mrs & n & l' & -> & Hl'' & _ & Hle & Hcov).
    cbn. rewrite load_insert. cbn [obind].
    rewrite poke_ok by (cbn; rewrite lookup_insert_eq; by eexists). cbn [obind ends].
    eexists _, _, rq, mrs, n, m, _, l'.
    split_and!; [apply alloc_state_reg|done|done|done|done|cbn; by rewrite !insert_insert_eq|done|done|done|done|].
    intros _. cbn. destruct Hcov as (_ & x & Hx & _). by exists x.
Qed.

(** A fresh query. *)
Lemma create_fresh s free held conn r cnt :
  proc_inv rep s D ma mp free aq pq held →
  (conn = NULL ∨ is_Some (cells (ps_conns s) !! conn)) →
  alloc_result s conn r → ps_counter s = cnt →
  ends (qu <- query_at r.2 r.1 ;; set_query r.2 r.1 (init_query conn qu))
    (λ s', created s conn held r.1 s').
Proof.
  intros Hinv Hc (qs & ms & rq & mrs & n & m & qu & l & Hr & Hl & Hle & Hq0 & Hqf & Hqs & Hm0 & Hmf & Hms & Hqm & Hmr) Hcnt.
  destruct r as [q s']. cbn [fst snd] in *. subst s'.
  unfold query_at, set_query, peek. cbn. rewrite Hqs, load_insert. cbn [obind].
  rewrite poke_ok by (rewrite Hqs, lookup_insert_eq; by eexists). cbn [obind ends].
  match goal with |- context [Heap ?x ?y] => set (qs' := Heap x y) end.
  assert (Hqs' : cells qs' = <[q := init_query conn qu]> (cells (ps_queries s))).
  { cbn. by rewrite Hqs, insert_insert_eq. }
  match goal with |- created _ _ _ _ ?x =>
    replace x with (with_pool s (free_query_q s) qs' ms rq mrs n (ps_counter s)) by (by destruct s) end.
  exists (free_query_q s), qs', ms, rq, mrs, n, (ps_counter s), free, (init_query conn qu).
  split; [done|]. rewrite Hqs'.
  split; [|split_and!; [by rewrite lookup_insert_eq|done|done|done| | |done]].
  - assert (Hnin : q ∉ free ++ aq ++ pq ++ held).
    { intros Hin. destruct (pi_live Hinv q Hin) as [_ [? ?]]. congruence. }
    assert (Hperm : free ++ aq ++ pq ++ q :: held ≡ₚ q :: (free ++ aq ++ pq ++ held)) by solve_Permutation.
    eapply inv_with_pool; [exact Hinv|by apply Hinv|exists l; unfold regs_ok in *; cbn in *; exact Hl| | | | |].
    + rewrite Hperm. apply NoDup_cons. split; [done|apply Hinv].
    + intros a. rewrite Hperm, Hqs'. intros [->|Ha]%elem_of_cons; [by rewrite lookup_insert_eq; eauto|].
      destruct (pi_live Hinv a Ha) as [? ?]. split; [done|].
      rewrite lookup_insert_ne; [done|]. congruence.
    + rewrite Hqs'. intros a x. rewrite lookup_insert. case_decide as Ea.
      * intros [= <-]. split; cbn; [rewrite Hms, Hqm, lookup_insert_eq; by eexists|].
        intros Hcn. split; [|by apply Hmr]. by destruct Hc.
      * intros Hx. destruct (pi_query Hinv a x Hx) as [[y Hy] Hcn]. split; cbn.
        -- exists y. rewrite Hms, lookup_insert_ne; [done|congruence].
        -- intros Hx0. destruct (Hcn Hx0) as [? [z Hz]]. split; [done|]. exists z. by eapply lookup_weaken.
    + rewrite Hqs'. intros a b qa qb. rewrite !lookup_insert.
      assert (Hold : ∀ c x, cells (ps_queries s) !! c = Some x → qu_msg x ≠ m).
      { intros c x Hx <-. destruct (pi_query Hinv c x Hx) as [[y Hy] _]. congruence. }
      case_decide as Ea; case_decide as Eb; subst a || idtac; subst b || idtac; try done.
      * intros [= <-] Hb E. cbn in E. rewrite Hqm in E. by destruct (Hold _ _ Hb).
      * intros Ha [= <-] E. cbn in E. rewrite Hqm in E. by destruct (Hold _ _ Ha).
      * apply Hinv.
    + rewrite Hms, lookup_insert_ne by done. apply Hinv.
  - intros a x Ha Hx. by rewrite lookup_insert_ne.
  - rewrite Hms. by apply insert_subseteq.
Qed.

Lemma create_query_ok s free held conn :
  proc_inv rep s D ma mp free aq pq held →
  (conn = NULL ∨ is_Some (cells (ps_conns s) !! conn)) →
  ends (fdmi_create_query s conn) (λ r, created s conn held r.1 r.2).
Proof.
  intros Hinv Hc. unfold fdmi_create_query.
  set (cnt := i32 (ps_counter s + 1)). set (s0 := s <| ps_counter := cnt |>).
  assert (Hinv0 : proc_inv rep s0 D ma mp free aq pq held) by (by destruct Hinv).
  pose proof (pool_search_ok Hm Hreg s0 D ma mp free aq pq held Hinv0 conn Hc) as E.
  apply ends_Done in E as ([q fq] & E & Hq & Hfq). cbn in Hq, Hfq.
  apply obind_Done_inv in E as (q1 & -> & E). cbn [obind].
  apply obind_Done_inv in E as ([q' q2] & -> & E). cbn [obind].
  apply obind_Done_inv in E as (q3 & -> & E). cbn [obind]. injection E as -> ->.
  destruct (q =? NULL) eqn:Eq.
  - set (s1 := s0 <| free_query_q := fq |>).
    assert (Hinv1 : proc_inv rep s1 D ma mp free aq pq held) by (by destruct Hinv0; split).
    c_step (alloc_query_ok s1 free held conn Hinv1 Hc) as r Hr.
    destruct r as [a s2]. pose proof (create_fresh s1 free held conn (a, s2) cnt Hinv1 Hc Hr eq_refl) as E.
    cbn [fst snd] in E. assert (Ha : a ≠ NULL) by (by destruct Hr as (?&?&?&?&?&?&?&?&_&_&_&?&_)).
    apply ends_bind in E. apply ends_bind. eapply ends_mono; [exact E|]. cbv beta. intros qu E'.
    apply ends_bind. eapply ends_mono; [exact E'|]. cbv beta. intros s3 Hcr.
    unfold fdmi_test. rewrite (proj2 (Z.eqb_neq _ _)) by done. exact Hcr.
  - apply Z.eqb_neq in Eq. destruct (find_ptr_Some _ _ _ (eq_sym Hq) Eq) as (pre & suf & Hpre & Hs & _).
    destruct (create_from_pool s0 free held conn q fq cnt Hinv0 Hc) as (qu & Hqu & Hcr);
      [rewrite Hpre; set_solver|done|done|].
    cbn. unfold query_at, set_query, peek. cbn. change (cells (ps_queries s) !! q = Some qu) in Hqu.
    rewrite (proj2 (load_Done _ _ _) Hqu). cbn.
    rewrite poke_ok by (by eexists). cbn. unfold fdmi_test. rewrite (proj2 (Z.eqb_neq _ _)) by done.
    cbn. exact Hcr.
Qed.
End create.

(** ** Properties *)

(** The empty pool of the example process. *)
Lemma sample_inv : proc_inv queue_rep sample_process 16 Unlocked Unlocked [] [] [] [].
Proof.
  split; try apply empty_queue_rep; try (by intros ? ?%elem_of_nil).
  - exists []. split_and!; [apply empty_queue_rep|apply not_elem_of_nil|by intros ? ?%elem_of_nil|done].
  - exists []. apply empty_queue_rep.
  - exists []. apply empty_queue_rep.
  - exists sample_dctx. split_and!; [done|apply empty_queue_rep..].
  - intros c cn. cbn. rewrite lookup_singleton. by case_decide; intros; simplify_eq.
  - constructor.
  - done.
  - done.
  - done.
Qed.

Lemma sample_reg_total : reg_total.
Proof. intros mrs pd addr size. exists 0%nat. split; [lia|by eexists]. Qed.

(** C22: the pool hands a query to one holder at a time.  From every well-formed
    process, [fdmi_create_query] returns a live query that is neither in a
    queue nor held by anybody, with the connection asked for and a message
    that is registered when there is one; no query or message of anybody else
    changes; and [fdmi_destroy_query] gives it back, leaving a well-formed
    process in which it is pooled. *)
Theorem query_pool_ownership `{Malloc} `{Verbs} s D ma mp free aq pq held conn :
  malloc_total → reg_total → proc_inv queue_rep s D ma mp free aq pq held →
  (conn = NULL ∨ is_Some (cells (ps_conns s) !! conn)) →
  ends (fdmi_create_query s conn) (λ r,
    r.1 ∉ aq ++ pq ++ held ∧
    (∃ qu, cells (ps_queries r.2) !! r.1 = Some qu ∧ wf_query r.2 qu ∧ qu_conn qu = conn ∧
           qu_request_flag qu = NULL ∧ active_query_to_free qu = NULL) ∧
    (∀ a x, a ∈ aq ++ pq ++ held → cells (ps_queries s) !! a = Some x →
            cells (ps_queries r.2) !! a = Some x) ∧
    cells (ps_msgs s) ⊆ cells (ps_msgs r.2) ∧
    ends (fdmi_destroy_query r.2 r.1) (λ s', ∃ free',
      r.1 ∈ free' ∧ proc_inv queue_rep s' D ma mp free' aq pq held)).
Proof.
  intros Hm Hr Hinv Hc. c_last (create_query_ok (rep := queue_rep) Hm Hr D ma mp aq pq s free held conn)
    as [q s'] (fq & qs & ms & rq & mrs & n & cnt & free' & qu & -> & Hinv' & Hq & Hcn & Hf & Ha & Hold & Hms & _).
  cbn [fst snd] in *.
  assert (Hnin : q ∉ aq ++ pq ++ held).
  { pose proof (pi_nodup Hinv') as Hnd.
    assert (Hp : free' ++ aq ++ pq ++ q :: held ≡ₚ q :: free' ++ aq ++ pq ++ held) by solve_Permutation.
    rewrite Hp in Hnd. apply NoDup_cons in Hnd as [Hnd _]. set_solver. }
  split_and!; [done| | |done|].
  - exists qu. split_and!; try done. by eapply Hinv'.
  - intros a x Hin. apply Hold. by intros ->.
  - c_last (destroy_query_ok (rep := queue_rep) Hm) as s' (fq' & cnt' & -> & Hinv2).
    exists (free' ++ [q]). split; [|done]. apply elem_of_app. right. by left.
Qed.

Lemma query_pool_ownership_witness :
  ends (fdmi_create_query sample_process 32) (λ r,
    ends (fdmi_destroy_query r.2 r.1) (λ s', ∃ free',
      r.1 ∈ free' ∧ proc_inv queue_rep s' 16 Unlocked Unlocked free' [] [] [])).
Proof.
  eapply ends_mono; [apply (query_pool_ownership sample_process 16 Unlocked Unlocked [] [] [] [] 32)|].
  - exact Malloc_bump_total.
  - exact sample_reg_total.
  - exact sample_inv.
  - right. by eexists.
  - intros r Hr. apply Hr.
Defined.
