(* ===== verification/Matching.v ===== *)
(** * src/src/fdmi.c: matching messages with receives

    A message matches a receive when it is not older than the current epoch,
    the communicators are the same, and rank and tag are equal or one of them
    is the wildcard.  The wildcards are [-1], compared as 64-bit words. *)
From S2P Require Import Prelude Mem Queue Datatype ProcMan State MrCache Query.

Section ops.
Implicit Types (s : process).

Definition fdmi_is_matched_query s (query1 query2 : Z) : outcome bool :=
  msg1 <- query_msg s query1 ;; msg2 <- query_msg s query2 ;;
  if msg_epoch msg2 <? ft_epoch (ft_msg s) then Done false
  else if negb (msg_comm_id msg1 =? msg_comm_id msg2) then Done false
  else if negb ((msg_rank msg1 =? u64 FMI_ANY_SOURCE) || (msg_rank msg2 =? u64 FMI_ANY_SOURCE)
                || (msg_rank msg1 =? msg_rank msg2)) then Done false
  else if negb ((msg_tag msg1 =? u64 FMI_ANY_TAG) || (msg_tag msg2 =? u64 FMI_ANY_TAG)
                || (msg_tag msg1 =? msg_tag msg2)) then Done false
  else Done true.

Definition fdmi_get_matched_query s (query : Z) (queue : fdmi_queue) : outcome (Z * fdmi_queue) :=
  queue_find (fdmi_is_matched_query s query) queue.

Definition fdmi_is_matched_query2 s (rank tag comm query : Z) : outcome bool :=
  msg <- query_msg s query ;;
  if msg_epoch msg <? ft_epoch (ft_msg s) then Done false
  else
    id <- comm_id_at s comm ;;
    if negb (id =? msg_comm_id msg) then Done false
    else if negb ((rank =? FMI_ANY_SOURCE) || (msg_rank msg =? u64 FMI_ANY_SOURCE)
                  || (u64 rank =? msg_rank msg)) then Done false
    else if negb ((tag =? FMI_ANY_TAG) || (msg_tag msg =? u64 FMI_ANY_TAG)
                  || (u64 tag =? msg_tag msg)) then Done false
    else Done true.

Definition fdmi_get_matched_query2 s (rank tag comm : Z) (queue : fdmi_queue)
    : outcome (Z * fdmi_queue) :=
  queue_find (fdmi_is_matched_query2 s rank tag comm) queue.

(** [fdmi_wait_ready]: the context of the first domain, once another thread has
    created it; until then the caller waits. *)
Definition fdmi_wait_ready s : outcome Z :=
  d <- aget (ps_domains s) 0 ;;
  if dom_dctx d =? NULL then Diverge else Done (dom_dctx d).

(** The tests of the loop of [fdmi_verbs_iprobe]; unlike those of
    [fdmi_is_matched_query2] they know no wildcard in the message. *)
Definition iprobe_test s (source tag comm query : Z) : outcome bool :=
  msg <- query_msg s query ;;
  if msg_epoch msg <? ft_epoch (ft_msg s) then Done false
  else
    id <- comm_id_at s comm ;;
    if negb (id =? msg_comm_id msg) then Done false
    else if negb ((source =? FMI_ANY_SOURCE) || (u64 source =? msg_rank msg)) then Done false
    else if negb ((tag =? FMI_ANY_TAG) || (u64 tag =? msg_tag msg)) then Done false
    else Done true.

(** The flag and, when [has_status], the source and the tag of the status. *)
Definition fdmi_verbs_iprobe s (source tag comm : Z) (has_status : bool)
    : outcome (Z * option (Z * Z) * process) :=
  D <- fdmi_wait_ready s ;;
  let! (_, s) := on_aq s D (unit_op fdmi_queue_lock) in
  let! (r, s) := on_aq s D (queue_for (λ tmp_query '(flag, status) q,
      b <- iprobe_test s source tag comm tmp_query ;;
      if b : bool then
        if has_status then
          msg <- query_msg s tmp_query ;;
          Done (true, (1, Some (i32 (msg_rank msg), i32 (msg_tag msg))), q)
        else Done (true, (1, status), q)
      else Done (false, (flag, status), q)) (0, None)) in
  let! (_, s) := on_aq s D (unit_op fdmi_queue_unlock) in
  Done (r.1, r.2, s).
End ops.

(** ** Specification *)

(** Rank and tag of a message and of a receive. *)
Definition word_matches (any x y : Z) : bool := (x =? u64 any) || (y =? u64 any) || (x =? y).

Definition msg_matches (m1 m2 : fdmi_msg) : bool :=
  (msg_comm_id m1 =? msg_comm_id m2) &&
  (word_matches FMI_ANY_SOURCE (msg_rank m1) (msg_rank m2) &&
   word_matches FMI_ANY_TAG (msg_tag m1) (msg_tag m2)).

Lemma word_matches_comm any x y : word_matches any x y = word_matches any y x.
Proof. unfold word_matches. rewrite (Z.eqb_sym x y). f_equal. apply orb_comm. Qed.

Lemma msg_matches_comm m1 m2 : msg_matches m1 m2 = msg_matches m2 m1.
Proof.
  unfold msg_matches. rewrite (Z.eqb_sym (msg_comm_id m1)).
  rewrite (word_matches_comm FMI_ANY_SOURCE (msg_rank m1)).
  by rewrite (word_matches_comm FMI_ANY_TAG (msg_tag m1)).
Qed.

(** What a receive for [rank] and [tag] (both [int]s) looks like as a message. *)
Definition int_matches (any x y : Z) : bool := (x =? any) || (y =? u64 any) || (u64 x =? y).

Lemma int_matches_word any x y :
  is_int x → is_int any → int_matches any x y = word_matches any (u64 x) y.
Proof.
  intros Hx Ha. unfold int_matches, word_matches. do 2 f_equal.
  destruct (x =? any) eqn:E.
  - apply Z.eqb_eq in E. subst. by rewrite Z.eqb_refl.
  - symmetry. apply Z.eqb_neq. intros Eu. apply (u64_inj _ _ Hx Ha) in Eu. lia.
Qed.

Section proofs.
Implicit Types (s : process).

Lemma is_matched_query_ok s q1 q2 m1 m2 :
  query_msg s q1 = Done m1 → query_msg s q2 = Done m2 →
  fdmi_is_matched_query s q1 q2 =
    Done (negb (msg_epoch m2 <? ft_epoch (ft_msg s)) && msg_matches m1 m2).
Proof.
  intros H1 H2. unfold fdmi_is_matched_query, msg_matches, word_matches. rewrite H1, H2. cbn [obind].
  destruct (msg_epoch m2 <? _); [done|]. destruct (msg_comm_id m1 =? _); [|done].
  destruct (_ || _ || _); [|done]. by destruct (_ || _ || _).
Qed.

Lemma is_matched_query2_ok s rank tag comm q m id :
  query_msg s q = Done m → comm_id_at s comm = Done id →
  fdmi_is_matched_query2 s rank tag comm q =
    Done (negb (msg_epoch m <? ft_epoch (ft_msg s)) &&
          ((id =? msg_comm_id m) && (int_matches FMI_ANY_SOURCE rank (msg_rank m) &&
                                      int_matches FMI_ANY_TAG tag (msg_tag m)))).
Proof.
  intros Hm Hid. unfold fdmi_is_matched_query2, int_matches. rewrite Hm. cbn [obind].
  destruct (msg_epoch m <? _); [done|]. rewrite Hid. cbn [obind]. destruct (id =? _); [|done].
  destruct (_ || _ || _); [|done]. by destruct (_ || _ || _).
Qed.

Lemma iprobe_test_ok s source tag comm q m id :
  query_msg s q = Done m → comm_id_at s comm = Done id →
  iprobe_test s source tag comm q =
    Done (negb (msg_epoch m <? ft_epoch (ft_msg s)) &&
          ((id =? msg_comm_id m) && (((source =? FMI_ANY_SOURCE) || (u64 source =? msg_rank m)) &&
                                      ((tag =? FMI_ANY_TAG) || (u64 tag =? msg_tag m))))).
Proof.
  intros Hm Hid. unfold iprobe_test. rewrite Hm. cbn [obind].
  destruct (msg_epoch m <? _); [done|]. rewrite Hid. cbn [obind]. destruct (id =? _); [|done].
  destruct (_ || _); [|done]. by destruct (_ || _).
Qed.

(** A message whose sender and tag are known is probed as it is received. *)
Lemma iprobe_test_matched s source tag comm q m id :
  query_msg s q = Done m → comm_id_at s comm = Done id →
  msg_rank m ≠ u64 FMI_ANY_SOURCE → msg_tag m ≠ u64 FMI_ANY_TAG →
  iprobe_test s source tag comm q = fdmi_is_matched_query2 s source tag comm q.
Proof.
  intros Hm Hid Hr Ht. rewrite (iprobe_test_ok s source tag comm q m id) by done.
  rewrite (is_matched_query2_ok s source tag comm q m id) by done. unfold int_matches.
  rewrite (proj2 (Z.eqb_neq (msg_rank m) _) Hr), (proj2 (Z.eqb_neq (msg_tag m) _) Ht).
  by rewrite !orb_false_r.
Qed.
End proofs.

(** ** The queues of the domain context under the invariant *)
Section queues.
Context {HMalloc : Malloc} {HVerbs : Verbs}.
Context {rep : mutex → fdmi_queue → list Z → Prop} `{!QueueContract rep}.
Context (s : process) (D : Z) (ma mp : mutex) (free aq pq held : list Z).
Hypothesis (Hinv : proc_inv rep s D ma mp free aq pq held).

Lemma inv_query_msg a :
  a ∈ free ++ aq ++ pq ++ held →
  ∃ q m, cells (ps_queries s) !! a = Some q ∧ cells (ps_msgs s) !! qu_msg q = Some m ∧
         query_msg s a = Done m.
Proof.
  intros Ha. destruct (pi_live Hinv a Ha) as [_ [q Hq]].
  destruct (pi_query Hinv a q Hq) as [[m Hm] _]. exists q, m. split_and!; [done..|].
  unfold query_msg, query_at, msg_at, peek. rewrite (proj2 (load_Done _ _ _) Hq). cbn.
  by apply load_Done.
Qed.

Lemma NULL_not_queued : NULL ∉ aq ∧ NULL ∉ pq.
Proof.
  split; intros Hn; destruct (pi_live Hinv NULL) as [? _]; set_solver.
Qed.

(** Replacing one of the two queues, when its elements are exchanged with the
    held ones only. *)
Lemma inv_dctxs h dc ma' mp' aq' pq' held' :
  cells h !! D = Some dc → rep ma' (qp_aq (dc_query_qp dc)) aq' →
  rep mp' (qp_pq (dc_query_qp dc)) pq' →
  aq' ++ pq' ++ held' ≡ₚ aq ++ pq ++ held →
  proc_inv rep (s <| ps_dctxs := h |>) D ma' mp' free aq' pq' held'.
Proof.
  intros Hd Ha Hp Hperm. destruct Hinv. split; cbn; try done.
  - by exists dc.
  - by rewrite Hperm.
  - intros a. rewrite Hperm. auto.
Qed.

Lemma on_aq_ok {A} (op : fdmi_queue → outcome (A * fdmi_queue)) (R : A → Prop) ma' aq' held' :
  aq' ++ held' ≡ₚ aq ++ held →
  (∀ q, rep ma q aq → ends (op q) (λ r, R r.1 ∧ rep ma' r.2 aq')) →
  ends (on_aq s D op) (λ r, R r.1 ∧ ∃ h, r.2 = s <| ps_dctxs := h |> ∧
    proc_inv rep (s <| ps_dctxs := h |>) D ma' mp free aq' pq held').
Proof.
  intros Hperm Hop. destruct (pi_dctx Hinv) as (dc & Hd & Ha & Hp).
  unfold on_aq, dctx_at, peek. rewrite (proj2 (load_Done _ _ _) Hd). cbn [obind].
  apply ends_bind. eapply ends_mono; [by apply Hop|]. intros [r q] [HR Hq]. cbn [fst snd] in *.
  rewrite poke_ok by (by eexists). cbn [obind ends fst snd]. split; [done|]. eexists. split; [done|].
  eapply inv_dctxs; [cbn; apply lookup_insert_eq|done|done|].
  rewrite (Permutation_app_comm pq held'), (Permutation_app_comm pq held), !(assoc_L (++)).
  by rewrite Hperm.
Qed.

Lemma on_pq_ok {A} (op : fdmi_queue → outcome (A * fdmi_queue)) (R : A → Prop) mp' pq' held' :
  pq' ++ held' ≡ₚ pq ++ held →
  (∀ q, rep mp q pq → ends (op q) (λ r, R r.1 ∧ rep mp' r.2 pq')) →
  ends (on_pq s D op) (λ r, R r.1 ∧ ∃ h, r.2 = s <| ps_dctxs := h |> ∧
    proc_inv rep (s <| ps_dctxs := h |>) D ma mp' free aq pq' held').
Proof.
  intros Hperm Hop. destruct (pi_dctx Hinv) as (dc & Hd & Ha & Hp).
  unfold on_pq, dctx_at, peek. rewrite (proj2 (load_Done _ _ _) Hd). cbn [obind].
  apply ends_bind. eapply ends_mono; [by apply Hop|]. intros [r q] [HR Hq]. cbn [fst snd] in *.
  rewrite poke_ok by (by eexists). cbn [obind ends fst snd]. split; [done|]. eexists. split; [done|].
  eapply inv_dctxs; [cbn; apply lookup_insert_eq|done|done|]. by rewrite Hperm.
Qed.
End queues.

Lemma unit_op_ends (rep : mutex → fdmi_queue → list Z → Prop) op q m l :
  ends (op q) (λ q, rep m q l) → ends (unit_op op q) (λ r, True ∧ rep m r.2 l).
Proof. intros Hop. unfold unit_op. apply ends_bind. eapply ends_mono; [exact Hop|]. done. Qed.

Section locks.
Context {HMalloc : Malloc} {HVerbs : Verbs}.
Context {rep : mutex → fdmi_queue → list Z → Prop} `{!QueueContract rep}.
Context (D : Z) (free aq pq held : list Z).

(** Locking and unlocking change nothing but the mutexes. *)
Lemma lock_aq s mp :
  proc_inv rep s D Unlocked mp free aq pq held →
  ends (on_aq s D (unit_op fdmi_queue_lock)) (λ r, ∃ h, r.2 = s <| ps_dctxs := h |> ∧
    proc_inv rep (s <| ps_dctxs := h |>) D Locked mp free aq pq held).
Proof.
  intros Hinv. eapply ends_mono;
    [apply (on_aq_ok _ _ _ _ _ _ _ _ Hinv _ (λ _, True) Locked aq held); [done|]|by intros r [_ Hr]].
  intros q Hq. apply unit_op_ends. by apply rep_lock.
Qed.
Lemma unlock_aq s mp :
  proc_inv rep s D Locked mp free aq pq held →
  ends (on_aq s D (unit_op fdmi_queue_unlock)) (λ r, ∃ h, r.2 = s <| ps_dctxs := h |> ∧
    proc_inv rep (s <| ps_dctxs := h |>) D Unlocked mp free aq pq held).
Proof.
  intros Hinv. eapply ends_mono;
    [apply (on_aq_ok _ _ _ _ _ _ _ _ Hinv _ (λ _, True) Unlocked aq held); [done|]|by intros r [_ Hr]].
  intros q Hq. apply unit_op_ends. by apply rep_unlock.
Qed.
Lemma lock_pq s ma :
  proc_inv rep s D ma Unlocked free aq pq held →
  ends (on_pq s D (unit_op fdmi_queue_lock)) (λ r, ∃ h, r.2 = s <| ps_dctxs := h |> ∧
    proc_inv rep (s <| ps_dctxs := h |>) D ma Locked free aq pq held).
Proof.
  intros Hinv. eapply ends_mono;
    [apply (on_pq_ok _ _ _ _ _ _ _ _ Hinv _ (λ _, True) Locked pq held); [done|]|by intros r [_ Hr]].
  intros q Hq. apply unit_op_ends. by apply rep_lock.
Qed.
Lemma unlock_pq s ma :
  proc_inv rep s D ma Locked free aq pq held →
  ends (on_pq s D (unit_op fdmi_queue_unlock)) (λ r, ∃ h, r.2 = s <| ps_dctxs := h |> ∧
    proc_inv rep (s <| ps_dctxs := h |>) D ma Unlocked free aq pq held).
Proof.
  intros Hinv. eapply ends_mono;
    [apply (on_pq_ok _ _ _ _ _ _ _ _ Hinv _ (λ _, True) Unlocked pq held); [done|]|by intros r [_ Hr]].
  intros q Hq. apply unit_op_ends. by apply rep_unlock.
Qed.

(** Moving a query between a queue and the running handler. *)
Lemma enq_aq s ma mp a held' :
  proc_inv rep s D ma mp free aq pq held → held ≡ₚ a :: held' → malloc_total →
  ends (on_aq s D (unit_op (λ q, fdmi_queue_enq q a))) (λ r, ∃ h, r.2 = s <| ps_dctxs := h |> ∧
    proc_inv rep (s <| ps_dctxs := h |>) D ma mp free (aq ++ [a]) pq held').
Proof.
  intros Hinv Hp Hm. eapply ends_mono;
    [apply (on_aq_ok _ _ _ _ _ _ _ _ Hinv _ (λ _, True) ma (aq ++ [a]) held')|by intros r [_ Hr]].
  - rewrite Hp. solve_Permutation.
  - intros q Hq. apply unit_op_ends. apply rep_enq; [done|apply Hm].
Qed.
Lemma enq_pq s ma mp a held' :
  proc_inv rep s D ma mp free aq pq held → held ≡ₚ a :: held' → malloc_total →
  ends (on_pq s D (unit_op (λ q, fdmi_queue_enq q a))) (λ r, ∃ h, r.2 = s <| ps_dctxs := h |> ∧
    proc_inv rep (s <| ps_dctxs := h |>) D ma mp free aq (pq ++ [a]) held').
Proof.
  intros Hinv Hp Hm. eapply ends_mono;
    [apply (on_pq_ok _ _ _ _ _ _ _ _ Hinv _ (λ _, True) mp (pq ++ [a]) held')|by intros r [_ Hr]].
  - rewrite Hp. solve_Permutation.
  - intros q Hq. apply unit_op_ends. apply rep_enq; [done|apply Hm].
Qed.

Lemma remove_first_perm a l : a ∈ l → a :: remove_first a l ≡ₚ l.
Proof.
  induction l as [|x l IH]; intros Hin; [by apply elem_of_nil in Hin|]. cbn. case_decide as Ex.
  - by subst.
  - apply elem_of_cons in Hin as [->|Hin]; [done|]. rewrite <- (IH Hin) at 2. apply perm_swap.
Qed.

Lemma remove_aq s ma mp a :
  proc_inv rep s D ma mp free aq pq held → a ∈ aq →
  ends (on_aq s D (unit_op (λ q, fdmi_queue_remove q a))) (λ r, ∃ h, r.2 = s <| ps_dctxs := h |> ∧
    proc_inv rep (s <| ps_dctxs := h |>) D ma mp free (remove_first a aq) pq (a :: held)).
Proof.
  intros Hinv Ha. eapply ends_mono;
    [apply (on_aq_ok _ _ _ _ _ _ _ _ Hinv _ (λ _, True) ma (remove_first a aq) (a :: held))|by intros r [_ Hr]].
  - rewrite <- (remove_first_perm a aq Ha) at 2. solve_Permutation.
  - intros q Hq. apply unit_op_ends. by apply rep_remove.
Qed.
Lemma remove_pq s ma mp a :
  proc_inv rep s D ma mp free aq pq held → a ∈ pq →
  ends (on_pq s D (unit_op (λ q, fdmi_queue_remove q a))) (λ r, ∃ h, r.2 = s <| ps_dctxs := h |> ∧
    proc_inv rep (s <| ps_dctxs := h |>) D ma mp free aq (remove_first a pq) (a :: held)).
Proof.
  intros Hinv Ha. eapply ends_mono;
    [apply (on_pq_ok _ _ _ _ _ _ _ _ Hinv _ (λ _, True) mp (remove_first a pq) (a :: held))|by intros r [_ Hr]].
  - rewrite <- (remove_first_perm a pq Ha) at 2. solve_Permutation.
  - intros q Hq. apply unit_op_ends. by apply rep_remove.
Qed.
End locks.

(** ** Searching the queues *)

(** Whether the passive query [p] can take the active query [a], and whether a
    receive for [rank], [tag] and the communicator [id] can. *)
Definition passive_test (s : process) (a p : Z) : bool :=
  match query_msg s a, query_msg s p with
  | Done ma, Done mp => negb (msg_epoch mp <? ft_epoch (ft_msg s)) && msg_matches ma mp
  | _, _ => false
  end.
Definition active_test (s : process) (rank tag id a : Z) : bool :=
  match query_msg s a with
  | Done m => negb (msg_epoch m <? ft_epoch (ft_msg s)) &&
              ((id =? msg_comm_id m) && (int_matches FMI_ANY_SOURCE rank (msg_rank m) &&
                                          int_matches FMI_ANY_TAG tag (msg_tag m)))
  | _ => false
  end.

Section search.
Context {HMalloc : Malloc} {HVerbs : Verbs}.
Context {rep : mutex → fdmi_queue → list Z → Prop} `{!QueueContract rep}.
Context (s : process) (D : Z) (ma mp : mutex) (free aq pq held : list Z).
Hypothesis (Hinv : proc_inv rep s D ma mp free aq pq held).

Lemma search_pq a :
  a ∈ held →
  ends (on_pq s D (fdmi_get_matched_query s a)) (λ r, r.1 = find_ptr (passive_test s a) pq ∧
    ∃ h, r.2 = s <| ps_dctxs := h |> ∧
      proc_inv rep (s <| ps_dctxs := h |>) D ma mp free aq pq held).
Proof.
  intros Ha. eapply ends_mono;
    [apply (on_pq_ok _ _ _ _ _ _ _ _ Hinv _ (λ x, x = find_ptr (passive_test s a) pq) mp pq held); [done|]
    |by intros r].
  intros q Hq. apply rep_find; [done|by destruct (NULL_not_queued _ _ _ _ _ _ _ _ Hinv)|].
  intros p Hp. destruct (inv_query_msg _ _ _ _ _ _ _ _ Hinv a) as (_ & m1 & _ & _ & E1); [set_solver|].
  destruct (inv_query_msg _ _ _ _ _ _ _ _ Hinv p) as (_ & m2 & _ & _ & E2); [set_solver|].
  rewrite (is_matched_query_ok s a p m1 m2) by done. unfold passive_test. by rewrite E1, E2.
Qed.

Lemma search_aq rank tag comm id :
  comm_id_at s comm = Done id →
  ends (on_aq s D (fdmi_get_matched_query2 s rank tag comm))
    (λ r, r.1 = find_ptr (active_test s rank tag id) aq ∧
      ∃ h, r.2 = s <| ps_dctxs := h |> ∧
        proc_inv rep (s <| ps_dctxs := h |>) D ma mp free aq pq held).
Proof.
  intros Hid. eapply ends_mono;
    [apply (on_aq_ok _ _ _ _ _ _ _ _ Hinv _ (λ x, x = find_ptr (active_test s rank tag id) aq) ma aq held); [done|]
    |by intros r].
  intros q Hq. apply rep_find; [done|by destruct (NULL_not_queued _ _ _ _ _ _ _ _ Hinv)|].
  intros a Ha. destruct (inv_query_msg _ _ _ _ _ _ _ _ Hinv a) as (_ & m & _ & _ & E); [set_solver|].
  rewrite (is_matched_query2_ok s rank tag comm a m id) by done. unfold active_test. by rewrite E.
Qed.
End search.

(** ** Properties *)

(** The message of [a] names its sender and its tag. *)
Definition concrete_msg (s : process) (a : Z) : Prop :=
  ∀ m, query_msg s a = Done m → msg_rank m ≠ u64 FMI_ANY_SOURCE ∧ msg_tag m ≠ u64 FMI_ANY_TAG.

(** What [fdmi_verbs_iprobe] reports when the receive would take [a]. *)
Definition probe_report (s : process) (a : Z) (r : Z * option (Z * Z)) : Prop :=
  if a =? NULL then r = (0, None)
  else ∃ m, query_msg s a = Done m ∧ r = (1, Some (i32 (msg_rank m), i32 (msg_tag m))).

Lemma iprobe_search `{Malloc} s D ma mp free aq pq held source tag comm id q :
  proc_inv queue_rep s D ma mp free aq pq held → comm_id_at s comm = Done id →
  (∀ a, a ∈ aq → concrete_msg s a) → queue_rep ma q aq →
  ends (queue_for (λ tmp_query '(flag, status) q,
      b <- iprobe_test s source tag comm tmp_query ;;
      if b : bool then
        msg <- query_msg s tmp_query ;;
        Done (true, (1, Some (i32 (msg_rank msg), i32 (msg_tag msg))), q)
      else Done (false, (flag, status), q)) (0, None) q)
    (λ r, probe_report s (find_ptr (active_test s source tag id) aq) r.1 ∧ queue_rep ma r.2 aq).
Proof.
  intros Hinv Hid Hc Hq.
  assert (Ht : ∀ a, a ∈ aq → iprobe_test s source tag comm a = Done (active_test s source tag id a)).
  { intros a Ha. destruct (inv_query_msg _ _ _ _ _ _ _ _ Hinv a) as (_ & m & _ & _ & E); [set_solver|].
    destruct (Hc a Ha m E). rewrite (iprobe_test_matched s source tag comm a m id) by done.
    rewrite (is_matched_query2_ok s source tag comm a m id) by done. unfold active_test. by rewrite E. }
  eapply ends_mono.
  - apply (rep_for_until _ (active_test s source tag id)
      (λ a r q, probe_report s a r ∧ queue_rep ma q aq) ma q aq); [done| |..].
    + by destruct (NULL_not_queued _ _ _ _ _ _ _ _ Hinv).
    + intros a q' Ha Hp. by rewrite (Ht a Ha), Hp.
    + intros a q' Ha Hp Hq'. rewrite (Ht a Ha), Hp. cbn [obind].
      destruct (inv_query_msg _ _ _ _ _ _ _ _ Hinv a) as (_ & m & _ & _ & E); [set_solver|].
      rewrite E. cbn. split_and!; [done| |done]. unfold probe_report.
      rewrite (proj2 (Z.eqb_neq _ _)); [by exists m|].
      intros ->. by destruct (NULL_not_queued _ _ _ _ _ _ _ _ Hinv).
  - intros [r q'] Hr. cbn [fst snd] in *. unfold probe_report at 1.
    destruct (find_ptr _ aq =? NULL) eqn:E; [exact Hr|].
    destruct Hr as [Hr ?]. unfold probe_report in Hr. by rewrite E in Hr.
Qed.

(** C28: probing agrees with receiving.  When the messages that have arrived name
    their sender and tag, [fdmi_verbs_iprobe] returns with the queues as they
    were and their locks released; its flag is set exactly when a receive for
    the same source, tag and communicator would find a message, and the status
    it fills names the sender and the tag of that message, the oldest one that
    matches. *)
Theorem iprobe_agrees_with_irecv `{Malloc} s D mp free aq pq held source tag comm id :
  proc_inv queue_rep s D Unlocked mp free aq pq held → fdmi_wait_ready s = Done D →
  comm_id_at s comm = Done id → (∀ a, a ∈ aq → concrete_msg s a) →
  ends (fdmi_verbs_iprobe s source tag comm true) (λ r,
    proc_inv queue_rep r.2 D Unlocked mp free aq pq held ∧
    ends (on_aq r.2 D (fdmi_get_matched_query2 r.2 source tag comm)) (λ r',
      r'.1 = find_ptr (active_test s source tag id) aq ∧ probe_report s r'.1 r.1)).
Proof.
  intros Hinv Hw Hid Hc. unfold fdmi_verbs_iprobe. rewrite Hw. cbn [obind].
  c_step (lock_aq (rep := queue_rep)) as [? s1] (h1 & -> & Hinv1).
  apply ends_bind. eapply ends_mono.
  { apply (on_aq_ok _ _ _ _ _ _ _ _ Hinv1 _
      (λ r, probe_report s (find_ptr (active_test s source tag id) aq) r) Locked aq held); [done|].
    intros q Hq.
    exact (iprobe_search _ D Locked mp free aq pq held source tag comm id q Hinv1 Hid Hc Hq). }
  intros [r s2] (Hr & h2 & E & Hinv2). cbn [fst snd] in *. subst s2.
  c_step (unlock_aq (rep := queue_rep)) as [? s3] (h3 & -> & Hinv3). cbn [ends fst snd].
  split; [done|]. eapply ends_mono; [by apply (search_aq _ _ _ _ _ _ _ _ Hinv3 source tag comm id)|].
  intros [a s4] [-> _]. split; [done|]. by destruct r.
Qed.

(** The example process with one message that has arrived: query 512 with
    message 528, from rank 1 with tag 7, in the communicator 16. *)
Definition sample_msg : fdmi_msg :=
  Msg FDMI_COMM_INIT FDMI_EAGER 0 0 1 0 7 0 3 3 FMI_BYTE (MR 0 0 3 0 0) 0 3 [10; 11; 12].

Definition sample_arrived : process :=
  sample_process <| ps_queries := Heap {[ 512 := Query 32 528 600 NULL NULL NULL ]} 1 |>
    <| ps_msgs := Heap {[ 528 := sample_msg ]} 1 |>
    <| ps_mrs := {[ 600 := MR 528 sizeof_fdmi_msg 3 0 0 ]} |>
    <| ps_dctxs := Heap {[ 16 := sample_dctx <| dc_query_qp :=
         QueryQp empty_queue (queue_of [(16, 512)] 0 Unlocked) |> ]} 1 |>.

Lemma sample_arrived_inv : proc_inv queue_rep sample_arrived 16 Unlocked Unlocked [] [512] [] [].
Proof.
  assert (Hq : ∀ a q, cells (ps_queries sample_arrived) !! a = Some q →
    a = 512 ∧ q = Query 32 528 600 NULL NULL NULL).
  { intros a q. cbn. rewrite lookup_singleton. case_decide; [|done]. by intros [= <-]. }
  split; try apply empty_queue_rep.
  - exists []. split_and!; [apply empty_queue_rep|apply not_elem_of_nil|by intros ? ?%elem_of_nil|done].
  - exists []. apply empty_queue_rep.
  - exists []. apply empty_queue_rep.
  - eexists. split_and!; [by apply lookup_singleton_eq| |apply empty_queue_rep].
    exists [(16, 512)], 0. split_and!; [|done..]. split; [apply NoDup_singleton|by intros ?%list_elem_of_singleton].
  - intros c cn. cbn. rewrite lookup_singleton. by case_decide; intros; simplify_eq.
  - apply NoDup_singleton.
  - intros a [->|[]%elem_of_nil]%elem_of_cons. split; [done|by eexists].
  - intros a q [-> ->]%Hq. split; [by eexists|]. intros _. split; by eexists.
  - by intros a b qa qb [-> _]%Hq [-> _]%Hq.
  - done.
Qed.

Lemma sample_concrete a : a ∈ [512] → concrete_msg sample_arrived a.
Proof. intros [->|[]%elem_of_nil]%elem_of_cons m. vm_compute. by intros [= <-]. Qed.

Lemma iprobe_agrees_with_irecv_witness :
  ends (fdmi_verbs_iprobe sample_arrived FMI_ANY_SOURCE 7 16 true) (λ r,
    proc_inv queue_rep r.2 16 Unlocked Unlocked [] [512] [] [] ∧ r.1 = (1, Some (1, 7))).
Proof.
  eapply ends_mono; [apply (iprobe_agrees_with_irecv sample_arrived 16 Unlocked [] [512] [] []
    FMI_ANY_SOURCE 7 16 3 sample_arrived_inv eq_refl eq_refl sample_concrete)|].
  intros [[flag st] s'] [Hinv Hr]. cbn [fst snd] in *. split; [done|].
  apply ends_Done in Hr as ([a s2] & _ & -> & Hr). cbn [fst] in Hr.
  replace (find_ptr _ _) with 512 in Hr by (vm_compute; reflexivity).
  destruct Hr as (m & Hm & ->). vm_compute in Hm. by injection Hm as <-.
Defined.

(** Which receives an arrived message satisfies.  A message that is not
    older than the epoch matches a receive for an [int] source and tag exactly
    when the communicators agree and source and tag agree or are wildcards;
    the two matching functions of the library decide the same relation. *)
Theorem matching_functions_agree s a p rank tag comm id m1 m2 :
  query_msg s a = Done m1 → query_msg s p = Done m2 →
  is_int rank → is_int tag → comm_id_at s comm = Done id →
  msg_rank m2 = u64 rank → msg_tag m2 = u64 tag → msg_comm_id m2 = id →
  ft_epoch (ft_msg s) ≤ msg_epoch m1 → ft_epoch (ft_msg s) ≤ msg_epoch m2 →
  fdmi_is_matched_query s a p = fdmi_is_matched_query2 s rank tag comm a ∧
  (fdmi_is_matched_query s a p = Done true ↔
   msg_comm_id m1 = id ∧
   (rank = FMI_ANY_SOURCE ∨ msg_rank m1 = u64 FMI_ANY_SOURCE ∨ msg_rank m1 = u64 rank) ∧
   (tag = FMI_ANY_TAG ∨ msg_tag m1 = u64 FMI_ANY_TAG ∨ msg_tag m1 = u64 tag)).
Proof.
  intros H1 H2 Hr Ht Hid Er Et Ei He1 He2.
  assert (Hany : is_int (-1)) by (unfold is_int, INT_MIN, INT_MAX; lia).
  rewrite (is_matched_query_ok s a p m1 m2) by done.
  rewrite (is_matched_query2_ok s rank tag comm a m1 id) by done.
  rewrite (proj2 (Z.ltb_ge _ _) He1), (proj2 (Z.ltb_ge _ _) He2). cbn [negb andb].
  unfold msg_matches. rewrite Er, Et, Ei, (Z.eqb_sym (msg_comm_id m1) id).
  rewrite (word_matches_comm FMI_ANY_SOURCE), <- (int_matches_word FMI_ANY_SOURCE) by done.
  rewrite (word_matches_comm FMI_ANY_TAG), <- (int_matches_word FMI_ANY_TAG) by done.
  split; [done|]. unfold int_matches, FMI_ANY_SOURCE, FMI_ANY_TAG in *.
  match goal with |- Done ?b = Done true ↔ _ => transitivity (b = true); [split; congruence|] end.
  rewrite !andb_true_iff, !orb_true_iff, !Z.eqb_eq. intuition congruence.
Qed.

Lemma matching_functions_agree_witness :
  fdmi_is_matched_query2 sample_arrived 1 7 16 512 = Done true.
Proof.
  assert (H1 : is_int 1) by (unfold is_int, INT_MIN, INT_MAX; lia).
  assert (H7 : is_int 7) by (unfold is_int, INT_MIN, INT_MAX; lia).
  destruct (matching_functions_agree sample_arrived 512 512 1 7 16 3 sample_msg sample_msg
    eq_refl eq_refl H1 H7 eq_refl eq_refl eq_refl eq_refl (Z.le_refl _) (Z.le_refl _)) as [E1 E2].
  rewrite <- E1. apply E2. split_and!; [done|by right; right|by right; right].
Defined.
