(* ===== verification/Transfer.v ===== *)
(** * src/src/fdmi.c: posting sends and receives, and delivering data

    The operations behind [fdmi_verbs_isend] and [fdmi_verbs_irecv]: filling a
    query's message, posting work requests, copying eager data and starting
    RDMA reads. *)
From S2P Require Import Prelude Mem Queue Datatype ProcMan State MrCache Query Matching.

Section ops.
Context {HMalloc : Malloc} {HVerbs : Verbs}.
Implicit Types (s : process).

(** [ibv_post_send] or [ibv_post_recv], with the exit on an error number. *)
Definition post_wr s (w : wr) (why : string) : outcome process :=
  if ibv_post (ps_posted s) w =? 0 then Done (s <| ps_posted := ps_posted s ++ [w] |>)
  else Fatal why.

Definition fdmi_get_ctl_msg_size : Z := sizeof_fdmi_msg - FDMI_EAGER_BUFF_SIZE.

(** The fields of the query are loaded before the message is changed: they do
    not change. *)
Definition fdmi_post_send_msg s (query : Z) : outcome process :=
  _ <- fdmi_test query ;;
  qu <- query_at s query ;;
  _ <- fdmi_test (qu_msg qu) ;; _ <- fdmi_test (qu_msg_mr qu) ;;
  mr <- load (ps_mrs s) (qu_msg_mr qu) ;;
  m <- msg_at s (qu_msg qu) ;;
  let sge0 := Sge (qu_msg qu) (u32 fdmi_get_ctl_msg_size) (mr_lkey mr) in
  total <- total_send_size (msg_dtype m) (msg_count m) ;;
  if total <=? FDMI_EAGER_BUFF_SIZE then
    let! (payload, eb, off) :=
      eager_payload (msg_dtype m) (msg_count m) total (ps_memory s) (msg_addr m) (eager_buff m) in
    let sge1 := if dt_count (msg_dtype m) =? 1
                then Sge (msg_addr m) total (mr_lkey (msg_rdma_mr m))
                else Sge (qu_msg qu + offsetof_eager_buff + off) total (mr_lkey mr) in
    let m := m <| msg_opcode := FDMI_EAGER |> <| eager_size := i32 total |> <| eager_buff := eb |> in
    s <- set_msg s (qu_msg qu) m ;;
    cn <- conn_at s (qu_conn qu) ;;
    post_wr s (WSend (cn_qp cn) query [sge0; sge1] m payload) "ibv_post_send(active side) failed"
  else
    cn <- conn_at s (qu_conn qu) ;;
    post_wr s (WSend (cn_qp cn) query [sge0] m []) "ibv_post_send(active side) failed".

(** The tests on libibverbs' own structures behind [conn->qp] are left out. *)
Definition fdmi_post_recv_msg s (query : Z) : outcome process :=
  qu <- query_at s query ;;
  mr <- load (ps_mrs s) (qu_msg_mr qu) ;;
  cn <- conn_at s (qu_conn qu) ;;
  _ <- fdmi_test (cn_qp cn) ;;
  post_wr s (WRecv (cn_qp cn) query
    [Sge (qu_msg qu) (u32 fdmi_get_ctl_msg_size) (mr_lkey mr);
     Sge (qu_msg qu + offsetof_eager_buff) FDMI_EAGER_BUFF_SIZE (mr_lkey mr)])
    "ibv_post_recv failed".

Definition fdmi_post_rdma_read s (passive_query active_query : Z) : outcome process :=
  aq <- query_at s active_query ;;
  pq <- query_at s passive_query ;;
  let conn := qu_conn aq in
  s <- set_query s passive_query (pq <| qu_conn := conn |>) ;;
  pd <- conn_pd s conn ;;
  let! (mr, s) := fdmi_reg_mr s (qu_msg pq) sizeof_fdmi_msg pd in
  pq <- query_at s passive_query ;;
  s <- set_query s passive_query (pq <| qu_msg_mr := mr |>) ;;
  local_msg <- query_msg s passive_query ;;
  remote_msg <- query_msg s active_query ;;
  length <- reg_size (msg_dtype local_msg) (msg_count local_msg) ;;
  cn <- conn_at s conn ;;
  post_wr s (WRead (cn_qp cn) passive_query
    (Sge (msg_addr local_msg) (u32 length) (mr_lkey (msg_rdma_mr local_msg)))
    (mr_addr (msg_rdma_mr remote_msg)) (mr_rkey (msg_rdma_mr remote_msg)))
    "ibv_post_send RDMA failed".

(** ** Eager delivery *)

(** [fdmi_queue_lock_remove(locked_request_sem_q, p)]. *)
Definition forget_request s (p : Z) : outcome process :=
  q <- fdmi_queue_lock_remove (locked_request_sem_q s) p ;;
  Done (s <| locked_request_sem_q := q |>).

Definition fdmi_cpy_eager_buff s (passive_query active_query : Z) : outcome process :=
  pm <- query_msg s passive_query ;;
  am <- query_msg s active_query ;;
  mem <- eager_copy (msg_dtype pm) (msg_count am) (eager_buff am) (ps_memory s) (msg_addr pm) ;;
  let s := s <| ps_memory := mem |> in
  pq <- query_at s passive_query ;;
  s <- set_flag s (qu_request_flag pq) 1 ;;
  s <- set_request_source s (qu_request pq) (msg_rank am) (msg_tag am) ;;
  s <- forget_request s (passive_query + offsetof_query_request_flag) ;;
  s <- fdmi_destroy_query s passive_query ;;
  fdmi_destroy_query s active_query.

Definition fdmi_cpy_eager_buff2 s (recv_buff : Z) (dtype : fdmi_datatype) (request_flag active_query : Z)
    : outcome process :=
  am <- query_msg s active_query ;;
  mem <- eager_copy dtype (msg_count am) (eager_buff am) (ps_memory s) recv_buff ;;
  let s := s <| ps_memory := mem |> in
  s <- set_flag s request_flag 1 ;;
  s <- forget_request s local_addr ;;
  fdmi_destroy_query s active_query.

(** ** Receives *)

(** The local [peer] of the code is loaded from [peers[rank]] and not used; the
    load is left out (it is outside the array for [FMI_ANY_SOURCE]). *)
Definition fdmi_init_passive_query s (pp : fdmi_post_param) : outcome (Z * process) :=
  let! (passive_query, s) := fdmi_create_query s NULL in
  qu <- query_at s passive_query ;;
  s <- set_query s passive_query
    (qu <| qu_request_flag := pp_request_flag pp |> <| qu_request := pp_request pp |>) ;;
  id <- comm_id_at s (pp_comm pp) ;;
  msg <- query_msg s passive_query ;;
  s <- set_query_msg s passive_query
    (msg <| msg_addr := pp_addr pp |> <| msg_rank := u64 (pp_rank pp) |> <| msg_order := 0 |>
         <| msg_tag := u64 (pp_tag pp) |> <| msg_count := pp_count pp |> <| msg_dtype := pp_dtype pp |>
         <| msg_comm_id := id |> <| msg_op := pp_op pp |>) ;;
  size <- reg_size (pp_dtype pp) (pp_count pp) ;;
  domain <- aget (ps_domains s) 0 ;;
  dc <- dctx_at s (dom_dctx domain) ;;
  let! (rdma_mr, s) := fdmi_reg_mr s (pp_addr pp) size (dc_pd dc) in
  mr <- load (ps_mrs s) rdma_mr ;;
  msg <- query_msg s passive_query ;;
  s <- set_query_msg s passive_query (msg <| msg_rdma_mr := mr |>) ;;
  Done (passive_query, s).

(** What happens to an active query that matches the receive. *)
Definition receive_matched s (pp : fdmi_post_param) (matched : Z) : outcome process :=
  m <- query_msg s matched ;;
  if msg_opcode m =? FDMI_EAGER then
    s <- fdmi_cpy_eager_buff2 s (pp_addr pp) (pp_dtype pp) (pp_request_flag pp) matched ;;
    m <- query_msg s matched ;;
    set_request_source s (pp_request pp) (msg_rank m) (msg_tag m)
  else if msg_opcode m =? FDMI_RDMA_READ then
    let! (passive_query, s) := fdmi_init_passive_query s pp in
    pq <- query_at s passive_query ;;
    s <- set_query s passive_query (pq <| active_query_to_free := matched |>) ;;
    fdmi_post_rdma_read s passive_query matched
  else Done s.

(** The receive that finds no message is queued with the current epoch. *)
Definition receive_pending s (D : Z) (pp : fdmi_post_param) : outcome process :=
  let! (passive_query, s) := fdmi_init_passive_query s pp in
  msg <- query_msg s passive_query ;;
  s <- set_query_msg s passive_query (msg <| msg_epoch := ft_epoch (ft_msg s) |>) ;;
  let! (_, s) := on_pq s D (unit_op (λ q, fdmi_queue_enq q passive_query)) in
  Done s.

Definition fdmi_post_recv_msg_param s (pp : fdmi_post_param) : outcome process :=
  D <- fdmi_wait_ready s ;;
  let! (_, s) := on_aq s D (unit_op fdmi_queue_lock) in
  let! (_, s) := on_pq s D (unit_op fdmi_queue_lock) in
  let! (matched, s) :=
    on_aq s D (fdmi_get_matched_query2 s (pp_rank pp) (pp_tag pp) (pp_comm pp)) in
  s <- (if negb (matched =? NULL) then
          let! (_, s) := on_aq s D (unit_op (λ q, fdmi_queue_remove q matched)) in
          receive_matched s pp matched
        else receive_pending s D pp) ;;
  let! (_, s) := on_pq s D (unit_op fdmi_queue_unlock) in
  let! (_, s) := on_aq s D (unit_op fdmi_queue_unlock) in
  Done s.

(** ** Sends *)
Definition fdmi_post_send_msg_param s (pp : fdmi_post_param) : outcome process :=
  peer <- aget (ps_peers s) (pp_rank pp) ;;
  conn <- aget (p_conn peer) 0 ;;
  let! (query, s) := fdmi_create_query s conn in
  qu <- query_at s query ;;
  s <- set_query s query
    (qu <| qu_request_flag := pp_request_flag pp |> <| qu_request := pp_request pp |>) ;;
  id <- comm_id_at s (pp_comm pp) ;;
  msg <- query_msg s query ;;
  s <- set_query_msg s query
    (msg <| msg_type := FDMI_COMM_INIT |> <| msg_opcode := FDMI_RDMA_READ |>
         <| msg_epoch := ft_epoch (ft_msg s) |> <| msg_addr := pp_addr pp |>
         <| msg_rank := u64 (ps_prank s) |> <| msg_order := 0 |> <| msg_tag := u64 (pp_tag pp) |>
         <| msg_count := pp_count pp |> <| msg_comm_id := id |> <| msg_dtype := pp_dtype pp |>
         <| msg_op := pp_op pp |>) ;;
  size <- reg_size (pp_dtype pp) (pp_count pp) ;;
  pd <- conn_pd s conn ;;
  let! (rdma_mr, s) := fdmi_reg_mr s (pp_addr pp) size pd in
  mr <- load (ps_mrs s) rdma_mr ;;
  msg <- query_msg s query ;;
  s <- set_query_msg s query (msg <| msg_rdma_mr := mr |>) ;;
  _ <- fdmi_test query ;;
  fdmi_post_send_msg s query.
End ops.

(** ** Laws of the steps *)
Section steps.
Context {HMalloc : Malloc} {HVerbs : Verbs}.
Context {rep : mutex → fdmi_queue → list Z → Prop} `{!QueueContract rep}.
Context (D : Z) (ma mp : mutex) (free aq pq : list Z).

(** A handler may change what the invariant does not mention. *)
Lemma inv_requests s held rs :
  proc_inv rep s D ma mp free aq pq held →
  proc_inv rep (s <| ps_requests := rs |>) D ma mp free aq pq held.
Proof. intros []. by split. Qed.
Lemma inv_memory s held m :
  proc_inv rep s D ma mp free aq pq held →
  proc_inv rep (s <| ps_memory := m |>) D ma mp free aq pq held.
Proof. intros []. by split. Qed.
Lemma inv_posted s held w :
  proc_inv rep s D ma mp free aq pq held →
  proc_inv rep (s <| ps_posted := w |>) D ma mp free aq pq held.
Proof. intros []. by split. Qed.
Lemma inv_pm s held pm :
  proc_inv rep s D ma mp free aq pq held →
  proc_inv rep (s <| ps_pm := pm |>) D ma mp free aq pq held.
Proof. intros []. by split. Qed.
Lemma inv_perm s held held' :
  held' ≡ₚ held → proc_inv rep s D ma mp free aq pq held →
  proc_inv rep s D ma mp free aq pq held'.
Proof. intros Hp []. split; try done; by setoid_rewrite Hp. Qed.

(** Losing track of a query does not break the invariant. *)
Lemma inv_drop s held q :
  proc_inv rep s D ma mp free aq pq (q :: held) → proc_inv rep s D ma mp free aq pq held.
Proof.
  intros Hinv. pose proof (pi_nodup Hinv) as Hnd.
  assert (Hp : free ++ aq ++ pq ++ q :: held ≡ₚ q :: free ++ aq ++ pq ++ held) by solve_Permutation.
  split; try apply Hinv.
  - rewrite Hp in Hnd. by apply NoDup_cons in Hnd as [_ ?].
  - intros a Ha. apply (pi_live Hinv). rewrite Hp. by right.
Qed.

Lemma msg_at_ok s held q :
  proc_inv rep s D ma mp free aq pq held → q ∈ free ++ aq ++ pq ++ held →
  ∃ qu m, query_at s q = Done qu ∧ cells (ps_queries s) !! q = Some qu ∧
          cells (ps_msgs s) !! qu_msg qu = Some m ∧ query_msg s q = Done m.
Proof.
  intros Hinv Hq. destruct (inv_query_msg _ _ _ _ _ _ _ _ Hinv q Hq) as (qu & m & Hqu & Hm & E).
  exists qu, m. split_and!; try done. by apply load_Done.
Qed.

(** Changing the message of one query: the others keep theirs. *)
Lemma set_query_msg_ok s held q m :
  proc_inv rep s D ma mp free aq pq held → q ∈ free ++ aq ++ pq ++ held →
  ends (set_query_msg s q m) (λ s', ∃ ms, s' = s <| ps_msgs := ms |> ∧
    proc_inv rep s' D ma mp free aq pq held ∧ query_msg s' q = Done m ∧
    ∀ a m', a ≠ q → query_msg s a = Done m' → query_msg s' a = Done m').
Proof.
  intros Hinv Hq. destruct (msg_at_ok s held q Hinv Hq) as (qu & m0 & Eq & Hqu & Hm0 & E).
  unfold set_query_msg, set_msg. rewrite Eq. cbn [obind]. rewrite poke_ok by (by eexists).
  cbn [obind ends]. eexists. split; [done|]. split_and!.
  - split; try apply Hinv.
    + intros a x Hx. destruct (pi_query Hinv a x Hx) as [[y Hy] Hc].
      split; [|done]. cbn. destruct (decide (qu_msg x = qu_msg qu)) as [->|];
        [rewrite lookup_insert_eq; by eexists|rewrite lookup_insert_ne; by eauto].
    + cbn. rewrite lookup_insert_ne; [apply Hinv|]. intros E0. rewrite E0 in Hm0.
      by rewrite (pi_null Hinv) in Hm0.
  - unfold query_msg, query_at, msg_at, peek. cbn. rewrite (proj2 (load_Done _ _ _) Hqu). cbn.
    apply load_insert.
  - intros a m' Ha. unfold query_msg, query_at, msg_at, peek. cbn. intros Hm.
    apply obind_Done_inv in Hm as (x & Hx & Hm). rewrite Hx. cbn.
    apply load_Done in Hx, Hm. apply load_Done. rewrite lookup_insert_ne; [done|].
    intros E'. apply Ha. symmetry. by eapply (pi_msgs Hinv q a qu x).
Qed.

(** Changing the fields of a query, not its message. *)
Definition put_query (s : process) (q : Z) (qu : fdmi_query) : process :=
  s <| ps_queries := Heap (<[q := qu]> (cells (ps_queries s))) (total_alloc_count (ps_queries s)) |>.

Lemma set_query_put s q qu0 qu :
  cells (ps_queries s) !! q = Some qu0 → set_query s q qu = Done (put_query s q qu).
Proof. intros Hq. unfold set_query. by rewrite poke_ok by (by eexists). Qed.

Lemma inv_put_query s held q qu qu' :
  proc_inv rep s D ma mp free aq pq held → cells (ps_queries s) !! q = Some qu →
  qu_msg qu' = qu_msg qu → wf_query s qu' →
  proc_inv rep (put_query s q qu') D ma mp free aq pq held.
Proof.
  intros Hinv Hqu Hmsg Hwf. split; try apply Hinv; cbn.
  - intros a Ha. destruct (pi_live Hinv a Ha) as [? [x Hx]]. split; [done|].
    rewrite lookup_insert. case_decide; by eexists.
  - intros a x. rewrite lookup_insert. case_decide; [intros [= <-]; exact Hwf|apply (pi_query Hinv)].
  - intros a b xa xb. rewrite !lookup_insert. case_decide; case_decide; subst; try done.
    + intros [= <-] Hb E. rewrite Hmsg in E. by eapply (pi_msgs Hinv).
    + intros Hx [= <-] E. rewrite Hmsg in E. by eapply (pi_msgs Hinv).
    + apply (pi_msgs Hinv).
Qed.

Lemma put_query_msg s q qu qu' a m :
  cells (ps_queries s) !! q = Some qu → qu_msg qu' = qu_msg qu →
  query_msg s a = Done m → query_msg (put_query s q qu') a = Done m.
Proof.
  intros Hqu Hmsg. unfold query_msg, query_at, msg_at, peek. cbn. intros Hm.
  apply obind_Done_inv in Hm as (x & Hx & Hm). apply load_Done in Hx.
  unfold load at 1. rewrite lookup_insert. case_decide as Ea.
  - subst. rewrite Hqu in Hx. injection Hx as <-. cbn. by rewrite Hmsg.
  - rewrite Hx. done.
Qed.

Lemma set_query_ok s held q qu qu' :
  proc_inv rep s D ma mp free aq pq held → cells (ps_queries s) !! q = Some qu →
  qu_msg qu' = qu_msg qu → wf_query s qu' →
  ends (set_query s q qu') (λ s', ∃ qs, s' = s <| ps_queries := qs |> ∧
    proc_inv rep s' D ma mp free aq pq held ∧ cells qs = <[q := qu']> (cells (ps_queries s)) ∧
    ∀ a m', query_msg s a = Done m' → query_msg s' a = Done m').
Proof.
  intros Hinv Hqu Hmsg Hwf. rewrite (set_query_put _ _ qu) by done. cbn [ends].
  eexists. split; [done|]. split_and!; [by eapply inv_put_query|done|].
  intros a m'. by apply (put_query_msg _ _ qu).
Qed.

Lemma forget_request_ok s held p :
  proc_inv rep s D ma mp free aq pq held →
  ends (forget_request s p) (λ s', ∃ q, s' = s <| locked_request_sem_q := q |> ∧
    proc_inv rep s' D ma mp free aq pq held).
Proof.
  intros Hinv. destruct (pi_lreq Hinv) as [l Hl]. unfold forget_request.
  c_step rep_lock_remove as q Hq. exists q. split; [done|]. destruct Hinv. split; try done. by eexists.
Qed.
End steps.

(** Request [r] completed with the rank and the tag of a message. *)
Definition completed (r : fdmi_request) (rank tag : Z) : fdmi_request :=
  r <| rq_flag := 1 |> <| rq_prank := i32 rank |> <| rq_tag := i32 tag |>.

Lemma set_flag_ok s p r v :
  ps_requests s !! (p - offsetof_request_flag) = Some r →
  set_flag s p v = Done (s <| ps_requests := <[p - offsetof_request_flag := r <| rq_flag := v |>]> (ps_requests s) |>).
Proof. intros Hr. unfold set_flag, load, store. by rewrite Hr. Qed.

Lemma set_request_source_ok s a r rank tag :
  ps_requests s !! a = Some r →
  set_request_source s a rank tag =
    Done (s <| ps_requests := <[a := r <| rq_prank := i32 rank |> <| rq_tag := i32 tag |>]> (ps_requests s) |>).
Proof. intros Hr. unfold set_request_source, load, store. by rewrite Hr. Qed.

(** The request of a parameter block or a query: its flag is where the code
    says it is. *)
Definition request_ok (s : process) (flag req : Z) (r : fdmi_request) : Prop :=
  flag = req + offsetof_request_flag ∧ ps_requests s !! req = Some r.

(** Completing a request: the flag and then the source. *)
Lemma complete_request s flag req r rank tag :
  request_ok s flag req r →
  (s <- set_flag s flag 1 ;; set_request_source s req rank tag) =
    Done (s <| ps_requests := <[req := completed r rank tag]> (ps_requests s) |>).
Proof.
  intros [-> Hr]. rewrite (set_flag_ok _ _ r) by (rewrite Z.add_simpl_r; done).
  rewrite Z.add_simpl_r. cbn [obind].
  rewrite (set_request_source_ok _ _ (r <| rq_flag := 1 |>)) by (cbn; by rewrite lookup_insert_eq).
  cbn. rewrite insert_insert_eq. by destruct s.
Qed.

(** ** Laws of the operations *)

(** The driver accepts every work request. *)
Definition post_total `{Verbs} : Prop := ∀ l w, ibv_post l w = 0.

(** Every connection has a queue pair. *)
Definition conns_ready (s : process) : Prop :=
  ∀ c cn, cells (ps_conns s) !! c = Some cn → cn_qp cn ≠ NULL.

Section operations.
Context {HMalloc : Malloc} {HVerbs : Verbs}.
Context {rep : mutex → fdmi_queue → list Z → Prop} `{!QueueContract rep}.
Context (Hm : malloc_total) (Hreg : reg_total) (Hpost : post_total).
Context (D : Z).

Lemma created_msg ma mp aq pq s conn held q s' a m :
  created (rep := rep) D ma mp aq pq s conn held q s' → a ≠ q →
  query_msg s a = Done m → query_msg s' a = Done m.
Proof.
  intros (fq & qs & ms & rq & mrs & n & cnt & free' & qu & -> & _ & _ & _ & _ & _ & Hqs & Hms & _) Ha Hq.
  unfold query_msg, query_at, msg_at, peek in *. cbn.
  apply obind_Done_inv in Hq as (x & Hx & Hq). apply load_Done in Hx, Hq.
  rewrite (proj2 (load_Done _ _ _) (Hqs a x Ha Hx)). cbn. apply load_Done. by eapply lookup_weaken.
Qed.

Lemma fdmi_post_recv_msg_ok ma mp free aq pq s held q qu :
  proc_inv rep s D ma mp free aq pq held → conns_ready s →
  cells (ps_queries s) !! q = Some qu → qu_conn qu ≠ NULL →
  ∃ w, wr_id_of w = q ∧ fdmi_post_recv_msg s q = Done (s <| ps_posted := ps_posted s ++ [w] |>).
Proof.
  intros Hinv Hready Hq Hc. destruct (pi_query Hinv q qu Hq) as [_ Hwf].
  destruct (Hwf Hc) as [[cn Hcn] [mr Hmr]]. unfold fdmi_post_recv_msg, query_at, conn_at, peek.
  rewrite (proj2 (load_Done _ _ _) Hq). cbn. rewrite (proj2 (load_Done _ _ _) Hmr). cbn.
  rewrite (proj2 (load_Done _ _ _) Hcn). cbn. unfold fdmi_test.
  rewrite (proj2 (Z.eqb_neq _ _)) by (by eapply Hready). cbn.
  unfold post_wr. rewrite Hpost. eexists. split; [|done]. done.
Qed.

(** ** Eager copies *)

(** The state in which a request has been completed and the data delivered;
    the pool, its counter and the queue of locked requests are internal. *)
Definition delivered (s : process) (mem : memory) (req : Z) (r : fdmi_request) (rank tag : Z)
    (lq fq : fdmi_queue) (cnt : Z) : process :=
  s <| ps_memory := mem |> <| ps_requests := <[req := completed r rank tag]> (ps_requests s) |>
    <| locked_request_sem_q := lq |> <| ps_counter := cnt |> <| free_query_q := fq |>.

Lemma cpy_eager_buff_ok ma mp free aq pq s held' p a qp pm am r mem :
  proc_inv rep s D ma mp free aq pq (p :: a :: held') →
  cells (ps_queries s) !! p = Some qp → query_msg s p = Done pm → query_msg s a = Done am →
  request_ok s (qu_request_flag qp) (qu_request qp) r →
  eager_copy (msg_dtype pm) (msg_count am) (eager_buff am) (ps_memory s) (msg_addr pm) = Done mem →
  ends (fdmi_cpy_eager_buff s p a) (λ s', ∃ lq fq cnt,
    s' = delivered s mem (qu_request qp) r (msg_rank am) (msg_tag am) lq fq cnt ∧
    proc_inv rep s' D ma mp ((free ++ [p]) ++ [a]) aq pq held').
Proof.
  intros Hinv Hqp Hpm Ham Hreq Hmem. unfold fdmi_cpy_eager_buff. rewrite Hpm, Ham. cbn [obind].
  rewrite Hmem. cbn [obind]. unfold query_at, peek. cbn. rewrite (proj2 (load_Done _ _ _) Hqp). cbn [obind].
  rewrite <- obind_assoc.
  rewrite (complete_request _ _ _ r) by exact Hreq. cbn [obind].
  match goal with |- ends (x <- forget_request ?s1 _ ;; _) _ => assert (Hinv1 : proc_inv rep s1 D ma mp free aq pq (p :: a :: held')) end.
  { apply inv_requests, inv_memory, Hinv. }
  c_step (forget_request_ok (rep := rep)) as s2 (lq & -> & Hinv2).
  c_step (destroy_query_ok (rep := rep) Hm) as s3 (fq & cnt & -> & Hinv3).
  c_last (destroy_query_ok (rep := rep) Hm) as s4 (fq' & cnt' & -> & Hinv4).
  exists lq, fq', cnt'. unfold delivered. split; [|exact Hinv4]. by destruct s.
Qed.

(** ** Changes inside the pool, the messages and the registrations only *)
Definition pooled (s s' : process) : Prop :=
  ∃ fq qs ms rq mrs n cnt, s' = with_pool s fq qs ms rq mrs n cnt.

#[global] Instance pooled_preorder : PreOrder pooled.
Proof.
  split.
  - intros s. exists (free_query_q s), (ps_queries s), (ps_msgs s), (reg_mr_q s), (ps_mrs s),
      (reg_mr_cached_size s), (ps_counter s). by destruct s.
  - intros s1 s2 s3 (fq & qs & ms & rq & mrs & n & cnt & ->) (fq' & qs' & ms' & rq' & mrs' & n' & cnt' & ->).
    exists fq', qs', ms', rq', mrs', n', cnt'. by destruct s1.
Qed.

Lemma pooled_msgs s ms : pooled s (s <| ps_msgs := ms |>).
Proof.
  exists (free_query_q s), (ps_queries s), ms, (reg_mr_q s), (ps_mrs s), (reg_mr_cached_size s), (ps_counter s).
  by destruct s.
Qed.
Lemma pooled_queries s qs : pooled s (s <| ps_queries := qs |>).
Proof.
  exists (free_query_q s), qs, (ps_msgs s), (reg_mr_q s), (ps_mrs s), (reg_mr_cached_size s), (ps_counter s).
  by destruct s.
Qed.
Lemma pooled_regs s q mrs n : pooled s (with_regs s q mrs n).
Proof.
  exists (free_query_q s), (ps_queries s), (ps_msgs s), q, mrs, n, (ps_counter s). by destruct s.
Qed.
Lemma pooled_created ma mp aq pq s conn held q s' :
  created (rep := rep) D ma mp aq pq s conn held q s' → pooled s s'.
Proof. intros (fq & qs & ms & rq & mrs & n & cnt & _ & _ & -> & _). by exists fq, qs, ms, rq, mrs, n, cnt. Qed.

(** Registering a region keeps queries and messages. *)
Lemma inv_with_regs ma mp free aq pq s held q mrs n l :
  proc_inv rep s D ma mp free aq pq held → regs_ok rep (with_regs s q mrs n) l → ps_mrs s ⊆ mrs →
  proc_inv rep (with_regs s q mrs n) D ma mp free aq pq held.
Proof.
  intros Hinv Hl Hle. split; try apply Hinv; [by exists l|].
  intros x qx Hx. destruct (pi_query Hinv x qx Hx) as [? Hc].
  split; [done|]. intros Hc0. destruct (Hc Hc0) as [? [y Hy]]. split; [done|]. exists y. by eapply lookup_weaken.
Qed.

Lemma reg_mr_inv ma mp free aq pq s held addr size pd :
  proc_inv rep s D ma mp free aq pq held →
  ends (fdmi_reg_mr s addr size pd) (λ r, pooled s r.2 ∧
    proc_inv rep r.2 D ma mp free aq pq held ∧ mr_covers (ps_mrs r.2) r.1 addr (u32 size) pd ∧
    ps_queries r.2 = ps_queries s ∧ ps_msgs r.2 = ps_msgs s).
Proof.
  intros Hinv. destruct (pi_regs Hinv) as [l Hl].
  c_last (fdmi_reg_mr_ok (rep := rep) s addr size pd l) as [a s1]
    (q & mrs & n & l' & -> & Hl' & _ & Hle & Hcov). cbn [fst snd] in *.
  split_and!; [apply pooled_regs|by eapply inv_with_regs|exact Hcov|done|done].
Qed.

(** What the other queries can rely on. *)
Definition others_kept (s s' : process) (P : Z → Prop) : Prop :=
  (∀ x q, P x → cells (ps_queries s) !! x = Some q → cells (ps_queries s') !! x = Some q) ∧
  (∀ x m, P x → query_msg s x = Done m → query_msg s' x = Done m).

Lemma others_kept_trans s1 s2 s3 P :
  others_kept s1 s2 P → others_kept s2 s3 P → others_kept s1 s3 P.
Proof. intros [H1 H1'] [H2 H2']. split; auto. Qed.

Lemma others_kept_created ma mp aq pq s conn held q s' :
  created (rep := rep) D ma mp aq pq s conn held q s' → others_kept s s' (λ x, x ≠ q).
Proof.
  intros Hc. split; [|intros; by eapply created_msg].
  destruct Hc as (fq & qs & ms & rq & mrs & n & cnt & free' & qu & -> & _ & _ & _ & _ & _ & Hqs & _).
  exact Hqs.
Qed.

Lemma others_kept_put s q qu qu' :
  cells (ps_queries s) !! q = Some qu → qu_msg qu' = qu_msg qu →
  others_kept s (put_query s q qu') (λ x, x ≠ q).
Proof.
  intros Hq Hmsg. split.
  - intros x y Hx Hy. cbn. by rewrite lookup_insert_ne by done.
  - intros x m _. by apply (put_query_msg _ _ qu).
Qed.

(** A new query with the flag and the request of a call. *)
Lemma new_query_ok ma mp free aq pq s held conn flag req :
  proc_inv rep s D ma mp free aq pq held → (conn = NULL ∨ is_Some (cells (ps_conns s) !! conn)) →
  ends (let! (q, s) := fdmi_create_query s conn in
        qu <- query_at s q ;;
        s <- set_query s q (qu <| qu_request_flag := flag |> <| qu_request := req |>) ;;
        Done (q, s))
    (λ r, pooled s r.2 ∧ others_kept s r.2 (λ x, x ≠ r.1) ∧
      (∃ free', proc_inv rep r.2 D ma mp free' aq pq (r.1 :: held)) ∧
      ∃ qu, cells (ps_queries r.2) !! r.1 = Some qu ∧ qu_conn qu = conn ∧ qu_request_flag qu = flag ∧
            qu_request qu = req).
Proof.
  intros Hinv Hc.
  c_step (create_query_ok (rep := rep) Hm Hreg D ma mp aq pq s free held conn) as [q s1] Hcr.
  cbn [fst snd] in *. pose proof (pooled_created _ _ _ _ _ _ _ _ _ Hcr) as Hp1.
  pose proof (others_kept_created _ _ _ _ _ _ _ _ _ Hcr) as Hk1.
  destruct Hcr as (fq & qs & ms & rq & mrs & n & cnt & free' & qu & Hs1 & Hinv1 & Hqu & Hcn & _ & _ & _).
  assert (Hqu1 : cells (ps_queries s1) !! q = Some qu) by (by rewrite Hs1).
  unfold query_at, peek. rewrite (proj2 (load_Done _ _ _) Hqu1). cbn [obind].
  rewrite (set_query_put _ _ qu) by done. cbn [obind ends fst snd]. split_and!.
  - etrans; [exact Hp1|apply pooled_queries].
  - apply (others_kept_trans _ _ _ _ Hk1). by apply (others_kept_put _ _ qu).
  - exists free'. eapply inv_put_query; [exact Hinv1|done|done|]. by destruct (pi_query Hinv1 q qu Hqu1); split.
  - eexists. split; [apply lookup_insert_eq|by split_and!].
Qed.

(** Replacing the message of a held query. *)
Lemma fill_msg_ok ma mp free aq pq s held q m :
  proc_inv rep s D ma mp free aq pq (q :: held) →
  ends (set_query_msg s q m) (λ s', pooled s s' ∧ others_kept s s' (λ x, x ≠ q) ∧
    proc_inv rep s' D ma mp free aq pq (q :: held) ∧ query_msg s' q = Done m ∧
    ps_queries s' = ps_queries s ∧ ps_mrs s' = ps_mrs s).
Proof.
  intros Hinv. c_last (set_query_msg_ok (rep := rep) D ma mp free aq pq s (q :: held) q) as s'
    (ms & -> & Hinv' & Em & Hk); [set_solver|].
  by split_and!; [apply pooled_msgs| | | |..].
Qed.

(** Registering keeps the other queries. *)
Lemma others_kept_eq s s' P : ps_queries s' = ps_queries s → ps_msgs s' = ps_msgs s → others_kept s s' P.
Proof.
  intros Hq Hms. split; intros x y _; [by rewrite Hq|]. unfold query_msg, query_at, msg_at. by rewrite Hq, Hms.
Qed.

(** The passive query of a receive. *)
Definition passive_query_of (s : process) (pp : fdmi_post_param) (id q : Z) (op_epoch : fdmi_msg → Prop) : Prop :=
  (∃ qu, cells (ps_queries s) !! q = Some qu ∧ qu_conn qu = NULL ∧
         qu_request_flag qu = pp_request_flag pp ∧ qu_request qu = pp_request pp) ∧
  (∃ m, query_msg s q = Done m ∧ msg_addr m = pp_addr pp ∧ msg_rank m = u64 (pp_rank pp) ∧
        msg_tag m = u64 (pp_tag pp) ∧ msg_count m = pp_count pp ∧ msg_dtype m = pp_dtype pp ∧
        msg_comm_id m = id ∧ op_epoch m).

Lemma init_passive_query_ok ma mp free aq pq s held pp id size dom :
  proc_inv rep s D ma mp free aq pq held → comm_id_at s (pp_comm pp) = Done id →
  aget (ps_domains s) 0 = Done dom → dom_dctx dom = D →
  reg_size (pp_dtype pp) (pp_count pp) = Done size →
  ends (fdmi_init_passive_query s pp) (λ r, pooled s r.2 ∧
    (∃ free', proc_inv rep r.2 D ma mp free' aq pq (r.1 :: held)) ∧
    passive_query_of r.2 pp id r.1 (λ _, True) ∧
    others_kept s r.2 (λ x, x ≠ r.1)).
Proof.
  intros Hinv Hid Hdom HD Hsize. unfold fdmi_init_passive_query.
  pose proof (new_query_ok ma mp free aq pq s held NULL (pp_request_flag pp) (pp_request pp) Hinv (or_introl eq_refl)) as E.
  apply ends_Done in E as ([q s2] & E & Hp2 & Hk2 & [free' Hinv2] & qu & Hqu & Hqc & Hqf & Hqr). cbn [fst snd] in *.
  apply obind_Done_inv in E as ([q' s1] & Eq & E). rewrite Eq. cbn [obind].
  apply obind_Done_inv in E as (qu1 & E1 & E). apply obind_Done_inv in E as (s2' & E2 & E). injection E as -> ->.
  rewrite E1. cbn [obind]. rewrite E2. cbn [obind].
  destruct (msg_at_ok (rep := rep) D ma mp free' aq pq s2 (q :: held) q Hinv2) as (_ & m & _ & _ & _ & Em);
    [set_solver|].
  replace (comm_id_at s2 (pp_comm pp)) with (comm_id_at s (pp_comm pp))
    by (by destruct Hp2 as (?&?&?&?&?&?&?& ->)).
  rewrite Hid. cbn [obind]. rewrite Em. cbn [obind].
  c_step (fill_msg_ok ma mp free' aq pq s2 held q) as s3 (Hp3 & Hk3 & Hinv3 & Em3 & Hq3 & _).
  rewrite Hsize. cbn [obind].
  replace (aget (ps_domains s3) 0) with (aget (ps_domains s) 0)
    by (by destruct Hp2 as (?&?&?&?&?&?&?& ->), Hp3 as (?&?&?&?&?&?&?& ->)).
  rewrite Hdom. cbn [obind]. rewrite HD. destruct (pi_dctx Hinv3) as (dc & Hdc & _).
  unfold dctx_at, peek. rewrite (proj2 (load_Done _ _ _) Hdc). cbn [obind].
  c_step (reg_mr_inv ma mp free' aq pq s3 (q :: held)) as [a s4] (Hp4 & Hinv4 & (_ & mr & Hmr & _) & Hq4 & Hm4).
  cbn [fst snd] in *. rewrite (proj2 (load_Done _ _ _) Hmr). cbn [obind].
  assert (Hk4 : others_kept s3 s4 (λ x, x ≠ q)) by (by apply others_kept_eq).
  replace (query_msg s4 q) with (query_msg s3 q) by (unfold query_msg, query_at, msg_at; by rewrite Hq4, Hm4).
  rewrite Em3. cbn [obind].
  c_step (fill_msg_ok ma mp free' aq pq s4 held q) as s5 (Hp5 & Hk5 & Hinv5 & Em5 & Hq5 & _). cbn [ends fst snd].
  split_and!.
  - etrans; [exact Hp2|]. etrans; [exact Hp3|]. by etrans.
  - by exists free'.
  - split; [|by eexists]. exists qu. by rewrite Hq5, Hq4, Hq3.
  - by apply (others_kept_trans _ _ _ _ Hk2), (others_kept_trans _ _ _ _ Hk3), (others_kept_trans _ _ _ _ Hk4).
Qed.
End operations.
