(* ===== verification/Progress.v ===== *)
(** * src/src/fdmi.c: the completion handlers

    The thread [fdmi_poll_sendrecv_cq] takes completions of work requests from
    the completion queue and runs a handler for each: an arrived message, a
    finished RDMA read, a finished send. *)
From S2P Require Import Prelude Mem Queue Datatype ProcMan State MrCache Query Matching Transfer.

(** [enum ibv_wc_opcode] of libibverbs. *)
Inductive ibv_wc_opcode :=
| IBV_WC_SEND | IBV_WC_RDMA_WRITE | IBV_WC_RDMA_READ | IBV_WC_COMP_SWAP | IBV_WC_FETCH_ADD
| IBV_WC_BIND_MW | IBV_WC_RECV | IBV_WC_RECV_RDMA_WITH_IMM.

Definition ibv_wc_opcode_str (opcode : ibv_wc_opcode) : string :=
  match opcode with
  | IBV_WC_SEND => "IBV_WC_SEND"
  | IBV_WC_RDMA_WRITE => "IBV_WC_RDMA_WRITE"
  | IBV_WC_RDMA_READ => "IBV_WC_RDMA_READ"
  | IBV_WC_COMP_SWAP => "IBV_WC_COMP_SWAP"
  | IBV_WC_FETCH_ADD => "IBV_WC_FETCH_ADD"
  | IBV_WC_BIND_MW => "IBV_WC_BIND_MW"
  | IBV_WC_RECV => "IBV_WC_RECV"
  | IBV_WC_RECV_RDMA_WITH_IMM => "IBV_WC_RECV_RDMA_WITH_IMM"
  end.

Section ops.
Context {HMalloc : Malloc} {HVerbs : Verbs}.
Implicit Types (s : process).

(** The guard on a failure, [!(msg->op | FDMI_FORCE)]. *)
Definition discarded s (op : Z) : bool :=
  bool_decide (state s = FDMI_FAILURE) && (Z.lor op FDMI_FORCE =? 0).

(** [fdmi_post_recv_msg(fdmi_create_query(conn))]. *)
Definition post_fresh s (conn : Z) : outcome process :=
  let! (q, s) := fdmi_create_query s conn in
  fdmi_post_recv_msg s q.

(** The same with [query->conn]. *)
Definition repost s (query : Z) : outcome process :=
  qu <- query_at s query ;; post_fresh s (qu_conn qu).

(** The part of [fdmi_on_recv_cq_wc_recv] under the locks: the passive query
    that takes the message, [NULL] when the message is queued or dropped. *)
Definition match_or_queue s (D active_query : Z) : outcome (Z * process) :=
  let! (_, s) := on_aq s D (unit_op fdmi_queue_lock) in
  let! (_, s) := on_pq s D (unit_op fdmi_queue_lock) in
  let! (matched, s) := on_pq s D (fdmi_get_matched_query s active_query) in
  let! (_, s) :=
    (if negb (matched =? NULL) then on_pq s D (unit_op (λ q, fdmi_queue_remove q matched))
     else
       m <- query_msg s active_query ;;
       if ft_epoch (ft_msg s) <=? msg_epoch m
       then on_aq s D (unit_op (λ q, fdmi_queue_enq q active_query))
       else Done (tt, s)) in
  let! (_, s) := on_aq s D (unit_op fdmi_queue_unlock) in
  let! (_, s) := on_pq s D (unit_op fdmi_queue_unlock) in
  Done (matched, s).

(** What is done with the matched pair. *)
Definition deliver s (matched active_query : Z) : outcome process :=
  m <- query_msg s active_query ;;
  if msg_opcode m =? FDMI_EAGER then fdmi_cpy_eager_buff s matched active_query
  else if msg_opcode m =? FDMI_RDMA_READ then
    pq <- query_at s matched ;;
    s <- set_query s matched (pq <| active_query_to_free := active_query |>) ;;
    _ <- fdmi_test active_query ;;
    fdmi_post_rdma_read s matched active_query
  else Done s.

Definition fdmi_on_recv_cq_wc_recv s (D active_query : Z) : outcome process :=
  m <- query_msg s active_query ;;
  if discarded s (msg_op m) then fdmi_destroy_query s active_query
  else
    let! (matched, s) := match_or_queue s D active_query in
    s <- (if negb (matched =? NULL) then deliver s matched active_query else Done s) ;;
    repost s active_query.

Definition fdmi_on_recv_cq_wc_rdma_read s (passive_query : Z) : outcome process :=
  _ <- fdmi_test passive_query ;;
  pq <- query_at s passive_query ;;
  let active := active_query_to_free pq in
  _ <- fdmi_test active ;;
  am <- query_msg s active ;;
  s <- set_query_msg s active (am <| msg_type := FDMI_COMM_FIN |>) ;;
  s <- set_flag s (qu_request_flag pq) 1 ;;
  s <- set_request_source s (qu_request pq) (msg_rank am) (msg_tag am) ;;
  s <- fdmi_post_send_msg s active ;;
  s <- forget_request s (passive_query + offsetof_query_request_flag) ;;
  fdmi_destroy_query s passive_query.

Definition fdmi_on_recv_cq_wc_send s (active_query_to_free : Z) : outcome process :=
  fdmi_destroy_query s active_query_to_free.

Definition fdmi_on_send_cq_wc_send s (query : Z) : outcome process :=
  m <- query_msg s query ;;
  s <- (if msg_opcode m =? FDMI_EAGER then
          qu <- query_at s query ;;
          s <- set_flag s (qu_request_flag qu) 1 ;;
          s <- forget_request s (query + offsetof_query_request_flag) ;;
          q <- fdmi_queue_lock_remove (send_req_q s) (qu_request_flag qu) ;;
          Done (s <| send_req_q := q |>)
        else Done s) ;;
  fdmi_destroy_query s query.

(** [if (q->active_query_to_free != NULL) fdmi_destroy_query(...)]. *)
Definition destroy_active s (query : Z) : outcome process :=
  qu <- query_at s query ;;
  if negb (active_query_to_free qu =? NULL) then fdmi_destroy_query s (active_query_to_free qu)
  else Done s.

Definition fdmi_on_send_cq_wc_recv s (query : Z) : outcome process :=
  m <- query_msg s query ;;
  if discarded s (msg_op m) then
    s <- destroy_active s query ;;
    s <- fdmi_destroy_query s query ;;
    repost s query
  else
    let! (sreq, q) := fdmi_queue_lock_deq (send_req_q s) in
    let s := s <| send_req_q := q |> in
    s <- (if negb (sreq =? NULL) then set_flag s sreq 1 else Done s) ;;
    s <- destroy_active s query ;;
    s <- fdmi_destroy_query s query ;;
    repost s query.

(** One round of [fdmi_poll_sendrecv_cq] for the completion [(opcode, wr_id)];
    the completion is taken as [fdmi_get_wc] stores it. *)
Definition fdmi_poll_sendrecv_cq s (D : Z) (opcode : ibv_wc_opcode) (query : Z) : outcome process :=
  qu <- query_at s query ;;
  cn <- conn_at s (qu_conn qu) ;;
  let! (rank, pm) := fdmi_rmap_itop_get (ps_pm s) (cn_rcid cn) in
  let s := s <| ps_pm := pm |> in
  m <- query_msg s query ;;
  s <- set_query_msg s query (m <| msg_rank := u64 rank |>) ;;
  match opcode with
  | IBV_WC_RECV =>
      if msg_type m =? FDMI_COMM_INIT then fdmi_on_recv_cq_wc_recv s D query
      else if msg_type m =? FDMI_COMM_FIN then
        s <- fdmi_on_send_cq_wc_recv s query ;;
        Done (s <| ps_ct := i32 (ps_ct s - 1) |>)
      else Done s
  | IBV_WC_RDMA_READ => fdmi_on_recv_cq_wc_rdma_read s query
  | IBV_WC_SEND =>
      if msg_type m =? FDMI_COMM_INIT then
        s <- fdmi_on_send_cq_wc_send s query ;;
        Done (s <| ps_ct := i32 (ps_ct s + 1) |>)
      else if msg_type m =? FDMI_COMM_FIN then fdmi_on_recv_cq_wc_send s query
      else Done s
  | _ => Done s
  end.
End ops.

(** The guard on a failure never holds: [FDMI_FORCE] is not zero. *)
Lemma never_discarded s op : discarded s op = false.
Proof.
  unfold discarded. destruct (bool_decide _); [|done]. cbn [andb]. apply Z.eqb_neq. intros E.
  apply Z.lor_eq_0_iff in E as [_ E]. by vm_compute in E.
Qed.
