(* ===== verification/MsgSpec.v ===== *)
(** * What the message engine promises

    The receive side of the library as a machine on lists: the messages that
    have arrived and wait, the receives that are posted and wait, the reads of
    large messages under way, the user's memory and requests, and what has been
    given to the network.  Engine.v shows that the handlers of fdmi.c implement
    it; here is what the machine guarantees. *)
From S2P Require Import Prelude Mem Datatype State Matching Transfer.

(** A posted receive: rank and tag as the 64-bit words they are compared as. *)
Record recv := Recv {
  rc_rank : Z;
  rc_tag : Z;
  rc_comm : Z;
  rc_epoch : Z;
  rc_addr : Z;
  rc_count : Z;
  rc_dtype : fdmi_datatype;
  rc_request : Z;
}.

(** What is given to the network: a receive, the read of the buffer that a
    message announces, and the message that ends a read. *)
Inductive output :=
| ORecv
| ORead (m : fdmi_msg) (r : recv)
| OFin (m : fdmi_msg).

Record mstate := MState {
  m_unexpected : list fdmi_msg;
  m_pending : list recv;
  m_reads : list (fdmi_msg * recv);
  m_memory : memory;
  m_requests : gmap Z fdmi_request;
  m_epoch : Z;
  m_outs : list output;
}.
#[export] Instance eta_mstate : Eta mstate := λ s,
  MState (m_unexpected s) (m_pending s) (m_reads s) (m_memory s) (m_requests s) (m_epoch s) (m_outs s).

Definition recv_matches (m : fdmi_msg) (r : recv) : bool :=
  (msg_comm_id m =? rc_comm r) &&
  (word_matches FMI_ANY_SOURCE (msg_rank m) (rc_rank r) &&
   word_matches FMI_ANY_TAG (msg_tag m) (rc_tag r)).

Section take.
Context {A : Type}.
(** The first element that satisfies [f], and the list without it. *)
Fixpoint take_first (f : A → bool) (l : list A) : option (A * list A) :=
  match l with
  | [] => None
  | x :: l => if f x then Some (x, l)
              else match take_first f l with Some (y, l') => Some (y, x :: l') | None => None end
  end.

Lemma take_first_None f l : take_first f l = None ↔ ∀ x, x ∈ l → f x = false.
Proof.
  induction l as [|x l IH]; cbn; [split; [by intros _ ? ?%elem_of_nil|done]|].
  destruct (f x) eqn:E; [split; [done|intros H; rewrite H in E by left; done]|].
  destruct (take_first f l) as [[y l']|]; split; intros H; try done.
  - destruct IH as [_ IH]. assert (Some (y, l') = None); [|done]. apply IH. intros. apply H. by right.
  - intros z [->|Hz]%elem_of_cons; [done|]. by apply IH.
Qed.

Lemma take_first_Some f l x l' :
  take_first f l = Some (x, l') →
  ∃ l1 l2, l = l1 ++ x :: l2 ∧ l' = l1 ++ l2 ∧ f x = true ∧ ∀ y, y ∈ l1 → f y = false.
Proof.
  revert l'. induction l as [|y l IH]; intros l'; cbn; [done|]. destruct (f y) eqn:E.
  - intros [= <- <-]. exists [], l. split_and!; [done..|]. by intros ? ?%elem_of_nil.
  - destruct (take_first f l) as [[z l'']|]; [|done]. intros [= <- <-].
    destruct (IH l'' eq_refl) as (l1 & l2 & -> & -> & Hf & Hl). exists (y :: l1), l2. split_and!; [done..|].
    intros w [->|Hw]%elem_of_cons; auto.
Qed.

Lemma take_first_app f l1 x l2 :
  (∀ y, y ∈ l1 → f y = false) → f x = true → take_first f (l1 ++ x :: l2) = Some (x, l1 ++ l2).
Proof.
  intros Hl Hx. induction l1 as [|y l IH]; cbn; [by rewrite Hx|].
  rewrite (Hl y) by left. rewrite IH; [done|]. intros. apply Hl. by right.
Qed.
End take.

(** ** The machine *)
Implicit Types (st : mstate).

Definition m_fresh st (epoch : Z) : bool := negb (epoch <? m_epoch st).

(** [m] is given to the receive [r]: an eager message is copied and the request
    completed, for a large one a read begins. *)
Definition m_take st (m : fdmi_msg) (r : recv) : outcome mstate :=
  if msg_opcode m =? FDMI_EAGER then
    mem <- eager_copy (rc_dtype r) (msg_count m) (eager_buff m) (m_memory st) (rc_addr r) ;;
    rq <- load (m_requests st) (rc_request r) ;;
    Done (st <| m_memory := mem |>
             <| m_requests := <[rc_request r := completed rq (msg_rank m) (msg_tag m)]> (m_requests st) |>)
  else if msg_opcode m =? FDMI_RDMA_READ then
    _ <- reg_size (rc_dtype r) (rc_count r) ;;
    Done (st <| m_reads := m_reads st ++ [(m, r)] |> <| m_outs := m_outs st ++ [ORead m r] |>)
  else Undef.

(** A message arrives: it goes to the oldest receive that matches it. *)
Definition m_arrive st (m : fdmi_msg) : outcome mstate :=
  st <- match take_first (λ r, m_fresh st (rc_epoch r) && recv_matches m r) (m_pending st) with
        | Some (r, l) => m_take (st <| m_pending := l |>) m r
        | None => Done (if m_fresh st (msg_epoch m)
                        then st <| m_unexpected := m_unexpected st ++ [m] |> else st)
        end ;;
  Done (st <| m_outs := m_outs st ++ [ORecv] |>).

(** A receive is posted: it takes the oldest message that matches it. *)
Definition m_receive st (r : recv) : outcome mstate :=
  match take_first (λ m, m_fresh st (msg_epoch m) && recv_matches m r) (m_unexpected st) with
  | Some (m, l) => m_take (st <| m_unexpected := l |>) m r
  | None => _ <- reg_size (rc_dtype r) (rc_count r) ;;
            Done (st <| m_pending := m_pending st ++ [r] |>)
  end.

(** The read at position [i] is over: the request is completed and the sender
    is told. *)
Definition m_read_done st (i : nat) : outcome mstate :=
  match m_reads st !! i with
  | Some (m, r) =>
      rq <- load (m_requests st) (rc_request r) ;;
      total <- total_send_size (msg_dtype m) (msg_count m) ;;
      if total <=? FDMI_EAGER_BUFF_SIZE then Undef
      else Done (st <| m_reads := delete i (m_reads st) |>
             <| m_requests := <[rc_request r := completed rq (msg_rank m) (msg_tag m)]> (m_requests st) |>
             <| m_outs := m_outs st ++ [OFin (m <| msg_type := FDMI_COMM_FIN |>)] |>)
  | None => Undef
  end.

Inductive mevent :=
| EArrive (m : fdmi_msg)
| EReceive (r : recv)
| EReadDone (i : nat).

Definition m_step st (e : mevent) : outcome mstate :=
  match e with
  | EArrive m => m_arrive st m
  | EReceive r => m_receive st r
  | EReadDone i => m_read_done st i
  end.

Fixpoint m_run st (es : list mevent) : outcome mstate :=
  match es with
  | [] => Done st
  | e :: es => st <- m_step st e ;; m_run st es
  end.

(** ** No message waits beside a receive that could take it *)
Definition quiet st : Prop :=
  ∀ m r, m ∈ m_unexpected st → r ∈ m_pending st →
         m_fresh st (msg_epoch m) = true → m_fresh st (rc_epoch r) = true → recv_matches m r = false.

Lemma m_take_queues st m r st' :
  m_take st m r = Done st' →
  m_unexpected st' = m_unexpected st ∧ m_pending st' = m_pending st ∧ m_epoch st' = m_epoch st.
Proof.
  unfold m_take. intros H. destruct (msg_opcode m =? FDMI_EAGER).
  - apply obind_Done_inv in H as (mem & _ & H). apply obind_Done_inv in H as (rq & _ & [= <-]). done.
  - destruct (msg_opcode m =? FDMI_RDMA_READ); [|done].
    apply obind_Done_inv in H as (? & _ & [= <-]). done.
Qed.

Lemma quiet_sub st st' :
  quiet st → m_epoch st' = m_epoch st → m_unexpected st' ⊆ m_unexpected st →
  m_pending st' ⊆ m_pending st → quiet st'.
Proof. intros Hq He Hu Hp m r Hm Hr. unfold m_fresh. rewrite He. intros. apply Hq; auto. Qed.

Lemma take_first_sub {A} (f : A → bool) l x l' : take_first f l = Some (x, l') → l' ⊆ l.
Proof.
  intros (l1 & l2 & -> & -> & _)%take_first_Some y Hy. rewrite elem_of_app in *.
  destruct Hy; [by left|right; by right].
Qed.

Lemma quiet_arrive st m st' : quiet st → m_arrive st m = Done st' → quiet st'.
Proof.
  intros Hq Ha. unfold m_arrive in Ha. apply obind_Done_inv in Ha as (st1 & Ha & [= <-]).
  apply (quiet_sub st1); [|done..]. destruct (take_first _ _) as [[r l]|] eqn:E.
  - apply m_take_queues in Ha as (Hu & Hp & He). apply (quiet_sub st); [done|done| |].
    + by rewrite Hu.
    + rewrite Hp. by eapply take_first_sub.
  - injection Ha as <-. destruct (m_fresh st (msg_epoch m)) eqn:Ef; [|done].
    rewrite take_first_None in E.
    intros m' r [Hm| ->%list_elem_of_singleton]%elem_of_app Hr F1 F2; [by apply Hq|].
    specialize (E r Hr). change (m_fresh st (rc_epoch r) = true) in F2. by rewrite F2 in E.
Qed.

Lemma quiet_receive st r st' : quiet st → m_receive st r = Done st' → quiet st'.
Proof.
  intros Hq Ha. unfold m_receive in Ha. destruct (take_first _ _) as [[m l]|] eqn:E.
  - apply m_take_queues in Ha as (Hu & Hp & He). apply (quiet_sub st); [done|done| |].
    + rewrite Hu. by eapply take_first_sub.
    + by rewrite Hp.
  - apply obind_Done_inv in Ha as (? & _ & [= <-]). rewrite take_first_None in E.
    intros m' r' Hm [Hr| ->%list_elem_of_singleton]%elem_of_app F1 F2; [by apply Hq|].
    specialize (E m' Hm). change (m_fresh st (msg_epoch m') = true) in F1. by rewrite F1 in E.
Qed.

Lemma quiet_read_done st i st' : quiet st → m_read_done st i = Done st' → quiet st'.
Proof.
  intros Hq Ha. unfold m_read_done in Ha. destruct (m_reads st !! i) as [[m r]|]; [|done].
  apply obind_Done_inv in Ha as (rq & _ & Ha). apply obind_Done_inv in Ha as (total & _ & Ha).
  destruct (total <=? _); [done|]. injection Ha as <-. by apply (quiet_sub st).
Qed.

Lemma quiet_run st es st' : quiet st → m_run st es = Done st' → quiet st'.
Proof.
  revert st. induction es as [|e es IH]; intros st Hq; cbn; [by intros [= <-]|].
  intros (st1 & H1 & H)%obind_Done_inv. apply (IH st1); [|done]. destruct e; cbn in H1.
  - by eapply quiet_arrive.
  - by eapply quiet_receive.
  - by eapply quiet_read_done.
Qed.

(** ** The order of an arrival and its receive *)

(** The machine with messages [ms] and receives [rs] at the end of its queues. *)
Definition waiting st (ms : list fdmi_msg) (rs : list recv) : mstate :=
  st <| m_unexpected := m_unexpected st ++ ms |> <| m_pending := m_pending st ++ rs |>.

(** Messages and receives that match each other, and nothing that waits. *)
Record same_class st (ms : list fdmi_msg) (rs : list recv) : Prop := {
  sc_match m r : m ∈ ms → r ∈ rs → recv_matches m r = true;
  sc_msg m : m ∈ ms → msg_opcode m = FDMI_EAGER ∧ m_fresh st (msg_epoch m) = true;
  sc_recv r : r ∈ rs → m_fresh st (rc_epoch r) = true ∧
                       ∃ n, reg_size (rc_dtype r) (rc_count r) = Done n;
  sc_new_msg m r : m ∈ ms → r ∈ m_pending st → m_fresh st (rc_epoch r) && recv_matches m r = false;
  sc_new_recv m r : m ∈ m_unexpected st → r ∈ rs → m_fresh st (msg_epoch m) && recv_matches m r = false;
}.

(** The deliveries of pairs, in order. *)
Fixpoint m_takes st (l : list (fdmi_msg * recv)) : outcome mstate :=
  match l with
  | [] => Done st
  | (m, r) :: l => st <- m_take st m r ;; m_takes st l
  end.

Definition m_outputs st (n : nat) : mstate := st <| m_outs := m_outs st ++ replicate n ORecv |>.

Inductive interleaves {A B C : Type} (f : A → C) (g : B → C) : list A → list B → list C → Prop :=
| interleaves_nil : interleaves f g [] [] []
| interleaves_l a la lb lc : interleaves f g la lb lc → interleaves f g (a :: la) lb (f a :: lc)
| interleaves_r b la lb lc : interleaves f g la lb lc → interleaves f g la (b :: lb) (g b :: lc).

Lemma m_take_eager st m r :
  msg_opcode m = FDMI_EAGER →
  m_take st m r = (mem <- eager_copy (rc_dtype r) (msg_count m) (eager_buff m) (m_memory st) (rc_addr r) ;;
    rq <- load (m_requests st) (rc_request r) ;;
    Done (st <| m_memory := mem |>
             <| m_requests := <[rc_request r := completed rq (msg_rank m) (msg_tag m)]> (m_requests st) |>)).
Proof. intros Hop. unfold m_take. by rewrite Hop. Qed.

Lemma m_take_waiting st m r ms rs n :
  msg_opcode m = FDMI_EAGER →
  m_take (m_outputs (waiting st ms rs) n) m r =
  (st' <- m_take st m r ;; Done (m_outputs (waiting st' ms rs) n)).
Proof.
  intros Hop. rewrite !m_take_eager by done. cbn [m_memory m_requests m_outputs waiting].
  destruct st as [u p rd mem rq ep o]. cbn. destruct (eager_copy _ _ _ _ _) as [mem'| | |]; cbn; try done.
  by destruct (load rq _) as [x| | |].
Qed.

Lemma m_takes_outputs st n l :
  (∀ m r, (m, r) ∈ l → msg_opcode m = FDMI_EAGER) →
  m_takes (m_outputs st n) l = (st' <- m_takes st l ;; Done (m_outputs st' n)).
Proof.
  revert st. induction l as [|[m r] l IH]; intros st Hl; [done|]. cbn.
  assert (Hw : ∀ s, waiting s [] [] = s) by (by intros []; unfold waiting; cbn; rewrite !app_nil_r).
  rewrite <- (Hw st) at 1. rewrite m_take_waiting by (apply (Hl m r); by left).
  rewrite !obind_assoc. destruct (m_take st m r) as [st1| | |]; cbn; try done. rewrite Hw.
  apply IH. intros m' r' Hin. apply (Hl m' r'). by right.
Qed.

Lemma same_class_sub st st' ms ms' rs rs' :
  same_class st ms rs → m_unexpected st' = m_unexpected st → m_pending st' = m_pending st →
  m_epoch st' = m_epoch st → ms' ⊆ ms → rs' ⊆ rs → same_class st' ms' rs'.
Proof.
  intros [] Hu Hp He Hm Hr. unfold m_fresh in *. split; rewrite ?Hu, ?Hp, ?He; auto.
  all: unfold m_fresh; rewrite He; auto.
Qed.

Lemma m_arrive_waits st ms m :
  same_class st (ms ++ [m]) [] →
  m_arrive (waiting st ms []) m = Done (waiting (m_outputs st 1) (ms ++ [m]) []).
Proof.
  intros Hc. unfold m_arrive. replace (take_first _ _) with (@None (recv * list recv)).
  - change (m_fresh (waiting st ms []) (msg_epoch m)) with (m_fresh st (msg_epoch m)).
    destruct (sc_msg _ _ _ Hc m) as [_ ->]; [set_solver|]. cbn. unfold waiting, m_outputs. cbn.
    by rewrite <- app_assoc.
  - symmetry. apply take_first_None. cbn. rewrite app_nil_r. intros r Hr. apply (sc_new_msg _ _ _ Hc); [set_solver|done].
Qed.

Lemma m_arrive_takes st m r rs :
  same_class st [m] (r :: rs) →
  m_arrive (waiting st [] (r :: rs)) m =
  (st' <- m_take st m r ;; Done (waiting (m_outputs st' 1) [] rs)).
Proof.
  intros Hc. unfold m_arrive.
  assert (E : take_first (λ x, m_fresh (waiting st [] (r :: rs)) (rc_epoch x) && recv_matches m x)
                (m_pending (waiting st [] (r :: rs))) = Some (r, m_pending st ++ rs)).
  { apply take_first_app.
    - intros y Hy. apply (sc_new_msg _ _ _ Hc); [by left|done].
    - apply andb_true_iff. split; [apply (sc_recv _ _ _ Hc); by left|apply (sc_match _ _ _ Hc); by left]. }
  rewrite E. replace (_ <| m_pending := _ |>) with (m_outputs (waiting st [] rs) 0)
    by (unfold m_outputs, waiting; cbn; by rewrite !app_nil_r).
  rewrite m_take_waiting by (apply (sc_msg _ _ _ Hc); by left). rewrite obind_assoc.
  destruct (m_take st m r) as [[]| | |]; cbn; try done. unfold waiting, m_outputs. cbn. by rewrite app_nil_r.
Qed.

Lemma m_receive_waits st rs r :
  same_class st [] (rs ++ [r]) →
  m_receive (waiting st [] rs) r = Done (waiting st [] (rs ++ [r])).
Proof.
  intros Hc. unfold m_receive. replace (take_first _ _) with (@None (fdmi_msg * list fdmi_msg)).
  - destruct (sc_recv _ _ _ Hc r) as [_ [n ->]]; [set_solver|]. cbn. unfold waiting. cbn.
    by rewrite <- app_assoc.
  - symmetry. apply take_first_None. cbn. rewrite app_nil_r. intros m Hm.
    apply (sc_new_recv _ _ _ Hc); [done|set_solver].
Qed.

Lemma m_receive_takes st m ms r :
  same_class st (m :: ms) [r] →
  m_receive (waiting st (m :: ms) []) r = (st' <- m_take st m r ;; Done (waiting st' ms [])).
Proof.
  intros Hc. unfold m_receive.
  assert (E : take_first (λ m', m_fresh (waiting st (m :: ms) []) (msg_epoch m') && recv_matches m' r)
                (m_unexpected (waiting st (m :: ms) [])) = Some (m, m_unexpected st ++ ms)).
  { apply take_first_app.
    - intros y Hy. apply (sc_new_recv _ _ _ Hc); [done|by left].
    - apply andb_true_iff. split; [apply (sc_msg _ _ _ Hc); by left|apply (sc_match _ _ _ Hc); by left]. }
  rewrite E. replace (_ <| m_unexpected := _ |>) with (m_outputs (waiting st ms []) 0)
    by (unfold m_outputs, waiting; cbn; by rewrite !app_nil_r).
  rewrite m_take_waiting by (apply (sc_msg _ _ _ Hc); by left).
  destruct (m_take st m r) as [[]| | |]; cbn; try done. unfold waiting, m_outputs. cbn. by rewrite app_nil_r.
Qed.

Lemma m_outputs_S st n : m_outputs (m_outputs st 1) n = m_outputs st (S n).
Proof. unfold m_outputs. cbn. by rewrite <- app_assoc. Qed.
Lemma m_outputs_0 st : m_outputs st 0 = st.
Proof. destruct st. unfold m_outputs. cbn. by rewrite app_nil_r. Qed.

Lemma zip_eager st (ms : list fdmi_msg) (rs rs' : list recv) :
  same_class st ms rs' → ∀ m r, (m, r) ∈ zip ms rs → msg_opcode m = FDMI_EAGER.
Proof. intros Hc m r Hin%elem_of_zip_l. by apply (sc_msg _ _ _ Hc). Qed.

(** Whatever the order in which messages of a class arrive and receives of
    that class are posted, the [i]-th message goes to the [i]-th receive, in
    this order; what is left over waits. *)
Lemma fifo_run st mw rw ms rs es :
  same_class st (mw ++ ms) (rw ++ rs) → (mw = [] ∨ rw = []) →
  interleaves EArrive EReceive ms rs es →
  m_run (waiting st mw rw) es =
  (st' <- m_takes st (zip (mw ++ ms) (rw ++ rs)) ;;
   Done (waiting (m_outputs st' (length ms))
           (drop (length (rw ++ rs)) (mw ++ ms)) (drop (length (mw ++ ms)) (rw ++ rs)))).
Proof.
  intros Hc Hw Hi. revert st mw rw Hc Hw. induction Hi as [|m ms rs es Hi IH|r ms rs es Hi IH]; intros st mw rw Hc Hw.
  - rewrite !app_nil_r in *. cbn.
    destruct Hw as [->| ->]; [destruct rw|destruct mw]; cbn; by rewrite m_outputs_0.
  - cbn [m_run m_step]. destruct rw as [|r rw].
    + rewrite m_arrive_waits by (eapply (same_class_sub _ _ _ _ _ _ Hc); [done..|set_solver|set_solver]). cbn [obind].
      rewrite IH; [|rewrite <- app_assoc; by eapply (same_class_sub _ _ _ _ _ _ Hc)|by right].
      rewrite <- !app_assoc. cbn [app].
      rewrite m_takes_outputs by (by eapply zip_eager). rewrite obind_assoc. 
      destruct (m_takes st _); cbn [obind]; [|done..]. by rewrite m_outputs_S.
    + destruct Hw as [->|]; [|done].
      rewrite m_arrive_takes by (eapply (same_class_sub _ _ _ _ _ _ Hc); [done..|set_solver|set_solver]).
      rewrite obind_assoc. cbn [app zip zip_with m_takes length drop]. rewrite obind_assoc.
      destruct (m_take st m r) as [st1| | |] eqn:Et; cbn [obind]; [|done..].
      pose proof (m_take_queues _ _ _ _ Et) as (Hu & Hp & He).
      rewrite IH; [|eapply (same_class_sub _ _ _ _ _ _ Hc); [done..|set_solver|set_solver]|by left].
      cbn [app]. rewrite m_takes_outputs by (eapply zip_eager;
        eapply (same_class_sub st st _ ms _ (rw ++ rs) Hc); [done..|set_solver|set_solver]).
      rewrite obind_assoc. destruct (m_takes st1 _); cbn [obind]; [|done..]. by rewrite m_outputs_S.
  - cbn [m_run m_step]. destruct mw as [|m mw].
    + rewrite m_receive_waits by (eapply (same_class_sub _ _ _ _ _ _ Hc); [done..|set_solver|set_solver]). cbn [obind].
      rewrite IH; [|rewrite <- app_assoc; by eapply (same_class_sub _ _ _ _ _ _ Hc)|by left].
      by rewrite <- !app_assoc.
    + destruct Hw as [?| ->]; [done|].
      rewrite m_receive_takes by (eapply (same_class_sub _ _ _ _ _ _ Hc); [done..|set_solver|set_solver]).
      rewrite obind_assoc. cbn [app zip zip_with m_takes length drop]. rewrite obind_assoc.
      destruct (m_take st m r) as [st1| | |] eqn:Et; cbn [obind]; [|done..].
      pose proof (m_take_queues _ _ _ _ Et) as (Hu & Hp & He).
      rewrite IH; [done|eapply (same_class_sub _ _ _ _ _ _ Hc); [done..|set_solver|set_solver]|by right].
Qed.

(** Early or late: the same result. *)
Lemma early_late st m r :
  same_class st [m] [r] →
  m_run st [EArrive m; EReceive r] = m_run st [EReceive r; EArrive m].
Proof.
  intros Hc. assert (Hw : waiting st [] [] = st) by (destruct st; unfold waiting; cbn; by rewrite !app_nil_r).
  rewrite <- Hw at 1 2. rewrite !(fifo_run st [] [] [m] [r]); try done; try by left.
  - repeat constructor.
  - repeat constructor.
Qed.

(** ** One message and one receive *)

(** A message and a receive that match each other, and nothing that waits. *)
Record only_pair st (m : fdmi_msg) (r : recv) : Prop := {
  op_match : recv_matches m r = true;
  op_msg : m_fresh st (msg_epoch m) = true;
  op_recv : m_fresh st (rc_epoch r) = true;
  op_size : ∃ n, reg_size (rc_dtype r) (rc_count r) = Done n;
  op_pending r' : r' ∈ m_pending st → m_fresh st (rc_epoch r') && recv_matches m r' = false;
  op_unexpected m' : m' ∈ m_unexpected st → m_fresh st (msg_epoch m') && recv_matches m' r = false;
}.

Lemma only_pair_class st m r : only_pair st m r → msg_opcode m = FDMI_EAGER → same_class st [m] [r].
Proof.
  intros [] Hop. split.
  - by intros x y ->%list_elem_of_singleton ->%list_elem_of_singleton.
  - by intros x ->%list_elem_of_singleton.
  - by intros x ->%list_elem_of_singleton.
  - intros x y ->%list_elem_of_singleton. auto.
  - intros x y ? ->%list_elem_of_singleton. auto.
Qed.

(** A large message and its receive: whichever comes first, a read begins. *)
Lemma large_run st m r es :
  only_pair st m r → msg_opcode m = FDMI_RDMA_READ →
  es = [EReceive r; EArrive m] ∨ es = [EArrive m; EReceive r] →
  ∃ o, m_run st es = Done (st <| m_reads := m_reads st ++ [(m, r)] |> <| m_outs := m_outs st ++ o |>).
Proof.
  intros [Hma Hfm Hfr [n Hn] Hp Hu] Hop Hes.
  pose proof (proj2 (take_first_None (λ r', m_fresh st (rc_epoch r') && recv_matches m r') (m_pending st)) Hp) as Hp0.
  pose proof (proj2 (take_first_None (λ m', m_fresh st (msg_epoch m') && recv_matches m' r) (m_unexpected st)) Hu) as Hu0.
  destruct st as [u pe rd me rs ep os], Hes as [-> | ->]; cbn [m_run m_step m_pending m_unexpected m_fresh m_epoch] in *.
  - exists [ORead m r; ORecv]. unfold m_receive. cbn. unfold m_fresh in *. cbn in *. rewrite Hu0, Hn. cbn.
    unfold m_arrive, m_fresh. cbn. rewrite (take_first_app _ pe r []); [|exact Hp|by rewrite Hfr, Hma].
    unfold m_take. rewrite Hop. cbn. rewrite Hn. cbn. by rewrite app_nil_r, <- app_assoc.
  - exists [ORecv; ORead m r]. unfold m_arrive. cbn. unfold m_fresh in *. cbn in *. rewrite Hp0, Hfm. cbn.
    unfold m_receive, m_fresh. cbn. rewrite (take_first_app _ u m []); [|exact Hu|by rewrite Hfm, Hma].
    unfold m_take. rewrite Hop. cbn. rewrite Hn. cbn. by rewrite app_nil_r, <- app_assoc.
Qed.
