(* ===== verification/Engine.v ===== *)
(** * src/src/fdmi.c: what a message and a receive do to a process

    The laws of the receive operations and of the completion handlers, stated
    against the invariant of Query.v, and the theorems about the message
    engine: arrivals and receives are matched oldest first, whichever comes
    first, and no message waits beside a receive that could take it. *)
From S2P Require Import Prelude Mem Queue Hashtable Datatype ProcMan State MrCache Query Matching Transfer Progress MsgSpec.

(** What no handler changes. *)
Definition fixed_part (s : process) :=
  (ps_conns s, ps_domains s, ps_pm s, ft_msg s, state s, ps_peers s, ps_prank s).

Lemma pooled_fixed s s' :
  pooled s s' → fixed_part s' = fixed_part s ∧ ps_memory s' = ps_memory s ∧
    ps_requests s' = ps_requests s ∧ ps_posted s' = ps_posted s.
Proof. by intros (fq & qs & ms & rq & mrs & n & cnt & ->). Qed.

Lemma fixed_comm_id s s' c : fixed_part s' = fixed_part s → comm_id_at s' c = comm_id_at s c.
Proof. unfold fixed_part, comm_id_at. by intros [= _ _ -> _ _ _ _]. Qed.

Section laws.
Context {HMalloc : Malloc} {HVerbs : Verbs}.
Context {rep : mutex → fdmi_queue → list Z → Prop} `{!QueueContract rep}.
Context (Hm : malloc_total) (Hreg : reg_total) (Hpost : post_total).
Context (D : Z).

(** The read of a rendezvous: the passive query takes over the connection and
    the work request asks for the sender's registered buffer. *)
Lemma post_rdma_read_ok ma mp free aq pq s held p a qp qa pm am size :
  proc_inv rep s D ma mp free aq pq held →
  cells (ps_queries s) !! p = Some qp → cells (ps_queries s) !! a = Some qa → qu_conn qa ≠ NULL →
  query_msg s p = Done pm → query_msg s a = Done am →
  reg_size (msg_dtype pm) (msg_count pm) = Done size →
  ends (fdmi_post_rdma_read s p a) (λ s', ∃ rq mrs n mr cn,
    s' = put_query (with_regs s rq mrs n) p (qp <| qu_conn := qu_conn qa |> <| qu_msg_mr := mr |>)
           <| ps_posted := ps_posted s ++
             [WRead (cn_qp cn) p (Sge (msg_addr pm) (u32 size) (mr_lkey (msg_rdma_mr pm)))
                (mr_addr (msg_rdma_mr am)) (mr_rkey (msg_rdma_mr am))] |> ∧
    cells (ps_conns s) !! qu_conn qa = Some cn ∧
    proc_inv rep s' D ma mp free aq pq held ∧
    ∀ x m, query_msg s x = Done m → query_msg s' x = Done m).
Proof.
  intros Hinv Hp Ha Hc Hpm Ham Hsize. unfold fdmi_post_rdma_read, query_at, peek.
  rewrite (proj2 (load_Done _ _ _) Ha), (proj2 (load_Done _ _ _) Hp). cbn [obind].
  rewrite (set_query_put _ _ qp) by done. cbn [obind].
  destruct (pi_query Hinv a qa Ha) as [_ Hwa]. destruct (Hwa Hc) as [[cn Hcn] _].
  destruct (conn_pd_ok s D ma mp free aq pq held Hinv (qu_conn qa)) as (dc & _ & Hpd); [by eexists|].
  match goal with |- context [conn_pd ?x ?c] => change (conn_pd x c) with (conn_pd s c) end.
  rewrite Hpd. cbn [obind]. destruct (pi_regs Hinv) as [l Hl].
  match goal with |- context [fdmi_reg_mr ?x _ _ _] =>
    assert (Hl' : regs_ok rep x l) by exact Hl end.
  c_step (fdmi_reg_mr_ok (rep := rep)) as [mr s'] (rq & mrs & n & l' & -> & Hl'' & _ & Hle & Hn & x & Hx & _).
  cbn. rewrite load_insert. cbn [obind].
  rewrite (set_query_put _ _ (qp <| qu_conn := qu_conn qa |>)) by (cbn; apply lookup_insert_eq).
  cbn [obind].
  match goal with |- context [put_query ?s1 p ?q1] =>
    replace (put_query s1 p q1) with (put_query (with_regs s rq mrs n) p q1)
      by (unfold put_query, with_regs; cbn; by rewrite insert_insert_eq) end.
  assert (Hinv1 : proc_inv rep (with_regs s rq mrs n) D ma mp free aq pq held) by (by eapply inv_with_regs).
  set (qp' := qp <| qu_conn := _ |> <| qu_msg_mr := _ |>).
  assert (Hold : ∀ x m, query_msg s x = Done m → query_msg (put_query (with_regs s rq mrs n) p qp') x = Done m).
  { intros y m Hy. by apply (put_query_msg _ _ qp). }
  rewrite (Hold p pm Hpm), (Hold a am Ham). cbn [obind]. rewrite Hsize. cbn [obind].
  unfold conn_at, peek. cbn. rewrite (proj2 (load_Done _ _ _) Hcn). cbn [obind].
  unfold post_wr. rewrite Hpost. cbn. exists rq, mrs, n, mr, cn. split_and!; [done|done| |done].
  apply inv_posted. eapply inv_put_query; [done|done|done|].
  destruct (pi_query Hinv p qp Hp) as [? _]. split; [done|]. intros _. split; [by eexists|by exists x].
Qed.

(** A fresh receive on the connection [c]. *)
Lemma post_fresh_ok ma mp free aq pq s held c :
  proc_inv rep s D ma mp free aq pq held → conns_ready s →
  c ≠ NULL → is_Some (cells (ps_conns s) !! c) →
  ends (post_fresh s c) (λ s', ∃ s1 q' cn sges,
    created (rep := rep) D ma mp aq pq s c held q' s1 ∧
    cells (ps_conns s) !! c = Some cn ∧
    s' = s1 <| ps_posted := ps_posted s ++ [WRecv (cn_qp cn) q' sges] |> ∧
    ∃ free', proc_inv rep s' D ma mp free' aq pq (q' :: held)).
Proof.
  intros Hinv Hready Hc [cn Hcn]. unfold post_fresh.
  c_step (create_query_ok (rep := rep) Hm Hreg D ma mp aq pq s free held c) as [q' s1] Hcr.
  cbn [fst snd] in *.
  pose proof (pooled_fixed _ _ (pooled_created _ _ _ _ _ _ _ _ _ _ Hcr)) as (Hf & _ & _ & Hpo).
  pose proof Hcr as (fq & qs & ms & rq & mrs & n & cnt & free' & qu' & Hs1 & Hinv1 & Hqu' & Hcn' & _).
  destruct (pi_query Hinv1 q' qu') as [_ Hwf']; [by rewrite Hs1|].
  rewrite Hcn' in Hwf'. destruct (Hwf' Hc) as [[cn1 Hcn1] [mr Hmr]].
  unfold fdmi_post_recv_msg, query_at, conn_at, peek.
  assert (Hqu1 : cells (ps_queries s1) !! q' = Some qu') by (by rewrite Hs1).
  rewrite (proj2 (load_Done _ _ _) Hqu1). cbn. rewrite (proj2 (load_Done _ _ _) Hmr). cbn.
  rewrite Hcn', (proj2 (load_Done _ _ _) Hcn1). cbn. unfold fdmi_test.
  assert (cn1 = cn) as ->. { rewrite Hs1 in Hcn1. cbn in Hcn1. congruence. }
  rewrite (proj2 (Z.eqb_neq _ _)) by (by eapply Hready). cbn.
  unfold post_wr. rewrite Hpost. cbn. eexists s1, q', cn, _. split_and!; [done|done|by rewrite Hpo|].
  exists free'. by apply inv_posted.
Qed.

(** The same on the connection of [q]. *)
Lemma repost_ok ma mp free aq pq s held q qu :
  proc_inv rep s D ma mp free aq pq held → conns_ready s →
  cells (ps_queries s) !! q = Some qu → qu_conn qu ≠ NULL →
  ends (repost s q) (λ s', ∃ s1 q' cn sges,
    created (rep := rep) D ma mp aq pq s (qu_conn qu) held q' s1 ∧
    cells (ps_conns s) !! qu_conn qu = Some cn ∧
    s' = s1 <| ps_posted := ps_posted s ++ [WRecv (cn_qp cn) q' sges] |> ∧
    ∃ free', proc_inv rep s' D ma mp free' aq pq (q' :: held)).
Proof.
  intros Hinv Hready Hq Hc. unfold repost, query_at, peek. rewrite (proj2 (load_Done _ _ _) Hq). cbn [obind].
  apply (post_fresh_ok ma mp free); try done. by apply (pi_query Hinv q qu Hq).
Qed.
End laws.

Section receives.
Context {HMalloc : Malloc} {HVerbs : Verbs}.
Context {rep : mutex → fdmi_queue → list Z → Prop} `{!QueueContract rep}.
Context (Hm : malloc_total) (Hreg : reg_total) (Hpost : post_total).
Context (D : Z).

(** A receive that finds an eager message: the data is in the buffer, the
    request is complete and the message's query is pooled. *)
Lemma receive_matched_eager ma mp free aq pq s held pp a am r mem :
  proc_inv rep s D ma mp free aq pq (a :: held) → query_msg s a = Done am →
  msg_opcode am = FDMI_EAGER → request_ok s (pp_request_flag pp) (pp_request pp) r →
  eager_copy (pp_dtype pp) (msg_count am) (eager_buff am) (ps_memory s) (pp_addr pp) = Done mem →
  ends (receive_matched s pp a) (λ s', ∃ lq fq cnt,
    s' = delivered s mem (pp_request pp) r (msg_rank am) (msg_tag am) lq fq cnt ∧
    proc_inv rep s' D ma mp (free ++ [a]) aq pq held).
Proof.
  intros Hinv Ham Hop [Hflag Hr] Hmem. unfold receive_matched. rewrite Ham. cbn [obind].
  rewrite Hop. cbn [Z.eqb FDMI_EAGER]. unfold fdmi_cpy_eager_buff2. rewrite Ham. cbn [obind].
  rewrite Hmem. cbn [obind]. rewrite Hflag.
  rewrite (set_flag_ok _ _ r) by (rewrite Z.add_simpl_r; done). rewrite Z.add_simpl_r. cbn [obind].
  match goal with |- ends (obind (obind (forget_request ?s1 _) _) _) _ =>
    assert (Hinv1 : proc_inv rep s1 D ma mp free aq pq (a :: held)) by (apply inv_requests, inv_memory, Hinv) end.
  rewrite obind_assoc. c_step (forget_request_ok (rep := rep)) as s2 (lq & -> & Hinv2).
  c_step (destroy_query_ok (rep := rep) Hm) as s3 (fq & cnt & -> & Hinv3).
  match goal with |- context [query_msg ?x a] => change (query_msg x a) with (query_msg s a) end.
  rewrite Ham. cbn [obind].
  rewrite (set_request_source_ok _ _ (r <| rq_flag := 1 |>)) by (cbn; by rewrite lookup_insert_eq).
  cbn [ends]. exists lq, fq, cnt. split.
  - unfold delivered, completed. cbn. rewrite insert_insert_eq. by destruct s.
  - by apply inv_requests.
Qed.

(** A receive that finds the announcement of a large message: a read of the
    sender's buffer is posted for a passive query that remembers the active
    one. *)
Definition reading (s : process) (p a flag req : Z) : Prop :=
  ∃ qp, cells (ps_queries s) !! p = Some qp ∧ active_query_to_free qp = a ∧
        qu_request_flag qp = flag ∧ qu_request qp = req ∧ qu_conn qp ≠ NULL.


(** The part of the process the user sees, and what no handler changes. *)
Definition same_user (s s' : process) : Prop :=
  fixed_part s' = fixed_part s ∧ ps_memory s' = ps_memory s ∧ ps_requests s' = ps_requests s.

Lemma same_user_trans s1 s2 s3 : same_user s1 s2 → same_user s2 s3 → same_user s1 s3.
Proof. intros (E1 & E2 & E3) (F1 & F2 & F3). split_and!; congruence. Qed.

Lemma pooled_same_user s s' : pooled s s' → same_user s s' ∧ ps_posted s' = ps_posted s.
Proof. intros (E1 & E2 & E3 & E4)%pooled_fixed. by split_and!. Qed.

(** What a receive needs of the process and of its parameters. *)
Record receivable (s : process) (pp : fdmi_post_param) (id : Z) : Prop := {
  rv_comm : comm_id_at s (pp_comm pp) = Done id;
  rv_domain : ∃ dom, aget (ps_domains s) 0 = Done dom ∧ dom_dctx dom = D;
  rv_size : ∃ size, reg_size (pp_dtype pp) (pp_count pp) = Done size;
}.

Lemma receivable_same_user s s' pp id : same_user s s' → receivable s pp id → receivable s' pp id.
Proof.
  intros (E & _ & _) [H1 H2 H3]. split; [by rewrite (fixed_comm_id s)| |done].
  unfold fixed_part in E. injection E as _ E _ _ _ _ _. by rewrite E.
Qed.

Lemma receive_pending_ok ma mp free aq pq s held pp id :
  proc_inv rep s D ma mp free aq pq held → receivable s pp id →
  ends (receive_pending s D pp) (λ s', ∃ p free', same_user s s' ∧ ps_posted s' = ps_posted s ∧
    proc_inv rep s' D ma mp free' aq (pq ++ [p]) held ∧
    passive_query_of s' pp id p (λ m, msg_epoch m = ft_epoch (ft_msg s)) ∧
    others_kept s s' (λ x, x ≠ p) ∧ p ∉ aq ++ pq ++ held).
Proof.
  intros Hinv [Hid (dom & Hdom & HD) [size Hsize]]. unfold receive_pending.
  c_step (init_passive_query_ok (rep := rep) Hm Hreg) as [p s1]
    (Hp1 & (free' & Hinv1) & (Hqu & m & Em & Hf) & Hold1). cbn [fst snd] in *.
  apply pooled_same_user in Hp1 as [Hu1 Hpo1]. rewrite Em. cbn [obind].
  c_step (set_query_msg_ok (rep := rep) D ma mp free' aq pq s1 (p :: held) p) as s2
    (ms2 & -> & Hinv2 & Em2 & Hold2); [set_solver|].
  c_step (enq_pq (rep := rep) D free' aq pq (p :: held) _ ma mp p held) as [? s3] (h & -> & Hinv3).
  cbn [ends fst snd]. exists p, free'. split_and!; [exact Hu1|exact Hpo1|done| | |].
  - split; [done|]. eexists. split; [exact Em2|].
    destruct Hf as (?&?&?&?&?&?&_). split_and!; try done. cbn.
    destruct Hu1 as (E & _ & _). unfold fixed_part in E. congruence.
  - apply (others_kept_trans _ _ _ _ Hold1). split; [done|]. intros x m' Hx Hm'. exact (Hold2 x m' Hx Hm').
  - pose proof (pi_nodup Hinv1) as Hnd.
    assert (Hp : free' ++ aq ++ pq ++ p :: held ≡ₚ p :: free' ++ aq ++ pq ++ held) by solve_Permutation.
    rewrite Hp in Hnd. apply NoDup_cons in Hnd as [Hnd _]. set_solver.
Qed.

Lemma receive_matched_rdma ma mp free aq pq s held pp id a am qa :
  proc_inv rep s D ma mp free aq pq (a :: held) → receivable s pp id →
  query_msg s a = Done am → msg_opcode am = FDMI_RDMA_READ →
  cells (ps_queries s) !! a = Some qa → qu_conn qa ≠ NULL →
  ends (receive_matched s pp a) (λ s', ∃ p free' cn lkey size, same_user s s' ∧
    cells (ps_conns s) !! qu_conn qa = Some cn ∧ reg_size (pp_dtype pp) (pp_count pp) = Done size ∧
    ps_posted s' = ps_posted s ++ [WRead (cn_qp cn) p (Sge (pp_addr pp) (u32 size) lkey)
      (mr_addr (msg_rdma_mr am)) (mr_rkey (msg_rdma_mr am))] ∧
    proc_inv rep s' D ma mp free' aq pq (p :: a :: held) ∧
    reading s' p a (pp_request_flag pp) (pp_request pp) ∧
    others_kept s s' (λ x, x ≠ p)).
Proof.
  intros Hinv [Hid (dom & Hdom & HD) [size Hsize]] Ham Hop Hqa Hc. unfold receive_matched.
  rewrite Ham. cbn [obind]. rewrite Hop. cbn [Z.eqb FDMI_EAGER FDMI_RDMA_READ].
  c_step (init_passive_query_ok (rep := rep) Hm Hreg) as [p s1]
    (Hp1 & (free' & Hinv1) & ((qp & Hqp & _ & Hfl & Hrq) & m & Em & Had & _ & _ & Hcnt & Hdt & _) & Hold1).
  cbn [fst snd] in *. apply pooled_same_user in Hp1 as [Hu1 Hpo1].
  assert (Hpa : a ≠ p).
  { intros ->. pose proof (pi_nodup Hinv1) as Hnd. rewrite !NoDup_app in Hnd.
    destruct Hnd as (_ & _ & _ & _ & _ & _ & Hnd). apply NoDup_cons in Hnd as [Hnd _]. apply Hnd. by left. }
  destruct Hold1 as [Hold1 Hold1'].
  unfold query_at, peek. rewrite (proj2 (load_Done _ _ _) Hqp). cbn [obind].
  rewrite (set_query_put _ _ qp) by done. cbn [obind]. set (qp' := qp <| active_query_to_free := a |>).
  assert (Hinv2 : proc_inv rep (put_query s1 p qp') D ma mp free' aq pq (p :: a :: held)).
  { eapply inv_put_query; [done|done|done|]. destruct (pi_query Hinv1 p qp Hqp). by split. }
  assert (Hmsg : ∀ x m', query_msg s1 x = Done m' → query_msg (put_query s1 p qp') x = Done m').
  { intros x m'. by apply (put_query_msg _ _ qp). }
  eapply ends_mono.
  { apply (post_rdma_read_ok (rep := rep) Hm Hreg Hpost D ma mp free' aq pq (put_query s1 p qp') (p :: a :: held)
      p a qp' qa m am size); [done|cbn; apply lookup_insert_eq| |done|by apply Hmsg| |by rewrite Hdt, Hcnt].
    - cbn. rewrite lookup_insert_ne by done. by apply Hold1.
    - apply Hmsg. by apply Hold1'. }
  cbv beta. intros s2 (rq & mrs & n & mr & cn & -> & Hcn & Hinv3 & Hmsg3). rewrite Had in Hinv3 |- *.
  pose proof Hu1 as (Hf1 & _). unfold fixed_part in Hf1. injection Hf1 as Hcn1 _ _ _ _ _ _.
  eexists p, free', cn, _, size. split_and!; [exact Hu1|by rewrite <- Hcn1|done|cbn; by rewrite Hpo1|exact Hinv3| |].
  - eexists. split; [cbn; by apply lookup_insert_eq|]. by split_and!.
  - split.
    + intros x y Hx Hy. cbn. rewrite !lookup_insert_ne by done. by apply Hold1.
    + intros x m' Hx Hm'. specialize (Hmsg3 x m'). rewrite Had in Hmsg3. apply Hmsg3, Hmsg. by apply Hold1'.
Qed.
End receives.

(** ** The process as a message engine *)

(** The search in the process and in the machine find the same element. *)
Lemma find_take {A} (R : Z → A → Prop) (f : Z → bool) (g : A → bool) l l' :
  NULL ∉ l → Forall2 R l l' → (∀ x y, x ∈ l → R x y → f x = g y) →
  match take_first g l' with
  | Some (y, l'') => ∃ x, find_ptr f l = x ∧ x ≠ NULL ∧ x ∈ l ∧ R x y ∧ Forall2 R (remove_first x l) l''
  | None => find_ptr f l = NULL
  end.
Proof.
  intros Hn HR Hfg. destruct (take_first g l') as [[y l'']|] eqn:E.
  - apply take_first_Some in E as (l1 & l2 & -> & -> & Hy & Hl1).
    apply Forall2_app_inv_r in HR as (k1 & k2 & HR1 & HR2 & ->).
    apply Forall2_cons_inv_r in HR2 as (x & k2' & HR2 & Hxy & ->). exists x.
    assert (Hx : f x = true) by (rewrite (Hfg x y); [done|set_solver|done]).
    assert (Hpre : ∀ z, z ∈ k1 → f z = false).
    { intros z Hz. destruct (list_elem_of_lookup_1 _ _ Hz) as [i Hi].
      destruct (Forall2_lookup_l _ _ _ _ _ HR1 Hi) as (w & Hw & Hzw).
      rewrite (Hfg z w); [|set_solver|done]. apply Hl1. by eapply list_elem_of_lookup_2. }
    split_and!.
    + rewrite find_ptr_app by done. cbn. by rewrite Hx.
    + intros ->. apply Hn. set_solver.
    + set_solver.
    + done.
    + rewrite remove_first_app; [by apply Forall2_app|]. intros Hin. apply Hpre in Hin. congruence.
  - rewrite take_first_None in E. apply find_ptr_None; [done|]. intros x Hx.
    destruct (list_elem_of_lookup_1 _ _ Hx) as [i Hi].
    destruct (Forall2_lookup_l _ _ _ _ _ HR Hi) as (w & Hw & Hxw).
    rewrite (Hfg x w); [|done|done]. apply E. by eapply list_elem_of_lookup_2.
Qed.

Definition connected_to (s : process) (c a : Z) : Prop :=
  ∃ q, cells (ps_queries s) !! a = Some q ∧ qu_conn q = c ∧ c ≠ NULL.

(** The table of connection identifiers. *)
Definition routes (t : table) (s : process) : Prop := ht_rep queue_rep (hstb_itop (ps_pm s)) t.
(** The rank at the other end of the connection [c]. *)
Definition rank_of (t : table) (s : process) (c : Z) : Z :=
  match cells (ps_conns s) !! c with Some cn => i32 (spec_get t (cn_rcid cn)) | None => 0 end.

(** The connection [c] leads to the process [m] names as its sender. *)
Definition comes_from (s : process) (c : Z) (m : fdmi_msg) : Prop :=
  ∃ t, routes t s ∧ msg_rank m = u64 (rank_of t s c).

(** The message [m] came in on the connection of the active query [a]. *)
Definition arrived_at (s : process) (a : Z) (m : fdmi_msg) : Prop :=
  query_msg s a = Done m ∧ ∃ c, connected_to s c a ∧ comes_from s c m.

Definition recv_of_query (q : fdmi_query) (m : fdmi_msg) : recv :=
  Recv (msg_rank m) (msg_tag m) (msg_comm_id m) (msg_epoch m) (msg_addr m) (msg_count m) (msg_dtype m)
    (qu_request q).

Definition pending_at (s : process) (p : Z) (r : recv) : Prop :=
  ∃ q m, cells (ps_queries s) !! p = Some q ∧ query_msg s p = Done m ∧ r = recv_of_query q m ∧
         qu_request_flag q = qu_request q + offsetof_request_flag.

(** A read: the passive query [p] that is read into, the active query [a] of
    the message. *)
Definition read_at (s : process) (x : Z * Z) (y : fdmi_msg * recv) : Prop :=
  reading s x.1 x.2 (rc_request y.2 + offsetof_request_flag) (rc_request y.2) ∧ arrived_at s x.2 y.1.

(** The work request of a read: from the region the message announces to the
    buffer of the receive. *)
Definition is_read (w : wr) (p : Z) (m : fdmi_msg) (r : recv) : Prop :=
  ∃ qp lkey size, reg_size (rc_dtype r) (rc_count r) = Done size ∧
    w = WRead qp p (Sge (rc_addr r) (u32 size) lkey) (mr_addr (msg_rdma_mr m)) (mr_rkey (msg_rdma_mr m)).
(** The queue pair of the connection of a query. *)
Definition query_qp (s : process) (a qp : Z) : Prop :=
  ∃ c cn, connected_to s c a ∧ cells (ps_conns s) !! c = Some cn ∧ cn_qp cn = qp.
Definition wr_qp (w : wr) : Z :=
  match w with WSend qp _ _ _ _ => qp | WRecv qp _ _ => qp | WRead qp _ _ _ _ => qp end.
(** The read is posted on the queue pair the message came in on. *)
Definition read_posted (s : process) (x : Z * Z) (y : fdmi_msg * recv) : Prop :=
  ∃ w, w ∈ ps_posted s ∧ is_read w x.1 y.1 y.2 ∧ query_qp s x.2 (wr_qp w).

Definition read_queries (l : list (Z * Z)) : list Z := flat_map (λ x, [x.1; x.2]) l.

(** The work request a process has posted for an output. *)
Definition output_ok (w : wr) (o : output) : Prop :=
  match o with
  | ORecv => ∃ qp id sges, w = WRecv qp id sges
  | ORead m r => ∃ p, is_read w p m r
  | OFin m => ∃ qp id sge, w = WSend qp id [sge] m []
  end.

(** Process [s] is the machine [st]; [rq] lists the receives it has posted, in
    order, as pairs of a connection and a query; [lost] those the running handler holds or nobody
    knows any more. *)
Record engine (rep : mutex → fdmi_queue → list Z → Prop) (D : Z) (ma mp : mutex) (s : process)
    (rq : list (Z * Z)) (st : mstate) (free aq pq : list Z) (reads : list (Z * Z)) (lost : list Z) : Prop := {
  en_inv : proc_inv rep s D ma mp free aq pq (rq.*2 ++ read_queries reads ++ lost);
  en_conns : conns_ready s;
  en_domain : D ≠ NULL ∧ ∃ dom, aget (ps_domains s) 0 = Done dom ∧ dom_dctx dom = D;
  en_rq x : x ∈ rq → connected_to s x.1 x.2;
  en_unexpected : Forall2 (arrived_at s) aq (m_unexpected st);
  en_pending : Forall2 (pending_at s) pq (m_pending st);
  en_reads : Forall2 (read_at s) reads (m_reads st);
  en_posted : Forall2 (read_posted s) reads (m_reads st);
  en_memory : ps_memory s = m_memory st;
  en_requests : ps_requests s = m_requests st;
  en_epoch : ft_epoch (ft_msg s) = m_epoch st;
  en_outs : Forall2 output_ok (ps_posted s) (m_outs st);
}.
Arguments en_inv {_ _ _ _ _ _ _ _ _ _ _ _} _.
Arguments en_conns {_ _ _ _ _ _ _ _ _ _ _ _} _.
Arguments en_domain {_ _ _ _ _ _ _ _ _ _ _ _} _.
Arguments en_rq {_ _ _ _ _ _ _ _ _ _ _ _} _ _ _.
Arguments en_unexpected {_ _ _ _ _ _ _ _ _ _ _ _} _.
Arguments en_pending {_ _ _ _ _ _ _ _ _ _ _ _} _.
Arguments en_reads {_ _ _ _ _ _ _ _ _ _ _ _} _.
Arguments en_posted {_ _ _ _ _ _ _ _ _ _ _ _} _.
Arguments en_memory {_ _ _ _ _ _ _ _ _ _ _ _} _.
Arguments en_requests {_ _ _ _ _ _ _ _ _ _ _ _} _.
Arguments en_epoch {_ _ _ _ _ _ _ _ _ _ _ _} _.
Arguments en_outs {_ _ _ _ _ _ _ _ _ _ _ _} _.

Definition implements (rep : mutex → fdmi_queue → list Z → Prop) (D : Z) (s : process) (rq : list (Z * Z))
    (st : mstate) : Prop :=
  ∃ free aq pq reads lost, engine rep D Unlocked Unlocked s rq st free aq pq reads lost.

(** ** The relations survive what does not touch their queries *)
Section frames.
Context (s s' : process) (P : Z → Prop).
Hypothesis (Hk : others_kept s s' P) (Hf : fixed_part s' = fixed_part s).

Lemma connected_kept c a : P a → connected_to s c a → connected_to s' c a.
Proof using Hk. intros Ha (q & Hq & Hc). exists q. split; [by apply Hk|done]. Qed.

Lemma comes_from_kept c m : comes_from s c m → comes_from s' c m.
Proof using Hf.
  unfold fixed_part in Hf. injection Hf as Hcn _ Hpm _ _ _ _. intros (t & Ht & E). exists t.
  unfold routes, rank_of in *. by rewrite Hpm, Hcn.
Qed.

Lemma query_qp_kept a qp : P a → query_qp s a qp → query_qp s' a qp.
Proof using Hk Hf.
  intros Ha (c & cn & Hc & Hcn & E). exists c, cn. unfold fixed_part in Hf. injection Hf as -> _ _ _ _ _ _.
  split; [by apply connected_kept|done].
Qed.

Lemma arrived_kept a m : P a → arrived_at s a m → arrived_at s' a m.
Proof.
  intros Ha [Hm (c & Hc & Hr)]. split; [by apply Hk|]. exists c.
  split; [by apply connected_kept|by apply comes_from_kept].
Qed.

Lemma pending_kept p r : P p → pending_at s p r → pending_at s' p r.
Proof. intros Hp (q & m & Hq & Hm & H). exists q, m. split; [by apply Hk|]. split; [by apply Hk|done]. Qed.

Lemma read_kept x y : P x.1 → P x.2 → read_at s x y → read_at s' x y.
Proof.
  intros H1 H2 [(q & Hq & H) Ha]. split; [exists q; split; [by apply Hk|done]|by apply arrived_kept].
Qed.

Lemma read_posted_kept x y : P x.2 → ps_posted s ⊆ ps_posted s' → read_posted s x y → read_posted s' x y.
Proof using Hk Hf.
  intros Hx Hp (w & Hw & H & Hq). exists w. split_and!; [by apply Hp|done|by apply query_qp_kept].
Qed.
End frames.

Lemma Forall2_kept {A B} (R R' : A → B → Prop) l l' :
  Forall2 R l l' → (∀ x y, x ∈ l → R x y → R' x y) → Forall2 R' l l'.
Proof.
  induction 1 as [|x y l l' Hxy HR IH]; intros Hk; [constructor|]. constructor.
  - apply Hk; [by left|done].
  - apply IH. intros. apply Hk; [by right|done].
Qed.

Lemma elem_read_queries x reads : x ∈ reads → x.1 ∈ read_queries reads ∧ x.2 ∈ read_queries reads.
Proof.
  induction reads as [|y l IH]; intros Hx; [by apply elem_of_nil in Hx|].
  apply elem_of_cons in Hx as [->|Hx]; cbn; set_solver.
Qed.

Section chain.
Context {rep : mutex → fdmi_queue → list Z → Prop} (D : Z).

Lemma held_not_new s ma mp free aq pq held p x :
  proc_inv rep s D ma mp free aq pq (p :: held) → x ∈ aq ++ pq ++ held → x ≠ p.
Proof.
  intros Hinv Hx ->. pose proof (pi_nodup Hinv) as Hnd.
  assert (Hp : free ++ aq ++ pq ++ p :: held ≡ₚ p :: free ++ aq ++ pq ++ held) by solve_Permutation.
  rewrite Hp in Hnd. apply NoDup_cons in Hnd as [Hnd _]. apply Hnd. set_solver.
Qed.

(** A step that keeps the queues of the machine. *)
Lemma engine_frame ma mp s rq st free aq pq reads lost s' P st' ma' mp' free' lost' :
  engine rep D ma mp s rq st free aq pq reads lost → others_kept s s' P →
  (∀ x, x ∈ aq ++ pq ++ rq.*2 ++ read_queries reads → P x) → fixed_part s' = fixed_part s →
  m_unexpected st' = m_unexpected st → m_pending st' = m_pending st → m_reads st' = m_reads st →
  m_epoch st' = m_epoch st → ps_memory s' = m_memory st' → ps_requests s' = m_requests st' →
  Forall2 output_ok (ps_posted s') (m_outs st') → ps_posted s ⊆ ps_posted s' →
  proc_inv rep s' D ma' mp' free' aq pq (rq.*2 ++ read_queries reads ++ lost') →
  engine rep D ma' mp' s' rq st' free' aq pq reads lost'.
Proof.
  intros He Hk HP Hf Hu Hpe Hr Hep Hme Hrq Ho Hpo Hinv. pose proof Hf as Hf0. unfold fixed_part in Hf.
  injection Hf as Hcn Hdo _ Hft _ _ _. split; try done.
  - intros c cn. rewrite Hcn. apply (en_conns He).
  - rewrite Hdo. apply He.
  - intros x Hx. eapply connected_kept; [done| |by apply (en_rq He)].
    apply HP. apply (list_elem_of_fmap_2 snd) in Hx. set_solver.
  - rewrite Hu. eapply Forall2_kept; [apply He|]. intros. eapply arrived_kept; [done|done|apply HP; set_solver|done].
  - rewrite Hpe. eapply Forall2_kept; [apply He|]. intros. eapply pending_kept; [done|apply HP; set_solver|done].
  - rewrite Hr. eapply Forall2_kept; [apply He|]. intros x y Hx. apply elem_read_queries in Hx as [H1 H2].
    eapply read_kept; [done|done|apply HP; set_solver..].
  - rewrite Hr. eapply Forall2_kept; [apply (en_posted He)|]. intros x y [_ Hx]%elem_read_queries.
    eapply read_posted_kept; [done|done|apply HP; set_solver|done].
  - rewrite Hft, Hep. apply He.
Qed.

(** Changing the two queues' locks. *)
Lemma engine_dctxs ma mp s rq st free aq pq reads lost h ma' mp' :
  engine rep D ma mp s rq st free aq pq reads lost →
  proc_inv rep (s <| ps_dctxs := h |>) D ma' mp' free aq pq (rq.*2 ++ read_queries reads ++ lost) →
  engine rep D ma' mp' (s <| ps_dctxs := h |>) rq st free aq pq reads lost.
Proof.
  intros He Hinv. eapply (engine_frame ma mp s _ _ _ _ _ _ _ _ (λ _, True)); try done; apply He.
Qed.

(** What the handler holds takes its place. *)
Lemma engine_push_read ma mp s rq st free aq pq reads lost p a m r :
  engine rep D ma mp s rq st free aq pq reads (p :: a :: lost) → read_at s (p, a) (m, r) →
  read_posted s (p, a) (m, r) →
  engine rep D ma mp s rq (st <| m_reads := m_reads st ++ [(m, r)] |>) free aq pq (reads ++ [(p, a)]) lost.
Proof.
  intros He Hr Hw. split; try apply He.
  - eapply inv_perm; [|apply He]. unfold read_queries. rewrite flat_map_app. cbn. solve_Permutation.
  - apply Forall2_app; [apply He|by constructor].
  - apply Forall2_app; [apply He|by constructor].
Qed.

Lemma engine_push_rq ma mp s rq st free aq pq reads lost c q :
  engine rep D ma mp s rq st free aq pq reads (q :: lost) → connected_to s c q →
  engine rep D ma mp s (rq ++ [(c, q)]) st free aq pq reads lost.
Proof.
  intros He Hc. split; try apply He.
  - eapply inv_perm; [|apply He]. rewrite fmap_app. cbn. solve_Permutation.
  - intros x [Hx| ->%list_elem_of_singleton]%elem_of_app; [by apply (en_rq He)|done].
Qed.

Lemma engine_pop_rq ma mp s rq1 rq2 st free aq pq reads lost c q :
  engine rep D ma mp s (rq1 ++ (c, q) :: rq2) st free aq pq reads lost →
  engine rep D ma mp s (rq1 ++ rq2) st free aq pq reads (q :: lost) ∧ connected_to s c q.
Proof.
  intros He. split; [|apply (en_rq He (c, q)); set_solver]. split; try apply He.
  - eapply inv_perm; [|apply He]. rewrite !fmap_app. cbn. solve_Permutation.
  - intros x Hx. apply (en_rq He). set_solver.
Qed.

Lemma engine_lost ma mp s rq st free aq pq reads lost lost' :
  lost ≡ₚ lost' → engine rep D ma mp s rq st free aq pq reads lost →
  engine rep D ma mp s rq st free aq pq reads lost'.
Proof. intros Hp He. split; try apply He. eapply inv_perm; [|apply He]. by rewrite Hp. Qed.

(** A matching pair: the copy, or the read. *)
Lemma copied_engine ma mp s rq st free aq pq reads lost m r rr mem lq fq cnt free' lost' :
  engine rep D ma mp s rq st free aq pq reads lost → msg_opcode m = FDMI_EAGER →
  eager_copy (rc_dtype r) (msg_count m) (eager_buff m) (ps_memory s) (rc_addr r) = Done mem →
  load (ps_requests s) (rc_request r) = Done rr →
  proc_inv rep (delivered s mem (rc_request r) rr (msg_rank m) (msg_tag m) lq fq cnt) D ma mp free' aq pq
    (rq.*2 ++ read_queries reads ++ lost') →
  ∃ st', m_take st m r = Done st' ∧
    engine rep D ma mp (delivered s mem (rc_request r) rr (msg_rank m) (msg_tag m) lq fq cnt) rq st'
      free' aq pq reads lost'.
Proof.
  intros He Hop Hmem Hrr Hinv. rewrite m_take_eager by done.
  rewrite <- (en_memory He), Hmem, <- (en_requests He), Hrr. cbn [obind]. eexists. split; [done|].
  eapply (engine_frame ma mp s _ _ _ _ _ _ _ _ (λ _, True)); try done. apply He.
Qed.
End chain.

(** ** The locks of the two queues *)
Section locks.
Context {HMalloc : Malloc} {HVerbs : Verbs}.
Context {rep : mutex → fdmi_queue → list Z → Prop} `{!QueueContract rep}.
Context (D : Z) (rq : list (Z * Z)) (st : mstate) (free aq pq : list Z) (reads : list (Z * Z)) (lost : list Z).

(** Both are taken at the start of an operation and released at its end. *)
Lemma lock_both {A} s (k : process → outcome A) Q :
  engine rep D Unlocked Unlocked s rq st free aq pq reads lost →
  (∀ h, engine rep D Locked Locked (s <| ps_dctxs := h |>) rq st free aq pq reads lost →
        ends (k (s <| ps_dctxs := h |>)) Q) →
  ends (let! (_, s) := on_aq s D (unit_op fdmi_queue_lock) in
        let! (_, s) := on_pq s D (unit_op fdmi_queue_lock) in k s) Q.
Proof.
  intros He Hk. c_step (lock_aq (rep := rep) D free aq pq _ s Unlocked (en_inv He)) as [? s1] (h1 & -> & Hinv1).
  apply (engine_dctxs D _ _ _ _ _ _ _ _ _ _ _ _ _ He) in Hinv1 as He1.
  c_step (lock_pq (rep := rep) D free aq pq _ _ Locked (en_inv He1)) as [? s2] (h2 & -> & Hinv2).
  apply (engine_dctxs D _ _ _ _ _ _ _ _ _ _ _ _ _ He1) in Hinv2 as He2. by apply (Hk h2).
Qed.

Lemma unlock_aq_pq {A} s (k : process → outcome A) Q :
  engine rep D Locked Locked s rq st free aq pq reads lost →
  (∀ h, engine rep D Unlocked Unlocked (s <| ps_dctxs := h |>) rq st free aq pq reads lost →
        ends (k (s <| ps_dctxs := h |>)) Q) →
  ends (let! (_, s) := on_aq s D (unit_op fdmi_queue_unlock) in
        let! (_, s) := on_pq s D (unit_op fdmi_queue_unlock) in k s) Q.
Proof.
  intros He Hk. c_step (unlock_aq (rep := rep) D free aq pq _ s Locked (en_inv He)) as [? s1] (h1 & -> & Hinv1).
  apply (engine_dctxs D _ _ _ _ _ _ _ _ _ _ _ _ _ He) in Hinv1 as He1.
  c_step (unlock_pq (rep := rep) D free aq pq _ _ Unlocked (en_inv He1)) as [? s2] (h2 & -> & Hinv2).
  apply (engine_dctxs D _ _ _ _ _ _ _ _ _ _ _ _ _ He1) in Hinv2 as He2. by apply (Hk h2).
Qed.

Lemma unlock_pq_aq {A} s (k : process → outcome A) Q :
  engine rep D Locked Locked s rq st free aq pq reads lost →
  (∀ h, engine rep D Unlocked Unlocked (s <| ps_dctxs := h |>) rq st free aq pq reads lost →
        ends (k (s <| ps_dctxs := h |>)) Q) →
  ends (let! (_, s) := on_pq s D (unit_op fdmi_queue_unlock) in
        let! (_, s) := on_aq s D (unit_op fdmi_queue_unlock) in k s) Q.
Proof.
  intros He Hk. c_step (unlock_pq (rep := rep) D free aq pq _ s Locked (en_inv He)) as [? s1] (h1 & -> & Hinv1).
  apply (engine_dctxs D _ _ _ _ _ _ _ _ _ _ _ _ _ He) in Hinv1 as He1.
  c_step (unlock_aq (rep := rep) D free aq pq _ _ Unlocked (en_inv He1)) as [? s2] (h2 & -> & Hinv2).
  apply (engine_dctxs D _ _ _ _ _ _ _ _ _ _ _ _ _ He1) in Hinv2 as He2. by apply (Hk h2).
Qed.
End locks.

(** ** A receive *)
Definition recv_of_param (pp : fdmi_post_param) (id epoch : Z) : recv :=
  Recv (u64 (pp_rank pp)) (u64 (pp_tag pp)) id epoch (pp_addr pp) (pp_count pp) (pp_dtype pp) (pp_request pp).

(** The parameters of a receive the library accepts: [request_flag] points to
    the flag of [request]. *)
Record param_ok (s : process) (pp : fdmi_post_param) (id : Z) : Prop := {
  po_comm : comm_id_at s (pp_comm pp) = Done id;
  po_rank : is_int (pp_rank pp);
  po_tag : is_int (pp_tag pp);
  po_flag : pp_request_flag pp = pp_request pp + offsetof_request_flag;
}.

Lemma param_ok_fixed s s' pp id : fixed_part s' = fixed_part s → param_ok s pp id → param_ok s' pp id.
Proof. intros Hf []. split; try done. by rewrite (fixed_comm_id s). Qed.

Section receive.
Context {HMalloc : Malloc} {HVerbs : Verbs}.
Context {rep : mutex → fdmi_queue → list Z → Prop} `{!QueueContract rep}.
Context (Hm : malloc_total) (Hreg : reg_total) (Hpost : post_total).
Context (D : Z).

Lemma any_is_int : is_int (-1).
Proof. unfold is_int, INT_MIN, INT_MAX. lia. Qed.

Lemma active_test_machine s rank tag id a m st r :
  arrived_at s a m → is_int rank → is_int tag → ft_epoch (ft_msg s) = m_epoch st →
  rc_rank r = u64 rank → rc_tag r = u64 tag → rc_comm r = id →
  active_test s rank tag id a = m_fresh st (msg_epoch m) && recv_matches m r.
Proof.
  intros [Hmsg _] Hr Ht He E1 E2 E3. unfold active_test, m_fresh, recv_matches. rewrite Hmsg, He, E1, E2, E3.
  rewrite (Z.eqb_sym (msg_comm_id m)), !(word_matches_comm _ _ (u64 _)).
  by rewrite <- !int_matches_word by (done || exact any_is_int).
Qed.

Lemma engine_receivable ma mp s rq st free aq pq reads lost pp id n :
  engine rep D ma mp s rq st free aq pq reads lost → param_ok s pp id →
  reg_size (pp_dtype pp) (pp_count pp) = Done n → receivable D s pp id.
Proof. intros He Hp Hn. split; [apply Hp|apply He|by exists n]. Qed.

Lemma receive_matched_engine ma mp s rq st free aq pq reads lost pp id epoch a m st' :
  engine rep D ma mp s rq st free aq pq reads (a :: lost) → param_ok s pp id → arrived_at s a m →
  m_take st m (recv_of_param pp id epoch) = Done st' →
  ends (receive_matched s pp a) (λ s', fixed_part s' = fixed_part s ∧
    ∃ free' reads' , engine rep D ma mp s' rq st' free' aq pq reads' lost).
Proof.
  intros He Hp [Ham Hc] Ht. unfold m_take in Ht.
  assert (Hinv : proc_inv rep s D ma mp free aq pq (a :: rq.*2 ++ read_queries reads ++ lost)).
  { eapply inv_perm; [|apply He]. solve_Permutation. }
  destruct (msg_opcode m =? FDMI_EAGER) eqn:Eo.
  - apply Z.eqb_eq in Eo. apply obind_Done_inv in Ht as (mem & Hmem & Ht).
    apply obind_Done_inv in Ht as (rr & Hrr & [= <-]). rewrite <- (en_memory He) in Hmem.
    rewrite <- (en_requests He) in Hrr.
    eapply ends_mono; [eapply (receive_matched_eager (rep := rep) Hm); [exact Hinv|done|done| |exact Hmem]|].
    + split; [apply Hp|]. by apply load_Done.
    + intros s' (lq & fq & cnt & -> & Hinv'). split; [done|]. exists (free ++ [a]), reads.
      destruct (copied_engine D ma mp s rq st free aq pq reads (a :: lost) m (recv_of_param pp id epoch)
        rr mem lq fq cnt (free ++ [a]) lost He Eo Hmem Hrr Hinv') as (st' & Hst & He').
      rewrite m_take_eager in Hst by done. rewrite <- (en_memory He), Hmem, <- (en_requests He), Hrr in Hst.
      cbn [obind] in Hst. injection Hst as <-. rewrite (en_requests He) in He'. exact He'.
  - destruct (msg_opcode m =? FDMI_RDMA_READ) eqn:Eo'; [|done]. apply Z.eqb_eq in Eo'.
    apply obind_Done_inv in Ht as (n & Hn & [= <-]). destruct Hc as (c & (qa & Hqa & Hqc & Hcn) & Hfr). rewrite <- Hqc in Hcn.
    c_last (receive_matched_rdma (rep := rep) Hm Hreg Hpost D ma mp free aq pq s _ pp id a m qa Hinv) as s'
      (p & free' & cn & lkey & size & Hu & Hcn' & Hsize & Hpo & Hinv' & Hrd & Hk); [by eapply engine_receivable|].
    destruct Hu as (Hf & Hme & Hrq). split; [done|]. exists free', (reads ++ [(p, a)]).
    set (w := WRead _ _ _ _ _) in Hpo. assert (Hw : is_read w p m (recv_of_param pp id epoch)) by (by eexists _, _, _).
    assert (Hnew : ∀ x, x ∈ aq ++ pq ++ rq.*2 ++ read_queries reads ++ [a] → x ≠ p).
    { intros x Hx. eapply held_not_new; [exact Hinv'|]. set_solver. }
    refine (engine_push_read (rep := rep) D ma mp s' rq (st <| m_outs := m_outs st ++ [ORead m (recv_of_param pp id epoch)] |>)
      free' aq pq reads lost p a m (recv_of_param pp id epoch) _ _ _).
    + eapply (engine_frame D ma mp s _ _ _ _ _ _ _ _ (λ x, x ≠ p)); [exact He|done| |done|done|done|done|done| | | | |].
      * intros x Hx. apply Hnew. set_solver.
      * rewrite Hme. apply He.
      * rewrite Hrq. apply He.
      * rewrite Hpo. apply Forall2_app; [apply He|]. constructor; [|constructor]. by exists p.
      * rewrite Hpo. set_solver.
      * eapply inv_perm; [|exact Hinv']. solve_Permutation.
    + destruct Hp as [_ _ _ Hfl]. split; [cbn; by rewrite <- Hfl|].
      eapply (arrived_kept s s' (λ x, x ≠ p)); [done|done|apply Hnew; set_solver|].
      split; [done|]. exists c. split; [|exact Hfr]. exists qa. by rewrite <- Hqc.
    + exists w. split_and!; [rewrite Hpo; set_solver|exact Hw|].
      eapply (query_qp_kept s s' (λ x, x ≠ p)); [done|done|apply Hnew; set_solver|].
      exists (qu_conn qa), cn. split_and!; [by exists qa|done|done].
Qed.

Lemma receive_pending_engine ma mp s rq st free aq pq reads lost pp id n :
  engine rep D ma mp s rq st free aq pq reads lost → param_ok s pp id →
  reg_size (pp_dtype pp) (pp_count pp) = Done n →
  ends (receive_pending s D pp) (λ s', fixed_part s' = fixed_part s ∧ ∃ free' p,
    engine rep D ma mp s' rq (st <| m_pending := m_pending st ++ [recv_of_param pp id (m_epoch st)] |>)
      free' aq (pq ++ [p]) reads lost).
Proof.
  intros He Hp Hn.
  c_last (receive_pending_ok (rep := rep) Hm Hreg Hpost D ma mp free aq pq s _ pp id (en_inv He)) as s'
    (p & free' & (Hf & Hme & Hrq) & Hpo & Hinv' & ((qu & Hqu & _ & Hfl & Hreq) & m & Em & Had & Hr & Ht & Hcnt & Hdt & Hid & Hep) & Hk & Hnew);
    [by eapply engine_receivable|].
  split; [done|]. exists free', p.
  assert (Hne : ∀ x, x ∈ aq ++ pq ++ rq.*2 ++ read_queries reads → x ≠ p).
  { intros x Hx ->. apply Hnew. set_solver. }
  pose proof Hf as Hf0. unfold fixed_part in Hf. injection Hf as Hcn Hdo _ Hft _ _ _. split; try done.
  - intros c cn. rewrite Hcn. apply (en_conns He).
  - rewrite Hdo. apply He.
  - intros x Hx. eapply connected_kept; [done| |by apply (en_rq He)].
    apply Hne. apply (list_elem_of_fmap_2 snd) in Hx. set_solver.
  - eapply Forall2_kept; [apply He|]. intros. eapply arrived_kept; [done|done|apply Hne; set_solver|done].
  - apply Forall2_app.
    + eapply Forall2_kept; [apply He|]. intros. eapply pending_kept; [done|apply Hne; set_solver|done].
    + constructor; [|constructor]. exists qu, m. split_and!; [done|done| |].
      * unfold recv_of_param, recv_of_query. rewrite Had, Hr, Ht, Hcnt, Hdt, Hid, Hep, Hreq.
        by rewrite (en_epoch He).
      * rewrite Hfl, Hreq. apply Hp.
  - eapply Forall2_kept; [apply He|]. intros x y Hx. apply elem_read_queries in Hx as [H1 H2].
    eapply read_kept; [done|done|apply Hne; set_solver..].
  - eapply Forall2_kept; [apply (en_posted He)|]. intros x y [_ Hx]%elem_read_queries.
    eapply read_posted_kept; [done|done|apply Hne; set_solver|]. rewrite Hpo. set_solver.
  - rewrite Hme. apply He.
  - rewrite Hrq. apply He.
  - rewrite Hft. apply He.
  - rewrite Hpo. apply He.
Qed.

Lemma receive_implements s rq st pp id st' :
  implements rep D s rq st → param_ok s pp id →
  m_receive st (recv_of_param pp id (m_epoch st)) = Done st' →
  ends (fdmi_post_recv_msg_param s pp) (λ s', fixed_part s' = fixed_part s ∧ implements rep D s' rq st').
Proof.
  intros (free & aq & pq & reads & lost & He) Hp Hr. unfold fdmi_post_recv_msg_param.
  destruct (en_domain He) as (HD & dom & Hdom & Hdd).
  unfold fdmi_wait_ready. rewrite Hdom. cbn [obind]. rewrite Hdd, (proj2 (Z.eqb_neq _ _) HD). cbn [obind].
  eapply lock_both; [exact He|]. intros h2 He2.
  match type of He2 with engine _ _ _ _ ?s2 _ _ _ _ _ _ _ => assert (Hf2 : fixed_part s2 = fixed_part s) by done;
    assert (Hp2 : param_ok s2 pp id) by (by apply (param_ok_fixed s)) end.
  c_step (search_aq (rep := rep) _ D Locked Locked free aq pq _ (en_inv He2) (pp_rank pp) (pp_tag pp) (pp_comm pp) id (po_comm _ _ _ Hp2))
    as [matched s3] (-> & h3 & -> & Hinv3).
  apply (engine_dctxs D _ _ _ _ _ _ _ _ _ _ _ _ _ He2) in Hinv3 as He3.
  match goal with |- context [active_test ?x] => set (s2 := x) in * end.
  match type of He3 with engine _ _ _ _ ?x _ _ _ _ _ _ _ => set (s3 := x) in * end.
  assert (Hp3 : param_ok s3 pp id) by (by apply (param_ok_fixed s)).
  pose proof (find_take (arrived_at s3) (active_test s2 (pp_rank pp) (pp_tag pp) id)
    (λ m, m_fresh st (msg_epoch m) && recv_matches m (recv_of_param pp id (m_epoch st))) aq (m_unexpected st)) as Hft.
  assert (Hn : NULL ∉ aq) by (by destruct (NULL_not_queued _ _ _ _ _ _ _ _ (en_inv He3))).
  specialize (Hft Hn (en_unexpected He3)). unfold m_receive in Hr.
  lapply Hft; [clear Hft; intros Hft|].
  2:{ intros x y _ Hxy. apply (active_test_machine s2); try done; [apply Hp|apply Hp|apply He2]. }
  apply ends_bind. eapply (ends_mono _ (λ s', fixed_part s' = fixed_part s ∧ ∃ free' aq' pq' reads' lost',
    engine rep D Locked Locked s' rq st' free' aq' pq' reads' lost')).
  - destruct (take_first _ _) as [[m l]|].
    + destruct Hft as (a & Ha & Ha0 & Hin & Ham & HR). rewrite Ha, (proj2 (Z.eqb_neq _ _) Ha0). cbn [negb].
      c_step (remove_aq (rep := rep) D free aq pq _ s3 Locked Locked a (en_inv He3)) as [? s4] (h4 & -> & Hinv4).
      match goal with |- context [receive_matched ?x pp a] => set (s4 := x) in * end.
      assert (He4 : engine rep D Locked Locked s4 rq (st <| m_unexpected := l |>) free (remove_first a aq) pq reads (a :: lost)).
      { split; try apply He3; [|exact HR]. eapply inv_perm; [|exact Hinv4]. solve_Permutation. }
      eapply ends_mono; [eapply receive_matched_engine; [exact He4|by apply (param_ok_fixed s)|exact Ham|exact Hr]|].
      intros s5 (Hf5 & free' & reads' & He5). split; [by rewrite Hf5|]. by eexists _, _, _, _, _.
    + rewrite Hft. cbn [negb Z.eqb].
      apply obind_Done_inv in Hr as (n & Hn' & [= <-]).
      eapply ends_mono; [by eapply receive_pending_engine|].
      intros s4 (Hf4 & free' & p & He4). split; [by rewrite Hf4|]. by eexists _, _, _, _, _.
  - intros s5 (Hf5 & free' & aq' & pq' & reads' & lost' & He5).
    eapply unlock_pq_aq; [exact He5|]. intros h7 He7. cbn [ends]. split; [exact Hf5|]. by eexists _, _, _, _, _.
Qed.
End receive.

(** ** An arrival *)
Section arrival.
Context {HMalloc : Malloc} {HVerbs : Verbs}.
Context {rep : mutex → fdmi_queue → list Z → Prop} `{!QueueContract rep}.
Context (Hm : malloc_total) (Hreg : reg_total) (Hpost : post_total).
Context (D : Z).

Lemma passive_test_machine s st a m p r :
  arrived_at s a m → pending_at s p r → ft_epoch (ft_msg s) = m_epoch st →
  passive_test s a p = m_fresh st (rc_epoch r) && recv_matches m r.
Proof.
  intros [Ha _] (q & pm & _ & Hp & -> & _) He. unfold passive_test. rewrite Ha, Hp. cbn. unfold m_fresh.
  by rewrite He.
Qed.

Lemma match_or_queue_engine s rq st free aq pq reads a m lost :
  engine rep D Unlocked Unlocked s rq st free aq pq reads (a :: lost) → arrived_at s a m →
  ends (match_or_queue s D a) (λ r, fixed_part r.2 = fixed_part s ∧ others_kept s r.2 (λ _, True) ∧
    match take_first (λ r, m_fresh st (rc_epoch r) && recv_matches m r) (m_pending st) with
    | Some (rc, l) => r.1 ≠ NULL ∧ pending_at r.2 r.1 rc ∧ ∃ pq',
        engine rep D Unlocked Unlocked r.2 rq (st <| m_pending := l |>) free aq pq' reads (r.1 :: a :: lost)
    | None => r.1 = NULL ∧ ∃ aq' lost', engine rep D Unlocked Unlocked r.2 rq
        (if m_fresh st (msg_epoch m) then st <| m_unexpected := m_unexpected st ++ [m] |> else st)
        free aq' pq reads lost'
    end).
Proof.
  intros He Ham. unfold match_or_queue. eapply lock_both; [exact He|]. intros h2 He2.
  c_step (search_pq (rep := rep) _ D Locked Locked free aq pq _ (en_inv He2) a)
    as [matched s3] (-> & h3 & -> & Hinv3); [set_solver|].
  apply (engine_dctxs D _ _ _ _ _ _ _ _ _ _ _ _ _ He2) in Hinv3 as He3.
  match goal with |- context [passive_test ?x a] => set (s2 := x) in * end.
  match type of He3 with engine _ _ _ _ ?x _ _ _ _ _ _ _ => set (s3 := x) in * end.
  pose proof (find_take (pending_at s3) (passive_test s2 a)
    (λ r, m_fresh st (rc_epoch r) && recv_matches m r) pq (m_pending st)) as Hft.
  assert (Hn : NULL ∉ pq) by (by destruct (NULL_not_queued _ _ _ _ _ _ _ _ (en_inv He3))).
  specialize (Hft Hn (en_pending He3)).
  lapply Hft; [clear Hft; intros Hft|].
  2:{ intros x y _ Hxy. apply (passive_test_machine s2); [exact Ham|exact Hxy|apply He2]. }
  apply ends_bind. destruct (take_first _ _) as [[rc l]|].
  - destruct Hft as (p & Hp & Hp0 & Hin & Hpa & HR). rewrite Hp, (proj2 (Z.eqb_neq _ _) Hp0). cbn [negb].
    c_last (remove_pq (rep := rep) D free aq pq _ s3 Locked Locked p (en_inv He3)) as [? s4] (h4 & -> & Hinv4).
    match goal with |- context [on_aq ?x D] => set (s4 := x) in * end.
    assert (He4 : engine rep D Locked Locked s4 rq (st <| m_pending := l |>) free aq (remove_first p pq) reads (p :: a :: lost)).
    { split; try apply He3; [|exact HR]. eapply inv_perm; [|exact Hinv4]. solve_Permutation. }
    eapply unlock_aq_pq; [exact He4|]. intros h6 He6. cbn [ends fst snd].
    split_and!; [done|done|done|exact Hpa|by eexists].
  - rewrite Hft. cbn [negb Z.eqb].
    match goal with |- context [query_msg s3 a] => change (query_msg s3 a) with (query_msg s a) end.
    destruct Ham as [Hmsg Hc]. rewrite Hmsg. cbn [obind].
    match goal with |- context [ft_epoch (ft_msg s3)] => change (ft_msg s3) with (ft_msg s) end.
    rewrite (en_epoch He), Z.leb_antisym. unfold m_fresh at 1.
    eapply (ends_mono _ (λ r, fixed_part r.2 = fixed_part s ∧ others_kept s r.2 (λ _, True) ∧ ∃ aq' lost',
      engine rep D Locked Locked r.2 rq
        (if m_fresh st (msg_epoch m) then st <| m_unexpected := m_unexpected st ++ [m] |> else st)
        free aq' pq reads lost')).
    + unfold m_fresh. destruct (msg_epoch m <? m_epoch st); cbn [negb].
      * split_and!; [done|done|]. by eexists _, _.
      * c_last (enq_aq (rep := rep) D free aq pq _ s3 Locked Locked a (rq.*2 ++ read_queries reads ++ lost) (en_inv He3))
          as [? s4] (h4 & -> & Hinv4); [solve_Permutation|].
        split_and!; [done|done|]. exists (aq ++ [a]), lost. split; try apply He3; [done|].
        apply Forall2_app; [apply He3|]. by constructor.
    + intros [[] s4] (Hf4 & Hk4 & aq' & lost' & He4). cbn [fst snd] in *.
      eapply unlock_aq_pq; [exact He4|]. intros h6 He6. cbn [ends fst snd].
      split_and!; [exact Hf4|exact Hk4|done|by eexists _, _].
Qed.

(** The announcement of a large message: the read begins. *)
Lemma deliver_read_engine s rq st free aq pq reads p a lost m qp pm n :
  engine rep D Unlocked Unlocked s rq st free aq pq reads (p :: a :: lost) →
  cells (ps_queries s) !! p = Some qp → query_msg s p = Done pm →
  qu_request_flag qp = qu_request qp + offsetof_request_flag → arrived_at s a m →
  msg_opcode m = FDMI_RDMA_READ → reg_size (msg_dtype pm) (msg_count pm) = Done n →
  ends (deliver s p a) (λ s', fixed_part s' = fixed_part s ∧ others_kept s s' (λ x, x ≠ p) ∧
    engine rep D Unlocked Unlocked s' rq (st <| m_reads := m_reads st ++ [(m, recv_of_query qp pm)] |>
        <| m_outs := m_outs st ++ [ORead m (recv_of_query qp pm)] |>) free aq pq (reads ++ [(p, a)]) lost).
Proof.
  intros He Hqp Hpm Hfl [Ham (c & (qa & Hqa & Hqc & Hcn) & Hfr)] Hop Hn. rewrite <- Hqc in Hcn.
  assert (Hinv : proc_inv rep s D Unlocked Unlocked free aq pq (p :: a :: rq.*2 ++ read_queries reads ++ lost)).
  { eapply inv_perm; [|apply He]. solve_Permutation. }
  assert (Hnew : ∀ x, x ∈ aq ++ pq ++ rq.*2 ++ read_queries reads ++ [a] → x ≠ p).
  { intros x Hx. eapply held_not_new; [exact Hinv|]. set_solver. }
  assert (Hap : a ≠ p) by (apply Hnew; set_solver).
  unfold deliver. rewrite Ham. cbn [obind]. rewrite Hop. cbn [Z.eqb FDMI_EAGER FDMI_RDMA_READ].
  unfold query_at, peek. rewrite (proj2 (load_Done _ _ _) Hqp). cbn [obind].
  rewrite (set_query_put _ _ qp) by done. cbn [obind]. set (qp' := qp <| active_query_to_free := a |>).
  unfold fdmi_test. rewrite (proj2 (Z.eqb_neq a NULL)) by (apply (pi_live Hinv); set_solver). cbn [obind].
  assert (Hinv2 : proc_inv rep (put_query s p qp') D Unlocked Unlocked free aq pq (p :: a :: rq.*2 ++ read_queries reads ++ lost)).
  { eapply inv_put_query; [done|done|done|]. destruct (pi_query Hinv p qp Hqp). by split. }
  assert (Hmsg : ∀ x m', query_msg s x = Done m' → query_msg (put_query s p qp') x = Done m').
  { intros x m'. by apply (put_query_msg _ _ qp). }
  eapply ends_mono.
  { apply (post_rdma_read_ok (rep := rep) Hm Hreg Hpost D _ _ free aq pq (put_query s p qp') _
      p a qp' qa pm m n Hinv2); [cbn; apply lookup_insert_eq| |done|by apply Hmsg|by apply Hmsg|exact Hn].
    cbn. by rewrite lookup_insert_ne by done. }
  cbv beta. intros s2 (rg & mrs & k & mr & cn & -> & Hcn' & Hinv3 & Hmsg3).
  set (w := WRead _ _ _ _ _) in *. assert (Hw : is_read w p m (recv_of_query qp pm)) by (by eexists _, _, n).
  match goal with |- fixed_part ?z = _ ∧ _ => set (s' := z) in * end.
  assert (Hk : others_kept s s' (λ x, x ≠ p)).
  { split; [intros x y Hx Hy; cbn; by rewrite !lookup_insert_ne by done|intros x m' Hx Hm'; apply Hmsg3, Hmsg, Hm']. }
  split_and!; [done|exact Hk|].
  refine (engine_push_read (rep := rep) D _ _ s' rq (st <| m_outs := m_outs st ++ [ORead m (recv_of_query qp pm)] |>)
    free aq pq reads lost p a m (recv_of_query qp pm) _ _ _).
  - eapply (engine_frame D _ _ s _ _ _ _ _ _ _ _ (λ x, x ≠ p)); [exact He|done| |done|done|done|done|done|apply He..| | |].
    + intros x Hx. apply Hnew. set_solver.
    + apply Forall2_app; [apply He|]. constructor; [|constructor]. by exists p.
    + cbn. set_solver.
    + eapply inv_perm; [|exact Hinv3]. solve_Permutation.
  - split; [eexists; split; [cbn; by apply lookup_insert_eq|by split_and!]|].
    eapply (arrived_kept s s' (λ x, x ≠ p)); [done|done|done|]. split; [done|]. exists c. split; [|exact Hfr].
    exists qa. by rewrite <- Hqc.
  - exists w. split_and!; [cbn; set_solver|exact Hw|].
    eapply (query_qp_kept s s' (λ x, x ≠ p)); [done|done|done|].
    exists (qu_conn qa), cn. split_and!; [by exists qa|done|done].
Qed.

Lemma deliver_engine s rq st free aq pq reads p a lost m rc st' :
  engine rep D Unlocked Unlocked s rq st free aq pq reads (p :: a :: lost) →
  pending_at s p rc → arrived_at s a m → m_take st m rc = Done st' →
  ends (deliver s p a) (λ s', fixed_part s' = fixed_part s ∧ others_kept s s' (λ x, x ≠ p) ∧
    ∃ free' reads', engine rep D Unlocked Unlocked s' rq st' free' aq pq reads' lost).
Proof.
  intros He (qp & pm & Hqp & Hpm & -> & Hfl) Har Ht. pose proof Har as [Ham _].
  unfold m_take in Ht. destruct (msg_opcode m =? FDMI_EAGER) eqn:Eo.
  - unfold deliver. rewrite Ham. cbn [obind]. rewrite Eo.
    apply Z.eqb_eq in Eo. apply obind_Done_inv in Ht as (mem & Hmem & Ht).
    apply obind_Done_inv in Ht as (rr & Hrr & [= <-]). rewrite <- (en_memory He) in Hmem.
    rewrite <- (en_requests He) in Hrr.
    eapply ends_mono; [eapply (cpy_eager_buff_ok (rep := rep) Hm); [|done|done|done| |exact Hmem]|].
    + eapply inv_perm; [|apply (en_inv He)]. cbn. instantiate (1 := rq.*2 ++ read_queries reads ++ lost). solve_Permutation.
    + split; [done|]. by apply load_Done.
    + intros s' (lq & fq & cnt & -> & Hinv'). split_and!; [done|done|]. exists ((free ++ [p]) ++ [a]), reads.
      destruct (copied_engine D _ _ s rq st free aq pq reads (p :: a :: lost) m (recv_of_query qp pm)
        rr mem lq fq cnt ((free ++ [p]) ++ [a]) lost He Eo Hmem Hrr Hinv') as (st' & Hst & He').
      rewrite m_take_eager in Hst by done. rewrite <- (en_memory He), Hmem, <- (en_requests He), Hrr in Hst.
      cbn [obind] in Hst. injection Hst as <-. rewrite (en_requests He) in He'. exact He'.
  - destruct (msg_opcode m =? FDMI_RDMA_READ) eqn:Eo'; [|done]. apply Z.eqb_eq in Eo'.
    apply obind_Done_inv in Ht as (n & Hn & [= <-]).
    eapply ends_mono; [eapply deliver_read_engine; [exact He|done..]|].
    cbv beta. intros s' (Hf & Hk & He'). split_and!; [done|done|]. by exists free, (reads ++ [(p, a)]).
Qed.

Lemma post_fresh_engine s rq st free aq pq reads lost c :
  engine rep D Unlocked Unlocked s rq st free aq pq reads lost → c ≠ NULL → is_Some (cells (ps_conns s) !! c) →
  ends (post_fresh s c) (λ s', fixed_part s' = fixed_part s ∧ ∃ qp q' sges free',
    ps_posted s' = ps_posted s ++ [WRecv qp q' sges] ∧
    engine rep D Unlocked Unlocked s' (rq ++ [(c, q')]) (st <| m_outs := m_outs st ++ [ORecv] |>)
      free' aq pq reads lost).
Proof.
  intros He Hcn Hcs.
  c_last (post_fresh_ok (rep := rep) Hm Hreg Hpost D _ _ free aq pq s _ c (en_inv He) (en_conns He)) as s'
    (s1 & q' & cn & sges & Hcr & Hcn1 & -> & free' & Hinv').
  pose proof (pooled_fixed _ _ (pooled_created _ _ _ _ _ _ _ _ _ _ Hcr)) as (Hf & Hme & Hrq & Hpo).
  pose proof (others_kept_created _ _ _ _ _ _ _ _ _ _ Hcr) as Hk.
  destruct Hcr as (fq & qs & ms & rg & mrs & n & cnt & free1 & qu & Hs1 & _ & Hqu & Hquc & _).
  split; [exact Hf|]. eexists _, q', sges, free'. split; [done|].
  apply engine_push_rq.
  - eapply (engine_frame D _ _ s _ _ _ _ _ _ _ _ (λ x, x ≠ q')); [exact He|exact Hk| |exact Hf|done|done|done|done| | | | |].
    + intros x Hx. eapply held_not_new; [exact Hinv'|]. set_solver.
    + cbn. rewrite Hme. apply He.
    + cbn. rewrite Hrq. apply He.
    + apply Forall2_app; [apply He|]. constructor; [|constructor]. by eexists _, _, _.
    + cbn. set_solver.
    + eapply inv_perm; [|exact Hinv']. solve_Permutation.
  - exists qu. split_and!; [|done|done]. cbn. by rewrite Hs1.
Qed.

Lemma repost_engine s rq st free aq pq reads lost c a :
  engine rep D Unlocked Unlocked s rq st free aq pq reads lost → connected_to s c a →
  ends (repost s a) (λ s', fixed_part s' = fixed_part s ∧ ∃ qp q' sges free',
    ps_posted s' = ps_posted s ++ [WRecv qp q' sges] ∧
    engine rep D Unlocked Unlocked s' (rq ++ [(c, q')]) (st <| m_outs := m_outs st ++ [ORecv] |>)
      free' aq pq reads lost).
Proof.
  intros He (qa & Hqa & Hqc & Hcn). unfold repost, query_at, peek. rewrite (proj2 (load_Done _ _ _) Hqa). cbn [obind].
  rewrite Hqc. eapply post_fresh_engine; [exact He|done|]. rewrite <- Hqc in Hcn |- *.
  by apply (pi_query (en_inv He) a qa Hqa).
Qed.

Lemma on_recv_engine s rq st free aq pq reads lost c a m st' :
  engine rep D Unlocked Unlocked s rq st free aq pq reads (a :: lost) →
  query_msg s a = Done m → connected_to s c a → comes_from s c m → m_arrive st m = Done st' →
  ends (fdmi_on_recv_cq_wc_recv s D a) (λ s', fixed_part s' = fixed_part s ∧ ∃ l qp q' sges,
    ps_posted s' = l ++ [WRecv qp q' sges] ∧ implements rep D s' (rq ++ [(c, q')]) st').
Proof.
  intros He Hmsg Hc Hfr Ha. assert (Ham : arrived_at s a m) by (split; [done|by exists c]).
  unfold fdmi_on_recv_cq_wc_recv. rewrite Hmsg. cbn [obind]. rewrite never_discarded.
  unfold m_arrive in Ha. apply obind_Done_inv in Ha as (st1 & Ha & [= <-]).
  c_step (match_or_queue_engine s rq st free aq pq reads a m lost He Ham) as [p s1] (Hf1 & Hk1 & Hcase).
  cbn [fst snd] in *. apply ends_bind.
  eapply (ends_mono _ (λ s2, fixed_part s2 = fixed_part s ∧ connected_to s2 c a ∧ ∃ free' aq' pq' reads' lost',
    engine rep D Unlocked Unlocked s2 rq st1 free' aq' pq' reads' lost')).
  - destruct (take_first _ _) as [[rc l]|].
    + destruct Hcase as (Hp0 & Hp & pq' & He1). rewrite (proj2 (Z.eqb_neq _ _) Hp0). cbn [negb].
      assert (Hap : a ≠ p).
      { eapply (held_not_new D s1); [eapply inv_perm; [|exact (en_inv He1)]|].
        - change (p :: a :: lost) with ([p] ++ a :: lost). 
          instantiate (1 := a :: rq.*2 ++ read_queries reads ++ lost). solve_Permutation.
        - set_solver. }
      c_last (deliver_engine s1 rq _ free aq pq' reads p a lost m rc st1 He1 Hp) as s2 (Hf2 & Hk2 & free' & reads' & He2);
        [by eapply (arrived_kept s)|].
      split_and!; [congruence| |by eexists _, _, _, _, _].
      eapply (connected_kept s1); [done|done|]. by eapply (connected_kept s).
    + destruct Hcase as (-> & aq' & lost' & He1). cbn [negb Z.eqb ends]. injection Ha as <-.
      split_and!; [done|by eapply (connected_kept s)|by eexists _, _, _, _, _].
  - intros s2 (Hf2 & Hc2 & free' & aq' & pq' & reads' & lost' & He2).
    c_last (repost_engine s2 rq st1 free' aq' pq' reads' lost' c a He2 Hc2) as s3
      (Hf3 & qp & q' & sges & free2 & Hpo & He3).
    split; [congruence|]. eexists _, qp, q', sges. split; [exact Hpo|]. by eexists _, _, _, _, _.
Qed.
End arrival.

(** ** Rounds of the completion thread *)

(** What no operation of the engine changes. *)
Definition fixed_user (s : process) :=
  (ps_conns s, ps_domains s, pm_store (ps_pm s), ft_msg s, state s, ps_peers s, ps_prank s).

Lemma fixed_part_user s s' : fixed_part s' = fixed_part s → fixed_user s' = fixed_user s ∧ ps_pm s' = ps_pm s.
Proof. unfold fixed_part, fixed_user. intros [= -> -> -> -> -> -> ->]. done. Qed.

Lemma rank_of_fixed t s s' c : fixed_user s' = fixed_user s → rank_of t s' c = rank_of t s c.
Proof. unfold fixed_user, rank_of. by intros [= -> _ _ _ _ _ _]. Qed.
Lemma param_ok_user s s' pp id : fixed_user s' = fixed_user s → param_ok s pp id → param_ok s' pp id.
Proof.
  intros Hf []. split; try done. unfold comm_id_at in *. unfold fixed_user in Hf.
  by injection Hf as _ _ -> _ _ _ _.
Qed.

Section rounds.
Context {HMalloc : Malloc} {HVerbs : Verbs}.
Context {rep : mutex → fdmi_queue → list Z → Prop} `{!QueueContract rep}.
Context (Hm : malloc_total) (Hreg : reg_total) (Hpost : post_total).
Context (D : Z) (t : table).

Lemma engine_set_msg ma mp s rq st free aq pq reads lost a m :
  engine rep D ma mp s rq st free aq pq reads (a :: lost) →
  ends (set_query_msg s a m) (λ s', fixed_part s' = fixed_part s ∧ query_msg s' a = Done m ∧
    (ps_queries s' = ps_queries s ∧ others_kept s s' (λ x, x ≠ a) ∧ ps_posted s' = ps_posted s) ∧ engine rep D ma mp s' rq st free aq pq reads (a :: lost)).
Proof.
  intros He. assert (Hinv : proc_inv rep s D ma mp free aq pq (a :: rq.*2 ++ read_queries reads ++ lost)).
  { eapply inv_perm; [|apply He]. solve_Permutation. }
  c_last (set_query_msg_ok (rep := rep) D ma mp free aq pq s _ a m Hinv) as s' (ms & -> & Hinv' & Hmsg & Hk);
    [set_solver|].
  split; [done|]. split; [done|]. split; [by split|].
  eapply (engine_frame D _ _ s _ _ _ _ _ _ _ _ (λ x, x ≠ a)); try done; try apply He.
  - intros x Hx. eapply (held_not_new D s); [exact Hinv|]. set_solver.
  - eapply inv_perm; [|exact Hinv']. solve_Permutation.
Qed.

Lemma engine_pm ma mp s rq st free aq pq reads lost pm :
  (∀ t', routes t' s → routes t' (s <| ps_pm := pm |>)) →
  engine rep D ma mp s rq st free aq pq reads lost →
  engine rep D ma mp (s <| ps_pm := pm |>) rq st free aq pq reads lost.
Proof.
  intros Hpm He.
  assert (Har : ∀ a m, arrived_at s a m → arrived_at (s <| ps_pm := pm |>) a m).
  { intros a m [Hmsg (c & Hc & t' & Ht' & E)]. split; [exact Hmsg|]. exists c. split; [exact Hc|].
    exists t'. split; [by apply Hpm|exact E]. }
  split; try apply He.
  - by apply inv_pm, He.
  - eapply Forall2_impl; [apply (en_unexpected He)|exact Har].
  - eapply Forall2_impl; [apply (en_reads He)|]. intros x y [Hx Hy]. split; [exact Hx|by apply Har].
Qed.

(** The lookup that opens a round. *)
Lemma itop_get_ok s c cn :
  routes t s → cells (ps_conns s) !! c = Some cn →
  ends (fdmi_rmap_itop_get (ps_pm s) (cn_rcid cn)) (λ r, r.1 = rank_of t s c ∧
    routes t (s <| ps_pm := r.2 |>) ∧ pm_store r.2 = pm_store (ps_pm s) ∧
    (∀ t', routes t' s → rank_of t' s c = rank_of t s c ∧ routes t' (s <| ps_pm := r.2 |>))).
Proof.
  intros Ht Hcn. unfold fdmi_rmap_itop_get.
  assert (Hg : ∀ t', routes t' s → ends (fdmi_hashtable_get (hstb_itop (ps_pm s)) (cn_rcid cn))
    (λ r, r.1 = spec_get t' (cn_rcid cn) ∧ ht_rep queue_rep r.2 t')) by (intros t'; apply (hrep_get (hrep := ht_rep queue_rep))).
  destruct (fdmi_hashtable_get _ _) as [[d ht]| | |]; try by destruct (Hg t Ht).
  destruct (Hg t Ht) as [Hd Hht]. cbn in *. unfold rank_of. rewrite Hcn, <- Hd. split_and!; [done..|].
  intros t' Ht'. destruct (Hg t' Ht') as [<- Hht']. by split.
Qed.

(** The rank does not depend on how the table is described. *)
Lemma rank_of_unique t' s c cn :
  routes t s → routes t' s → cells (ps_conns s) !! c = Some cn → rank_of t' s c = rank_of t s c.
Proof.
  intros Ht Ht' Hcn. pose proof (itop_get_ok s c cn Ht Hcn) as Hg.
  destruct (fdmi_rmap_itop_get _ _); try done. by apply Hg.
Qed.

(** The part of a round before the handlers: the rank of the peer is stored in
    the message of the query. *)
Definition round_opens (s : process) (q c : Z) (m : fdmi_msg) (s' : process) : Prop :=
  fixed_user s' = fixed_user s ∧ routes t s' ∧
  (ps_queries s' = ps_queries s ∧ others_kept s s' (λ x, x ≠ q) ∧ ps_posted s' = ps_posted s ∧
   ∀ t', routes t' s → routes t' s') ∧
  query_msg s' q = Done (m <| msg_rank := u64 (rank_of t s c) |>).

Lemma arrived_opened s s' q a m :
  fixed_user s' = fixed_user s → (∀ t', routes t' s → routes t' s') → others_kept s s' (λ x, x ≠ q) → a ≠ q →
  arrived_at s a m → arrived_at s' a m.
Proof.
  intros Hf Hr Hk Ha [Hm' (c & Hc & t' & Ht' & E)]. split; [by apply Hk|]. exists c.
  split; [by eapply connected_kept|]. exists t'. split; [by apply Hr|]. by rewrite (rank_of_fixed t' s s').
Qed.

Lemma round_ok s rq st free aq pq reads lost q c m opcode (k : process → Prop) :
  engine rep D Unlocked Unlocked s rq st free aq pq reads (q :: lost) → routes t s →
  connected_to s c q → query_msg s q = Done m →
  (∀ s', round_opens s q c m s' →
    engine rep D Unlocked Unlocked s' rq st free aq pq reads (q :: lost) →
    ends (match opcode with
      | IBV_WC_RECV =>
          if msg_type m =? FDMI_COMM_INIT then fdmi_on_recv_cq_wc_recv s' D q
          else if msg_type m =? FDMI_COMM_FIN then
            s <- fdmi_on_send_cq_wc_recv s' q ;; Done (s <| ps_ct := i32 (ps_ct s - 1) |>)
          else Done s'
      | IBV_WC_RDMA_READ => fdmi_on_recv_cq_wc_rdma_read s' q
      | IBV_WC_SEND =>
          if msg_type m =? FDMI_COMM_INIT then
            s <- fdmi_on_send_cq_wc_send s' q ;; Done (s <| ps_ct := i32 (ps_ct s + 1) |>)
          else if msg_type m =? FDMI_COMM_FIN then fdmi_on_recv_cq_wc_send s' q
          else Done s'
      | _ => Done s'
      end) k) →
  ends (fdmi_poll_sendrecv_cq s D opcode q) k.
Proof.
  intros He Hrt (qu & Hqu & Hqc & Hcn0) Hmsg Hk. unfold fdmi_poll_sendrecv_cq, query_at, conn_at, peek.
  rewrite (proj2 (load_Done _ _ _) Hqu). cbn [obind]. rewrite <- Hqc in Hcn0.
  destruct (pi_query (en_inv He) q qu Hqu) as [_ Hwf]. destruct (Hwf Hcn0) as [[cn Hcn] _].
  rewrite (proj2 (load_Done _ _ _) Hcn). cbn [obind].
  c_step (itop_get_ok s (qu_conn qu) cn Hrt Hcn) as [rank pm] (-> & Hrt1 & Hst & Hrts).
  match goal with |- context [query_msg ?x q] => change (query_msg x q) with (query_msg s q) end.
  rewrite Hmsg. cbn [obind]. rewrite Hqc in *.
  apply ends_bind. eapply ends_mono; [apply engine_set_msg, engine_pm; [by apply Hrts|exact He]|].
  cbv beta. intros s1 (Hf1 & Hm1 & Hq1 & He1).
  apply fixed_part_user in Hf1 as [Hf1 Hpm1]. apply Hk; [|exact He1].
  split_and!; [|unfold routes; rewrite Hpm1; exact Hrt1|apply Hq1|apply Hq1|apply Hq1| |exact Hm1].
  2:{ intros t' Ht'. unfold routes. rewrite Hpm1. by apply Hrts. }
  rewrite Hf1. unfold fixed_user. cbn in *. by rewrite Hst.
Qed.

(** The HCA places a message in the buffer of a posted receive and the
    completion thread takes the completion. *)
Definition hca_deliver (s : process) (a : Z) (m : fdmi_msg) : outcome process :=
  s <- set_query_msg s a m ;; fdmi_poll_sendrecv_cq s D IBV_WC_RECV a.

Lemma arrive_implements s rq1 rq2 st c a m st' :
  implements rep D s (rq1 ++ (c, a) :: rq2) st → routes t s → msg_type m = FDMI_COMM_INIT →
  m_arrive st (m <| msg_rank := u64 (rank_of t s c) |>) = Done st' →
  ends (hca_deliver s a m) (λ s', fixed_user s' = fixed_user s ∧ routes t s' ∧ ∃ l qp q' sges,
    ps_posted s' = l ++ [WRecv qp q' sges] ∧ implements rep D s' ((rq1 ++ rq2) ++ [(c, q')]) st').
Proof.
  intros (free & aq & pq & reads & lost & He) Hrt Hty Ha. unfold hca_deliver.
  apply engine_pop_rq in He as [He Hc].
  apply ends_bind. eapply ends_mono; [by apply engine_set_msg|].
  cbv beta. intros s1 (Hf1 & Hm1 & (Hq1 & _) & He1). apply fixed_part_user in Hf1 as [Hf1 Hpm1].
  assert (Hc1 : connected_to s1 c a) by (destruct Hc as (qu & Hqu & ?); exists qu; by rewrite Hq1).
  eapply (round_ok s1); [exact He1|by unfold routes; rewrite Hpm1|exact Hc1|exact Hm1|].
  intros s2 (Hf2 & Hrt2 & (Hq2 & _) & Hm2) He2. rewrite Hty. cbn [Z.eqb FDMI_COMM_INIT].
  rewrite (rank_of_fixed t s s1) in Hm2 by done.
  eapply ends_mono; [eapply (on_recv_engine Hm Hreg Hpost D s2); [exact He2|exact Hm2| | |exact Ha]|].
  { destruct Hc1 as (qu & Hqu & ?). exists qu. by rewrite Hq2. }
  { exists t. split; [exact Hrt2|]. cbn. by rewrite (rank_of_fixed t s s2) by congruence. }
  cbv beta. intros s3 (Hf3 & l & qp & q' & sges & Hpo & Him). apply fixed_part_user in Hf3 as [Hf3 Hpm3].
  split_and!; [congruence|by unfold routes; rewrite Hpm3|]. by exists l, qp, q', sges.
Qed.

(** A message that is not sent with its data is one scatter/gather element. *)
Lemma post_send_ctl_ok s ma mp free aq pq held q qu m total :
  proc_inv rep s D ma mp free aq pq held → cells (ps_queries s) !! q = Some qu → q ≠ NULL →
  qu_conn qu ≠ NULL → query_msg s q = Done m →
  total_send_size (msg_dtype m) (msg_count m) = Done total → FDMI_EAGER_BUFF_SIZE < total →
  ∃ cn lkey, cells (ps_conns s) !! qu_conn qu = Some cn ∧
    fdmi_post_send_msg s q = Done (s <| ps_posted := ps_posted s ++
      [WSend (cn_qp cn) q [Sge (qu_msg qu) (u32 fdmi_get_ctl_msg_size) lkey] m []] |>).
Proof.
  intros Hinv Hqu Hq0 Hc Hmsg Ht Hlt. unfold fdmi_post_send_msg, fdmi_test.
  rewrite (proj2 (Z.eqb_neq _ _) Hq0). cbn [obind]. unfold query_msg, query_at, msg_at, peek in *.
  rewrite (proj2 (load_Done _ _ _) Hqu) in *. cbn [obind] in *. apply load_Done in Hmsg.
  destruct (pi_query Hinv q qu Hqu) as [_ Hwf]. destruct (Hwf Hc) as [[cn Hcn] [mr Hmr]].
  rewrite (proj2 (Z.eqb_neq (qu_msg qu) NULL)) by (intros E; rewrite E, (pi_null Hinv) in Hmsg; done).
  destruct (pi_regs Hinv) as [l (_ & _ & _ & Hnull)].
  rewrite (proj2 (Z.eqb_neq (qu_msg_mr qu) NULL)) by (intros E; rewrite E, Hnull in Hmr; done).
  cbn [obind]. rewrite (proj2 (load_Done _ _ _) Hmr). cbn [obind].
  rewrite (proj2 (load_Done _ _ _) Hmsg). cbn [obind]. rewrite Ht. cbn [obind].
  rewrite (proj2 (Z.leb_gt _ _) Hlt). unfold conn_at, peek. rewrite (proj2 (load_Done _ _ _) Hcn). cbn [obind].
  unfold post_wr. rewrite Hpost. by eexists cn, _.
Qed.

(** The work request of the message that ends the transfer the query [a]
    announced: the control part of [a]'s message, on the queue pair of [a]'s
    connection. *)
Definition is_fin (s : process) (a : Z) (m : fdmi_msg) (w : wr) : Prop :=
  ∃ qu cn lkey, cells (ps_queries s) !! a = Some qu ∧ cells (ps_conns s) !! qu_conn qu = Some cn ∧
    w = WSend (cn_qp cn) a [Sge (qu_msg qu) (u32 fdmi_get_ctl_msg_size) lkey] (m <| msg_type := FDMI_COMM_FIN |>) [].

Lemma flat_map_delete (l : list (Z * Z)) i x :
  l !! i = Some x → read_queries l ≡ₚ x.1 :: x.2 :: read_queries (delete i l).
Proof.
  revert i. induction l as [|y l IH]; intros [|i]; cbn; [done|done| |].
  - by intros [= ->].
  - intros H. rewrite (IH i H). solve_Permutation.
Qed.

Lemma engine_pop_read ma mp s rq st free aq pq reads lost i p a m r :
  engine rep D ma mp s rq st free aq pq reads lost → reads !! i = Some (p, a) → m_reads st !! i = Some (m, r) →
  engine rep D ma mp s rq (st <| m_reads := delete i (m_reads st) |>) free aq pq (delete i reads) (p :: a :: lost).
Proof.
  intros He Hi Hm'. split; try apply He.
  - eapply inv_perm; [|apply He]. rewrite (flat_map_delete reads i (p, a) Hi). cbn. solve_Permutation.
  - apply Forall2_delete, He.
  - apply Forall2_delete, He.
Qed.

(** The handler of the end of a read. *)
Lemma on_rdma_read_engine s rq st free aq pq reads lost p a m req rq0 total :
  engine rep D Unlocked Unlocked s rq st free aq pq reads (p :: a :: lost) →
  reading s p a (req + offsetof_request_flag) req → arrived_at s a m →
  load (m_requests st) req = Done rq0 → total_send_size (msg_dtype m) (msg_count m) = Done total →
  FDMI_EAGER_BUFF_SIZE < total →
  ends (fdmi_on_recv_cq_wc_rdma_read s p) (λ s', fixed_part s' = fixed_part s ∧
    (∃ w, is_fin s a m w ∧ ps_posted s' = ps_posted s ++ [w]) ∧ ∃ free', engine rep D Unlocked Unlocked s' rq
      (st <| m_requests := <[req := completed rq0 (msg_rank m) (msg_tag m)]> (m_requests st) |>
          <| m_outs := m_outs st ++ [OFin (m <| msg_type := FDMI_COMM_FIN |>)] |>)
      free' aq pq reads (a :: lost)).
Proof.
  intros He (qp & Hqp & Hact & Hfl & Hreq & Hcp) [Ham (c & (qa & Hqa & Hqc & Hcn) & _)] Hrr Ht Hlt.
  pose proof (en_inv He) as Hinv. unfold fdmi_on_recv_cq_wc_rdma_read, fdmi_test.
  rewrite (proj2 (Z.eqb_neq p NULL)) by (apply (pi_live Hinv); set_solver). cbn [obind].
  unfold query_at, peek. rewrite (proj2 (load_Done _ _ _) Hqp). cbn [obind]. rewrite Hact.
  rewrite (proj2 (Z.eqb_neq a NULL)) by (apply (pi_live Hinv); set_solver). cbn [obind].
  rewrite Ham. cbn [obind].
  apply (engine_lost D _ _ _ _ _ _ _ _ _ _ (a :: p :: lost)) in He; [|apply perm_swap].
  apply ends_bind. eapply ends_mono; [by apply engine_set_msg|].
  cbv beta. intros s1 (Hf1 & Hm1 & (Hq1 & _ & Hpo1) & He1). rewrite Hfl, Hreq, <- obind_assoc.
  rewrite <- (en_requests He1) in Hrr.
  rewrite (complete_request _ _ _ rq0) by (split; [done|by apply load_Done]). cbn [obind].
  match goal with |- context [fdmi_post_send_msg ?x a] => set (s2 := x) end.
  assert (He2 : engine rep D Unlocked Unlocked s2 rq
    (st <| m_requests := <[req := completed rq0 (msg_rank m) (msg_tag m)]> (m_requests st) |>)
    free aq pq reads (a :: p :: lost)).
  { eapply (engine_frame D _ _ s1 _ _ _ _ _ _ _ _ (λ _, True)); try done; try apply He1.
    - cbn. by rewrite (en_requests He1).
    - apply inv_requests, He1. }
  destruct (post_send_ctl_ok s2 _ _ free aq pq _ a qa (m <| msg_type := FDMI_COMM_FIN |>) total (en_inv He2))
    as (cn & lkey & Hcn0 & Hpo); [cbn; by rewrite Hq1|by apply (pi_live Hinv); set_solver|by rewrite Hqc|exact Hm1|done|done|].
  rewrite Hpo. cbn [obind]. clear Hpo.
  match goal with |- context [forget_request ?x _] => set (s3 := x) end.
  assert (Hinv3 : proc_inv rep s3 D Unlocked Unlocked free aq pq (rq.*2 ++ read_queries reads ++ a :: p :: lost)).
  { apply inv_posted, He2. }
  c_step (forget_request_ok (rep := rep)) as s4 (lq & -> & Hinv4).
  c_last (destroy_query_ok (rep := rep) Hm _ D _ _ free aq pq _ Hinv4 p (rq.*2 ++ read_queries reads ++ a :: lost))
    as s5 (fq & cnt & -> & Hinv5); [solve_Permutation|].
  split; [exact Hf1|]. split.
  { eexists. split; [|cbn; by rewrite Hpo1]. exists qa, cn, lkey. split_and!; [done| |done].
    unfold fixed_part in Hf1. injection Hf1 as <- _ _ _ _ _ _. exact Hcn0. }
  exists (free ++ [p]). eapply (engine_frame D _ _ s2 _ _ _ _ _ _ _ _ (λ _, True)); try done; try apply He2.
  - apply Forall2_app; [apply He2|]. constructor; [|constructor]. by eexists _, _, _.
  - cbn. set_solver.
Qed.

Lemma read_done_engine s rq st free aq pq reads lost i p a m r st' :
  engine rep D Unlocked Unlocked s rq st free aq pq reads lost → routes t s →
  reads !! i = Some (p, a) → m_reads st !! i = Some (m, r) → m_read_done st i = Done st' →
  ends (fdmi_poll_sendrecv_cq s D IBV_WC_RDMA_READ p) (λ s', fixed_user s' = fixed_user s ∧ routes t s' ∧
    (∃ w, is_fin s a m w ∧ ps_posted s' = ps_posted s ++ [w]) ∧ implements rep D s' rq st').
Proof.
  intros He Hrt Hpa Hi Hd. unfold m_read_done in Hd. rewrite Hi in Hd.
  apply obind_Done_inv in Hd as (rq0 & Hrr & Hd). apply obind_Done_inv in Hd as (total & Ht & Hd).
  destruct (total <=? FDMI_EAGER_BUFF_SIZE) eqn:El; [done|]. apply Z.leb_gt in El. injection Hd as <-.
  destruct (Forall2_lookup_lr _ _ _ _ _ _ (en_reads He) Hpa Hi) as [Hrd Har]. cbn [fst snd] in *.
  pose proof (engine_pop_read _ _ _ _ _ _ _ _ _ _ _ _ _ _ _ He Hpa Hi) as He1.
  destruct (msg_at_ok (rep := rep) D _ _ free aq pq s _ p (en_inv He1)) as (qp & pm & _ & Hqp & _ & Hpm); [set_solver|].
  pose proof Hrd as (qp' & Hqp' & _ & _ & _ & Hcp). rewrite Hqp in Hqp'. injection Hqp' as <-.
  assert (Hap : a ≠ p).
  { apply (held_not_new (rep := rep) D s Unlocked Unlocked free aq pq (a :: rq.*2 ++ read_queries (delete i reads) ++ lost)); [|set_solver].
    eapply inv_perm; [|apply (en_inv He1)]. solve_Permutation. }
  eapply (round_ok s rq _ free aq pq _ (a :: lost) p (qu_conn qp)); [exact He1|done|by exists qp|exact Hpm|].
  intros s1 (Hf1 & Hrt1 & (Hq1 & Hk1 & Hpo1 & Hrts) & Hm1) He2.
  eapply ends_mono; [eapply on_rdma_read_engine; [exact He2| | |exact Hrr|exact Ht|exact El]|].
  - destruct Hrd as (q & Hq & ?). exists q. by rewrite Hq1.
  - by apply (arrived_opened s s1 p).
  - cbv beta. intros s2 (Hf2 & (w & (qu & cn & lkey & Hqu & Hcn & ->) & Hpo2) & free' & He3).
    apply fixed_part_user in Hf2 as [Hf2 Hpm2].
    split_and!; [congruence|by unfold routes; rewrite Hpm2| |by eexists _, _, _, _, _].
    eexists. split; [|by rewrite Hpo2, Hpo1]. exists qu, cn, lkey. rewrite <- Hq1.
    unfold fixed_user in Hf1. injection Hf1 as <- _ _ _ _ _ _. done.
Qed.

(** The queries of a read under way. *)
Lemma read_of_engine s rq st free aq pq reads lost i m r :
  engine rep D Unlocked Unlocked s rq st free aq pq reads lost → m_reads st !! i = Some (m, r) →
  ∃ p a, reads !! i = Some (p, a) ∧ read_posted s (p, a) (m, r) ∧ arrived_at s a m.
Proof.
  intros He Hi. destruct (Forall2_lookup_r _ _ _ _ _ (en_reads He) Hi) as ([p a] & Hpa & [_ Har]).
  exists p, a. split_and!; [done|by apply (Forall2_lookup_lr _ _ _ _ _ _ (en_posted He) Hpa Hi)|exact Har].
Qed.
End rounds.
