(* ===== verification/Delivery.v ===== *)
(** * src/src/fdmi.c: deliveries

    Theorems about a process that receives messages over one connection and
    posts receives, in any order, and about a message on its way from the
    sender's buffer to the receiver's. *)
From S2P Require Import Prelude Mem Queue Hashtable Datatype ProcMan State MrCache Query Matching Transfer Progress MsgSpec Engine.

(** ** Runs *)

(** What happens to a process: a message arrives from its peer, or the program
    posts a receive. *)
Inductive user_event :=
| UArrive (m : fdmi_msg)
| UReceive (pp : fdmi_post_param).

Section runs.
Context {HMalloc : Malloc} {HVerbs : Verbs}.
Context (D : Z).

Definition last_wr_id (s : process) : Z :=
  match last (ps_posted s) with Some w => wr_id_of w | None => NULL end.

(** The process and the receives it has posted, as pairs of a connection and a
    query; messages take them in order, and wait when there is none. *)
Definition user_step (x : process * list (Z * Z)) (e : user_event) : outcome (process * list (Z * Z)) :=
  let '(s, rq) := x in
  match e with
  | UArrive m =>
      match rq with
      | (c, a) :: rq => s <- hca_deliver D s a m ;; Done (s, rq ++ [(c, last_wr_id s)])
      | [] => Diverge
      end
  | UReceive pp => s <- fdmi_post_recv_msg_param s pp ;; Done (s, rq)
  end.

Fixpoint user_run (x : process * list (Z * Z)) (es : list user_event) : outcome (process * list (Z * Z)) :=
  match es with
  | [] => Done x
  | e :: es => x <- user_step x e ;; user_run x es
  end.
End runs.

(** The same events for the machine of MsgSpec.v: the rank of a message is that
    of the connection, the communicator of a receive is looked up. *)
Definition msg_from (t : table) (s : process) (c : Z) (m : fdmi_msg) : fdmi_msg :=
  m <| msg_rank := u64 (rank_of t s c) |>.
Definition recv_from (s : process) (epoch : Z) (pp : fdmi_post_param) : recv :=
  recv_of_param pp (match comm_id_at s (pp_comm pp) with Done id => id | _ => 0 end) epoch.
Definition machine_event (t : table) (s : process) (c epoch : Z) (e : user_event) : mevent :=
  match e with
  | UArrive m => EArrive (msg_from t s c m)
  | UReceive pp => EReceive (recv_from s epoch pp)
  end.

Definition event_ok (s : process) (e : user_event) : Prop :=
  match e with
  | UArrive m => msg_type m = FDMI_COMM_INIT
  | UReceive pp => ∃ id, param_ok s pp id
  end.

Lemma event_ok_fixed s s' e : fixed_user s' = fixed_user s → event_ok s e → event_ok s' e.
Proof. destruct e; cbn; [done|]. intros Hf [id Hid]. exists id. by eapply param_ok_user. Qed.

Lemma machine_event_fixed t s s' c epoch e :
  fixed_user s' = fixed_user s → machine_event t s' c epoch e = machine_event t s c epoch e.
Proof.
  intros Hf. destruct e as [m|pp]; cbn.
  - unfold msg_from. by rewrite (rank_of_fixed t s s').
  - unfold recv_from, comm_id_at. unfold fixed_user in Hf. by injection Hf as _ _ -> _ _ _ _.
Qed.

Lemma m_arrive_epoch st m st' : m_arrive st m = Done st' → m_epoch st' = m_epoch st.
Proof.
  intros H. unfold m_arrive in H. apply obind_Done_inv in H as (st1 & H & [= <-]). cbn.
  destruct (take_first _ _) as [[r l]|]; [by apply m_take_queues in H as (_ & _ & ->)|].
  injection H as <-. by destruct (m_fresh _ _).
Qed.
Lemma m_receive_epoch st r st' : m_receive st r = Done st' → m_epoch st' = m_epoch st.
Proof.
  intros H. unfold m_receive in H. destruct (take_first _ _) as [[m l]|].
  - by apply m_take_queues in H as (_ & _ & ->).
  - by apply obind_Done_inv in H as (n & _ & [= <-]).
Qed.

(** A process ready to communicate: it implements the machine state [st], and
    all receives it has posted (at least one) are on the connection [c]. *)
Record ready `{Malloc} `{Verbs} (D : Z) (t : table) (c : Z) (s : process) (rq : list (Z * Z)) (st : mstate) : Prop := {
  rd_malloc : malloc_total;
  rd_reg : reg_total;
  rd_post : post_total;
  rd_implements : implements queue_rep D s rq st;
  rd_routes : routes t s;
  rd_conn x : x ∈ rq → x.1 = c;
  rd_some : rq ≠ [];
}.

Section ready.
Context {HMalloc : Malloc} {HVerbs : Verbs}.
Context (D : Z) (t : table) (c : Z).

Lemma user_step_ok s rq st e st' :
  ready D t c s rq st → event_ok s e → m_step st (machine_event t s c (m_epoch st) e) = Done st' →
  ends (user_step D (s, rq) e) (λ r, ready D t c r.1 r.2 st' ∧ fixed_user r.1 = fixed_user s).
Proof.
  intros [Hm Hreg Hpost Him Hrt Hc Hsome] Hok He. destruct e as [m|pp]; cbn [user_step machine_event m_step] in *.
  - destruct rq as [|[c' a] rq]; [done|].
    assert (c' = c) as -> by (apply (Hc (c', a)); by left).
    c_step (arrive_implements (rep := queue_rep) Hm Hreg Hpost D t s [] rq st c a m st' Him Hrt Hok He) as s'
      (Hf & Hrt' & l & qp & q' & sges & Hpo & Him').
    cbn [ends fst snd]. split; [|done]. unfold last_wr_id. rewrite Hpo, last_snoc. split; try done.
    + intros x [Hx| ->%list_elem_of_singleton]%elem_of_app; [apply Hc; by right|done].
    + by destruct rq.
  - destruct Hok as [id Hid]. unfold recv_from in He. rewrite (po_comm _ _ _ Hid) in He.
    c_step (receive_implements (rep := queue_rep) Hm Hreg Hpost D s rq st pp id st' Him Hid He) as s' (Hf & Him').
    apply fixed_part_user in Hf as [Hf Hpm]. cbn [ends fst snd]. split; [|done].
    split; try done. unfold routes. by rewrite Hpm.
Qed.

Lemma user_run_ok s rq st es st' :
  ready D t c s rq st → Forall (event_ok s) es →
  m_run st (map (machine_event t s c (m_epoch st)) es) = Done st' →
  ends (user_run D (s, rq) es) (λ r, ready D t c r.1 r.2 st' ∧ fixed_user r.1 = fixed_user s).
Proof.
  revert s rq st. induction es as [|e es IH]; intros s rq st Hr Hok; cbn; [by intros [= <-]|].
  intros (st1 & H1 & H)%obind_Done_inv. apply Forall_cons in Hok as [Hok1 Hok].
  assert (Hep : m_epoch st1 = m_epoch st).
  { destruct e; cbn in H1; [by eapply m_arrive_epoch|by eapply m_receive_epoch]. }
  apply ends_bind. eapply ends_mono; [by eapply user_step_ok|]. intros [s1 rq1] [Hr1 Hf1]. cbn [fst snd] in *.
  eapply ends_mono; [apply (IH s1 rq1 st1 Hr1)|].
  - eapply Forall_impl; [exact Hok|]. intros. by apply (event_ok_fixed s).
  - rewrite Hep. erewrite map_ext; [exact H|]. intros. by apply machine_event_fixed.
  - intros [s2 rq2] [Hr2 Hf2]. cbn [fst snd] in *. split; [done|congruence].
Qed.
End ready.

(** ** Properties *)

Lemma interleaves_map {A B A' B' E E'} (f : A → E) (g : B → E) (f' : A' → E') (g' : B' → E')
    (ha : A → A') (hb : B → B') (he : E → E') la lb le :
  (∀ a, he (f a) = f' (ha a)) → (∀ b, he (g b) = g' (hb b)) →
  interleaves f g la lb le → interleaves f' g' (map ha la) (map hb lb) (map he le).
Proof. intros Hf Hg. induction 1; cbn; rewrite ?Hf, ?Hg; constructor; done. Qed.

Lemma rank_of_int t s c : is_int (rank_of t s c).
Proof.
  unfold rank_of. destruct (cells _ !! c); [apply i32_is_int|].
  unfold is_int, INT_MIN, INT_MAX. lia.
Qed.

Lemma waiting_nil st : waiting st [] [] = st.
Proof. destruct st. unfold waiting. cbn. by rewrite !app_nil_r. Qed.

(** Two queries, one of each queue. *)
Lemma quiet_queries D s rq st free aq pq reads lost :
  engine queue_rep D Unlocked Unlocked s rq st free aq pq reads lost → quiet st →
  ∀ a p m, a ∈ aq → p ∈ pq → query_msg s a = Done m → ft_epoch (ft_msg s) ≤ msg_epoch m →
  fdmi_is_matched_query s a p = Done false.
Proof.
  intros He Hq a p m Ha Hp Hm Hep.
  destruct (list_elem_of_lookup_1 _ _ Ha) as [i Hi], (list_elem_of_lookup_1 _ _ Hp) as [j Hj].
  destruct (Forall2_lookup_l _ _ _ _ _ (en_unexpected He) Hi) as (m' & Hm' & Har).
  destruct (Forall2_lookup_l _ _ _ _ _ (en_pending He) Hj) as (r & Hr & q & pm & Hqp & Hpm & -> & _).
  assert (m' = m) as -> by (destruct Har; congruence).
  rewrite (is_matched_query_ok s a p m pm) by done. rewrite (en_epoch He) in *.
  destruct (msg_epoch pm <? m_epoch st) eqn:E; [done|]. cbn [negb andb].
  assert (Hmat : recv_matches m (recv_of_query q pm) = false).
  { apply Hq; [by eapply list_elem_of_lookup_2|by eapply list_elem_of_lookup_2| |].
    - unfold m_fresh. apply negb_true_iff, Z.ltb_ge. lia.
    - unfold m_fresh. cbn. by rewrite E. }
  unfold msg_matches. unfold recv_matches in Hmat. cbn in Hmat. by rewrite Hmat.
Qed.

(** C3: the handlers implement the message engine.  From a process that
    implements a machine state, every sequence of arrivals and posted receives
    the machine accepts runs to the end, and the process then implements the
    machine's final state: its queues hold the messages and the receives that
    wait, its memory and its requests are the machine's, and it has posted
    exactly the work requests the machine asks for, with the locks released and
    one receive posted again for each that was consumed. *)
Theorem engine_refines_machine `{Malloc} `{Verbs} D t c s rq st es st' :
  ready D t c s rq st → Forall (event_ok s) es →
  m_run st (map (machine_event t s c (m_epoch st)) es) = Done st' →
  ends (user_run D (s, rq) es) (λ r,
    implements queue_rep D r.1 r.2 st' ∧ routes t r.1 ∧ length r.2 = length rq ∧
    ps_memory r.1 = m_memory st' ∧ ps_requests r.1 = m_requests st').
Proof.
  intros Hr Hok Hrun.
  assert (Hlen : ends (user_run D (s, rq) es) (λ r, length r.2 = length rq)).
  { pose proof (user_run_ok D t c s rq st es st' Hr Hok Hrun) as Hend.
    apply ends_Done in Hend as (r & Hr' & _). rewrite Hr'. cbn. clear - Hr'.
    revert s rq Hr'. induction es as [|e es IH]; intros s rq; cbn; [by intros [= <-]|].
    intros ([s1 rq1] & H1 & H2)%obind_Done_inv. rewrite (IH _ _ H2). clear IH H2.
    destruct e; cbn in H1.
    - destruct rq as [|[c a] rq]; [done|]. apply obind_Done_inv in H1 as (s2 & _ & [= <- <-]).
      rewrite length_app. cbn. lia.
    - by apply obind_Done_inv in H1 as (s2 & _ & [= <- <-]). }
  apply ends_Done in Hlen as (r & E & Hl). pose proof (user_run_ok D t c s rq st es st' Hr Hok Hrun) as Hend.
  rewrite E in *. cbn in *. destruct Hend as [Hr' _].
  pose proof (rd_implements _ _ _ _ _ _ Hr') as (free & aq & pq & reads & lost & He).
  split_and!; [apply Hr'|apply Hr'|done|apply He|apply He].
Qed.

(** C13: no message waits beside a receive that could take it.  This holds of
    the queues of the process after every sequence of arrivals and posted
    receives, if it holds before: for each message that has arrived in the
    current epoch and each receive that is posted, the library's matching
    function says no. *)
Theorem nothing_waits_needlessly `{Malloc} `{Verbs} D t c s rq st es st' :
  ready D t c s rq st → quiet st → Forall (event_ok s) es →
  m_run st (map (machine_event t s c (m_epoch st)) es) = Done st' →
  ends (user_run D (s, rq) es) (λ r, ∃ free aq pq held,
    proc_inv queue_rep r.1 D Unlocked Unlocked free aq pq held ∧
    length aq = length (m_unexpected st') ∧ length pq = length (m_pending st') ∧
    ∀ a p m, a ∈ aq → p ∈ pq → query_msg r.1 a = Done m → ft_epoch (ft_msg r.1) ≤ msg_epoch m →
      fdmi_is_matched_query r.1 a p = Done false).
Proof.
  intros Hr Hq Hok Hrun. eapply ends_mono; [by eapply user_run_ok|]. intros [s' rq'] [Hr' _]. cbn [fst snd] in *.
  pose proof (rd_implements _ _ _ _ _ _ Hr') as (free & aq & pq & reads & lost & He).
  exists free, aq, pq, (rq'.*2 ++ read_queries reads ++ lost). split_and!.
  - apply He.
  - by eapply Forall2_length, (en_unexpected He).
  - by eapply Forall2_length, (en_pending He).
  - eapply quiet_queries; [exact He|]. by eapply quiet_run.
Qed.

(** C14: early or late.  An eager message and a receive that it matches (nothing
    else that waits concerns either) leave the same memory and the same
    requests whether the message arrives before the receive is posted or
    after: the receive's request is complete with the source and the tag of
    the message. *)
Theorem arrival_order_irrelevant `{Malloc} `{Verbs} D t c s rq st m pp st' :
  ready D t c s rq st → event_ok s (UArrive m) → event_ok s (UReceive pp) →
  same_class st [msg_from t s c m] [recv_from s (m_epoch st) pp] →
  m_take st (msg_from t s c m) (recv_from s (m_epoch st) pp) = Done st' →
  ends (user_run D (s, rq) [UArrive m; UReceive pp]) (λ r1,
    ends (user_run D (s, rq) [UReceive pp; UArrive m]) (λ r2,
      ps_memory r1.1 = ps_memory r2.1 ∧ ps_requests r1.1 = ps_requests r2.1 ∧
      ps_memory r1.1 = m_memory st' ∧
      ∃ r0, ps_requests s !! pp_request pp = Some r0 ∧
            ps_requests r1.1 !! pp_request pp = Some (completed r0 (rank_of t s c) (msg_tag m)))).
Proof.
  intros Hr Hm Hp Hc Ht.
  assert (Hrun : m_run st [EArrive (msg_from t s c m); EReceive (recv_from s (m_epoch st) pp)] =
                 Done (m_outputs st' 1)).
  { rewrite <- (waiting_nil st) at 1.
    rewrite (fifo_run st [] [] [msg_from t s c m] [recv_from s (m_epoch st) pp]); [|done|by left|repeat constructor].
    cbn. rewrite Ht. cbn. by rewrite waiting_nil. }
  pose proof (early_late _ _ _ Hc) as Hel. rewrite Hrun in Hel.
  eapply ends_mono; [eapply (user_run_ok D t c s rq st [UArrive m; UReceive pp]); [done|by repeat constructor|exact Hrun]|].
  intros [s1 rq1] [Hr1 _]. cbn [fst snd] in *.
  eapply ends_mono; [eapply (user_run_ok D t c s rq st [UReceive pp; UArrive m]); [done|by repeat constructor|by symmetry]|].
  intros [s2 rq2] [Hr2 _]. cbn [fst snd] in *.
  pose proof (rd_implements _ _ _ _ _ _ Hr) as (?&?&?&?&?& He).
  pose proof (rd_implements _ _ _ _ _ _ Hr1) as (?&?&?&?&?& He1).
  pose proof (rd_implements _ _ _ _ _ _ Hr2) as (?&?&?&?&?& He2).
  rewrite (en_memory He1), (en_memory He2), (en_requests He1), (en_requests He2).
  rewrite m_take_eager in Ht by (apply (sc_msg _ _ _ Hc); by left).
  apply obind_Done_inv in Ht as (mem & _ & Ht). apply obind_Done_inv in Ht as (r0 & Hr0 & [= <-]).
  split_and!; [done..|]. exists r0. rewrite (en_requests He). split; [by apply load_Done|].
  cbn. rewrite lookup_insert_eq. unfold completed. cbn. f_equal.
  by rewrite (i32_u64 (rank_of t s c)), (i32_id (rank_of t s c)) by apply rank_of_int.
Qed.

(** C4: messages do not overtake each other.  However the arrivals of [ms] and
    the receives [pps] of one class (all match each other, nothing that waits
    concerns them) are interleaved, the run ends and the [i]-th message has
    been given to the [i]-th receive, in this order, with nothing left over. *)
Theorem messages_do_not_overtake `{Malloc} `{Verbs} D t c s rq st ms pps es st' :
  ready D t c s rq st → Forall (event_ok s) es → interleaves UArrive UReceive ms pps es →
  length ms = length pps →
  same_class st (map (msg_from t s c) ms) (map (recv_from s (m_epoch st)) pps) →
  m_takes st (zip (map (msg_from t s c) ms) (map (recv_from s (m_epoch st)) pps)) = Done st' →
  ends (user_run D (s, rq) es) (λ r,
    implements queue_rep D r.1 r.2 (m_outputs st' (length ms)) ∧
    ps_memory r.1 = m_memory st' ∧ ps_requests r.1 = m_requests st').
Proof.
  intros Hr Hok Hi Hl Hc Ht. eapply ends_mono.
  { eapply (user_run_ok D t c s rq st es (m_outputs st' (length ms)) Hr Hok).
    rewrite <- (waiting_nil st) at 1.
    rewrite (fifo_run st [] [] (map (msg_from t s c) ms) (map (recv_from s (m_epoch st)) pps)); [|done|by left|].
    - cbn [app]. rewrite Ht. cbn [obind]. rewrite !length_map, Hl.
      rewrite !drop_ge by (rewrite length_map; lia). by rewrite waiting_nil.
    - by apply (interleaves_map UArrive UReceive). }
  intros [s' rq'] [Hr' _]. cbn [fst snd] in *.
  pose proof (rd_implements _ _ _ _ _ _ Hr') as (?&?&?&?&?& He).
  split_and!; [apply Hr'|apply He|apply He].
Qed.

(** C17: the end of a read.  The [i]-th read under way has been posted, from the
    region its message announces to the buffer of its receive, on the queue
    pair of the connection [c'] the announcement came in on, which is the
    connection of the process the message names as its source.  When the read
    completes, the completion thread completes the receive's request with the
    source and the tag of the message and tells the sender: to what it has
    posted it adds one work request and loses none, the send of the control
    part of the message that ends the transfer, on that same queue pair. *)
Theorem read_completion `{Malloc} `{Verbs} D t c s rq st i m r st' :
  ready D t c s rq st → m_reads st !! i = Some (m, r) → m_read_done st i = Done st' →
  ∃ p a c' cn qa lkey lkey' size, query_msg s a = Done m ∧ cells (ps_queries s) !! a = Some qa ∧ qu_conn qa = c' ∧
    cells (ps_conns s) !! c' = Some cn ∧ msg_rank m = u64 (rank_of t s c') ∧
    reg_size (rc_dtype r) (rc_count r) = Done size ∧
    WRead (cn_qp cn) p (Sge (rc_addr r) (u32 size) lkey) (mr_addr (msg_rdma_mr m)) (mr_rkey (msg_rdma_mr m)) ∈ ps_posted s ∧
    ends (fdmi_poll_sendrecv_cq s D IBV_WC_RDMA_READ p) (λ s',
      implements queue_rep D s' rq st' ∧
      (∃ r0, ps_requests s !! rc_request r = Some r0 ∧
             ps_requests s' = <[rc_request r := completed r0 (msg_rank m) (msg_tag m)]> (ps_requests s)) ∧
      ps_posted s' = ps_posted s ++
        [WSend (cn_qp cn) a [Sge (qu_msg qa) (u32 fdmi_get_ctl_msg_size) lkey'] (m <| msg_type := FDMI_COMM_FIN |>) []]).
Proof.
  intros [Hm Hreg Hpost (free & aq & pq & reads & lost & He) Hrt _ _] Hi Hd.
  destruct (read_of_engine D s rq st free aq pq reads lost i m r He Hi)
    as (p & a & Hpa & (w & Hw & (qp & lkey & size & Hsize & ->) & c' & cn & Hc' & Hcn & Hqp) & Har).
  pose proof (read_done_engine (rep := queue_rep) Hm Hreg Hpost D t s rq st free aq pq reads lost i p a m r st'
    He Hrt Hpa Hi Hd) as Hend.
  destruct (fdmi_poll_sendrecv_cq s D IBV_WC_RDMA_READ p) as [s'| | |] eqn:Hrun; try done.
  destruct Hend as (_ & _ & (w & (qa & cn' & lkey' & Hqa & Hcn' & ->) & Hpo) & Him').
  destruct Hc' as (qa' & Hqa' & Hqc & Hc0). cbn in Hqa'. rewrite Hqa in Hqa'. injection Hqa' as <-.
  rewrite Hqc, Hcn in Hcn'. injection Hcn' as <-. cbn in Hqp, Hsize. subst qp.
  exists p, a, c', cn, qa, lkey, lkey', size. split_and!; try done; [apply Har| |].
  - destruct Har as (_ & c1 & (qa1 & Hqa1 & Hc1 & _) & t' & Ht' & E). rewrite Hqa in Hqa1. injection Hqa1 as <-.
    rewrite E, <- Hc1, Hqc. f_equal. by apply (rank_of_unique t t' s c' cn).
  - rewrite Hrun. cbn [ends]. split; [done|]. split; [|exact Hpo]. destruct Him' as (?&?&?&?&?& He').
    unfold m_read_done in Hd. rewrite Hi in Hd.
    apply obind_Done_inv in Hd as (rq0 & Hrr & Hd). apply obind_Done_inv in Hd as (total & Ht & Hd).
    destruct (total <=? _); [done|]. injection Hd as <-. exists rq0.
    rewrite (en_requests He), (en_requests He'). split; [by apply load_Done|done].
Qed.

(** ** An example *)

(** The process of State.v with one receive posted on its connection and a
    mapped buffer at 1000. *)
Definition sample_ready : process :=
  sample_process <| ps_queries := Heap {[ 512 := Query 32 528 600 NULL NULL NULL ]} 1 |>
    <| ps_msgs := Heap {[ 528 := garbage_msg 0 ]} 1 |>
    <| ps_mrs := {[ 600 := MR 528 sizeof_fdmi_msg 3 0 0 ]} |>
    <| ps_memory := sample_buffer 1000 0 |>
    <| ps_posted := [WRecv 64 512 [Sge 528 152 0]] |>.

Definition sample_state : mstate :=
  MState [] [] [] (sample_buffer 1000 0) (<[4096 := Request 0 0 0 0]> {[ 8192 := Request 0 0 0 0 ]}) 0 [ORecv].

Definition sample_table : table := spec_add empty_table 1600 1.
Definition sample_param : fdmi_post_param := PostParam 1 7 1000 3 FMI_BYTE 16 4116 4096 0.

Lemma sample_routes : routes sample_table sample_ready.
Proof.
  unfold routes. cbn. unfold sample_itop.
  assert (E : ends (ht <- fdmi_hashtable_create 8 (λ _, 16) (λ _, 0) ;; fdmi_hashtable_add ht 1600 1)
    (λ ht, ht_rep queue_rep ht sample_table)).
  { c_step (hrep_create (hrep := ht_rep queue_rep)) as ht Hht; [unfold INT_MAX; lia|].
    c_last (hrep_add (hrep := ht_rep queue_rep)) as ht' Hht'; [apply Malloc_bump_total|apply Malloc_bump_total|done]. }
  apply ends_Done in E as (ht & -> & E). exact E.
Qed.

Lemma sample_ready_inv : proc_inv queue_rep sample_ready 16 Unlocked Unlocked [] [] [] [512].
Proof.
  assert (Hq : ∀ a q, cells (ps_queries sample_ready) !! a = Some q →
    a = 512 ∧ q = Query 32 528 600 NULL NULL NULL).
  { intros a q. cbn. rewrite lookup_singleton. case_decide; [|done]. by intros [= <-]. }
  split; try apply empty_queue_rep.
  - exists []. split_and!; [apply empty_queue_rep|apply not_elem_of_nil|by intros ? ?%elem_of_nil|done].
  - exists []. apply empty_queue_rep.
  - exists []. apply empty_queue_rep.
  - exists sample_dctx. split_and!; [done|apply empty_queue_rep..].
  - intros c cn. cbn. rewrite lookup_singleton. by case_decide; intros; simplify_eq.
  - apply NoDup_singleton.
  - intros a [->|[]%elem_of_nil]%elem_of_cons. split; [done|by eexists].
  - intros a q [-> ->]%Hq. split; [by eexists|]. intros _. split; by eexists.
  - by intros a b qa qb [-> _]%Hq [-> _]%Hq.
  - done.
Qed.

Lemma sample_is_ready : ready 16 sample_table 32 sample_ready [(32, 512)] sample_state.
Proof.
  split.
  - exact Malloc_bump_total.
  - exact sample_reg_total.
  - by intros l w.
  - exists [], [], [], [], []. split; try done; try by constructor.
    + exact sample_ready_inv.
    + intros c cn. cbn. rewrite lookup_singleton. case_decide; [|done]. by intros [= <-].
    + split; [done|]. by eexists.
    + intros x ->%list_elem_of_singleton. eexists. by split_and!.
    + repeat constructor. by eexists _, _, _.
  - exact sample_routes.
  - by intros x ->%list_elem_of_singleton.
  - done.
Qed.

Lemma sample_param_ok : event_ok sample_ready (UReceive sample_param).
Proof. exists 3. split; try done; unfold is_int, INT_MIN, INT_MAX; cbn; lia. Qed.

(** The messages of the example come from the peer. *)
Lemma sample_from m : msg_from sample_table sample_ready 32 m = m <| msg_rank := 1 |>.
Proof. done. Qed.

Lemma sample_class :
  same_class sample_state [msg_from sample_table sample_ready 32 sample_msg]
    [recv_from sample_ready (m_epoch sample_state) sample_param].
Proof.
  split.
  - by intros m r ->%list_elem_of_singleton ->%list_elem_of_singleton.
  - by intros m ->%list_elem_of_singleton.
  - intros r ->%list_elem_of_singleton. split; [done|by eexists].
  - by intros m r _ ?%elem_of_nil.
  - by intros m r ?%elem_of_nil.
Qed.

(** A large message, announced for a read. *)
Definition sample_large : fdmi_msg :=
  Msg FDMI_COMM_INIT FDMI_RDMA_READ 0 9000 1 0 7 0 (FDMI_EAGER_BUFF_SIZE + 1) 3 FMI_BYTE
    (MR 9000 (FDMI_EAGER_BUFF_SIZE + 1) 3 0 77) 0 0 [].

Lemma engine_refines_machine_witness :
  ends (user_run 16 (sample_ready, [(32, 512)]) [UArrive sample_msg; UReceive sample_param]) (λ r,
    length r.2 = 1%nat ∧
    ps_requests r.1 !! 4096 = Some (Request 1 0 7 1) ∧
    map (λ i, ps_memory r.1 !! i) [1000; 1001; 1002; 1003] = [Some 10; Some 11; Some 12; Some 0]).
Proof.
  eapply ends_mono; [eapply (engine_refines_machine 16 sample_table 32 sample_ready [(32, 512)] sample_state);
    [exact sample_is_ready|repeat constructor; exact sample_param_ok|vm_compute; reflexivity]|].
  intros [s' rq'] (_ & _ & Hl & Hme & Hrq). cbn [fst snd] in *. rewrite Hme, Hrq. by vm_compute.
Defined.

Lemma nothing_waits_needlessly_witness :
  ends (user_run 16 (sample_ready, [(32, 512)]) [UArrive (sample_msg <| msg_tag := 8 |>); UReceive sample_param])
    (λ r, ∃ free aq pq held, proc_inv queue_rep r.1 16 Unlocked Unlocked free aq pq held ∧
      length aq = 1%nat ∧ length pq = 1%nat ∧
      ∀ a p m, a ∈ aq → p ∈ pq → query_msg r.1 a = Done m → ft_epoch (ft_msg r.1) ≤ msg_epoch m →
        fdmi_is_matched_query r.1 a p = Done false).
Proof.
  eapply ends_mono; [eapply (nothing_waits_needlessly 16 sample_table 32 sample_ready [(32, 512)] sample_state);
    [exact sample_is_ready|by intros m r ?%elem_of_nil|repeat constructor; exact sample_param_ok|vm_compute; reflexivity]|].
  intros r (free & aq & pq & held & H1 & H2 & H3 & H4). exists free, aq, pq, held. by split_and!.
Defined.

Lemma arrival_order_irrelevant_witness :
  ends (user_run 16 (sample_ready, [(32, 512)]) [UArrive sample_msg; UReceive sample_param]) (λ r1,
    ends (user_run 16 (sample_ready, [(32, 512)]) [UReceive sample_param; UArrive sample_msg]) (λ r2,
      ps_memory r1.1 = ps_memory r2.1 ∧ ps_requests r2.1 !! 4096 = Some (Request 1 0 7 1))).
Proof.
  eapply ends_mono; [eapply (arrival_order_irrelevant 16 sample_table 32 sample_ready [(32, 512)] sample_state sample_msg sample_param);
    [exact sample_is_ready|done|exact sample_param_ok|exact sample_class|vm_compute; reflexivity]|].
  cbv beta. intros r1 H. eapply ends_mono; [exact H|]. cbv beta. intros r2 (H1 & H2 & _ & r0 & E0 & E). split; [done|].
  rewrite <- H2. etrans; [exact E|]. vm_compute in E0. by injection E0 as <-.
Defined.

Lemma messages_do_not_overtake_witness :
  ends (user_run 16 (sample_ready, [(32, 512)]) [UReceive sample_param; UArrive sample_msg]) (λ r,
    ps_requests r.1 !! 4096 = Some (Request 1 0 7 1)).
Proof.
  eapply ends_mono; [eapply (messages_do_not_overtake 16 sample_table 32 sample_ready [(32, 512)] sample_state
    [sample_msg] [sample_param]); [exact sample_is_ready|repeat constructor; exact sample_param_ok
    |repeat constructor|done|exact sample_class|vm_compute; reflexivity]|].
  intros r (_ & _ & ->). by vm_compute.
Defined.

Lemma read_completion_witness :
  ends (user_run 16 (sample_ready, [(32, 512)]) [UReceive sample_param; UArrive sample_large]) (λ r,
    ∃ p, ends (fdmi_poll_sendrecv_cq r.1 16 IBV_WC_RDMA_READ p) (λ s',
      ps_requests s' !! 4096 = Some (Request 1 0 7 1))).
Proof.
  eapply ends_mono; [eapply (user_run_ok 16 sample_table 32 sample_ready [(32, 512)] sample_state);
    [exact sample_is_ready|repeat constructor; exact sample_param_ok|vm_compute; reflexivity]|].
  intros [s' rq'] [Hr _]. cbn [fst snd] in *.
  match type of Hr with ready _ _ _ _ _ ?st =>
    edestruct (read_completion 16 sample_table 32 s' rq' st 0 (sample_large <| msg_rank := 1 |>) (recv_from sample_ready 0 sample_param))
      as (p & a & c' & cn & qa & lkey & lkey' & size & _ & _ & _ & _ & _ & _ & _ & E) end;
    [exact Hr|vm_compute; reflexivity|vm_compute; reflexivity|].
  exists p. eapply ends_mono; [exact E|]. intros s2 (Him & _).
  destruct Him as (?&?&?&?&?& He). rewrite (en_requests He). by vm_compute.
Defined.
