(* ===== verification/Eager.v ===== *)
(** * src/src/fdmi.c: a message from buffer to buffer

    The sender's side of a transfer, and the two sides together. *)
From S2P Require Import Prelude Mem Queue Hashtable Datatype ProcMan State MrCache Query Matching Transfer Progress MsgSpec Engine Delivery.

Section send.
Context {HMalloc : Malloc} {HVerbs : Verbs}.
Context {rep : mutex → fdmi_queue → list Z → Prop} `{!QueueContract rep}.
Context (Hm : malloc_total) (Hreg : reg_total) (Hpost : post_total).
Context (D : Z) (ma mp : mutex) (aq pq : list Z).

(** An eager message of a consecutive datatype is two scatter/gather elements:
    the message and the user's buffer. *)
Lemma post_send_eager_ok s free held q qu m total bs eb off :
  proc_inv rep s D ma mp free aq pq held → cells (ps_queries s) !! q = Some qu → q ≠ NULL →
  qu_conn qu ≠ NULL → query_msg s q = Done m →
  total_send_size (msg_dtype m) (msg_count m) = Done total → total ≤ FDMI_EAGER_BUFF_SIZE →
  eager_payload (msg_dtype m) (msg_count m) total (ps_memory s) (msg_addr m) (eager_buff m) = Done (bs, eb, off) →
  ends (fdmi_post_send_msg s q) (λ s', ∃ ms qp sges, s' = s <| ps_msgs := ms |> <| ps_posted := ps_posted s ++
    [WSend qp q sges (m <| msg_opcode := FDMI_EAGER |> <| eager_size := i32 total |> <| eager_buff := eb |>) bs] |> ∧
    proc_inv rep s' D ma mp free aq pq held ∧
    query_msg s' q = Done (m <| msg_opcode := FDMI_EAGER |> <| eager_size := i32 total |> <| eager_buff := eb |>) ∧
    ∀ a m', a ≠ q → query_msg s a = Done m' → query_msg s' a = Done m').
Proof.
  intros Hinv Hqu Hq0 Hc Hmsg Ht Hle Hpay. unfold fdmi_post_send_msg, fdmi_test.
  rewrite (proj2 (Z.eqb_neq _ _) Hq0). cbn [obind]. unfold query_msg, query_at, msg_at, peek in *.
  rewrite (proj2 (load_Done _ _ _) Hqu) in *. cbn [obind] in *. apply load_Done in Hmsg.
  destruct (pi_query Hinv q qu Hqu) as [_ Hwf]. destruct (Hwf Hc) as [[cn Hcn] [mr Hmr]].
  assert (Hm0 : qu_msg qu ≠ NULL) by (intros E; rewrite E, (pi_null Hinv) in Hmsg; done).
  rewrite (proj2 (Z.eqb_neq (qu_msg qu) NULL) Hm0).
  destruct (pi_regs Hinv) as [l (_ & _ & _ & Hnull)].
  rewrite (proj2 (Z.eqb_neq (qu_msg_mr qu) NULL)) by (intros E; rewrite E, Hnull in Hmr; done).
  cbn [obind]. rewrite (proj2 (load_Done _ _ _) Hmr). cbn [obind].
  rewrite (proj2 (load_Done _ _ _) Hmsg). cbn [obind]. rewrite Ht. cbn [obind].
  rewrite (proj2 (Z.leb_le _ _) Hle), Hpay. cbn [obind].
  set (m' := m <| msg_opcode := _ |> <| eager_size := _ |> <| eager_buff := _ |>).
  unfold set_msg. rewrite poke_ok by (by eexists). cbn [obind].
  unfold conn_at, peek. cbn. rewrite (proj2 (load_Done _ _ _) Hcn). cbn [obind].
  unfold post_wr. rewrite Hpost. cbn. eexists _, _, _. split; [done|]. split; [|split].
  2:{ unfold query_msg, query_at, msg_at, peek. cbn. rewrite (proj2 (load_Done _ _ _) Hqu). cbn. apply load_insert. }
  2:{ intros a x Ha. unfold query_msg, query_at, msg_at, peek. cbn. intros (y & Hy & Hx)%obind_Done_inv. rewrite Hy. cbn.
      apply load_Done in Hy, Hx. apply load_Done. rewrite lookup_insert_ne; [done|].
      intros E. apply Ha. symmetry. by eapply (pi_msgs Hinv q a qu y). }
  apply inv_posted. split; try apply Hinv.
  - intros a x Hx. destruct (pi_query Hinv a x Hx) as [[y Hy] Hcx].
    split; [|done]. cbn. rewrite lookup_insert. case_decide; by eexists.
  - cbn. rewrite lookup_insert_ne by done. apply Hinv.
Qed.

(** The message a send builds. *)
Definition send_header (s : process) (pp : fdmi_post_param) (id : Z) (m : fdmi_msg) : Prop :=
  msg_type m = FDMI_COMM_INIT ∧ msg_epoch m = ft_epoch (ft_msg s) ∧ msg_addr m = pp_addr pp ∧
  msg_rank m = u64 (ps_prank s) ∧ msg_tag m = u64 (pp_tag pp) ∧ msg_count m = pp_count pp ∧
  msg_comm_id m = id ∧ msg_dtype m = pp_dtype pp.

(** What a send needs of the process: a connection to the destination, the
    communicator, a size that can be computed. *)
Record linked (s : process) (free held : list Z) (pp : fdmi_post_param) (id c size : Z) : Prop := {
  li_inv : proc_inv rep s D ma mp free aq pq held;
  li_conn : ∃ peer, aget (ps_peers s) (pp_rank pp) = Done peer ∧ aget (p_conn peer) 0 = Done c;
  li_live : c ≠ NULL ∧ is_Some (cells (ps_conns s) !! c);
  li_comm : comm_id_at s (pp_comm pp) = Done id;
  li_size : reg_size (pp_dtype pp) (pp_count pp) = Done size;
}.

(** The query of a send just before it is posted: its message names a
    registered region that starts at the buffer and covers it. *)
Record prepared (s s' : process) (free held : list Z) (pp : fdmi_post_param) (id c size q : Z)
    (qu : fdmi_query) (m : fdmi_msg) : Prop := {
  pr_inv : proc_inv rep s' D ma mp free aq pq (q :: held);
  pr_pooled : pooled s s';
  pr_others : others_kept s s' (λ x, x ≠ q);
  pr_query : cells (ps_queries s') !! q = Some qu;
  pr_null : q ≠ NULL;
  pr_conn : qu_conn qu = c;
  pr_flag : qu_request_flag qu = pp_request_flag pp;
  pr_msg : query_msg s' q = Done m;
  pr_header : send_header s pp id m;
  pr_opcode : msg_opcode m = FDMI_RDMA_READ;
  pr_region : ∃ a pd, mr_covers (ps_mrs s') a (pp_addr pp) (u32 size) pd ∧ ps_mrs s' !! a = Some (msg_rdma_mr m);
}.

(** All of [fdmi_post_send_msg_param] but its last call. *)
Lemma post_send_param_ok s free held pp id c size (k : process → Prop) :
  linked s free held pp id c size →
  (∀ s' free' q qu m, prepared s s' free' held pp id c size q qu m → ends (fdmi_post_send_msg s' q) k) →
  ends (fdmi_post_send_msg_param s pp) k.
Proof.
  intros Hli Hk. pose proof Hli as [Hinv (peer & Hpeer & Hconn) [Hc0 Hcs] Hid Hsize].
  unfold fdmi_post_send_msg_param. rewrite Hpeer. cbn [obind]. rewrite Hconn. cbn [obind].
  pose proof (new_query_ok (rep := rep) Hm Hreg D ma mp free aq pq s held c (pp_request_flag pp) (pp_request pp)
    Hinv (or_intror Hcs)) as E. apply ends_Done in E as ([q s2] & E & Hp2 & Hk2 & [free' Hinv2] & qu & Hqu & Hqc & Hqf & _).
  cbn [fst snd] in *. apply obind_Done_inv in E as ([q' s1] & Eq & E). rewrite Eq. cbn [obind].
  apply obind_Done_inv in E as (qu1 & E1 & E). apply obind_Done_inv in E as (s2' & E2 & E). injection E as -> ->.
  rewrite E1. cbn [obind]. rewrite E2. cbn [obind].
  destruct (msg_at_ok (rep := rep) D ma mp free' aq pq s2 (q :: held) q Hinv2) as (_ & m & _ & _ & _ & Em);
    [set_solver|].
  pose proof (pooled_fixed _ _ Hp2) as (Hf2 & _). rewrite (fixed_comm_id s) by done.
  rewrite Hid. cbn [obind]. rewrite Em. cbn [obind]. injection Hf2 as Hcn2 _ _ Hft2 _ _ Hpr2. rewrite Hft2, Hpr2.
  c_step (fill_msg_ok (rep := rep) Hm Hreg Hpost D ma mp free' aq pq s2 held q) as s3 (Hp3 & Hk3 & Hinv3 & Em3 & Hq3 & _).
  rewrite Hsize. cbn [obind].
  destruct (conn_pd_ok s3 D ma mp free' aq pq (q :: held) Hinv3 c) as (dc & _ & Hpd).
  { destruct Hp3 as (?&?&?&?&?&?&?& ->). cbn. by rewrite Hcn2. }
  rewrite Hpd. cbn [obind].
  c_step (reg_mr_inv Hm Hreg D ma mp free' aq pq s3 (q :: held)) as [a s4] (Hp4 & Hinv4 & Hcov & Hq4 & Hm4).
  cbn [fst snd] in *. pose proof Hcov as (_ & mr & Hmr & _). rewrite (proj2 (load_Done _ _ _) Hmr). cbn [obind].
  assert (Hsame : ∀ x, query_msg s4 x = query_msg s3 x)
    by (intros x; unfold query_msg, query_at, msg_at; by rewrite Hq4, Hm4).
  rewrite Hsame, Em3. cbn [obind].
  c_step (fill_msg_ok (rep := rep) Hm Hreg Hpost D ma mp free' aq pq s4 held q) as s5 (Hp5 & Hk5 & Hinv5 & Em5 & Hq5 & Hr5).
  assert (Hq0 : q ≠ NULL) by (apply (pi_live Hinv5); set_solver).
  unfold fdmi_test. rewrite (proj2 (Z.eqb_neq _ _) Hq0). cbn [obind].
  eapply (Hk s5 free' q qu); split; try done.
  - etrans; [exact Hp2|]. etrans; [exact Hp3|]. by etrans.
  - apply (others_kept_trans _ _ _ _ Hk2), (others_kept_trans _ _ _ _ Hk3).
    eapply others_kept_trans; [|exact Hk5]. split; [by rewrite Hq4|]. intros x y _. by rewrite Hsame.
  - by rewrite Hq5, Hq4, Hq3.
  - exists a, (dc_pd dc). rewrite Hr5. split; [exact Hcov|exact Hmr].
Qed.

Lemma send_eager_ok s free held pp c id total size bs :
  linked s free held pp id c size →
  total_send_size (pp_dtype pp) (pp_count pp) = Done total → total ≤ FDMI_EAGER_BUFF_SIZE →
  dt_count (pp_dtype pp) = 1 → read_bytes (ps_memory s) (pp_addr pp) (Z.to_nat total) = Done bs →
  ends (fdmi_post_send_msg_param s pp) (λ s', ∃ qp q sges ctl free',
    ps_posted s' = ps_posted s ++ [WSend qp q sges ctl bs] ∧ send_header s pp id ctl ∧
    msg_opcode ctl = FDMI_EAGER ∧ proc_inv rep s' D ma mp free' aq pq (q :: held) ∧
    ps_memory s' = ps_memory s ∧ ps_requests s' = ps_requests s ∧ query_msg s' q = Done ctl ∧
    (∃ qu, cells (ps_queries s') !! q = Some qu ∧ qu_conn qu = c ∧ qu_request_flag qu = pp_request_flag pp) ∧
    others_kept s s' (λ x, x ≠ q) ∧
    ∃ sp, pooled s sp ∧ s' = sp <| ps_posted := ps_posted s' |>).
Proof.
  intros Hli Ht Hle Hdc Hbs. apply (post_send_param_ok s free held pp id c size); [done|].
  intros s5 free' q qu m [Hinv5 Hp5 Hk5 Hqu Hq0 Hqc Hqf Em5 Hhd Hop _].
  pose proof (pooled_fixed _ _ Hp5) as (_ & Hme & Hrq & Hpo).
  destruct Hhd as (Hty & Hep & Had & Hrk & Htag & Hcnt & Hcid & Hdt).
  eapply ends_mono.
  { eapply (post_send_eager_ok s5 free' (q :: held) q qu m); [exact Hinv5|exact Hqu|done| |exact Em5| |done|].
    - rewrite Hqc. by destruct Hli as [_ _ [? _] _ _].
    - by rewrite Hdt, Hcnt.
    - unfold eager_payload. rewrite Hdt, Hdc, Hme, Had. cbn. rewrite Hbs. reflexivity. }
  cbv beta. intros s6 (ms6 & qp & sges & -> & Hinv6 & Em6 & Hk6). rewrite Hpo in Hinv6, Em6.
  eexists qp, q, sges, _, free'. cbn. rewrite Hpo.
  split; [reflexivity|]. split; [unfold send_header; cbn; by split_and!|].
  split_and!; [done|exact Hinv6|done|done|exact Em6|by exists qu| |].
  { eapply others_kept_trans; [exact Hk5|]. split; [done|]. rewrite <- Hpo. exact Hk6. }
  exists (s5 <| ps_msgs := ms6 |>). split; [|done]. etrans; [exact Hp5|apply pooled_msgs].
Qed.
End send.

(** ** From buffer to buffer *)

(** The message as it arrives: the payload at the start of the eager buffer of
    the receiver's message, whose other bytes are whatever they were. *)
Definition on_wire (ctl : fdmi_msg) (payload rest : list Z) : fdmi_msg :=
  ctl <| eager_buff := payload ++ rest |>.

(** A sender that can send [pp] eagerly over its connection to [pp_rank pp]. *)
Record sender `{Malloc} `{Verbs} (D : Z) (s : process) (free aq pq held : list Z) (pp : fdmi_post_param)
    (id : Z) : Prop := {
  sd_linked : ∃ c size, linked (rep := queue_rep) D Unlocked Unlocked aq pq s free held pp id c size;
  sd_dtype : wf_dtype (pp_dtype pp);
  sd_count : 0 < pp_count pp;
  sd_consecutive : dt_count (pp_dtype pp) = 1;
  sd_small : payload_size (pp_dtype pp) (pp_count pp) ≤ FDMI_EAGER_BUFF_SIZE;
  sd_buffer : buffer_mapped (ps_memory s) (pp_dtype pp) (pp_count pp) (pp_addr pp);
}.

(** What such a sender does: one send request, whose query it holds. *)
Record sent `{Malloc} `{Verbs} (D : Z) (s s' : process) (aq pq held : list Z) (pp : fdmi_post_param) (id : Z)
    (q : Z) (ctl : fdmi_msg) (bs : list Z) : Prop := {
  se_posted : ∃ qp sges, ps_posted s' = ps_posted s ++ [WSend qp q sges ctl bs];
  se_header : send_header s pp id ctl;
  se_eager : msg_opcode ctl = FDMI_EAGER;
  se_length : Z.of_nat (length bs) = payload_size (pp_dtype pp) (pp_count pp);
  se_payload : payload_holds (ps_memory s) (pp_dtype pp) (pp_addr pp) bs
                 (Z.to_nat (pp_count pp) * Z.to_nat (dt_count (pp_dtype pp)));
  se_inv : ∃ free, proc_inv queue_rep s' D Unlocked Unlocked free aq pq (q :: held);
  se_query : query_msg s' q = Done ctl ∧ ∃ qu, cells (ps_queries s') !! q = Some qu ∧ qu_conn qu ≠ NULL ∧
               qu_request_flag qu = pp_request_flag pp;
  se_requests : ps_requests s' = ps_requests s;
  se_rest : ∃ sp, pooled s sp ∧ s' = sp <| ps_posted := ps_posted s' |>;
}.

Lemma sender_sends `{Malloc} `{Verbs} D s free aq pq held pp id :
  malloc_total → reg_total → post_total →
  sender D s free aq pq held pp id →
  ends (fdmi_post_send_msg_param s pp) (λ s', ∃ q ctl bs, sent D s s' aq pq held pp id q ctl bs).
Proof.
  intros Hm Hreg Hpost [(c & sz & Hli) Hd Hn Hdc Hsm Hbuf].
  destruct (total_send_size_ok (pp_dtype pp) (pp_count pp)) as [Ht Ht0];
    [done..|unfold FDMI_EAGER_BUFF_SIZE, INT_MAX in *; lia|].
  pose proof (eager_payload_consecutive (pp_dtype pp) (pp_count pp) (ps_memory s) (pp_addr pp) [] Hd Hn Hdc Hbuf) as Hpay.
  apply ends_Done in Hpay as ([[bs eb] off] & Epay & Hlen & _ & Hholds). cbn [fst snd] in *.
  unfold eager_payload in Epay. rewrite Hdc in Epay. cbn in Epay.
  apply obind_Done_inv in Epay as (bs' & Hread & Epay). injection Epay as -> <- <-.
  eapply ends_mono; [eapply (send_eager_ok (rep := queue_rep) Hm Hreg Hpost D); eauto|].
  intros s' (qp & q & sges & ctl & free' & Hpo & Hhd & Hop & Hinv' & _ & Hrq & Hmsg & (qu & Hqu & Hqc & Hqf) & _ & Hrest).
  exists q, ctl, bs. split; try done; [by exists qp, sges|by exists free'|].
  split; [done|]. exists qu. split_and!; [done|rewrite Hqc; by destruct Hli as [_ _ [? _] _ _]|done].
Qed.

(** A receive that is to take that message: the same datatype and count, the
    same tag or the wildcard, the sender or the wildcard. *)
Record receiver (t : table) (c : Z) (s : process) (st : mstate) (pp ps : fdmi_post_param) (id : Z) : Prop := {
  rr_param : param_ok s pp id;
  rr_dtype : pp_dtype pp = pp_dtype ps;
  rr_count : pp_count pp = pp_count ps;
  rr_rank : pp_rank pp = FMI_ANY_SOURCE ∨ pp_rank pp = rank_of t s c;
  rr_tag : pp_tag pp = FMI_ANY_TAG ∨ pp_tag pp = pp_tag ps;
  rr_buffer : buffer_mapped (ps_memory s) (pp_dtype pp) (pp_count pp) (pp_addr pp);
  rr_request : is_Some (ps_requests s !! pp_request pp);
  rr_pending r m : r ∈ m_pending st → msg_rank m = u64 (rank_of t s c) → msg_tag m = u64 (pp_tag ps) →
                   msg_comm_id m = id → recv_matches m r = false;
  rr_unexpected m r : m ∈ m_unexpected st → rc_rank r = u64 (pp_rank pp) → rc_tag r = u64 (pp_tag pp) →
                      rc_comm r = id → recv_matches m r = false;
}.

(** What lies after the payload does not matter. *)
Lemma eager_copy_rest d n bs rest m a m' :
  dt_count d = 1 → eager_copy d n bs m a = Done m' → eager_copy d n (bs ++ rest) m a = Done m'.
Proof.
  intros Hc. unfold eager_copy, memcpy_from_eager, eager_read. rewrite Hc. cbn [Z.eqb Pos.eqb].
  pose proof (u64_bounds (block_bytes d * u64 n)). set (k := u64 _) in *. rewrite length_app.
  destruct (0 + k <=? Z.of_nat (length bs)) eqn:E; [|done]. apply Z.leb_le in E.
  rewrite (proj2 (Z.leb_le _ _)) by lia. cbn [obind]. change (Z.to_nat 0) with 0%nat. rewrite !drop_0.
  by rewrite take_app_le by lia.
Qed.

Lemma word_matches_wildcard any x y : x = any ∨ x = y → word_matches any (u64 y) (u64 x) = true.
Proof.
  intros [->| ->]; unfold word_matches; rewrite Z.eqb_refl, ?orb_true_r; done.
Qed.

(** The header and the receive match, and concern nothing else. *)
Lemma delivery_pair `{Verbs} t c s2 st s1 ps pr id ctl bs rest :
  receiver t c s2 st pr ps id → send_header s1 ps id ctl → m_epoch st ≤ ft_epoch (ft_msg s1) →
  (∃ n, reg_size (pp_dtype ps) (pp_count ps) = Done n) →
  only_pair st (msg_from t s2 c (on_wire ctl bs rest)) (recv_from s2 (m_epoch st) pr).
Proof.
  intros Hrc (_ & Hep & _ & Hrk & Htag & _ & Hid & _) Hle [n Hn].
  assert (Hcid : comm_id_at s2 (pp_comm pr) = Done id) by apply Hrc.
  unfold recv_from. rewrite Hcid. split.
  - unfold recv_matches. cbn. rewrite Hid, Htag, Z.eqb_refl.
    rewrite word_matches_wildcard by apply Hrc. by rewrite word_matches_wildcard by apply Hrc.
  - unfold m_fresh. cbn. rewrite Hep. apply negb_true_iff, Z.ltb_ge. lia.
  - unfold m_fresh. cbn. by rewrite Z.ltb_irrefl.
  - exists n. cbn. by rewrite (rr_dtype _ _ _ _ _ _ _ Hrc), (rr_count _ _ _ _ _ _ _ Hrc).
  - intros r Hin. apply andb_false_iff. right. by apply (rr_pending _ _ _ _ _ _ _ Hrc).
  - intros m Hin. apply andb_false_iff. right. by apply (rr_unexpected _ _ _ _ _ _ _ Hrc).
Qed.

(** An eager message gets there.  A program posts a send of a consecutive
    datatype that fits the eager buffer; the library posts exactly one send
    request, and when its header and payload arrive at a process with a
    matching receive (posted before or after), that process's buffer holds the
    sender's data at every offset of the layout, nothing else in its memory
    around it changes, and the receive's request is complete with the rank the
    receiver knows the connection by and the sender's tag. *)
Theorem eager_message_delivered `{Malloc} `{Verbs} D1 s1 free aq pq held ps id D2 t c s2 rq st pr :
  malloc_total → reg_total → post_total →
  sender D1 s1 free aq pq held ps id → ready D2 t c s2 rq st → receiver t c s2 st pr ps id →
  m_epoch st ≤ ft_epoch (ft_msg s1) → is_int (pp_tag ps) →
  ends (fdmi_post_send_msg_param s1 ps) (λ s1', ∃ qp q sges ctl bs,
    ps_posted s1' = ps_posted s1 ++ [WSend qp q sges ctl bs] ∧
    ∀ rest es, es = [UReceive pr; UArrive (on_wire ctl bs rest)] ∨ es = [UArrive (on_wire ctl bs rest); UReceive pr] →
      ends (user_run D2 (s2, rq) es) (λ r,
        (∀ o, ps_memory r.1 !! (pp_addr pr + o) =
           if layout (pp_dtype ps) (pp_count ps) o then ps_memory s1 !! (pp_addr ps + o)
           else ps_memory s2 !! (pp_addr pr + o)) ∧
        ∃ r0, ps_requests s2 !! pp_request pr = Some r0 ∧
          ps_requests r.1 !! pp_request pr =
            Some (r0 <| rq_flag := 1 |> <| rq_prank := rank_of t s2 c |> <| rq_tag := pp_tag ps |>))).
Proof.
  intros Hm Hreg Hpost Hsd Hr Hrc Hep Htg. pose proof Hsd as [(c1 & sz & Hli) Hd Hn Hdc Hsm _].
  c_last (sender_sends D1 s1 free aq pq held ps id Hm Hreg Hpost Hsd) as s1'
    (q & ctl & bs & [(qp & sges & Hpo) Hhd Hop Hlen Hholds _ _ _ _]).
  exists qp, q, sges, ctl, bs. split; [done|].
  pose proof Hrc as [Hp Edt Ecn _ _ Hmap [r0 Hr0] _ _]. rewrite Edt, Ecn in Hmap.
  pose proof (eager_copy_ok (pp_dtype ps) (pp_count ps) (ps_memory s1) (ps_memory s2) (pp_addr ps) (pp_addr pr)
    bs Hd Hn Hsm ltac:(lia) Hholds Hmap) as Hcopy.
  apply ends_Done in Hcopy as (mem & Ecopy & Hmem).
  intros rest es Hes. apply (eager_copy_rest _ _ _ rest) in Ecopy; [|done].
  assert (Hclass : same_class st [msg_from t s2 c (on_wire ctl bs rest)] [recv_from s2 (m_epoch st) pr]).
  { apply only_pair_class; [|done]. eapply delivery_pair; try done. exists sz. by destruct Hli. }
  pose proof (rd_implements _ _ _ _ _ _ Hr) as (?&?&?&?&?& He).
  destruct Hhd as (Hty & _ & _ & _ & Htag & Hcnt & _ & Hdt).
  rewrite (en_memory He) in Ecopy. rewrite (en_requests He) in Hr0.
  assert (Hrun : ∃ st', m_run st (map (machine_event t s2 c (m_epoch st)) es) = Done st' ∧
    m_memory st' = mem ∧ m_requests st' = <[pp_request pr := r0 <| rq_flag := 1 |> <| rq_prank := rank_of t s2 c |>
      <| rq_tag := pp_tag ps |>]> (m_requests st)).
  { exists (m_outputs (st <| m_memory := mem |> <| m_requests := <[pp_request pr := r0 <| rq_flag := 1 |>
      <| rq_prank := rank_of t s2 c |> <| rq_tag := pp_tag ps |>]> (m_requests st) |>) 1).
    split; [|done]. rewrite <- (waiting_nil st) at 1.
    rewrite (fifo_run st [] [] [msg_from t s2 c (on_wire ctl bs rest)] [recv_from s2 (m_epoch st) pr]);
      [|done|by left|destruct Hes as [-> | ->]; repeat constructor].
    cbn [app zip zip_with m_takes]. rewrite m_take_eager by done. cbn. rewrite Hcnt, Edt, Ecopy. cbn.
    rewrite (proj2 (load_Done _ _ _) Hr0). cbn. rewrite Htag.
    unfold completed. cbn. rewrite !i32_u64 by (done || apply rank_of_int). by rewrite waiting_nil. }
  destruct Hrun as (st' & Hrun & Hme' & Hrq').
  eapply ends_mono; [eapply (user_run_ok D2 t c s2 rq st es st' Hr)|].
  - assert (event_ok s2 (UReceive pr)) by (by exists id).
    destruct Hes as [-> | ->]; repeat constructor; done.
  - exact Hrun.
  - intros [s' rq'] [Hr' _]. cbn [fst snd].
    pose proof (rd_implements _ _ _ _ _ _ Hr') as (?&?&?&?&?& He').
    cbn [fst snd] in *. rewrite (en_memory He'), Hme', (en_requests He'), Hrq', (en_requests He). split; [done|].
    exists r0. split; [done|]. by rewrite lookup_insert_eq.
Qed.

(** ** An example *)
Definition sample_sender : process := sample_process <| ps_memory := sample_buffer 2000 9 |>.
Definition sample_send : fdmi_post_param := PostParam 1 7 2000 2 sample_block 16 4116 4096 0.
Definition sample_recv : fdmi_post_param := PostParam FMI_ANY_SOURCE 7 1000 2 sample_block 16 4116 4096 0.

Lemma sample_sender_ok : sender 16 sample_sender [] [] [] [] sample_send 3.
Proof.
  split.
  - eexists 32, _. split; [apply inv_memory, sample_inv|by eexists|split; [done|by eexists]|done|done].
  - exact sample_block_wf.
  - done.
  - done.
  - done.
  - by apply sample_block_mapped.
Qed.

Lemma sample_receiver_ok : receiver sample_table 32 sample_ready sample_state sample_recv sample_send 3.
Proof.
  split.
  - split; try done; unfold is_int, INT_MIN, INT_MAX; cbn; lia.
  - done.
  - done.
  - by left.
  - by right.
  - by apply sample_block_mapped.
  - by eexists.
  - by intros r m ?%elem_of_nil.
  - by intros m r ?%elem_of_nil.
Qed.

Lemma eager_message_delivered_witness :
  ends (fdmi_post_send_msg_param sample_sender sample_send) (λ s1', ∃ qp q sges ctl bs,
    ps_posted s1' = [WSend qp q sges ctl bs] ∧
    ends (user_run 16 (sample_ready, [(32, 512)]) [UReceive sample_recv; UArrive (on_wire ctl bs [])]) (λ r,
      ps_memory r.1 !! 1000 = Some 9 ∧ ps_requests r.1 !! 4096 = Some (Request 1 0 7 1))).
Proof.
  eapply ends_mono; [eapply (eager_message_delivered 16 sample_sender [] [] [] [] sample_send 3 16 sample_table 32
    sample_ready [(32, 512)] sample_state sample_recv); [exact Malloc_bump_total|exact sample_reg_total|by intros l w
    |exact sample_sender_ok|exact sample_is_ready|exact sample_receiver_ok|done|unfold is_int, INT_MIN, INT_MAX; cbn; lia]|].
  cbv beta. intros s1 (qp & q & sges & ctl & bs & Hpo & Hall). exists qp, q, sges, ctl, bs. split; [exact Hpo|].
  eapply ends_mono; [apply (Hall [] _); by left|]. cbv beta. intros r [Hmem (r0 & Hr0 & Hr)]. split.
  - specialize (Hmem 0). etrans; [exact Hmem|]. by vm_compute.
  - etrans; [exact Hr|]. vm_compute in Hr0. by injection Hr0 as <-.
Defined.
