(* ===== verification/Api.v ===== *)
(** * src/src/fdmi.c: the calls of the program

    [fdmi_verbs_isend], [fdmi_verbs_irecv], [fdmi_verbs_wait] and the smaller
    calls of fdmi.h, over the operations of Transfer.v.  A call that another
    thread works beside is given the states it observes, one for each of its
    accesses to memory. *)
From S2P Require Import Prelude Mem Queue Hashtable Datatype ProcMan State MrCache Query Matching Transfer Progress MsgSpec Engine Delivery Eager.

Section ops.
Context {HMalloc : Malloc} {HVerbs : Verbs}.
Implicit Types (s : process).

Definition fdmi_is_connected s (rank : Z) : outcome Z :=
  if rank =? FMI_ANY_SOURCE then Done 1
  else peer <- aget (ps_peers s) rank ;; Done (is_connected peer).

(** [fdmi_connect] returns at once, without a value its callers use. *)
Definition fdmi_connect s (rank : Z) : process := s.

Definition fdmi_verbs_comm_size s (comm : Z) : outcome Z :=
  cm <- peek (cs_comms (pm_store (ps_pm s))) comm ;; Done (comm_size cm).

Definition fdmi_verbs_comm_vrank s (comm : Z) : outcome Z :=
  fdmi_comm_get_vrank (ps_pm s) comm (ps_prank s).

(** The tests before a transfer: [if (!fdmi_is_connected(r)) fdmi_connect(r)]. *)
Definition ensure_connected s (rank : Z) : outcome process :=
  c <- fdmi_is_connected s rank ;; Done (if c =? 0 then fdmi_connect s rank else s).

(** The field [op] of the parameter block is never stored. *)
Definition fdmi_verbs_isend s (buf count : Z) (datatype : fdmi_datatype) (vdest tag comm request : Z)
    : outcome (Z * process) :=
  let dest := vdest in
  s <- ensure_connected s dest ;;
  let psparam := PostParam dest tag buf count datatype comm (request + offsetof_request_flag) request garbage_op in
  q <- fdmi_queue_lock_enq (send_req_q s) (pp_request_flag psparam) ;;
  let s := s <| send_req_q := q |> in
  s <- set_flag s (pp_request_flag psparam) 0 ;;
  s <- fdmi_post_send_msg_param s psparam ;;
  Done (FMI_SUCCESS, s).

Definition fdmi_verbs_irecv s (buf count : Z) (datatype : fdmi_datatype) (vsource tag comm request : Z)
    : outcome (Z * process) :=
  source <- fdmi_comm_get_prank (pm_store (ps_pm s)) comm vsource ;;
  s <- ensure_connected s source ;;
  let prparam := PostParam source tag buf count datatype comm (request + offsetof_request_flag) request garbage_op in
  s <- set_flag s (pp_request_flag prparam) 0 ;;
  s <- fdmi_post_recv_msg_param s prparam ;;
  Done (FMI_SUCCESS, s).

(** [fdmi_verbs_test] does not touch the status. *)
Definition fdmi_verbs_test s (request : Z) : outcome Z :=
  r <- load (ps_requests s) request ;; Done (rq_flag r).

(** [while(!fdmi_verbs_test(request, status));] from the [i]-th observed state
    on: the number of the state in which the flag is set. *)
Fixpoint wait_loop (fuel : nat) (obs : nat → process) (i : nat) (request : Z) : outcome nat :=
  match fuel with
  | O => Diverge
  | S fuel =>
      flag <- fdmi_verbs_test (obs i) request ;;
      if flag =? 0 then wait_loop fuel obs (S i) request else Done i
  end.

(** The result and, when the caller passes a [status], its source and its tag,
    which are read in the two states that follow. *)
Definition fdmi_verbs_wait (fuel : nat) (obs : nat → process) (request : Z) (status : bool)
    : outcome (Z * option (Z * Z)) :=
  i <- wait_loop fuel obs 0 request ;;
  if status then
    r1 <- load (ps_requests (obs (i + 1)%nat)) request ;;
    r2 <- load (ps_requests (obs (i + 2)%nat)) request ;;
    Done (FMI_SUCCESS, Some (rq_prank r1, rq_tag r2))
  else Done (FMI_SUCCESS, None).

Definition fdmi_get_state s : fdmi_state := state s.
Definition fdmi_set_state s (st : fdmi_state) : process := s <| state := st |>.

Definition fdmi_verbs_join s : Z * process :=
  match state s with
  | FDMI_COMPUTE | FDMI_FAILURE => (-1, s)
  | FDMI_RECOVERY => (0, s <| state := FDMI_COMPUTE |>)
  | FDMI_JOINING => (1, s <| state := FDMI_COMPUTE |>)
  end.

(** The message of the query is sent with whatever type, count and datatype it
    has. *)
Definition fdmi_inform_loop s (prank loop : Z) : outcome process :=
  peer <- aget (ps_peers s) prank ;;
  conn <- aget (p_conn peer) 0 ;;
  let! (query, s) := fdmi_create_query s conn in
  qu <- query_at s query ;;
  s <- set_query s query (qu <| qu_request_flag := NULL |>) ;;
  msg <- query_msg s query ;;
  s <- set_query_msg s query (msg <| msg_opcode := FDMI_LOOP |> <| msg_loop := loop |>) ;;
  _ <- fdmi_test query ;;
  fdmi_post_send_msg s query.

(** What [show_query_qp_content] prints of a queue: epoch, communicator, rank
    and tag of each message. *)
Definition show_queue s (q : fdmi_queue) : outcome (list (Z * Z * Z * Z) * fdmi_queue) :=
  queue_for (λ tmp_query out q,
    m <- query_msg s tmp_query ;;
    Done (false, out ++ [(msg_epoch m, msg_comm_id m, msg_rank m, msg_tag m)], q)) [] q.

Definition show_query_qp_content s : outcome (list (Z * Z * Z * Z) * list (Z * Z * Z * Z) * process) :=
  domain <- aget (ps_domains s) 0 ;;
  let D := dom_dctx domain in
  let! (_, s) := on_aq s D (unit_op fdmi_queue_lock) in
  let! (a, s) := on_aq s D (show_queue s) in
  let! (_, s) := on_aq s D (unit_op fdmi_queue_unlock) in
  let! (_, s) := on_pq s D (unit_op fdmi_queue_lock) in
  let! (p, s) := on_pq s D (show_queue s) in
  let! (_, s) := on_pq s D (unit_op fdmi_queue_unlock) in
  Done (a, p, s).
End ops.

(** ** Waiting *)

(** The flag of a request that is live. *)
Definition flag_is (P : Z → Prop) (s : process) (request : Z) : Prop :=
  ∃ r, ps_requests s !! request = Some r ∧ P (rq_flag r).
Definition unset : Z → Prop := λ f, f = 0.
Definition raised : Z → Prop := λ f, f ≠ 0.

Lemma wait_loop_ok obs request fuel i n :
  (∀ j, (i ≤ j < n)%nat → flag_is unset (obs j) request) → flag_is raised (obs n) request →
  (i ≤ n)%nat → (n - i < fuel)%nat → wait_loop fuel obs i request = Done n.
Proof.
  intros Hu (rn & Hrn & Hn). revert i Hu. induction fuel as [|fuel IH]; intros i Hu Hi Hf; [lia|]. cbn.
  unfold fdmi_verbs_test. destruct (decide (i = n)) as [->|Hne].
  - rewrite (proj2 (load_Done _ _ _) Hrn). cbn [obind]. by rewrite (proj2 (Z.eqb_neq _ _)).
  - destruct (Hu i) as (r & Hr & Hfl); [lia|]. rewrite (proj2 (load_Done _ _ _) Hr). cbn [obind].
    rewrite (proj2 (Z.eqb_eq _ _)) by done. apply IH; [|lia|lia]. intros j Hj. apply Hu. lia.
Qed.

Lemma wait_loop_never obs request fuel i :
  (∀ j, (i ≤ j)%nat → flag_is unset (obs j) request) → wait_loop fuel obs i request = Diverge.
Proof.
  revert i. induction fuel as [|fuel IH]; intros i Hobs; [done|]. cbn. unfold fdmi_verbs_test.
  destruct (Hobs i) as (r & Hr & Hfl); [lia|]. rewrite (proj2 (load_Done _ _ _) Hr). cbn [obind].
  rewrite Hfl. cbn. apply IH. intros j Hj. apply Hobs. lia.
Qed.

(** When the flag is set at all there is a first state in which it is. *)
Lemma first_raised obs request n :
  (∀ n, flag_is raised (obs n) request ∨ flag_is unset (obs n) request) → flag_is raised (obs n) request →
  ∃ k, flag_is raised (obs k) request ∧ ∀ j, (j < k)%nat → flag_is unset (obs j) request.
Proof.
  intros Hdec Hn.
  assert (Hc : ∀ n, (∃ k, flag_is raised (obs k) request ∧ ∀ j, (j < k)%nat → flag_is unset (obs j) request) ∨
                    ∀ j, (j < n)%nat → flag_is unset (obs j) request).
  { clear n Hn. induction n as [|n [?|Hu]]; [right; lia|by left|].
    destruct (Hdec n) as [Hr|Hr]; [left; by exists n|].
    right. intros j Hj. destruct (decide (j = n)) as [->|]; [done|]. apply Hu. lia. }
  destruct (Hc n) as [?|Hu]; [done|]. by exists n.
Qed.

(** C18: [fdmi_verbs_wait] returns if and only if the flag is set in some state it
    observes; it then returns success at the first such state, with the source
    and the tag the request has in the states after it. *)
Theorem wait_returns_iff_flag_set obs request :
  (∀ n, is_Some (ps_requests (obs n) !! request)) →
  ((∃ n, flag_is raised (obs n) request) ↔
     ∃ fuel v, fdmi_verbs_wait fuel obs request true = Done v) ∧
  ∀ n fuel r1 r2, flag_is raised (obs n) request → (∀ j, (j < n)%nat → flag_is unset (obs j) request) →
    (n < fuel)%nat → ps_requests (obs (n + 1)%nat) !! request = Some r1 →
    ps_requests (obs (n + 2)%nat) !! request = Some r2 →
    fdmi_verbs_wait fuel obs request true = Done (FMI_SUCCESS, Some (rq_prank r1, rq_tag r2)).
Proof.
  intros Hlive.
  assert (Hfirst : ∀ n fuel r1 r2, flag_is raised (obs n) request → (∀ j, (j < n)%nat → flag_is unset (obs j) request) →
    (n < fuel)%nat → ps_requests (obs (n + 1)%nat) !! request = Some r1 →
    ps_requests (obs (n + 2)%nat) !! request = Some r2 →
    fdmi_verbs_wait fuel obs request true = Done (FMI_SUCCESS, Some (rq_prank r1, rq_tag r2))).
  { intros n fuel r1 r2 Hn Hj Hf H1 H2. unfold fdmi_verbs_wait.
    rewrite (wait_loop_ok obs request fuel 0 n) by (done || lia || (intros j ?; apply Hj; lia)).
    cbn [obind]. by rewrite (proj2 (load_Done _ _ _) H1), (proj2 (load_Done _ _ _) H2). }
  split; [|exact Hfirst].
  assert (Hdec : ∀ n, flag_is raised (obs n) request ∨ flag_is unset (obs n) request).
  { intros n. destruct (Hlive n) as [r Hr]. destruct (decide (rq_flag r = 0)); [right|left]; by exists r. }
  split.
  - intros [n Hn]. destruct (first_raised obs request n Hdec Hn) as (k & Hk & Hu).
    destruct (Hlive (k + 1)%nat) as [r1 H1], (Hlive (k + 2)%nat) as [r2 H2].
    exists (S k). eexists. apply (Hfirst k); try done. lia.
  - intros (fuel & v & Hw). unfold fdmi_verbs_wait in Hw. apply obind_Done_inv in Hw as (i & Hi & _).
    revert Hi. generalize 0%nat. induction fuel as [|fuel IH]; intros k; [done|]. cbn.
    destruct (Hdec k) as [Hr|(r & Hr & Hz)]; [by exists k|]. unfold fdmi_verbs_test.
    rewrite (proj2 (load_Done _ _ _) Hr). cbn [obind]. rewrite Hz. apply IH.
Qed.

(** The flag is set in the third state. *)
Definition sample_waiting (n : nat) : process :=
  sample_process <| ps_requests := {[ 4096 := Request 1 0 7 (if (n <? 2)%nat then 0 else 1) ]} |>.

Lemma wait_returns_iff_flag_set_witness :
  fdmi_verbs_wait 3 sample_waiting 4096 true = Done (0, Some (1, 7)).
Proof.
  apply (proj2 (wait_returns_iff_flag_set sample_waiting 4096 ltac:(intros n; by eexists)) 2%nat 3%nat
    (Request 1 0 7 1) (Request 1 0 7 1)); try done.
  - by eexists.
  - intros [|[|j]] Hj; [by eexists|by eexists|lia].
  - lia.
Defined.

(** ** The life of a send *)
Section sends.
Context {HMalloc : Malloc} {HVerbs : Verbs}.
Context {rep : mutex → fdmi_queue → list Z → Prop} `{!QueueContract rep}.
Context (Hm : malloc_total) (D : Z) (ma mp : mutex) (aq pq : list Z).

(** The queue of unfinished sends may change as it likes. *)
Lemma inv_sreq s free held q l :
  proc_inv rep s D ma mp free aq pq held → rep Unlocked q l →
  proc_inv rep (s <| send_req_q := q |>) D ma mp free aq pq held.
Proof. intros [] Hq. split; try done. by exists l. Qed.

(** The request whose flag the address [flag] is. *)
Definition flag_of (s : process) (flag req : Z) (r : fdmi_request) : Prop :=
  flag = req + offsetof_request_flag ∧ ps_requests s !! req = Some r.

Lemma set_flag_of s flag req r v :
  flag_of s flag req r → set_flag s flag v = Done (s <| ps_requests := <[req := r <| rq_flag := v |>]> (ps_requests s) |>).
Proof.
  intros [-> Hr]. rewrite (set_flag_ok _ _ r); rewrite Z.add_simpl_r; [done|exact Hr].
Qed.

(** What a handler leaves alone, besides the queries outside [P]. *)
Definition steady (s s' : process) (P : Z → Prop) : Prop :=
  fixed_user s' = fixed_user s ∧ ps_memory s' = ps_memory s ∧ others_kept s s' P.

Lemma steady_trans s1 s2 s3 P : steady s1 s2 P → steady s2 s3 P → steady s1 s3 P.
Proof. intros (H1 & H2 & H3) (H4 & H5 & H6). split_and!; [congruence|congruence|by eapply others_kept_trans]. Qed.

(** The end of an eager send. *)
Lemma on_send_wc_ok s free held q qu m l req r :
  proc_inv rep s D ma mp free aq pq (q :: held) → cells (ps_queries s) !! q = Some qu →
  query_msg s q = Done m → msg_opcode m = FDMI_EAGER → rep Unlocked (send_req_q s) l →
  flag_of s (qu_request_flag qu) req r →
  ends (fdmi_on_send_cq_wc_send s q) (λ s',
    ps_requests s' = <[req := r <| rq_flag := 1 |>]> (ps_requests s) ∧
    rep Unlocked (send_req_q s') (remove_first (qu_request_flag qu) l) ∧
    proc_inv rep s' D ma mp (free ++ [q]) aq pq held ∧
    steady s s' (λ _, True) ∧ ps_pm s' = ps_pm s ∧ ps_posted s' = ps_posted s).
Proof.
  intros Hinv Hqu Hmsg Hop Hl Hr. unfold fdmi_on_send_cq_wc_send. rewrite Hmsg. cbn [obind]. rewrite Hop.
  change (FDMI_EAGER =? FDMI_EAGER) with true. cbv iota. unfold query_at, peek.
  rewrite (proj2 (load_Done _ _ _) Hqu). cbn [obind]. rewrite (set_flag_of _ _ req r) by done. cbn [obind].
  rewrite obind_assoc. apply ends_bind.
  eapply ends_mono; [apply (forget_request_ok (rep := rep) D ma mp free aq pq _ (q :: held)), inv_requests, Hinv|].
  intros s1 (lq & -> & Hinv1). rewrite obind_assoc. cbn [obind].
  c_step (rep_lock_remove (rep := rep)) as q2 Hq2. cbn [obind].
  eapply ends_mono; [eapply (destroy_query_ok (rep := rep) Hm _ D ma mp free aq pq (q :: held)); [|done]|].
  { eapply inv_sreq; [exact Hinv1|exact Hq2]. }
  intros s2 (fq & cnt & -> & Hinv2).
  by split_and!.
Qed.
End sends.

Section rounds.
Context {HMalloc : Malloc} {HVerbs : Verbs} (Hm : malloc_total) (D : Z) (ma mp : mutex) (aq pq : list Z).

(** The opening of a round for a query the thread holds: only the table of
    connections and the rank of the message change. *)
Lemma round_start t s free held q qu m :
  proc_inv queue_rep s D ma mp free aq pq (q :: held) → routes t s →
  cells (ps_queries s) !! q = Some qu → qu_conn qu ≠ NULL → query_msg s q = Done m →
  ∃ pm ms m', m' = m <| msg_rank := u64 (rank_of t s (qu_conn qu)) |> ∧
    routes t (s <| ps_pm := pm |>) ∧
    steady s (s <| ps_pm := pm |> <| ps_msgs := ms |>) (λ x, x ≠ q) ∧
    proc_inv queue_rep (s <| ps_pm := pm |> <| ps_msgs := ms |>) D ma mp free aq pq (q :: held) ∧
    query_msg (s <| ps_pm := pm |> <| ps_msgs := ms |>) q = Done m' ∧
    ∀ opcode, fdmi_poll_sendrecv_cq s D opcode q =
      (let s := s <| ps_pm := pm |> <| ps_msgs := ms |> in
       match opcode with
       | IBV_WC_RECV =>
           if msg_type m =? FDMI_COMM_INIT then fdmi_on_recv_cq_wc_recv s D q
           else if msg_type m =? FDMI_COMM_FIN then
             s <- fdmi_on_send_cq_wc_recv s q ;; Done (s <| ps_ct := i32 (ps_ct s - 1) |>)
           else Done s
       | IBV_WC_RDMA_READ => fdmi_on_recv_cq_wc_rdma_read s q
       | IBV_WC_SEND =>
           if msg_type m =? FDMI_COMM_INIT then
             s <- fdmi_on_send_cq_wc_send s q ;; Done (s <| ps_ct := i32 (ps_ct s + 1) |>)
           else if msg_type m =? FDMI_COMM_FIN then fdmi_on_recv_cq_wc_send s q
           else Done s
       | _ => Done s
       end).
Proof.
  intros Hinv Hrt Hqu Hc Hmsg. destruct (pi_query Hinv q qu Hqu) as [_ Hwf]. destruct (Hwf Hc) as [[cn Hcn] _].
  pose proof (itop_get_ok t s (qu_conn qu) cn Hrt Hcn) as Hget.
  apply ends_Done in Hget as ([rank pm] & Hget & Hrk & Hrt' & Hst & _). cbn [fst snd] in *. subst rank.
  pose proof (set_query_msg_ok (rep := queue_rep) D ma mp free aq pq (s <| ps_pm := pm |>) (q :: held) q
    (m <| msg_rank := u64 (rank_of t s (qu_conn qu)) |>)) as Hset.
  specialize (Hset (inv_pm _ _ _ _ _ _ _ _ _ Hinv) ltac:(set_solver)).
  apply ends_Done in Hset as (s' & Hset & ms & -> & Hinv' & Hmsg' & Hold).
  eexists pm, ms, _. split; [reflexivity|]. split; [exact Hrt'|].
  split; [split_and!; [unfold fixed_user; cbn; by rewrite Hst|done|split; [done|exact Hold]]|]. split; [exact Hinv'|]. split; [exact Hmsg'|].
  intros opcode. unfold fdmi_poll_sendrecv_cq, query_at, conn_at, peek.
  rewrite (proj2 (load_Done _ _ _) Hqu). cbn [obind]. rewrite (proj2 (load_Done _ _ _) Hcn). cbn [obind].
  rewrite Hget. cbn [obind].
  match goal with |- context [query_msg ?x q] => change (query_msg x q) with (query_msg s q) end.
  rewrite Hmsg. cbn [obind]. by rewrite Hset.
Qed.

Lemma poll_send_ok t s free held q qu m l req r :
  proc_inv queue_rep s D ma mp free aq pq (q :: held) → routes t s →
  cells (ps_queries s) !! q = Some qu → qu_conn qu ≠ NULL → query_msg s q = Done m →
  msg_type m = FDMI_COMM_INIT → msg_opcode m = FDMI_EAGER → queue_rep Unlocked (send_req_q s) l →
  flag_of s (qu_request_flag qu) req r →
  ends (fdmi_poll_sendrecv_cq s D IBV_WC_SEND q) (λ s',
    ps_requests s' = <[req := r <| rq_flag := 1 |>]> (ps_requests s) ∧
    queue_rep Unlocked (send_req_q s') (remove_first (qu_request_flag qu) l) ∧
    proc_inv queue_rep s' D ma mp (free ++ [q]) aq pq held ∧
    steady s s' (λ x, x ≠ q) ∧ routes t s' ∧ ps_posted s' = ps_posted s).
Proof.
  intros Hinv Hrt Hqu Hc Hmsg Hty Hop Hl Hr.
  destruct (round_start t s free held q qu m Hinv Hrt Hqu Hc Hmsg) as (pm & ms & m' & -> & Hrt1 & Hst1 & Hinv' & Hmsg' & E).
  rewrite E. cbv zeta. rewrite Hty. change (FDMI_COMM_INIT =? FDMI_COMM_INIT) with true. cbv iota.
  c_step (on_send_wc_ok (rep := queue_rep) Hm D ma mp aq pq) as s' (Hrq & Hl' & Hinv2 & (Hf2 & Hme2 & Ha2 & Hb2) & Hpm & Hpo).
  cbn [ends]. split_and!; [exact Hrq|exact Hl'|by destruct Hinv2| |unfold routes; cbn; rewrite Hpm; exact Hrt1|exact Hpo].
  eapply steady_trans; [exact Hst1|]. split_and!; [exact Hf2|exact Hme2|]. split; intros x y _; [by apply Ha2|by apply Hb2].
Qed.
End rounds.

Lemma sender_flag_fresh l (p : Z) : p ∉ l → remove_first p (l ++ [p]) = l.
Proof. intros Hp. rewrite remove_first_app by done. by rewrite app_nil_r. Qed.

(** The parameter block of a call of [fdmi_verbs_isend]. *)
Definition isend_param `{Verbs} (buf count : Z) (datatype : fdmi_datatype) (dest tag comm request : Z) : fdmi_post_param :=
  PostParam dest tag buf count datatype comm (request + offsetof_request_flag) request garbage_op.

(** A process whose connection leads to [dest] has nothing to connect. *)
Lemma ensure_connected_ok s dest peer : aget (ps_peers s) dest = Done peer → ensure_connected s dest = Done s.
Proof.
  intros Hpe. unfold ensure_connected, fdmi_is_connected, fdmi_connect. case_match; [done|]. rewrite Hpe. cbn.
  by case_match.
Qed.

(** The process after [fdmi_verbs_isend]'s first stores: the request's flag is
    cleared and among the unfinished sends. *)
Definition announced (s : process) (q : fdmi_queue) (req : Z) (r : fdmi_request) : process :=
  s <| send_req_q := q |> <| ps_requests := <[req := r <| rq_flag := 0 |>]> (ps_requests s) |>.

(** A call of [fdmi_verbs_isend] is those stores and the send. *)
Lemma isend_start `{Malloc} `{Verbs} D s free aq pq held buf count datatype dest tag comm request id c size l r
    (k : Z * process → Prop) :
  malloc_total →
  linked (rep := queue_rep) D Unlocked Unlocked aq pq s free held (isend_param buf count datatype dest tag comm request) id c size →
  queue_rep Unlocked (send_req_q s) l → ps_requests s !! request = Some r →
  (∀ q, queue_rep Unlocked q (l ++ [request + offsetof_request_flag]) →
    linked (rep := queue_rep) D Unlocked Unlocked aq pq (announced s q request r) free held
      (isend_param buf count datatype dest tag comm request) id c size →
    ends (fdmi_post_send_msg_param (announced s q request r) (isend_param buf count datatype dest tag comm request))
      (λ s', k (FMI_SUCCESS, s'))) →
  ends (fdmi_verbs_isend s buf count datatype dest tag comm request) k.
Proof.
  intros Hm [Hinv (peer & Hpe & Hcn) Hlive Hid Hsize] Hl Hr Hk. unfold fdmi_verbs_isend.
  rewrite (ensure_connected_ok _ _ peer) by exact Hpe. cbn [obind].
  c_step (rep_lock_enq (rep := queue_rep)) as q Hq. cbn [pp_request_flag].
  rewrite (set_flag_of _ _ request r) by (by split). cbn [obind].
  specialize (Hk q Hq). apply ends_bind. eapply ends_mono; [apply Hk|done].
  split; try done; [|by exists peer]. apply inv_requests. eapply inv_sreq; [done|exact Hq].
Qed.

(** The life of an eager send.  [fdmi_verbs_isend] returns with the request's
    flag cleared and one send posted; when the completion of that send is
    handled the flag is set, the request is no longer among the unfinished
    sends and the query is back in the pool, so that a [fdmi_verbs_wait] that
    observes the process before and after returns. *)
Theorem eager_send_completes `{Malloc} `{Verbs} D s free aq pq held buf count datatype dest tag comm request id t l r :
  malloc_total → reg_total → post_total →
  sender D s free aq pq held (isend_param buf count datatype dest tag comm request) id → routes t s →
  queue_rep Unlocked (send_req_q s) l → request + offsetof_request_flag ∉ l →
  ps_requests s !! request = Some r →
  ends (fdmi_verbs_isend s buf count datatype dest tag comm request) (λ r1,
    r1.1 = FMI_SUCCESS ∧ ps_requests r1.2 = <[request := r <| rq_flag := 0 |>]> (ps_requests s) ∧
    queue_rep Unlocked (send_req_q r1.2) (l ++ [request + offsetof_request_flag]) ∧
    ∃ qp q sges ctl bs, ps_posted r1.2 = ps_posted s ++ [WSend qp q sges ctl bs] ∧
    ends (fdmi_poll_sendrecv_cq r1.2 D IBV_WC_SEND q) (λ s2,
      ps_requests s2 = <[request := r <| rq_flag := 1 |>]> (ps_requests s) ∧
      queue_rep Unlocked (send_req_q s2) l ∧
      (∃ free', proc_inv queue_rep s2 D Unlocked Unlocked (free' ++ [q]) aq pq held) ∧
      ∀ obs k, (∀ j, (j < k)%nat → obs j = r1.2) → (∀ j, (k ≤ j)%nat → obs j = s2) →
        fdmi_verbs_wait (S k) obs request false = Done (FMI_SUCCESS, None))).
Proof.
  intros Hm Hreg Hpost [(c & size & Hli) Hd Hn Hdc Hsm Hbuf] Hrt Hl Hfresh Hr.
  apply (isend_start D s free aq pq held buf count datatype dest tag comm request id c size l r); try done.
  set (ps := isend_param _ _ _ _ _ _ _) in *. intros q Hq Hli0. set (s0 := announced s q request r) in *.
  c_last (sender_sends D s0 free aq pq held ps id Hm Hreg Hpost) as s1
    (a & ctl & bs & [(qp & sges & Hpo) (Hty & _) Hop _ _ [free' Hinv1] [Hmsg (qu & Hqu & Hqc & Hqf)] Hrq1 (sp & Hsp & Es1)]);
    [by split; [eexists _, _| | | | |]|].
  cbn [fst snd]. assert (Hs1 : send_req_q s1 = q ∧ routes t s1).
  { rewrite Es1. by destruct Hsp as (?&?&?&?&?&?&?& ->). }
  destruct Hs1 as [Hsr Hrt1].
  split_and!; [done|exact Hrq1|by rewrite Hsr|]. exists qp, a, sges, ctl, bs. split; [exact Hpo|].
  eapply ends_mono; [eapply (poll_send_ok Hm D Unlocked Unlocked aq pq t s1 free' held a qu ctl
    (l ++ [pp_request_flag ps]) request (r <| rq_flag := 0 |>)); try done|].
  - by rewrite Hsr.
  - split; [by rewrite Hqf|]. rewrite Hrq1. cbn. by rewrite lookup_insert_eq.
  - intros s2 (Hrq2 & Hl2 & Hinv2 & _). rewrite Hqf, (sender_flag_fresh l) in Hl2 by done.
    rewrite Hrq1 in Hrq2. cbn in Hrq2. rewrite insert_insert_eq in Hrq2.
    split_and!; [exact Hrq2|exact Hl2|by exists free'|]. intros obs k Hb Ha. unfold fdmi_verbs_wait.
    rewrite (wait_loop_ok obs request (S k) 0 k); [done| | |lia|lia].
    + intros j Hj. exists (r <| rq_flag := 0 |>). rewrite Hb by lia. rewrite Hrq1. cbn. by rewrite lookup_insert_eq.
    + exists (r <| rq_flag := 1 |>). rewrite Ha by lia. rewrite Hrq2. by rewrite lookup_insert_eq.
Qed.

Lemma sample_isend_ok : sender 16 sample_sender [] [] [] [] (isend_param 2000 2 sample_block 1 7 16 4096) 3.
Proof. destruct sample_sender_ok as [(c & n & [])]. split; try done. exists c, n. by split. Qed.

Lemma eager_send_completes_witness :
  ends (fdmi_verbs_isend sample_sender 2000 2 sample_block 1 7 16 4096) (λ r1,
    ps_requests r1.2 !! 4096 = Some (Request 0 0 0 0) ∧ ∃ q,
    ends (fdmi_poll_sendrecv_cq r1.2 16 IBV_WC_SEND q) (λ s2, ps_requests s2 !! 4096 = Some (Request 0 0 0 1))).
Proof.
  eapply ends_mono; [eapply (eager_send_completes 16 sample_sender [] [] [] [] 2000 2 sample_block 1 7 16 4096 3
    sample_table [] (Request 0 0 0 0)); [exact Malloc_bump_total|exact sample_reg_total|by intros l w
    |exact sample_isend_ok|exact sample_routes|exact empty_queue_rep|set_solver|done]|].
  cbv beta. intros r1 (_ & Hrq & _ & qp & q & sges & ctl & bs & _ & Hs). split; [by rewrite Hrq|]. exists q.
  eapply ends_mono; [exact Hs|]. cbv beta. intros s2 (Hrq2 & _). by rewrite Hrq2.
Defined.

(** ** Completion messages *)

(** What a completion message does to the requests: the oldest unfinished send
    is finished, if there is one. *)
Definition fin_effect (s : process) (flags : list Z) (rqs : gmap Z fdmi_request) : Prop :=
  match flags with
  | [] => rqs = ps_requests s
  | flag :: _ => flag ≠ NULL ∧ ∃ req r, flag_of s flag req r ∧ rqs = <[req := r <| rq_flag := 1 |>]> (ps_requests s)
  end.

(** A receive that is posted: a query with a connection, to which no other is
    tied. *)
Definition listens (s : process) (a : Z) : Prop :=
  ∃ qa, cells (ps_queries s) !! a = Some qa ∧ qu_conn qa ≠ NULL ∧ active_query_to_free qa = NULL.

Lemma listens_posted s a p : listens s a → listens (s <| ps_posted := p |>) a.
Proof. by destruct s. Qed.

(** The handler of a completion message: besides the requests and the queue of
    unfinished sends only the pool changes, and a new receive is posted. *)
Lemma on_fin_ok `{Malloc} `{Verbs} D s free aq pq held q m l rqs :
  malloc_total → reg_total → post_total → conns_ready s →
  proc_inv queue_rep s D Unlocked Unlocked free aq pq (q :: held) →
  listens s q → query_msg s q = Done m → queue_rep Unlocked (send_req_q s) l → fin_effect s l rqs →
  ends (fdmi_on_send_cq_wc_recv s q) (λ s',
    ps_requests s' = rqs ∧ queue_rep Unlocked (send_req_q s') (tail l) ∧ ps_pm s' = ps_pm s ∧
    ∃ free' q' qp sges, ps_posted s' = ps_posted s ++ [WRecv qp q' sges] ∧ steady s s' (λ x, x ≠ q') ∧ listens s' q' ∧
      proc_inv queue_rep s' D Unlocked Unlocked free' aq pq (q' :: held)).
Proof.
  intros Hm Hreg Hpost Hready Hinv (qu & Hqu & Hc & Hact) Hmsg Hl Hr. unfold fdmi_on_send_cq_wc_recv.
  rewrite Hmsg. cbn [obind]. rewrite never_discarded. c_step (rep_lock_deq (rep := queue_rep)) as [d q1] [-> Hq1].
  cbn [fst snd] in *. set (s0 := s <| send_req_q := q1 |>).
  assert (E : (if negb ((spec_op Deq l).1 =? NULL) then set_flag s0 (spec_op Deq l).1 1 else Done s0)
    = Done (s0 <| ps_requests := rqs |>)).
  { clear -Hr. destruct l as [|flag l]; cbn [spec_op fst fin_effect] in *.
    - subst rqs. unfold s0. by destruct s.
    - destruct Hr as (Hf0 & req & r & Hfl & ->). rewrite (proj2 (Z.eqb_neq _ _) Hf0). cbn [negb].
      by rewrite (set_flag_of _ _ req r) by exact Hfl. }
  rewrite E. cbn [obind]. unfold destroy_active, query_at, peek. set (s1 := s0 <| ps_requests := rqs |>).
  assert (Hinv1 : proc_inv queue_rep s1 D Unlocked Unlocked free aq pq (q :: held))
    by (apply inv_requests; eapply inv_sreq; [exact Hinv|exact Hq1]).
  rewrite (proj2 (load_Done _ _ _) (Hqu : cells (ps_queries s1) !! q = Some qu)). cbn [obind]. rewrite Hact.
  change (negb (NULL =? NULL)) with false. cbv iota. cbn [obind].
  c_step (destroy_query_ok (rep := queue_rep) Hm s1 D Unlocked Unlocked free aq pq (q :: held) Hinv1 q held) as s2
    (fq & cnt & -> & Hinv2).
  c_last (repost_ok (rep := queue_rep) Hm Hreg Hpost D _ _ _ aq pq _ held q qu Hinv2) as s3
    (s2 & q' & cn & sges & Hcr & _ & -> & free' & Hinv3).
  pose proof (others_kept_created _ _ _ _ _ _ _ _ _ _ Hcr) as Hk.
  assert (Hls : listens s2 q').
  { destruct Hcr as (?&?&?&?&?&?&?&?& qu' & -> & _ & Hqu' & Hcq & _ & Ha & _). exists qu'. by rewrite Hcq. }
  apply pooled_created in Hcr as (?&?&?&?&?&?&?& ->).
  split; [reflexivity|]. split; [by destruct l|]. split; [reflexivity|]. exists free', q', (cn_qp cn), sges.
  split; [reflexivity|]. split.
  { split; [reflexivity|split; [reflexivity|]].
    exact Hk. }
  split.
  { by apply listens_posted. }
  exact Hinv3.
Qed.

(** A completion message says that one large send is finished, not which.
    Whatever message the handler finds, it completes the request that has waited
    longest: the head of the queue of unfinished sends, in which eager sends
    wait as well. *)
Theorem fin_completes_oldest `{Malloc} `{Verbs} D s free aq pq held q qu m flag l req r :
  malloc_total → reg_total → post_total → conns_ready s →
  proc_inv queue_rep s D Unlocked Unlocked free aq pq (q :: held) →
  cells (ps_queries s) !! q = Some qu → qu_conn qu ≠ NULL → active_query_to_free qu = NULL →
  query_msg s q = Done m → queue_rep Unlocked (send_req_q s) (flag :: l) → flag ≠ NULL → flag_of s flag req r →
  ends (fdmi_on_send_cq_wc_recv s q) (λ s',
    ps_requests s' = <[req := r <| rq_flag := 1 |>]> (ps_requests s) ∧
    queue_rep Unlocked (send_req_q s') l ∧
    ∃ free' q' qp sges, ps_posted s' = ps_posted s ++ [WRecv qp q' sges] ∧
      proc_inv queue_rep s' D Unlocked Unlocked free' aq pq (q' :: held)).
Proof.
  intros Hm Hreg Hpost Hready Hinv Hqu Hc Hact Hmsg Hl Hf0 Hr.
  c_last (on_fin_ok D s free aq pq held q m (flag :: l) (<[req := r <| rq_flag := 1 |>]> (ps_requests s))) as s'
    (Hrq & Hl' & _ & free' & q' & qp & sges & Hpo & _ & _ & Hinv').
  - by exists qu.
  - split; [done|]. by exists req, r.
  - split_and!; [done|done|]. by exists free', q', qp, sges.
Qed.

(** Two sends wait: the requests at 4096 and 8192. *)
Definition sample_sends : process := sample_ready <| send_req_q := queue_of [(16, 4116); (32, 8212)] 0 Unlocked |>.

Lemma sample_sends_queue : queue_rep Unlocked (send_req_q sample_sends) [4116; 8212].
Proof. exists [(16, 4116); (32, 8212)], 0. split_and!; [split; cbn; [repeat constructor; set_solver|set_solver]|done..]. Qed.

Lemma fin_completes_oldest_witness :
  ends (fdmi_on_send_cq_wc_recv sample_sends 512) (λ s',
    ps_requests s' !! 4096 = Some (Request 0 0 0 1) ∧ ps_requests s' !! 8192 = Some (Request 0 0 0 0)).
Proof.
  eapply ends_mono; [eapply (fin_completes_oldest 16 sample_sends [] [] [] [] 512 (Query 32 528 600 NULL NULL NULL)
    (garbage_msg 0) 4116 [8212] 4096 (Request 0 0 0 0)); try done|].
  - exact Malloc_bump_total.
  - exact sample_reg_total.
  - intros c cn. cbn. rewrite lookup_singleton. case_decide; [|done]. by intros [= <-].
  - eapply inv_sreq; [exact sample_ready_inv|exact sample_sends_queue].
  - exact sample_sends_queue.
  - cbv beta. intros s' (Hrq & _). rewrite Hrq. by vm_compute.
Defined.

(** ** The status and the flag *)
Section race.
Context {HMalloc : Malloc} {HVerbs : Verbs}.
Implicit Types (s : process).

(** [fdmi_cpy_eager_buff] up to the store of the flag, its two stores to the
    status fields, and the rest. *)
Definition cpy_flag s (passive_query active_query : Z) : outcome process :=
  pm <- query_msg s passive_query ;;
  am <- query_msg s active_query ;;
  mem <- eager_copy (msg_dtype pm) (msg_count am) (eager_buff am) (ps_memory s) (msg_addr pm) ;;
  pq <- query_at s passive_query ;;
  set_flag (s <| ps_memory := mem |>) (qu_request_flag pq) 1.
Definition cpy_source s (passive_query active_query : Z) : outcome process :=
  am <- query_msg s active_query ;;
  pq <- query_at s passive_query ;;
  set_request_source s (qu_request pq) (msg_rank am) (msg_tag am).
Definition cpy_rest s (passive_query active_query : Z) : outcome process :=
  s <- forget_request s (passive_query + offsetof_query_request_flag) ;;
  s <- fdmi_destroy_query s passive_query ;;
  fdmi_destroy_query s active_query.
End race.

(** C38: the completion thread sets the flag of a receive before it stores the
    source and the tag.  A [fdmi_verbs_wait] that runs between the two stores
    returns success with the source and the tag the request had before; one that
    runs after them returns those of the message. *)
Theorem status_read_too_early `{Malloc} `{Verbs} s p a qp pm am r mem :
  cells (ps_queries s) !! p = Some qp → query_msg s p = Done pm → query_msg s a = Done am →
  request_ok s (qu_request_flag qp) (qu_request qp) r →
  eager_copy (msg_dtype pm) (msg_count am) (eager_buff am) (ps_memory s) (msg_addr pm) = Done mem →
  ends (cpy_flag s p a) (λ s1,
    fdmi_cpy_eager_buff s p a = (s2 <- cpy_source s1 p a ;; cpy_rest s2 p a) ∧
    fdmi_verbs_wait 1 (λ _, s1) (qu_request qp) true = Done (FMI_SUCCESS, Some (rq_prank r, rq_tag r)) ∧
    ends (cpy_source s1 p a) (λ s2,
      fdmi_verbs_wait 1 (λ _, s2) (qu_request qp) true =
        Done (FMI_SUCCESS, Some (i32 (msg_rank am), i32 (msg_tag am))))).
Proof.
  intros Hqp Hpm Ham [Hfl Hr] Hmem. unfold cpy_flag, fdmi_cpy_eager_buff. rewrite Hpm, Ham. cbn [obind].
  rewrite Hmem. cbn [obind]. unfold query_at, peek. rewrite (proj2 (load_Done _ _ _) Hqp). cbn [obind].
  rewrite (set_flag_of _ _ (qu_request qp) r) by (by split). set (s1 := s <| ps_memory := mem |> <| ps_requests := _ |>).
  cbn [obind ends].
  assert (Hs1 : cpy_source s1 p a = set_request_source s1 (qu_request qp) (msg_rank am) (msg_tag am)).
  { unfold cpy_source. change (query_msg s1 a) with (query_msg s a). rewrite Ham. cbn [obind].
    unfold query_at, peek. by rewrite (proj2 (load_Done _ _ _) (Hqp : cells (ps_queries s1) !! p = Some qp)). }
  rewrite Hs1. cbn [obind]. split.
  { change (load (cells (ps_queries (s <| ps_memory := mem |>))) p) with (load (cells (ps_queries s)) p).
    rewrite (proj2 (load_Done _ _ _) Hqp). cbn [obind]. by rewrite (set_flag_of _ _ (qu_request qp) r) by (by split). }
  split.
  - unfold fdmi_verbs_wait. cbn. unfold fdmi_verbs_test, load. cbn. by rewrite lookup_insert_eq.
  - rewrite (set_request_source_ok _ _ (r <| rq_flag := 1 |>)) by (cbn; by rewrite lookup_insert_eq). cbn [ends].
    unfold fdmi_verbs_wait. cbn. unfold fdmi_verbs_test, load. cbn. by rewrite lookup_insert_eq.
Qed.

(** A receive is pending and its message has arrived. *)
Definition sample_race : process :=
  sample_ready <| ps_queries := Heap (<[544 := Query NULL 560 NULL NULL 4116 4096]> {[ 512 := Query 32 528 600 NULL NULL NULL ]}) 2 |>
    <| ps_msgs := Heap (<[560 := sample_msg <| msg_addr := 1000 |> <| msg_rank := 1 |>]> {[ 528 := sample_msg <| msg_rank := 1 |> ]}) 2 |>.

Lemma status_read_too_early_witness :
  ends (cpy_flag sample_race 544 512) (λ s1,
    fdmi_verbs_wait 1 (λ _, s1) 4096 true = Done (0, Some (0, 0)) ∧
    ends (cpy_source s1 544 512) (λ s2, fdmi_verbs_wait 1 (λ _, s2) 4096 true = Done (0, Some (1, 7)))).
Proof.
  eapply ends_mono; [eapply (status_read_too_early sample_race 544 512 (Query NULL 560 NULL NULL 4116 4096)
    (sample_msg <| msg_addr := 1000 |> <| msg_rank := 1 |>) (sample_msg <| msg_rank := 1 |>) (Request 0 0 0 0));
    [done|done|done|by split|vm_compute; reflexivity]|].
  cbv beta. intros s1 (_ & H1 & H2). split; [exact H1|]. eapply ends_mono; [exact H2|]. cbv beta. intros s2 E. exact E.
Defined.
