(* ===== verification/Rendezvous.v ===== *)
(** * src/src/fdmi.c: a large message, from buffer to buffer

    A message that does not fit the eager buffer takes four steps: the sender
    announces its buffer, the receiver reads it, tells the sender that it is
    done, and the sender's request is completed.  The steps of both processes
    put together. *)
From S2P Require Import Prelude Mem Queue Hashtable Datatype ProcMan State MrCache Query Matching Transfer Progress MsgSpec Engine Delivery Eager Api.

(** ** The sender *)

(** What the sender's completion thread does meanwhile: the send of the
    announcement completes, a message arrives. *)
Inductive completion :=
| CSent (q : Z)
| CArrive (a : Z) (m : fdmi_msg).

Section steps.
Context {HMalloc : Malloc} {HVerbs : Verbs}.

Definition completion_step (D : Z) (s : process) (e : completion) : outcome process :=
  match e with
  | CSent q => fdmi_poll_sendrecv_cq s D IBV_WC_SEND q
  | CArrive a m => hca_deliver D s a m
  end.

Fixpoint completions (D : Z) (s : process) (es : list completion) : outcome process :=
  match es with
  | [] => Done s
  | e :: es => s <- completion_step D s e ;; completions D s es
  end.
End steps.

Section sender.
Context {HMalloc : Malloc} {HVerbs : Verbs} (Hm : malloc_total) (Hreg : reg_total) (Hpost : post_total).
Context (D : Z) (aq pq : list Z).

(** The announcement of a large message: one scatter/gather element, no data. *)
Lemma send_large_ok s free held pp id c size total :
  linked (rep := queue_rep) D Unlocked Unlocked aq pq s free held pp id c size →
  total_send_size (pp_dtype pp) (pp_count pp) = Done total → FDMI_EAGER_BUFF_SIZE < total →
  ends (fdmi_post_send_msg_param s pp) (λ s', ∃ qp q sge ctl free' qu sp,
    prepared (rep := queue_rep) D Unlocked Unlocked aq pq s sp free' held pp id c size q qu ctl ∧
    s' = sp <| ps_posted := ps_posted s ++ [WSend qp q [sge] ctl []] |>).
Proof.
  intros Hli Ht Hlt. eapply (post_send_param_ok (rep := queue_rep)); [done|done|done|exact Hli|].
  intros sp free' q qu m Hpr. pose proof Hpr as [Hinv Hpl _ Hqu Hq0 Hqc _ Hmsg Hhd _ _].
  pose proof (pooled_fixed _ _ Hpl) as (_ & _ & _ & Hpo).
  destruct Hhd as (_ & _ & _ & _ & _ & Hcnt & _ & Hdt).
  destruct (post_send_ctl_ok (rep := queue_rep) Hpost D sp _ _ free' aq pq _ q qu m total Hinv Hqu Hq0)
    as (cn & lkey & _ & ->); [rewrite Hqc; by destruct Hli as [_ _ [? _] _ _]|done|by rewrite Hdt, Hcnt|done|].
  rewrite Hpo. eexists _, q, _, m, free', qu, sp. by split.
Qed.

(** The sender while a large message is under way: [a] is a posted receive,
    [flags] are the requests that are not finished. *)
Record waits (t : table) (s : process) (free held : list Z) (a : Z) (flags : list Z) : Prop := {
  wt_inv : proc_inv queue_rep s D Unlocked Unlocked free aq pq (a :: held);
  wt_routes : routes t s;
  wt_conns : conns_ready s;
  wt_recv : listens s a;
  wt_flags : queue_rep Unlocked (send_req_q s) flags;
}.

(** The query of the announcement. *)
Definition announces (s : process) (q : Z) : Prop :=
  ∃ qu m, cells (ps_queries s) !! q = Some qu ∧ qu_conn qu ≠ NULL ∧ query_msg s q = Done m ∧
    msg_type m = FDMI_COMM_INIT ∧ msg_opcode m = FDMI_RDMA_READ.

Lemma announces_kept s s' (P : Z → Prop) q : others_kept s s' P → P q → announces s q → announces s' q.
Proof.
  intros [H1 H2] Hq (qu & m & Hqu & Hc & Hm' & H). exists qu, m. by split_and!; [apply H1| |apply H2|apply H..].
Qed.

(** The completion of the announcement finishes nothing. *)
Lemma announcement_sent t s free held q :
  proc_inv queue_rep s D Unlocked Unlocked free aq pq (q :: held) → routes t s → announces s q →
  ends (fdmi_poll_sendrecv_cq s D IBV_WC_SEND q) (λ s',
    ps_requests s' = ps_requests s ∧ send_req_q s' = send_req_q s ∧ ps_conns s' = ps_conns s ∧
    ps_queries s' = ps_queries s ∧ routes t s' ∧
    proc_inv queue_rep s' D Unlocked Unlocked (free ++ [q]) aq pq held ∧
    steady s s' (λ x, x ≠ q) ∧ ps_posted s' = ps_posted s).
Proof.
  intros Hinv Hrt (qu & m & Hqu & Hc & Hmsg & Hty & Hop).
  destruct (round_start Hm D _ _ aq pq t s free held q qu m Hinv Hrt Hqu Hc Hmsg)
    as (pm & ms & m' & -> & Hrt1 & (Hf1 & Hme1 & Hk1) & Hinv1 & Hmsg1 & E).
  rewrite E, Hty. change (FDMI_COMM_INIT =? FDMI_COMM_INIT) with true. cbv zeta iota.
  unfold fdmi_on_send_cq_wc_send. rewrite Hmsg1. cbn [obind].
  match goal with |- context [msg_opcode ?x =? _] => change (msg_opcode x) with (msg_opcode m) end. rewrite Hop.
  change (FDMI_RDMA_READ =? FDMI_EAGER) with false. cbv iota. cbn [obind].
  c_step (destroy_query_ok (rep := queue_rep) Hm _ D _ _ free aq pq (q :: held) Hinv1 q held) as s2
    (fq & cnt & -> & Hinv2).
  cbn [ends]. split_and!; [done..|exact Hrt1|by destruct Hinv2| |done].
  split_and!; [exact Hf1|exact Hme1|exact Hk1].
Qed.

(** The message that ends a read finishes the oldest request. *)
Lemma fin_arrives t s free held a flags fin rqs :
  waits t s free held a flags → fin_effect s flags rqs → msg_type fin = FDMI_COMM_FIN →
  ends (hca_deliver D s a fin) (λ s', ∃ free' a',
    ps_requests s' = rqs ∧ (∀ x, x ∈ held → x ≠ a ∧ x ≠ a') ∧ steady s s' (λ x, x ≠ a ∧ x ≠ a') ∧
    waits t s' free' held a' (tail flags) ∧ ∃ qp sges, ps_posted s' = ps_posted s ++ [WRecv qp a' sges]).
Proof.
  intros [Hinv Hrt Hcr (qa & Hqa & Hac & Haf) Hfl] Hrqs Hty. unfold hca_deliver.
  c_step (set_query_msg_ok (rep := queue_rep) D Unlocked Unlocked free aq pq s (a :: held) a fin Hinv) as s1
    (ms1 & -> & Hinv1 & Hmsg1 & Hk1); [set_solver|].
  destruct (round_start Hm D _ _ aq pq t _ free held a qa fin Hinv1 Hrt Hqa Hac Hmsg1)
    as (pm & ms & m' & -> & Hrt2 & Hk2 & Hinv2 & Hmsg2 & ->).
  rewrite Hty. change (FDMI_COMM_FIN =? FDMI_COMM_INIT) with false. change (FDMI_COMM_FIN =? FDMI_COMM_FIN) with true.
  cbv zeta iota.
  set (s2 := s <| ps_msgs := ms1 |> <| ps_pm := pm |> <| ps_msgs := ms |>) in *.
  assert (Hk : steady s s2 (λ x, x ≠ a)).
  { eapply steady_trans; [|exact Hk2]. split_and!; [done|done|]. split; [done|exact Hk1]. }
  c_step (on_fin_ok D s2 free aq pq held a _ flags rqs Hm Hreg Hpost Hcr Hinv2) as s3
    (Hrq & Hl & Hpm & free' & a' & qp & sges & Hpo & Hk3 & Hls & Hinv3); [by exists qa|].
  cbn [ends]. exists free', a'. pose proof Hk as (Hf & Hme & Ha & Hb). pose proof Hk3 as (Hf3 & Hme3 & Hc & Hd).
  split_and!.
  - exact Hrq.
  - intros x Hx. split; eapply (held_not_new (rep := queue_rep) D); try done; set_solver.
  - split_and!; [etrans; [exact Hf3|exact Hf]|etrans; [exact Hme3|exact Hme]|].
    split; intros x y [Hx Hx'] Hy; [by apply Hc, Ha|by apply Hd, Hb].
  - split; [by destruct Hinv3|unfold routes; cbn; rewrite Hpm; exact Hrt2| |exact Hls|exact Hl].
    intros c cn. unfold fixed_user in Hf3. injection Hf3 as E _ _ _ _ _ _. cbn. rewrite E. apply Hcr.
  - exists qp, sges. exact Hpo.
Qed.

(** In whichever order the two come, they finish the request. *)
Lemma large_finishes t s free held a q flag req r fin cs :
  waits t s free (q :: held) a [flag] → announces s q → flag ≠ NULL → flag_of s flag req r →
  msg_type fin = FDMI_COMM_FIN → cs = [CSent q; CArrive a fin] ∨ cs = [CArrive a fin; CSent q] →
  ends (completions D s cs) (λ s',
    ps_requests s' = <[req := r <| rq_flag := 1 |>]> (ps_requests s) ∧ queue_rep Unlocked (send_req_q s') []).
Proof.
  intros Hw Han Hf0 Hfl Hty Hcs.
  assert (Heff : ∀ s', ps_requests s' = ps_requests s → fin_effect s' [flag] (<[req := r <| rq_flag := 1 |>]> (ps_requests s))).
  { intros s' E. destruct Hfl as [Hfl Hr]. split; [done|]. exists req, r. by rewrite <- E in Hr |- *. }
  destruct Hcs as [-> | ->]; cbn [completions completion_step].
  - pose proof Hw as [Hinv Hrt Hcr (qa & Hqa & Hac) Hq].
    c_step (announcement_sent t s free (a :: held) q) as s1 (Hrq & Hsr & Hcn & Hqs & Hrt1 & Hinv1 & _);
      [eapply inv_perm; [apply perm_swap|exact Hinv]|].
    c_step (fin_arrives t s1 (free ++ [q]) held a [flag] fin) as s2 (free' & a' & Hrq2 & _ & _ & Hw2 & _).
    + split; [exact Hinv1|exact Hrt1|by unfold conns_ready; rewrite Hcn|exists qa; by rewrite Hqs|by rewrite Hsr].
    + cbn [ends]. split; [exact Hrq2|apply Hw2].
  - c_step (fin_arrives t s free (q :: held) a [flag] fin _ Hw (Heff s eq_refl)) as s1
      (free' & a' & Hrq & Hx & (_ & _ & Hk) & [Hinv1 Hrt1 _ _ Hl] & _).
    c_step (announcement_sent t s1 free' (a' :: held) q) as s2 (Hrq2 & Hsr & _);
      [eapply inv_perm; [apply perm_swap|exact Hinv1]|eapply announces_kept; [exact Hk| |exact Han]; apply Hx; by left|].
    cbn [ends]. by rewrite Hrq2, Hrq, Hsr.
Qed.
End sender.

(** ** The receiver *)

(** The work request of a read asks for bytes of a region that the remote
    process has registered under that key. *)
Definition read_allowed (w : wr) (remote : process) : Prop :=
  match w with
  | WRead _ _ sge addr rkey => ∃ a mr, ps_mrs remote !! a = Some mr ∧ mr_rkey mr = rkey ∧ mr_addr mr = addr ∧
      padd addr (sge_length sge) ≤ padd addr (mr_length mr)
  | _ => False
  end.

(** What the adapter does for it: the bytes of the remote process are in the
    local buffer, nothing else is changed. *)
Definition read_performed (w : wr) (remote s s' : process) : Prop :=
  match w with
  | WRead _ _ sge addr _ => ∃ mem, s' = s <| ps_memory := mem |> ∧
      ∀ o, mem !! (sge_addr sge + o) =
        if (0 <=? o) && (o <? sge_length sge) then ps_memory remote !! (addr + o) else ps_memory s !! (sge_addr sge + o)
  | _ => False
  end.

Section receiver.
Context {HMalloc : Malloc} {HVerbs : Verbs} (Hm : malloc_total) (Hreg : reg_total) (Hpost : post_total).
Context (D : Z) (t : table) (c : Z).

Lemma engine_memory s rq st free aq pq reads lost mem :
  engine queue_rep D Unlocked Unlocked s rq st free aq pq reads lost →
  engine queue_rep D Unlocked Unlocked (s <| ps_memory := mem |>) rq (st <| m_memory := mem |>) free aq pq reads lost.
Proof. intros He. split; try apply He; [by apply inv_memory, He|done]. Qed.

(** The end of the last read under way. *)
Lemma last_read_done st rd m r r0 total mem :
  m_reads st = rd ++ [(m, r)] → m_requests st !! rc_request r = Some r0 →
  total_send_size (msg_dtype m) (msg_count m) = Done total → FDMI_EAGER_BUFF_SIZE < total →
  ∃ st', m_read_done (st <| m_memory := mem |>) (length rd) = Done st' ∧ m_memory st' = mem ∧
    m_requests st' = <[rc_request r := completed r0 (msg_rank m) (msg_tag m)]> (m_requests st) ∧
    m_outs st' = m_outs st ++ [OFin (m <| msg_type := FDMI_COMM_FIN |>)] ∧ m_unexpected st' = m_unexpected st.
Proof.
  intros Hrd Hr0 Ht Hlt. unfold m_read_done. cbn [m_reads m_requests].
  change (m_reads (st <| m_memory := mem |>)) with (m_reads st).
  change (m_requests (st <| m_memory := mem |>)) with (m_requests st).
  rewrite Hrd, list_lookup_middle by done. rewrite (proj2 (load_Done _ _ _) Hr0). cbn [obind]. rewrite Ht. cbn [obind].
  rewrite (proj2 (Z.leb_gt _ _) Hlt). eexists. by split_and!.
Qed.

(** The work request at the end of an output list. *)
Lemma fin_posted s l m : Forall2 output_ok (ps_posted s) (l ++ [OFin m]) →
  ∃ k qp q sge, ps_posted s = k ++ [WSend qp q [sge] m []].
Proof.
  intros Ho. apply Forall2_app_inv_r in Ho as (l1 & l2 & _ & Ho & ->).
  apply Forall2_cons_inv_r in Ho as (w & l3 & (qp & q & sge & ->) & Hl3 & ->).
  apply Forall2_nil_inv_r in Hl3 as ->. by exists l1, qp, q, sge.
Qed.

(** The receiver reads the announced buffer, completes its request and tells
    the sender. *)
Lemma large_received s rq st m pp r0 total es :
  ready D t c s rq st → event_ok s (UArrive m) → event_ok s (UReceive pp) →
  only_pair st (msg_from t s c m) (recv_from s (m_epoch st) pp) → msg_opcode m = FDMI_RDMA_READ →
  total_send_size (msg_dtype m) (msg_count m) = Done total → FDMI_EAGER_BUFF_SIZE < total →
  ps_requests s !! pp_request pp = Some r0 →
  es = [UReceive pp; UArrive m] ∨ es = [UArrive m; UReceive pp] →
  ends (user_run D (s, rq) es) (λ y, ps_memory y.1 = ps_memory s ∧ ∃ p w,
    w ∈ ps_posted y.1 ∧ is_read w p (msg_from t s c m) (recv_from s (m_epoch st) pp) ∧
    ∀ mem, ends (fdmi_poll_sendrecv_cq (y.1 <| ps_memory := mem |>) D IBV_WC_RDMA_READ p) (λ s',
      ps_memory s' = mem ∧ (∃ rq' st', implements queue_rep D s' rq' st' ∧ m_unexpected st' = m_unexpected st) ∧
      ps_requests s' = <[pp_request pp := completed r0 (rank_of t s c) (msg_tag m)]> (ps_requests s) ∧
      ∃ l qp q sge, ps_posted s' = l ++ [WSend qp q [sge] (msg_from t s c m <| msg_type := FDMI_COMM_FIN |>) []])).
Proof.
  intros Hr Ham Hpp Hpair Hop Ht Hlt Hr0 Hes.
  destruct (large_run st _ _ (map (machine_event t s c (m_epoch st)) es) Hpair Hop) as [o Hrun];
    [destruct Hes as [-> | ->]; [by left|by right]|].
  eapply ends_mono; [eapply (user_run_ok D t c s rq st es); [exact Hr|destruct Hes as [-> | ->]; by repeat constructor|exact Hrun]|].
  intros [s1 rq1] [Hr1 _]. cbn [fst snd] in *.
  pose proof (rd_implements _ _ _ _ _ _ Hr) as (?&?&?&?&?& He).
  pose proof Hr1 as [_ _ _ (free & aq & pq & reads & lost & He1) Hrt1 _ _].
  split; [by rewrite (en_memory He1), (en_memory He)|].
  set (st1 := st <| m_reads := _ |> <| m_outs := _ |>) in *.
  assert (Hi : m_reads st1 !! length (m_reads st) = Some (msg_from t s c m, recv_from s (m_epoch st) pp))
    by (by apply list_lookup_middle).
  destruct (read_of_engine D s1 rq1 st1 free aq pq reads lost _ _ _ He1 Hi) as (p & a & Hpa & (w & Hw & Hrd & _) & _).
  exists p, w. split_and!; [done|done|]. intros mem.
  destruct (last_read_done st1 (m_reads st) (msg_from t s c m) (recv_from s (m_epoch st) pp) r0 total mem)
    as (st2 & Hd & Hm2 & Hrq2 & Ho2 & Hu2); [done|by rewrite (en_requests He) in Hr0|done|done|].
  eapply ends_mono; [eapply (read_done_engine (rep := queue_rep) Hm Hreg Hpost D t);
    [by apply engine_memory|exact Hrt1|exact Hpa|exact Hi|exact Hd]|].
  intros s2 (_ & _ & _ & Him2). split; [|split; [by exists rq1, st2|]]; destruct Him2 as (?&?&?&?&?& He2);
    [by rewrite (en_memory He2), Hm2|].
  rewrite (en_requests He2), Hrq2, (en_requests He). split.
  - unfold completed. cbn. by rewrite i32_u64, (i32_id (rank_of t s c)) by apply rank_of_int.
  - eapply fin_posted. rewrite <- Ho2. apply He2.
Qed.
End receiver.

(** ** From buffer to buffer *)

(** A sender that can send [pp], which is too large for the eager buffer, over
    its connection [c]: [a] is a receive it has posted, no other send of its
    own is unfinished. *)
Record large_sender `{Malloc} `{Verbs} (D : Z) (t : table) (s : process) (free aq pq held : list Z)
    (pp : fdmi_post_param) (id c size a : Z) (r : fdmi_request) : Prop := {
  ls_linked : linked (rep := queue_rep) D Unlocked Unlocked aq pq s free (a :: held) pp id c size;
  ls_large : ∃ total, total_send_size (pp_dtype pp) (pp_count pp) = Done total ∧ FDMI_EAGER_BUFF_SIZE < total;
  ls_routes : routes t s;
  ls_conns : conns_ready s;
  ls_recv : listens s a;
  ls_idle : queue_rep Unlocked (send_req_q s) [];
  ls_request : ps_requests s !! pp_request pp = Some r;
  ls_flag : pp_request_flag pp ≠ NULL;
}.

(** What such a sender has done when [fdmi_verbs_isend] returns. *)
Record sent_large `{Malloc} `{Verbs} (D : Z) (t : table) (s s' : process) (pp : fdmi_post_param)
    (id size a q : Z) (r : fdmi_request) (ctl : fdmi_msg) : Prop := {
  sl_posted : ∃ qp sge, ps_posted s' = ps_posted s ++ [WSend qp q [sge] ctl []];
  sl_header : send_header s pp id ctl;
  sl_opcode : msg_opcode ctl = FDMI_RDMA_READ;
  sl_region : ∃ x pd, mr_covers (ps_mrs s') x (pp_addr pp) (u32 size) pd ∧ ps_mrs s' !! x = Some (msg_rdma_mr ctl);
  sl_memory : ps_memory s' = ps_memory s;
  sl_requests : ps_requests s' = <[pp_request pp := r <| rq_flag := 0 |>]> (ps_requests s);
  sl_finishes fin cs : msg_type fin = FDMI_COMM_FIN →
    cs = [CSent q; CArrive a fin] ∨ cs = [CArrive a fin; CSent q] →
    ends (completions D s' cs) (λ s2,
      ps_requests s2 = <[pp_request pp := r <| rq_flag := 1 |>]> (ps_requests s) ∧
      queue_rep Unlocked (send_req_q s2) []);
}.

Lemma isend_large `{Malloc} `{Verbs} D t s free aq pq held buf count datatype dest tag comm request id c size a r :
  malloc_total → reg_total → post_total →
  large_sender D t s free aq pq held (isend_param buf count datatype dest tag comm request) id c size a r →
  ends (fdmi_verbs_isend s buf count datatype dest tag comm request) (λ x, x.1 = FMI_SUCCESS ∧
    ∃ q ctl, sent_large D t s x.2 (isend_param buf count datatype dest tag comm request) id size a q r ctl).
Proof.
  intros Hm Hreg Hpost [Hli (total & Ht & Hlt) Hrt Hcr (qa & Hqa & Hac & Haf) Hidle Hr Hf0].
  eapply isend_start; [done|exact Hli|exact Hidle|exact Hr|].
  set (ps := isend_param _ _ _ _ _ _ _) in *. intros sq Hsq Hli0. set (s0 := announced s sq request r) in *.
  c_last (send_large_ok Hm Hreg Hpost D aq pq s0 free (a :: held) ps id c size total Hli0 Ht Hlt) as s'
    (qp & q & sge & ctl & free' & qu & sp & [Hinv Hpl [Hk _] Hqu _ Hqc _ Hmsg Hhd Hop Hreg'] & ->).
  cbn [fst snd]. split; [done|]. exists q, ctl.
  pose proof (pooled_fixed _ _ Hpl) as (_ & Hme & Hrq & _).
  assert (Hqa' : cells (ps_queries sp) !! a = Some qa).
  { apply Hk; [|exact Hqa]. eapply (held_not_new (rep := queue_rep) D); [exact Hinv|]. set_solver. }
  assert (Hsp : send_req_q sp = sq ∧ routes t sp ∧ ps_conns sp = ps_conns s)
    by (by destruct Hpl as (?&?&?&?&?&?&?& ->)).
  destruct Hsp as (Hsr & Hrt' & Hcn). split; cbn; try done; [by exists qp, sge|].
  intros fin cs Hty Hcs. set (s' := sp <| ps_posted := _ |>).
  eapply ends_mono; [eapply (large_finishes Hm Hreg Hpost D aq pq t s' free' held a q
    (request + offsetof_request_flag) request (r <| rq_flag := 0 |>) fin cs)|].
  - split; [eapply inv_posted, inv_perm; [apply perm_swap|exact Hinv]|exact Hrt'| |by exists qa|cbn; by rewrite Hsr].
    intros x cn. cbn. rewrite Hcn. apply Hcr.
  - destruct Hhd as (Hty' & _). exists qu, ctl. split_and!; [exact Hqu|rewrite Hqc; by destruct Hli as [_ _ [? _] _ _]|exact Hmsg|done|done].
  - exact Hf0.
  - split; [done|]. cbn. rewrite Hrq. cbn. by rewrite lookup_insert_eq.
  - exact Hty.
  - exact Hcs.
  - intros s2 [Hrq2 Hl2]. split; [|exact Hl2]. rewrite Hrq2. cbn. rewrite Hrq. cbn. by rewrite insert_insert_eq.
Qed.

(** C2: a large message gets there.  [fdmi_verbs_isend] of a message that does
    not fit the eager buffer returns with the request unfinished and one send
    posted, without data.  When it arrives at a process with a matching receive
    (posted before or after), that process posts a read of the sender's
    registered buffer.  Once the adapter has done the read, the receiver's
    completion thread completes the receive's request with the rank of the
    sender and its tag, posts the message that ends the transfer, and the
    receiver's buffer holds the bytes of the sender's, nothing around it
    changed.  When that message arrives at the sender, before or after the
    completion of the sender's own send, the request of the send is complete. *)
Theorem rendezvous_message_delivered `{Malloc} `{Verbs} D1 t1 s1 free aq pq held buf count datatype dest tag comm request
    id c1 size a1 r1 D2 t c s2 rq st pr :
  malloc_total → reg_total → post_total →
  let ps := isend_param buf count datatype dest tag comm request in
  large_sender D1 t1 s1 free aq pq held ps id c1 size a1 r1 → ready D2 t c s2 rq st → receiver t c s2 st pr ps id →
  m_epoch st ≤ ft_epoch (ft_msg s1) → is_int tag →
  ends (fdmi_verbs_isend s1 buf count datatype dest tag comm request) (λ x,
    x.1 = FMI_SUCCESS ∧ ps_requests x.2 = <[request := r1 <| rq_flag := 0 |>]> (ps_requests s1) ∧
    ∃ qp q sge ctl, ps_posted x.2 = ps_posted s1 ++ [WSend qp q [sge] ctl []] ∧
    ∀ rest es, es = [UReceive pr; UArrive (on_wire ctl [] rest)] ∨ es = [UArrive (on_wire ctl [] rest); UReceive pr] →
      ends (user_run D2 (s2, rq) es) (λ y, ∃ p w,
        w ∈ ps_posted y.1 ∧ wr_id_of w = p ∧ read_allowed w x.2 ∧
        ∀ s2', read_performed w x.2 y.1 s2' →
          ends (fdmi_poll_sendrecv_cq s2' D2 IBV_WC_RDMA_READ p) (λ s3,
            (∀ o, ps_memory s3 !! (pp_addr pr + o) =
               if (0 <=? o) && (o <? u32 size) then ps_memory s1 !! (buf + o) else ps_memory s2 !! (pp_addr pr + o)) ∧
            (∃ r0, ps_requests s2 !! pp_request pr = Some r0 ∧ ps_requests s3 !! pp_request pr =
               Some (r0 <| rq_flag := 1 |> <| rq_prank := rank_of t s2 c |> <| rq_tag := tag |>)) ∧
            ∃ l qp' q' sge' fin, ps_posted s3 = l ++ [WSend qp' q' [sge'] fin []] ∧
              ∀ rest' cs, let m := on_wire fin [] rest' in
                cs = [CSent q; CArrive a1 m] ∨ cs = [CArrive a1 m; CSent q] →
                ends (completions D1 x.2 cs) (λ s4,
                  ps_requests s4 = <[request := r1 <| rq_flag := 1 |>]> (ps_requests s1) ∧
                  queue_rep Unlocked (send_req_q s4) [])))).
Proof.
  intros Hm Hreg Hpost ps Hls Hr Hrc Hep Htg.
  pose proof Hls as [Hli (total & Ht & Hlt) _ _ _ _ _ _].
  assert (Hsz : reg_size datatype count = Done size) by (by destruct Hli).
  c_last (isend_large D1 t1 s1 free aq pq held buf count datatype dest tag comm request id c1 size a1 r1) as [code x]
    [Hcode (q & ctl & [(qp & sge & Hpo) Hhd Hop (xm & pd & (_ & mr & Hmr & _ & Had & Hcov) & Hxm) Hme Hrq Hfin])].
  cbn [fst snd] in *. rewrite Hxm in Hmr. injection Hmr as <-.
  split_and!; [done|done|]. exists qp, q, sge, ctl. split; [done|]. intros rest es Hes.
  pose proof Hrc as [Hp Edt Ecn _ _ _ [r0 Hr0] _ _].
  pose proof (delivery_pair t c s2 st s1 ps pr id ctl [] rest Hrc Hhd Hep (ex_intro _ size Hsz)) as Hpair.
  destruct Hhd as (Hty & _ & _ & _ & Htag & Hcnt & _ & Hdt).
  eapply ends_mono; [eapply (large_received Hm Hreg Hpost D2 t c s2 rq st (on_wire ctl [] rest) pr r0 total es Hr);
    [exact Hty|by exists id|exact Hpair|exact Hop|cbn; by rewrite Hdt, Hcnt|done|done|done]|].
  cbv beta. intros [y rq'] (Hmy & p & w & Hw & (qp2 & lkey & size2 & Hs2 & ->) & Hdone). cbn [fst snd] in *.
  cbn in Hs2. rewrite Edt, Ecn, (Hsz : reg_size (pp_dtype ps) (pp_count ps) = _) in Hs2. injection Hs2 as <-.
  exists p. eexists. split_and!; [exact Hw|done| |].
  { exists xm. eexists. split; [exact Hxm|]. split_and!; [done|done|]. cbn. rewrite Had. exact Hcov. }
  intros s2' (mem & -> & Hmem). eapply ends_mono; [apply Hdone|].
  cbv beta. intros s3 (Hm3 & _ & Hrq3 & l & qp' & q' & sge' & Hpo3). rewrite Hm3. split_and!.
  - intros o. specialize (Hmem o). cbn in Hmem. by rewrite Hmem, Had, Hme, Hmy.
  - exists r0. split; [done|]. rewrite Hrq3, lookup_insert_eq. cbn. rewrite Htag. unfold completed. cbn.
    by rewrite !i32_u64, ?(i32_id (rank_of t s2 c)) by (done || apply rank_of_int).
  - eexists l, qp', q', sge', _. split; [exact Hpo3|].
    intros rest' cs Hcs. eapply Hfin; [|exact Hcs]. done.
Qed.

(** ** An example *)

(** There is always such a memory. *)
Lemma read_exists qp p sge addr rkey remote s :
  ∃ s', read_performed (WRead qp p sge addr rkey) remote s s'.
Proof.
  set (inside := λ k : Z, (0 <=? k) && (k <? sge_length sge)).
  set (f := λ k : Z, k - addr + sge_addr sge).
  assert (Hinj : Inj (=) (=) f) by (intros x y; unfold f; lia).
  set (fetched := kmap (M2 := gmap Z) f (filter (λ kv, inside (kv.1 - addr) = true) (ps_memory remote))).
  set (kept := filter (λ kv, inside (kv.1 - sge_addr sge) = false) (ps_memory s)).
  exists (s <| ps_memory := fetched ∪ kept |>), (fetched ∪ kept). split; [done|]. intros o.
  replace (sge_addr sge + o) with (f (addr + o)) at 1 by (unfold f; lia).
  rewrite lookup_union. unfold fetched at 1. rewrite lookup_kmap by done.
  rewrite map_lookup_filter. cbn. replace (addr + o - addr) with o by lia.
  replace (f (addr + o)) with (sge_addr sge + o) by (unfold f; lia). unfold kept.
  rewrite map_lookup_filter. cbn. replace (sge_addr sge + o - sge_addr sge) with o by lia.
  fold (inside o). destruct (inside o), (ps_memory remote !! (addr + o)), (ps_memory s !! (sge_addr sge + o)); cbn;
    repeat case_guard; done.
Qed.

(** One byte more than the eager buffer. *)
Definition large_count : Z := FDMI_EAGER_BUFF_SIZE + 1.
Definition large_buffer (a v : Z) : memory := gset_to_gmap v (list_to_set (seqZ a large_count)).
Lemma large_buffer_lookup a v o : 0 ≤ o < large_count → large_buffer a v !! (a + o) = Some v.
Proof.
  intros Ho. unfold large_buffer. apply lookup_gset_to_gmap_Some. split; [|done].
  apply elem_of_list_to_set, elem_of_seqZ. lia.
Qed.
#[local] Opaque large_buffer.

Definition sample_large_sender : process := sample_ready <| ps_memory := large_buffer 2000 9 |>.
Definition sample_large_ready : process := sample_ready <| ps_memory := large_buffer 1000 0 |>.
Definition sample_large_state : mstate := sample_state <| m_memory := large_buffer 1000 0 |>.
Definition sample_large_recv : fdmi_post_param := PostParam FMI_ANY_SOURCE 7 1000 large_count FMI_BYTE 16 4116 4096 0.

Lemma sample_conns_ready m : conns_ready (sample_ready <| ps_memory := m |>).
Proof. intros c cn. cbn. rewrite lookup_singleton. case_decide; [|done]. by intros [= <-]. Qed.

(** Memory is no part of what these are about. *)
Lemma routes_memory t s m : routes t s → routes t (s <| ps_memory := m |>).
Proof. done. Qed.
Lemma param_ok_memory s pp id m : param_ok s pp id → param_ok (s <| ps_memory := m |>) pp id.
Proof. intros []. by split. Qed.
Lemma linked_memory `{Malloc} `{Verbs} D ma mp aq pq s free held pp id c size m :
  linked (rep := queue_rep) D ma mp aq pq s free held pp id c size →
  linked (rep := queue_rep) D ma mp aq pq (s <| ps_memory := m |>) free held pp id c size.
Proof. intros []. split; try done. by apply inv_memory. Qed.
Lemma ready_memory `{Malloc} `{Verbs} D t c s rq st m :
  ready D t c s rq st → ready D t c (s <| ps_memory := m |>) rq (st <| m_memory := m |>).
Proof.
  intros [? ? ? (free & aq & pq & reads & lost & He) ? ? ?]. split; try done.
  exists free, aq, pq, reads, lost. by apply engine_memory.
Qed.

Lemma sample_large_sender_ok : large_sender 16 sample_table sample_large_sender [] [] [] []
  (isend_param 2000 large_count FMI_BYTE 1 7 16 4096) 3 32 large_count 512 (Request 0 0 0 0).
Proof.
  split.
  - apply linked_memory. split; [exact sample_ready_inv|by eexists|split; [done|by eexists]|done|done].
  - exists large_count. split; vm_compute; reflexivity.
  - apply routes_memory, sample_routes.
  - apply sample_conns_ready.
  - by eexists.
  - apply empty_queue_rep.
  - done.
  - done.
Qed.

Lemma sample_large_is_ready : ready 16 sample_table 32 sample_large_ready [(32, 512)] sample_large_state.
Proof. apply ready_memory, sample_is_ready. Qed.

Lemma sample_large_receiver : receiver sample_table 32 sample_large_ready sample_large_state sample_large_recv
  (isend_param 2000 large_count FMI_BYTE 1 7 16 4096) 3.
Proof.
  split.
  - apply param_ok_memory. split; try done; unfold is_int, INT_MIN, INT_MAX; cbn; lia.
  - reflexivity.
  - reflexivity.
  - by left.
  - by right.
  - split; [cbn; lia|]. intros o Ho. unfold layout in Ho. cbn -[Z.add Z.mul] in Ho. cbn [pp_addr sample_large_recv].
    assert (0 ≤ o < large_count) by (unfold large_count, FDMI_EAGER_BUFF_SIZE in *; lia).
    split; [unfold large_count, FDMI_EAGER_BUFF_SIZE in *; lia|]. exists 0. by apply (large_buffer_lookup 1000 0).
  - by eexists.
  - by intros r m ?%elem_of_nil.
  - by intros r m ?%elem_of_nil.
Qed.

Lemma rendezvous_message_delivered_witness :
  ends (fdmi_verbs_isend sample_large_sender 2000 large_count FMI_BYTE 1 7 16 4096) (λ x, ∃ q ctl,
    ends (user_run 16 (sample_large_ready, [(32, 512)]) [UArrive (on_wire ctl [] []); UReceive sample_large_recv]) (λ y,
      ∃ p s2', ends (fdmi_poll_sendrecv_cq s2' 16 IBV_WC_RDMA_READ p) (λ s3,
        ps_memory s3 !! 1000 = Some 9 ∧ ps_requests s3 !! 4096 = Some (Request 1 0 7 1) ∧
        ∃ fin, ends (completions 16 x.2 [CSent q; CArrive 512 fin]) (λ s4,
          ps_requests s4 !! 4096 = Some (Request 0 0 0 1))))).
Proof.
  eapply ends_mono; [eapply (rendezvous_message_delivered 16 sample_table sample_large_sender [] [] [] [] 2000 large_count
    FMI_BYTE 1 7 16 4096 3 32 large_count 512 (Request 0 0 0 0) 16 sample_table 32 sample_large_ready [(32, 512)]
    sample_large_state sample_large_recv Malloc_bump_total sample_reg_total (λ _ _, eq_refl) sample_large_sender_ok
    sample_large_is_ready sample_large_receiver); [done|unfold is_int, INT_MIN, INT_MAX; lia]|].
  cbv beta. intros x (_ & _ & qp & q & sge & ctl & _ & Hx). exists q, ctl.
  eapply ends_mono; [apply (Hx [] _ (or_intror eq_refl))|]. cbv beta. intros y (p & w & _ & _ & Hal & Hy).
  destruct w as [| |wqp wp wsge waddr wkey]; try done.
  destruct (read_exists wqp wp wsge waddr wkey x.2 y.1) as [s2' Hs2]. exists p, s2'.
  eapply ends_mono; [apply (Hy s2' Hs2)|]. cbv beta. intros s3 (Hmem & (r0 & Hr0 & Hr) & l & qp' & q' & sge' & fin & _ & Hf).
  split_and!.
  - specialize (Hmem 0). etrans; [exact Hmem|]. change (ps_memory sample_large_sender) with (large_buffer 2000 9).
    rewrite (large_buffer_lookup 2000 9 0) by (unfold large_count, FDMI_EAGER_BUFF_SIZE; lia). reflexivity.
  - etrans; [exact Hr|]. change (Some (Request 0 0 0 0) = Some r0) in Hr0. injection Hr0 as <-. reflexivity.
  - exists (on_wire fin [] []). eapply ends_mono; [apply (Hf [] _ (or_introl eq_refl))|].
    cbv beta. intros s4 [Hrq _]. rewrite Hrq. reflexivity.
Defined.
