(* ===== verification/Fault.v ===== *)
(** * src/src/fdmi.c: what happens on a failure

    The record of failed and elected ranks [ft_msg], the flush of the active and
    passive queues, and the calls that tell the program which ranks have
    failed. *)
From S2P Require Import Prelude Mem Queue Datatype ProcMan State MrCache Query Matching Transfer Progress.

(** ** Failed ranges *)

(** [offset[i] <= rank && rank < offset[i] + range[i]], for the ranges in turn. *)
Fixpoint some_range (ranges : list (Z * Z)) (rank : Z) : outcome bool :=
  match ranges with
  | [] => Done false
  | (o, r) :: ranges =>
      if o <=? rank then
        e <- c_int (o + r) ;; if rank <? e then Done true else some_range ranges rank
      else some_range ranges rank
  end.

(** The arrays of [struct fdmi_ft_msg] have 256 entries. *)
Definition FT_RANGES : nat := 256.

Section ops.
Context {HMalloc : Malloc} {HVerbs : Verbs}.
Implicit Types (s : process).

(** The loop runs over as many elected ranges as there are failed ones; the
    entries that are not set are zero. *)
Definition fdmi_can_join s : outcome Z :=
  b <- some_range (resize (length (ft_failed (ft_msg s))) (0, 0) (ft_elected (ft_msg s))) (ps_prank s) ;;
  Done (if b : bool then 1 else 0).

Definition fdmi_need_update_ft_msg s (failed_rank : Z) : outcome Z :=
  b <- some_range (ft_failed (ft_msg s)) failed_rank ;; Done (if b : bool then 0 else 1).

Definition fdmi_update_ft_msg s (failed_rank : Z) : outcome process :=
  b <- some_range (ft_failed (ft_msg s)) failed_rank ;;
  if b : bool then Done s
  else if (ps_numproc s =? 0) || (FT_RANGES <=? length (ft_failed (ft_msg s)))%nat then Undef
  else
    offset <- c_int (Z.quot failed_rank (ps_numproc s) * ps_numproc s) ;;
    let failed := ft_failed (ft_msg s) ++ [(offset, ps_numproc s)] in
    let! (elected, pm) := fdmi_reallocate_state_listd (ps_pm s) failed (ft_elected (ft_msg s)) in
    Done (s <| ft_msg := FtMsg (ft_id (ft_msg s)) failed elected (ft_epoch (ft_msg s)) |> <| ps_pm := pm |>).

(** ** Flushing *)

(** The body of both loops: a query is removed and put back into the pool unless
    its message is to be preserved. *)
Definition flush_query (query : Z) s (q : fdmi_queue) : outcome (bool * process * fdmi_queue) :=
  _ <- fdmi_test query ;;
  qu <- query_at s query ;;
  _ <- fdmi_test (qu_msg qu) ;;
  m <- msg_at s (qu_msg qu) ;;
  if Z.land (msg_op m) FDMI_PRESV =? 0 then
    q <- fdmi_queue_remove q query ;;
    s <- fdmi_destroy_query s query ;;
    Done (false, s, q)
  else Done (false, s, q).

(** A loop of [fdmi_flush_query_qp] over the queue [get] of the context [D]:
    destroying a query does not touch the context. *)
Definition flush_aq s (D : Z) : outcome process :=
  dc <- dctx_at s D ;;
  let! (s, q) := queue_for flush_query s (qp_aq (dc_query_qp dc)) in
  h <- poke (ps_dctxs s) D (dc <| dc_query_qp := dc_query_qp dc <| qp_aq := q |> |>) ;;
  Done (s <| ps_dctxs := h |>).
Definition flush_pq s (D : Z) : outcome process :=
  dc <- dctx_at s D ;;
  let! (s, q) := queue_for flush_query s (qp_pq (dc_query_qp dc)) in
  h <- poke (ps_dctxs s) D (dc <| dc_query_qp := dc_query_qp dc <| qp_pq := q |> |>) ;;
  Done (s <| ps_dctxs := h |>).

Definition fdmi_flush_query_qp s (D : Z) : outcome process :=
  let! (_, s) := on_aq s D (unit_op fdmi_queue_lock) in
  let! (_, s) := on_pq s D (unit_op fdmi_queue_lock) in
  s <- flush_aq s D ;;
  s <- flush_pq s D ;;
  let! (_, s) := on_aq s D (unit_op fdmi_queue_unlock) in
  let! (_, s) := on_pq s D (unit_op fdmi_queue_unlock) in
  Done s.

Fixpoint flush_domains s (domains : list fdmi_domain) : outcome process :=
  match domains with
  | [] => Done s
  | d :: domains => s <- fdmi_flush_query_qp s (dom_dctx d) ;; flush_domains s domains
  end.

Definition fdmi_flush_all_query_qp s : outcome process := flush_domains s (ps_domains s).

(** ** Telling the program *)

(** [while ((failed_prank = fdmi_queue_deq(failed_prank_q)) != NULL)]: the ranks
    are copied to [pranks], which has room for 256, and their cells freed. *)
Fixpoint drain_failed (fuel : nat) (count : nat) (pranks : list Z) (q : fdmi_queue) (ints : heap Z)
    : outcome (list Z * fdmi_queue * heap Z) :=
  match fuel with
  | O => Diverge
  | S fuel =>
      let! (p, q) := fdmi_queue_deq q in
      if p =? NULL then Done (pranks, q, ints)
      else
        r <- peek ints p ;;
        if (count <? 256)%nat then
          ints <- fdmi_free ints p ;; drain_failed fuel (S count) (pranks ++ [r]) q ints
        else Undef
  end.

(** [while(fdmi_state == FDMI_FAILURE) sleep(1);] over the states observed. *)
Fixpoint failure_wait (fuel : nat) (obs : nat → process) (i : nat) : outcome nat :=
  match fuel with
  | O => Diverge
  | S fuel => if decide (state (obs i) = FDMI_FAILURE) then failure_wait fuel obs (S i) else Done i
  end.

(** The ranks reported and the process after the call.  The state is read for
    each of the two tests and then by the loop. *)
Definition fdmi_verbs_get_failure_status (fuel : nat) (obs : nat → process) : outcome (Z * list Z * process) :=
  match state (obs 0%nat) with
  | FDMI_COMPUTE => Done (1, [], obs 0%nat)
  | _ =>
      if decide (state (obs 1%nat) = FDMI_FAILURE) then
        i <- failure_wait fuel obs 2 ;;
        let s := obs i in
        q <- fdmi_queue_lock (failed_prank_q s) ;;
        let! (pranks, q, ints) := drain_failed (queue_fuel q) 0 [] q (ps_ints s) in
        q <- fdmi_queue_unlock q ;;
        Done (1, pranks, s <| failed_prank_q := q |> <| ps_ints := ints |>)
      else Done (1, [], obs 1%nat)
  end.

(** The state of the loop is [count]; [pranks] is the array of the caller. *)
Definition fdmi_verbs_accept_failure_status s (pranks : list Z) : outcome (Z * process) :=
  q <- fdmi_queue_lock (failed_prank_q s) ;;
  let! (_, q) := queue_for (λ failed_prank count q,
      r <- peek (ps_ints s) failed_prank ;;
      p <- aget pranks count ;;
      if p =? r then q <- fdmi_queue_remove q failed_prank ;; Done (false, count + 1, q)
      else Done (false, count + 1, q)) 0 q in
  q <- fdmi_queue_unlock q ;;
  Done (1, s <| failed_prank_q := q |>).
End ops.

(** ** Flushing keeps what is to be preserved *)

(** The queries a flush drops. *)
Definition dropped (s : process) (a : Z) : bool :=
  match query_msg s a with
  | Done m => Z.land (msg_op m) FDMI_PRESV =? 0
  | _ => false
  end.

Lemma filter_split (p : Z → bool) l : filter (λ x, p x = true) l ++ filter (λ x, p x = false) l ≡ₚ l.
Proof.
  induction l as [|x l IH]; [done|]. rewrite !filter_cons. destruct (p x) eqn:E; simpl.
  - by rewrite IH.
  - by rewrite <- Permutation_middle, IH.
Qed.

Section flush.
Context {HMalloc : Malloc} {HVerbs : Verbs}.
Context {rep : mutex → fdmi_queue → list Z → Prop} `{!QueueContract rep}.
Context (Hm : malloc_total) (D : Z) (free pq held : list Z).

(** The state in which the pool is [fq]. *)
Definition with_free (s : process) (fq : fdmi_queue) (cnt : Z) : process :=
  s <| ps_counter := cnt |> <| free_query_q := fq |>.

Lemma destroy_query_rep s q l :
  rep Unlocked (free_query_q s) l →
  ends (fdmi_destroy_query s q) (λ s', ∃ fq cnt, s' = with_free s fq cnt ∧ rep Unlocked fq (l ++ [q])).
Proof.
  intros Hl. unfold fdmi_destroy_query.
  c_step rep_lock as q1 H1. c_step rep_enq as q2 H2. c_step rep_unlock as q3 H3. by eexists q3, _.
Qed.

(** A query that the loops can look at. *)
Definition readable (s : process) (a : Z) : Prop :=
  a ≠ NULL ∧ ∃ qu m, query_at s a = Done qu ∧ qu_msg qu ≠ NULL ∧ msg_at s (qu_msg qu) = Done m.

Lemma flush_loop_ok s l q m :
  Forall (readable s) l → rep m q l → NULL ∉ l → NoDup l → rep Unlocked (free_query_q s) free →
  ends (queue_for flush_query s q) (λ r,
    (∃ fq cnt, r.1 = with_free s fq cnt ∧ rep Unlocked fq (free ++ filter (λ x, dropped s x = true) l)) ∧
    rep m r.2 (filter (λ x, dropped s x = false) l)).
Proof.
  intros Hrd Hq Hn Hnd Hf.
  eapply (rep_for_remove flush_query (dropped s) (λ pre s', ∃ fq cnt, s' = with_free s fq cnt ∧
    rep Unlocked fq (free ++ filter (λ x, dropped s x = true) pre))); try done.
  { exists (free_query_q s), (ps_counter s). rewrite app_nil_r. split; [by destruct s|done]. }
  intros pre x suf s' q' Hl (fq & cnt & -> & Hfq).
  destruct (proj1 (Forall_forall _ _) Hrd x) as (Hx0 & qu & msg & Hqu & Hm0 & Hmsg); [subst l; set_solver|].
  assert (E : dropped s x = (Z.land (msg_op msg) FDMI_PRESV =? 0)).
  { unfold dropped, query_msg. rewrite Hqu. cbn [obind]. by rewrite Hmsg. }
  unfold flush_query, fdmi_test. rewrite (proj2 (Z.eqb_neq _ _) Hx0). cbn [obind].
  change (query_at (with_free s fq cnt) x) with (query_at s x). rewrite Hqu. cbn [obind].
  rewrite (proj2 (Z.eqb_neq _ _) Hm0). cbn [obind].
  change (msg_at (with_free s fq cnt) (qu_msg qu)) with (msg_at s (qu_msg qu)). rewrite Hmsg. cbn [obind].
  rewrite filter_app, filter_cons, E. cbn [filter list_filter].
  destruct (_ =? 0).
  - pose proof (destroy_query_rep (with_free s fq cnt) x _ Hfq) as Hd.
    apply ends_Done in Hd as (s' & Hd & fq' & cnt' & -> & Hfq').
    exists (with_free s fq' cnt'). split.
    + exists fq', cnt'. split; [done|]. by rewrite (assoc_L (++)).
    + by rewrite Hd.
  - split; [|done]. exists fq, cnt. by rewrite app_nil_r.
Qed.

Lemma inv_readable s ma mp aq held' a :
  proc_inv rep s D ma mp free aq pq held' → a ∈ free ++ aq ++ pq ++ held' → readable s a.
Proof.
  intros Hinv Ha. destruct (pi_live Hinv a Ha) as [? [qu Hqu]]. split; [done|].
  destruct (pi_query Hinv a qu Hqu) as [[m Hmsg] _]. exists qu, m.
  split_and!; [by apply load_Done| |by apply load_Done].
  intros E. rewrite E in Hmsg. by rewrite (pi_null Hinv) in Hmsg.
Qed.
End flush.

Section flush_queues.
Context {HMalloc : Malloc} {HVerbs : Verbs}.
Context {rep : mutex → fdmi_queue → list Z → Prop} `{!QueueContract rep}.
Context (Hm : malloc_total) (D : Z).

(** The process after a flush: only the pool and the two queues have changed. *)
Definition flushed (s s' : process) : Prop :=
  ∃ fq cnt h, s' = with_free s fq cnt <| ps_dctxs := h |>.

Lemma flushed_trans s1 s2 s3 : flushed s1 s2 → flushed s2 s3 → flushed s1 s3.
Proof. intros (fq & cnt & h & ->) (fq' & cnt' & h' & ->). exists fq', cnt', h'. by destruct s1. Qed.
Lemma flushed_dctxs s h : flushed s (s <| ps_dctxs := h |>).
Proof. exists (free_query_q s), (ps_counter s), h. by destruct s. Qed.
Lemma flushed_dropped s s' : flushed s s' → dropped s' = dropped s.
Proof. by intros (fq & cnt & h & ->). Qed.

(** The invariant after a loop: the pool has grown by the queries dropped. *)
Lemma inv_flushed s ma mp free aq pq held fq cnt h dc free' aq' pq' :
  proc_inv rep s D ma mp free aq pq held → rep Unlocked fq free' →
  cells h !! D = Some dc → rep ma (qp_aq (dc_query_qp dc)) aq' → rep mp (qp_pq (dc_query_qp dc)) pq' →
  free' ++ aq' ++ pq' ≡ₚ free ++ aq ++ pq →
  proc_inv rep (with_free s fq cnt <| ps_dctxs := h |>) D ma mp free' aq' pq' held.
Proof.
  intros Hinv Hfq Hh Ha Hp Hperm.
  assert (Hall : free' ++ aq' ++ pq' ++ held ≡ₚ free ++ aq ++ pq ++ held).
  { rewrite !(assoc_L (++)), <- (assoc_L (++) free'), <- (assoc_L (++) free), Hperm. done. }
  split; try apply Hinv; [done|by exists dc| |].
  - rewrite Hall. apply Hinv.
  - intros a. rewrite Hall. apply (pi_live Hinv).
Qed.

Lemma flush_aq_ok s ma mp free aq pq held :
  proc_inv rep s D ma mp free aq pq held →
  ends (flush_aq s D) (λ s', flushed s s' ∧
    proc_inv rep s' D ma mp (free ++ filter (λ x, dropped s x = true) aq)
      (filter (λ x, dropped s x = false) aq) pq held).
Proof.
  intros Hinv. destruct (pi_dctx Hinv) as (dc & Hd & Ha & Hp).
  unfold flush_aq, dctx_at, peek. rewrite (proj2 (load_Done _ _ _) Hd). cbn [obind].
  pose proof (pi_nodup Hinv) as Hnd. apply NoDup_app in Hnd as (_ & _ & [Hnd _]%NoDup_app).
  c_step (flush_loop_ok Hm free s aq (qp_aq (dc_query_qp dc)) ma) as [s' q'] [(fq & cnt & -> & Hfq) Hq'];
    [| |apply Hinv|].
  - apply Forall_forall. intros a Ha'. eapply inv_readable; [exact Hinv|set_solver].
  - intros Hin. by destruct (pi_live Hinv NULL) as [? _]; [set_solver|].
  - cbn [fst snd] in *. rewrite poke_ok by (by eexists). cbn [obind ends]. split; [by eexists _, _, _|].
    eapply inv_flushed; [exact Hinv|exact Hfq|apply lookup_insert_eq|exact Hq'|exact Hp|].
    rewrite <- (assoc_L (++)), (assoc_L (++) (filter _ aq)). by rewrite filter_split.
Qed.

Lemma flush_pq_ok s ma mp free aq pq held :
  proc_inv rep s D ma mp free aq pq held →
  ends (flush_pq s D) (λ s', flushed s s' ∧
    proc_inv rep s' D ma mp (free ++ filter (λ x, dropped s x = true) pq) aq
      (filter (λ x, dropped s x = false) pq) held).
Proof.
  intros Hinv. destruct (pi_dctx Hinv) as (dc & Hd & Ha & Hp).
  unfold flush_pq, dctx_at, peek. rewrite (proj2 (load_Done _ _ _) Hd). cbn [obind].
  pose proof (pi_nodup Hinv) as Hnd.
  apply NoDup_app in Hnd as (_ & _ & (_ & _ & [Hnd _]%NoDup_app)%NoDup_app).
  c_step (flush_loop_ok Hm free s pq (qp_pq (dc_query_qp dc)) mp) as [s' q'] [(fq & cnt & -> & Hfq) Hq'];
    [| |apply Hinv|].
  - apply Forall_forall. intros a Ha'. eapply inv_readable; [exact Hinv|set_solver].
  - intros Hin. by destruct (pi_live Hinv NULL) as [? _]; [set_solver|].
  - cbn [fst snd] in *. rewrite poke_ok by (by eexists). cbn [obind ends]. split; [by eexists _, _, _|].
    eapply inv_flushed; [exact Hinv|exact Hfq|apply lookup_insert_eq|exact Ha|exact Hq'|].
    rewrite <- (filter_split (dropped s) pq) at 3. solve_Permutation.
Qed.
End flush_queues.

(** C27: a flush keeps exactly the queries whose message has the option
    [FDMI_PRESV], in their order, in both queues; every other query goes back to
    the pool, and nothing else of the process changes: no query is lost and
    none is in two places. *)
Theorem flush_keeps_preserved `{Malloc} `{Verbs} s D free aq pq held :
  malloc_total → proc_inv queue_rep s D Unlocked Unlocked free aq pq held →
  ends (fdmi_flush_query_qp s D) (λ s', flushed s s' ∧
    proc_inv queue_rep s' D Unlocked Unlocked
      (free ++ filter (λ x, dropped s x = true) aq ++ filter (λ x, dropped s x = true) pq)
      (filter (λ x, dropped s x = false) aq) (filter (λ x, dropped s x = false) pq) held).
Proof.
  intros Hm Hinv. unfold fdmi_flush_query_qp.
  c_step (lock_aq (rep := queue_rep)) as [? s1] (h1 & -> & Hinv1). c_step (lock_pq (rep := queue_rep)) as [? s2] (h2 & -> & Hinv2).
  c_step (flush_aq_ok (rep := queue_rep)) as s3 [Hs3 Hinv3]. c_step (flush_pq_ok (rep := queue_rep)) as s4 [Hs4 Hinv4].
  c_step (unlock_aq (rep := queue_rep)) as [? s5] (h5 & -> & Hinv5). c_step (unlock_pq (rep := queue_rep)) as [? s6] (h6 & -> & Hinv6).
  cbn [ends]. rewrite (flushed_dropped _ _ Hs3) in Hinv6. rewrite <- (assoc_L (++)) in Hinv6. split; [|exact Hinv6].
  eapply flushed_trans; [|apply flushed_dctxs]. eapply flushed_trans; [|apply flushed_dctxs].
  eapply flushed_trans; [|exact Hs4]. eapply flushed_trans; [|exact Hs3].
  eapply flushed_trans; apply flushed_dctxs.
Qed.

(** *** An example: two messages have arrived, the second is to be preserved *)
Definition sample_flush_msgs : gmap Z fdmi_msg :=
  <[528 := garbage_msg 0 <| msg_op := FDMI_ABORT |>]> {[ 560 := garbage_msg 0 <| msg_op := FDMI_PRESV |> ]}.

Definition sample_flush : process :=
  sample_process
    <| ps_queries := Heap (<[512 := Query NULL 528 NULL NULL NULL NULL]> {[ 544 := Query NULL 560 NULL NULL NULL NULL ]}) 2 |>
    <| ps_msgs := Heap sample_flush_msgs 2 |>
    <| ps_dctxs := Heap {[ 16 := sample_dctx <| dc_query_qp := QueryQp empty_queue (queue_of [(16, 512); (32, 544)] 0 Unlocked) |> ]} 1 |>.

Lemma sample_flush_inv : proc_inv queue_rep sample_flush 16 Unlocked Unlocked [] [512; 544] [] [].
Proof.
  assert (Hq : ∀ a q, cells (ps_queries sample_flush) !! a = Some q →
    (a = 512 ∧ q = Query NULL 528 NULL NULL NULL NULL) ∨ (a = 544 ∧ q = Query NULL 560 NULL NULL NULL NULL)).
  { intros a q. cbn. rewrite lookup_insert, lookup_singleton. case_decide; [intros [= <-]; by left|].
    case_decide; [intros [= <-]; by right|done]. }
  split; try apply empty_queue_rep.
  - exists []. split_and!; [apply empty_queue_rep|apply not_elem_of_nil|by intros ? ?%elem_of_nil|done].
  - exists []. apply empty_queue_rep.
  - exists []. apply empty_queue_rep.
  - eexists. split; [reflexivity|]. split; [|apply empty_queue_rep].
    exists [(16, 512); (32, 544)], 0. split_and!; [|done..].
    split; cbn; [repeat constructor; set_solver|set_solver].
  - intros c cn. cbn. rewrite lookup_singleton. by case_decide; intros; simplify_eq.
  - cbn. repeat constructor; set_solver.
  - intros a. rewrite app_nil_l, app_nil_r. intros [->|[->|[]%elem_of_nil]%elem_of_cons]%elem_of_cons;
      split; try done; by eexists.
  - intros a q [[-> ->]|[-> ->]]%Hq; split; try (by eexists); done.
  - by intros a b qa qb [[-> ->]|[-> ->]]%Hq [[-> ->]|[-> ->]]%Hq.
  - done.
Qed.

Lemma flush_keeps_preserved_witness :
  ends (fdmi_flush_query_qp sample_flush 16) (λ s',
    proc_inv queue_rep s' 16 Unlocked Unlocked [512] [544] [] []).
Proof.
  eapply ends_mono; [apply (flush_keeps_preserved sample_flush 16 [] [512; 544] [] []);
    [apply Malloc_bump_total|apply sample_flush_inv]|].
  intros s' [_ H]. exact H.
Defined.

(** ** What the program is told *)
Lemma failure_wait_ok obs fuel i n :
  (∀ j, (i ≤ j < n)%nat → state (obs j) = FDMI_FAILURE) → state (obs n) ≠ FDMI_FAILURE →
  (i ≤ n)%nat → (n - i < fuel)%nat → failure_wait fuel obs i = Done n.
Proof.
  revert i. induction fuel as [|fuel IH]; intros i Hf Hn Hi Hfuel; [lia|]. cbn.
  destruct (decide (i = n)) as [->|Hne]; [by rewrite decide_False by done|].
  rewrite decide_True by (apply Hf; lia). apply IH; [|done|lia|lia]. intros j Hj. apply Hf. lia.
Qed.

Lemma failure_wait_never obs fuel i :
  (∀ j, (i ≤ j)%nat → state (obs j) = FDMI_FAILURE) → failure_wait fuel obs i = Diverge.
Proof.
  revert i. induction fuel as [|fuel IH]; intros i Hf; [done|]. cbn.
  rewrite decide_True by (apply Hf; lia). apply IH. intros j Hj. apply Hf. lia.
Qed.

(** The queue holds pointers to the ranks [rs]. *)
Definition holds_ranks `{Malloc} (rep : mutex → fdmi_queue → list Z → Prop) (m : mutex) (q : fdmi_queue)
    (ints : heap Z) (ps rs : list Z) : Prop :=
  rep m q ps ∧ NULL ∉ ps ∧ NoDup ps ∧ Forall2 (λ p r, cells ints !! p = Some r) ps rs.

Lemma cells_delete (m : gmap Z Z) p ps rs :
  p ∉ ps → Forall2 (λ x r, m !! x = Some r) ps rs → Forall2 (λ x r, delete p m !! x = Some r) ps rs.
Proof.
  intros Hp H. induction H as [|x r ps rs Hx H IH]; constructor.
  - rewrite lookup_delete_ne by set_solver. done.
  - apply IH. set_solver.
Qed.

Lemma drain_failed_ok `{Malloc} {rep : mutex → fdmi_queue → list Z → Prop} `{!QueueContract rep} m fuel count acc q ints ps rs :
  holds_ranks rep m q ints ps rs → (count + length ps ≤ 256)%nat → (length ps < fuel)%nat →
  ends (drain_failed fuel count acc q ints) (λ r,
    r.1.1 = acc ++ rs ∧ rep m r.1.2 [] ∧
    ∀ a, cells r.2 !! a = if decide (a ∈ ps) then None else cells ints !! a).
Proof.
  revert fuel count acc q ints rs. induction ps as [|p ps IH]; intros fuel count acc q ints rs (Hq & Hn & Hnd & Hrs) Hc Hf;
    (destruct fuel as [|fuel]; [cbn in Hf; lia|]); cbn [drain_failed].
  - apply Forall2_nil_inv_l in Hrs as ->. rewrite (rep_deq_nil m) by done. cbn. by rewrite app_nil_r.
  - apply Forall2_cons_inv_l in Hrs as (r & rs' & Hr & Hrs & ->). cbn [length] in *.
    apply not_elem_of_cons in Hn as [Hp0 Hn]. apply NoDup_cons in Hnd as [Hp Hnd].
    c_step rep_deq_cons as [d q'] [-> Hq']. cbn [fst snd] in *. rewrite (proj2 (Z.eqb_neq _ _)) by done.
    unfold peek. rewrite (proj2 (load_Done _ _ _) Hr). cbn [obind].
    rewrite (proj2 (Nat.ltb_lt _ _)) by lia. unfold fdmi_free. rewrite (proj2 (Z.eqb_neq _ _)) by done.
    rewrite Hr. cbn [obind]. eapply ends_mono; [eapply IH with (rs := rs')|].
    + split_and!; [done..|]. by apply cells_delete.
    + lia.
    + lia.
    + intros [[pr q2] ints2] (-> & Hq2 & Hi). cbn [fst snd] in *. rewrite <- (assoc_L (++)).
      split_and!; [done..|]. intros a. rewrite Hi. cbn. destruct (decide (a = p)) as [->|Ha].
      * rewrite lookup_delete_eq. rewrite (decide_True _ _ (list_elem_of_here _ _)). by case_decide.
      * rewrite lookup_delete_ne by done. destruct (decide (a ∈ ps)).
        -- by rewrite decide_True by (by right).
        -- rewrite decide_False; [done|]. by intros [?|?]%elem_of_cons.
Qed.

(** [fdmi_verbs_get_failure_status], called when a failure has been noticed that
    both of its tests see, returns only when the state is observed to change, and then with the ranks
    of the queue of failed ranks in order; the queue is left empty, the cells of
    the ranks are freed and nothing else is touched.  While nobody changes the
    state it never returns. *)
Theorem failure_status_reports `{Malloc} obs ps rs :
  state (obs 0%nat) = FDMI_FAILURE →
  (∀ n, holds_ranks queue_rep Unlocked (failed_prank_q (obs n)) (ps_ints (obs n)) ps rs) →
  (length ps ≤ 256)%nat →
  ((∀ n, state (obs n) = FDMI_FAILURE) → ∀ fuel, fdmi_verbs_get_failure_status fuel obs = Diverge) ∧
  ∀ n fuel, (2 ≤ n)%nat → state (obs n) ≠ FDMI_FAILURE → (∀ j, (j < n)%nat → state (obs j) = FDMI_FAILURE) →
    (n ≤ fuel)%nat → ends (fdmi_verbs_get_failure_status fuel obs) (λ r,
      r.1 = (1, rs) ∧ ∃ q ints, r.2 = obs n <| failed_prank_q := q |> <| ps_ints := ints |> ∧
      queue_rep Unlocked q [] ∧
      ∀ a, cells ints !! a = if decide (a ∈ ps) then None else cells (ps_ints (obs n)) !! a).
Proof.
  intros H0 Hps Hl. unfold fdmi_verbs_get_failure_status. rewrite H0. split.
  - intros Hf fuel. rewrite decide_True by apply Hf. by rewrite failure_wait_never by (intros; apply Hf).
  - intros n fuel H2 Hn Hj Hfuel. rewrite decide_True by (apply Hj; lia).
    rewrite (failure_wait_ok obs fuel 2 n) by (done || lia || (intros j ?; apply Hj; lia)). cbn [obind].
    destruct (Hps n) as (Hq & Hrest). c_step (rep_lock (rep := queue_rep)) as q1 Hq1.
    c_step (drain_failed_ok (rep := queue_rep) Locked (queue_fuel q1) 0 [] q1 (ps_ints (obs n)) ps rs) as [[pr q2] ints] (-> & Hq2 & Hi);
      [by split|by rewrite (rep_fuel _ _ _ Hq1); lia|]. cbn [fst snd] in *.
    c_step (rep_unlock (rep := queue_rep)) as q3 Hq3. cbn [ends fst snd]. split; [done|]. by exists q3, ints.
Qed.

(** The state changes at the third observation; ranks 5 and 3 have failed. *)
Definition sample_failed (n : nat) : process :=
  sample_process <| state := if (n <? 3)%nat then FDMI_FAILURE else FDMI_RECOVERY |>
    <| failed_prank_q := queue_of [(16, 640); (32, 656)] 0 Unlocked |>
    <| ps_ints := Heap (<[640 := 5]> {[ 656 := 3 ]}) 2 |>.

Lemma failure_status_reports_witness :
  ends (fdmi_verbs_get_failure_status 3 sample_failed) (λ r, r.1 = (1, [5; 3])).
Proof.
  eapply ends_mono; [eapply (proj2 (failure_status_reports sample_failed [640; 656] [5; 3] eq_refl
    ltac:(intros n; split_and!;
      [exists [(16, 640); (32, 656)], 0; split_and!; [split; cbn; [repeat constructor; set_solver|set_solver]|done..]
      |set_solver|repeat constructor; set_solver|by repeat constructor])
    ltac:(cbn; lia)) 3%nat 3%nat)|].
  - lia.
  - done.
  - intros [|[|[|j]]] Hj; [done..|lia].
  - done.
  - intros r [E _]. exact E.
Defined.
