(* ===== verification/Net.v ===== *)
(** * src/src/fdmi.c: the network's interface and the process's resources

    The calls of librdmacm, libibverbs and the C library with which fdmi.c sets
    a process up, and the operations that create its domains, peers,
    connections and queue pairs.  What the libraries answer is a parameter: a
    function of the calls made so far. *)
From S2P Require Import Prelude Mem Queue Hashtable Datatype ProcMan State MrCache Query Matching Transfer Progress.

(** [enum rdma_cm_event_type] of librdmacm. *)
Inductive rdma_cm_event_type :=
| RDMA_CM_EVENT_ADDR_RESOLVED | RDMA_CM_EVENT_ADDR_ERROR | RDMA_CM_EVENT_ROUTE_RESOLVED
| RDMA_CM_EVENT_ROUTE_ERROR | RDMA_CM_EVENT_CONNECT_REQUEST | RDMA_CM_EVENT_CONNECT_RESPONSE
| RDMA_CM_EVENT_CONNECT_ERROR | RDMA_CM_EVENT_UNREACHABLE | RDMA_CM_EVENT_REJECTED
| RDMA_CM_EVENT_ESTABLISHED | RDMA_CM_EVENT_DISCONNECTED | RDMA_CM_EVENT_DEVICE_REMOVAL
| RDMA_CM_EVENT_MULTICAST_JOIN | RDMA_CM_EVENT_MULTICAST_ERROR | RDMA_CM_EVENT_ADDR_CHANGE
| RDMA_CM_EVENT_TIMEWAIT_EXIT.
#[export] Instance rdma_cm_event_type_eq_dec : EqDecision rdma_cm_event_type.
Proof. solve_decision. Defined.

(** The switch has a case for each of them. *)
Definition event_type_str (event : rdma_cm_event_type) : string :=
  match event with
  | RDMA_CM_EVENT_ADDR_RESOLVED => "Addr resolved"
  | RDMA_CM_EVENT_ADDR_ERROR => "RDMA_CM_EVENT_ADDR_ERROR"
  | RDMA_CM_EVENT_ROUTE_RESOLVED => "Route resolved"
  | RDMA_CM_EVENT_ROUTE_ERROR => "Route Error"
  | RDMA_CM_EVENT_CONNECT_REQUEST => "RDMA_CM_EVENT_CONNECT_REQUEST"
  | RDMA_CM_EVENT_CONNECT_RESPONSE => "Connect response"
  | RDMA_CM_EVENT_CONNECT_ERROR => "Connect Error"
  | RDMA_CM_EVENT_UNREACHABLE => "Unreachable"
  | RDMA_CM_EVENT_REJECTED => "RDMA_CM_EVENT_REJECTED"
  | RDMA_CM_EVENT_ESTABLISHED => "Established"
  | RDMA_CM_EVENT_DISCONNECTED => "RDMA_CM_EVENT_DISCONNECTED"
  | RDMA_CM_EVENT_DEVICE_REMOVAL => "Device removal"
  | RDMA_CM_EVENT_MULTICAST_JOIN => "RDMA_CM_EVENT_MULTICAST_JOIN"
  | RDMA_CM_EVENT_MULTICAST_ERROR => "RDMA_CM_EVENT_MULTICAST_ERROR"
  | RDMA_CM_EVENT_ADDR_CHANGE => "RDMA_CM_EVENT_ADDR_CHANGE"
  | RDMA_CM_EVENT_TIMEWAIT_EXIT => "RDMA_CM_EVENT_TIMEWAIT_EXIT"
  end.

(** [enum ibv_wc_status] of libibverbs. *)
Inductive ibv_wc_status :=
| IBV_WC_SUCCESS | IBV_WC_LOC_LEN_ERR | IBV_WC_LOC_QP_OP_ERR | IBV_WC_LOC_EEC_OP_ERR
| IBV_WC_LOC_PROT_ERR | IBV_WC_WR_FLUSH_ERR | IBV_WC_MW_BIND_ERR | IBV_WC_BAD_RESP_ERR
| IBV_WC_LOC_ACCESS_ERR | IBV_WC_REM_INV_REQ_ERR | IBV_WC_REM_ACCESS_ERR | IBV_WC_REM_OP_ERR
| IBV_WC_RETRY_EXC_ERR | IBV_WC_RNR_RETRY_EXC_ERR | IBV_WC_LOC_RDD_VIOL_ERR
| IBV_WC_REM_INV_RD_REQ_ERR | IBV_WC_REM_ABORT_ERR | IBV_WC_INV_EECN_ERR
| IBV_WC_INV_EEC_STATE_ERR | IBV_WC_FATAL_ERR | IBV_WC_RESP_TIMEOUT_ERR | IBV_WC_GENERAL_ERR.
#[export] Instance ibv_wc_status_eq_dec : EqDecision ibv_wc_status.
Proof. solve_decision. Defined.

Definition rdma_err_status_str (status : ibv_wc_status) : string :=
  match status with
  | IBV_WC_SUCCESS => "IBV_WC_SUCCESS"
  | IBV_WC_LOC_LEN_ERR => "IBV_WC_LOC_LEN_ERR"
  | IBV_WC_LOC_QP_OP_ERR => "IBV_WC_LOC_QP_OP_ERR"
  | IBV_WC_LOC_EEC_OP_ERR => "IBV_WC_LOC_EEC_OP_ERR"
  | IBV_WC_LOC_PROT_ERR => "IBV_WC_LOC_PROT_ERR"
  | IBV_WC_WR_FLUSH_ERR => "IBV_WC_WR_FLUSH_ERR"
  | IBV_WC_MW_BIND_ERR => "IBV_WC_MW_BIND_ERR"
  | IBV_WC_BAD_RESP_ERR => "IBV_WC_BAD_RESP_ERR"
  | IBV_WC_LOC_ACCESS_ERR => "IBV_WC_LOC_ACCESS_ERR"
  | IBV_WC_REM_INV_REQ_ERR => "IBV_WC_REM_INV_REQ_ERR"
  | IBV_WC_REM_ACCESS_ERR => "IBV_WC_REM_ACCESS_ERR"
  | IBV_WC_REM_OP_ERR => "IBV_WC_REM_OP_ERR"
  | IBV_WC_RETRY_EXC_ERR => "IBV_WC_RETRY_EXC_ERR"
  | IBV_WC_RNR_RETRY_EXC_ERR => "IBV_WC_RNR_RETRY_EXC_ERR"
  | IBV_WC_LOC_RDD_VIOL_ERR => "IBV_WC_LOC_RDD_VIOL_ERR"
  | IBV_WC_REM_INV_RD_REQ_ERR => "IBV_WC_REM_INV_RD_REQ_ERR"
  | IBV_WC_REM_ABORT_ERR => "IBV_WC_REM_ABORT_ERR"
  | IBV_WC_INV_EECN_ERR => "IBV_WC_INV_EECN_ERR"
  | IBV_WC_INV_EEC_STATE_ERR => "IBV_WC_INV_EEC_STATE_ERR"
  | IBV_WC_FATAL_ERR => "IBV_WC_FATAL_ERR"
  | IBV_WC_RESP_TIMEOUT_ERR => "IBV_WC_RESP_TIMEOUT_ERR"
  | IBV_WC_GENERAL_ERR => "IBV_WC_GENERAL_ERR"
  end.

(** [struct rdma_conn_param], the fields the code sets; [private_data] points
    to the global [prank]. *)
Record rdma_conn_param := ConnParam {
  private_data_len : Z;
  initiator_depth : Z;
  responder_resources : Z;
  rnr_retry_count : Z;
  retry_count : Z;
}.

Definition fdmi_build_params : rdma_conn_param := ConnParam 4 10 10 7 7.

(** The threads fdmi.c starts. *)
Inductive thread :=
| TPollSendrecvCq (dctx : Z)
| TPollSendCq (dctx : Z)
| TPollEventRecvChannel (domain_id : Z).

(** The calls that leave the program. *)
Inductive net_call :=
| CGetDeviceList | COpenDevice (device : Z) | CCloseDevice (ctx : Z) | CFreeDeviceList
| CCreateEventChannel | CCreateId (channel : Z) | CBindAddr (id port : Z) | CListen (id backlog : Z)
| CAllocPd (ctx : Z) | CCreateCompChannel (ctx : Z) | CCreateCq (ctx size channel : Z)
| CReqNotify (cq : Z) | CCreateQp (id pd cq : Z) (max_wr max_sge : Z)
| CAccept (id : Z) (p : rdma_conn_param) | CReject (id : Z) | CConnect (id : Z) (p : rdma_conn_param)
| CResolveRoute (id timeout : Z) | CGetAddrInfo (host : string) (port : Z) | CResolveAddr (id timeout : Z)
| CThreadCreate (t : thread) | CThreadDetach (t : thread) | CGetEvent (channel : Z) | CAckEvent
| CSleep (sec : Z) | CGetHostname.

(** What the calls return, given those made before: an error number, a pointer
    or an identifier; [net_id] is the identifier [rdma_create_id] stores.
    [net_verbs id] is [id->verbs]; [net_qp calls id] is [id->qp].  [net_queue k]
    is the address and the old contents of the [k]-th queue structure. *)
Class Net : Type := {
  net : list net_call → net_call → Z;
  net_id : list net_call → Z;
  net_devices : list net_call → option (list Z);
  net_verbs : Z → Z;
  net_qp : list net_call → Z → Z;
  net_queue : nat → Z * Z;
}.

(** The process with the calls it has made and the globals only the set-up
    uses. *)
Record runtime := Runtime {
  rt_proc : process;
  rt_calls : list net_call;
  fdmi_size : Z;
  fdmi_numspare : Z;
  conc : Z;
}.
#[export] Instance eta_runtime : Eta runtime := λ r,
  Runtime (rt_proc r) (rt_calls r) (fdmi_size r) (fdmi_numspare r) (conc r).

(** [const int TIMEOUT_IN_MS] and [RDMA_LISTEN_BACKLOG]. *)
Definition TIMEOUT_IN_MS : Z := 5000.
Definition RDMA_LISTEN_BACKLOG : Z := 16.

Section ops.
Context {HMalloc : Malloc} {HVerbs : Verbs} {HNet : Net}.
Implicit Types (r : runtime) (s : process).

Definition call r (c : net_call) : Z * runtime := (net (rt_calls r) c, r <| rt_calls := rt_calls r ++ [c] |>).

(** The three ways in which the code tests a result: [if (f())],
    [if ((errno = f()) > 0)] and [if ((p = f()) == NULL)]. *)
Definition must_zero r (c : net_call) (why : string) : outcome runtime :=
  let '(v, r) := call r c in if v =? 0 then Done r else Fatal why.
Definition must_not_exceed r (c : net_call) (why : string) : outcome runtime :=
  let '(v, r) := call r c in if 0 <? v then Fatal why else Done r.
Definition must_pointer r (c : net_call) (why : string) : outcome (Z * runtime) :=
  let '(v, r) := call r c in if v =? NULL then Fatal why else Done (v, r).

Definition with_proc r s : runtime := r <| rt_proc := s |>.

(** ** Devices and domains *)
Definition ibv_get_device_list r : outcome (list Z * runtime) :=
  match net_devices (rt_calls r) with
  | Some l => Done (l, r <| rt_calls := rt_calls r ++ [CGetDeviceList] |>)
  | None => Fatal "ibv_get_device_list failed"
  end.

Definition get_port_count r : outcome (Z * runtime) :=
  let! (l, r) := ibv_get_device_list r in Done (Z.of_nat (length l), r).

(** The parameter [ctx] is not used. *)
Definition fdmi_create_domain r (ctx : Z) : outcome (fdmi_domain * runtime) :=
  let! (channel, r) := must_pointer r CCreateEventChannel "rdma_create_event_channel" in
  let id := net_id (rt_calls r) in
  r <- must_zero r (CCreateId channel) "rdma_create_id failed" ;;
  Done (Domain channel id NULL, r).

Definition fdmi_create_peer (numdomain : nat) : fdmi_peer := Peer (replicate numdomain NULL) 0 Unlocked.

(** The loop of [fdmi_create_sendrecv_channel] over the devices. *)
Fixpoint create_domains (n : nat) (devices : list Z) r : outcome (list fdmi_domain * runtime) :=
  match n with
  | O => Done ([], r)
  | S n =>
      match devices with
      | [] => Undef
      | device :: devices =>
          let! (ctx, r) := must_pointer r (COpenDevice device) "ibv_open_device failed" in
          let! (d, r) := fdmi_create_domain r ctx in
          let '(v, r) := call r (CCloseDevice ctx) in
          if v =? -1 then Fatal "ibv_close_device failed"
          else let! (ds, r) := create_domains n devices r in Done (d :: ds, r)
      end
  end.

Definition fdmi_create_sendrecv_channel r : outcome runtime :=
  let! (numdomain, r) := get_port_count r in
  let! (devices, r) := ibv_get_device_list r in
  let! (domains, r) := create_domains (Z.to_nat numdomain) devices r in
  let r := (call r CFreeDeviceList).2 in
  let peers := replicate (Z.to_nat (fdmi_size r)) (fdmi_create_peer (Z.to_nat numdomain)) in
  Done (with_proc r (rt_proc r <| ps_domains := domains |> <| ps_peers := peers |>)).

(** The address structure is allocated and freed in each round; the port is a
    16-bit field. *)
Fixpoint bind_and_listen (domains : list fdmi_domain) r : outcome runtime :=
  match domains with
  | [] => Done r
  | d :: domains =>
      let '(v, r) := call r (CBindAddr (dom_rcid d) (u16 IBTL_LISTEN_PORT)) in
      r <- (if v =? 0 then Done r
            else must_zero r (CBindAddr (dom_rcid d) 0) "RDMA address binding failed") ;;
      r <- must_zero r (CListen (dom_rcid d) RDMA_LISTEN_BACKLOG) "RDMA address listen failed" ;;
      bind_and_listen domains r
  end.

Definition fdmi_bind_addr_and_listen r : outcome runtime := bind_and_listen (ps_domains (rt_proc r)) r.

Fixpoint run_pollers (i : Z) (domains : list fdmi_domain) r : outcome runtime :=
  match domains with
  | [] => Done r
  | d :: domains =>
      r <- must_not_exceed r (CThreadCreate (TPollEventRecvChannel i)) "pthread_create failed" ;;
      r <- must_not_exceed r (CThreadDetach (TPollEventRecvChannel i)) "pthread_detach failed" ;;
      run_pollers (i + 1) domains r
  end.

Definition fdmi_run_event_channel_poller r : outcome runtime := run_pollers 0 (ps_domains (rt_proc r)) r.

(** ** Connections *)
Definition fdmi_create_query_qp (pq aq : Z * Z) : outcome fdmi_query_qp :=
  p <- fdmi_queue_create pq.1 pq.2 ;;
  a <- fdmi_queue_create aq.1 aq.2 ;;
  Done (QueryQp p a).

(** The queues are drained and their mutexes destroyed. *)
Definition fdmi_destroy_query_qp (qqp : fdmi_query_qp) : outcome fdmi_query_qp :=
  p <- fdmi_queue_destroy (qp_pq qqp) ;;
  a <- fdmi_queue_destroy (qp_aq qqp) ;;
  Done (QueryQp p a).

Definition fdmi_create_connection r (rcid dctx : Z) : outcome (Z * runtime) :=
  let! (conn, h) := fdmi_malloc (ps_conns (rt_proc r)) (Connection rcid (net_qp (rt_calls r) rcid) dctx) in
  Done (conn, with_proc r (rt_proc r <| ps_conns := h |>)).

(** The first half of [fdmi_create_qp]: the context of the domain is created
    once.  The cell's first contents are overwritten before they are read. *)
Definition create_dctx r (rcid : Z) : outcome (Z * runtime) :=
  let ctx := net_verbs rcid in
  let! (dc, h) := fdmi_malloc (ps_dctxs (rt_proc r))
    (DomainContext ctx NULL NULL NULL NULL (QueryQp (Queue NULL NULL NULL Unlocked 0 empty_heap)
                                                    (Queue NULL NULL NULL Unlocked 0 empty_heap))) in
  let! (pd, r) := must_pointer r (CAllocPd ctx) "ibv_alloc_pd failed" in
  let! (cc, r) := must_pointer r (CCreateCompChannel ctx) "ibv_create_comp_channel failed" in
  let! (cq, r) := must_pointer r (CCreateCq ctx 1000 cc) "ibv_create_cq_pd failed" in
  r <- must_not_exceed r (CReqNotify cq) "ibv_req_notify_cq failed" ;;
  qqp <- fdmi_create_query_qp (net_queue 0) (net_queue 1) ;;
  h <- poke h dc (DomainContext ctx cc pd cq NULL qqp) ;;
  Done (dc, with_proc r (rt_proc r <| ps_dctxs := h |>)).

Definition get_dctx r (dctx rcid : Z) : outcome (Z * runtime) :=
  if dctx =? NULL then create_dctx r rcid
  else
    dc <- dctx_at (rt_proc r) dctx ;;
    if dc_ctx dc =? net_verbs rcid then Done (dctx, r) else Fatal "Invalide verbs(ibv_context)".

(** [fdmi_create_qp(&dctx, rcid)]: the context afterwards. *)
Definition fdmi_create_qp r (dctx rcid : Z) : outcome (Z * runtime) :=
  let! (dctx, r) := get_dctx r dctx rcid in
  dc <- dctx_at (rt_proc r) dctx ;;
  r <- must_not_exceed r (CCreateQp rcid (dc_pd dc) (dc_cq dc) 100 5) "rdma_create_qp failed" ;;
  if net_qp (rt_calls r) rcid =? NULL then Fatal "NULL POINTER EXCEPTION" else Done (dctx, r).

(** The same on the domain number [i]. *)
Definition domain_create_qp r (i rcid : Z) : outcome (Z * runtime) :=
  d <- aget (ps_domains (rt_proc r)) i ;;
  let! (dctx, r) := fdmi_create_qp r (dom_dctx d) rcid in
  ds <- aset (ps_domains (rt_proc r)) i (Domain (dom_rec d) (dom_rcid d) dctx) ;;
  Done (dctx, with_proc r (rt_proc r <| ps_domains := ds |>)).
End ops.
