(* ===== verification/Connection.v ===== *)
(** * src/src/fdmi.c: starting up, connecting, and the events of connections

    [fdmi_verbs_init], [fdmi_verbs_connect], the thread
    [fdmi_poll_event_recv_channel] with one definition for each event it
    handles, and the completion source [fdmi_get_wc] of the completion thread. *)
From S2P Require Import Prelude Mem Queue Hashtable Datatype ProcMan State MrCache Query Matching Transfer Progress MsgSpec Engine Delivery Fault Net Api.

Section ops.
Context {HMalloc : Malloc} {HVerbs : Verbs} {HNet : Net}.
Implicit Types (r : runtime) (s : process).

(** The entry of the connection table of a peer. *)
Definition set_conn s (rank domain_id conn : Z) : outcome process :=
  peer <- aget (ps_peers s) rank ;;
  cs <- aset (p_conn peer) domain_id conn ;;
  ps <- aset (ps_peers s) rank (peer <| p_conn := cs |>) ;;
  Done (s <| ps_peers := ps |>).

Definition itop_get r (id : Z) : outcome (Z * runtime) :=
  let! (rank, pm) := fdmi_rmap_itop_get (ps_pm (rt_proc r)) id in
  Done (rank, with_proc r (rt_proc r <| ps_pm := pm |>)).

(** ** Events *)

(** [RDMA_CM_EVENT_CONNECT_REQUEST]: the next rank is given to the peer that
    asks, unless its lock is taken. *)
Definition on_connect_request r (domain_id id : Z) : outcome runtime :=
  let s := rt_proc r in
  let rank := connected_rank s in
  peer <- aget (ps_peers s) rank ;;
  match on_connecting_lock peer with
  | Destroyed => Undef
  | Locked => must_not_exceed r (CReject id) "P:rdma_reject failed"
  | Unlocked =>
      ps <- aset (ps_peers s) rank (peer <| on_connecting_lock := Locked |>) ;;
      let r := with_proc r (s <| ps_peers := ps |>) in
      let! (dctx, r) := domain_create_qp r domain_id id in
      let! (conn, r) := fdmi_create_connection r id dctx in
      s <- set_conn (rt_proc r) rank domain_id conn ;;
      r <- must_not_exceed (with_proc r s) (CAccept id fdmi_build_params) "P:rdma_accept failed" ;;
      cn <- conn_at (rt_proc r) conn ;;
      pm <- fdmi_rmap_itop_add (ps_pm (rt_proc r)) (cn_rcid cn) rank ;;
      next <- c_int (rank + 1) ;;
      Done (with_proc r (rt_proc r <| ps_pm := pm |> <| connected_rank := next |>))
  end.

(** [for (i = 0; i < FDMI_MAX_PENDING_RECV_QUERY; i++)]. *)
Fixpoint post_receives (n : nat) s (conn : Z) : outcome process :=
  match n with
  | O => Done s
  | S n => s <- post_fresh s conn ;; post_receives n s conn
  end.

(** The start of the completion thread at the first established connection. *)
Definition start_cq_poller r (dctx : Z) : outcome runtime :=
  if is_recv_cq_polling (rt_proc r) =? 0 then
    let r := with_proc r (rt_proc r <| is_recv_cq_polling := 1 |>) in
    _ <- dctx_at (rt_proc r) dctx ;;
    r <- must_not_exceed r (CThreadCreate (TPollSendrecvCq dctx)) "pthread_create failed" ;;
    must_not_exceed r (CThreadDetach (TPollSendrecvCq dctx)) "pthread_detach failed"
  else Done r.

Definition on_established r (domain_id id : Z) : outcome runtime :=
  d <- aget (ps_domains (rt_proc r)) domain_id ;;
  r <- start_cq_poller r (dom_dctx d) ;;
  let! (rank, r) := itop_get r id in
  peer <- aget (ps_peers (rt_proc r)) rank ;;
  conn <- aget (p_conn peer) domain_id ;;
  s <- post_receives FDMI_MAX_PENDING_RECV_QUERY (rt_proc r) conn ;;
  let! (rank, r) := itop_get (with_proc r s) id in
  peer <- aget (ps_peers (rt_proc r)) rank ;;
  ps <- aset (ps_peers (rt_proc r)) rank (peer <| is_connected := 1 |>) ;;
  Done (with_proc r (rt_proc r <| ps_peers := ps |>) <| conc := i32 (conc r + 1) |>).

(** [frank] is a local variable that is never stored: the test reads whatever
    it holds.  The code after the test is not reached. *)
Definition on_disconnected r (frank id : Z) : outcome runtime :=
  need <- fdmi_need_update_ft_msg (rt_proc r) frank ;;
  if need =? 0 then Done r
  else
    let s := rt_proc r <| state := FDMI_FAILURE |> in
    let! (cell, h) := fdmi_malloc (ps_ints s) 0 in
    let! (rank, r) := itop_get (with_proc r (s <| ps_ints := h |>)) id in
    h <- poke (ps_ints (rt_proc r)) cell rank ;;
    q <- fdmi_queue_lock_enq (disconnected_prank_q (rt_proc r)) cell ;;
    Done (with_proc r (rt_proc r <| ps_ints := h |> <| disconnected_prank_q := q |>)).

Definition on_addr_resolved r (domain_id id : Z) : outcome runtime :=
  let! (dctx, r) := domain_create_qp r domain_id id in
  let! (conn, r) := fdmi_create_connection r id dctx in
  let! (rank, r) := itop_get r id in
  peer <- aget (ps_peers (rt_proc r)) rank ;;
  old <- aget (p_conn peer) domain_id ;;
  if old =? NULL then
    let! (rank, r) := itop_get r id in
    s <- set_conn (rt_proc r) rank domain_id conn ;;
    must_zero (with_proc r s) (CResolveRoute id TIMEOUT_IN_MS) "rdma_resolve_route failed"
  else Done r.

Definition on_route_resolved r (id : Z) : outcome runtime :=
  must_zero r (CConnect id fdmi_build_params) "rdma_connect failed".

(** The switch and the acknowledgement of one event. *)
Definition fdmi_on_cm_event r (domain_id frank : Z) (event : rdma_cm_event_type) (id : Z) : outcome runtime :=
  r <- match event with
       | RDMA_CM_EVENT_CONNECT_REQUEST => on_connect_request r domain_id id
       | RDMA_CM_EVENT_ESTABLISHED => on_established r domain_id id
       | RDMA_CM_EVENT_DISCONNECTED => on_disconnected r frank id
       | RDMA_CM_EVENT_ADDR_RESOLVED => on_addr_resolved r domain_id id
       | RDMA_CM_EVENT_ROUTE_RESOLVED => on_route_resolved r id
       | _ => Done r
       end ;;
  Done (call r CAckEvent).2.

(** [fdmi_poll_event_recv_channel] for the events [(rc, (type, id))] that
    [rdma_get_cm_event] reports in turn. *)
Fixpoint fdmi_poll_event_recv_channel r (domain_id frank : Z) (events : list (Z * (rdma_cm_event_type * Z)))
    : outcome runtime :=
  match events with
  | [] => Done r
  | (rc, (event, id)) :: events =>
      d <- aget (ps_domains (rt_proc r)) domain_id ;;
      let r := (call r (CGetEvent (dom_rec d))).2 in
      if rc =? 0 then
        r <- fdmi_on_cm_event r domain_id frank event id ;; fdmi_poll_event_recv_channel r domain_id frank events
      else Fatal "Get event failed"
  end.

(** [fdmi_wait_for_event] for the event [rdma_get_cm_event] reports. *)
Definition fdmi_wait_for_event r (channel : Z) (rc : Z) (event requested_event : rdma_cm_event_type)
    : outcome (Z * runtime) :=
  let r := (call r (CGetEvent channel)).2 in
  if rc =? 0 then
    if decide (event = requested_event) then Done (0, (call r CAckEvent).2)
    else Fatal ("Recived event: " +:+ event_type_str event)
  else Fatal "Get cm event failed".

(** ** Completions *)

(** What [ibv_poll_cq] reports, and [ibv_get_cq_event] with the result of the
    [ibv_req_notify_cq] that follows it. *)
Inductive cq_poll :=
| PollEmpty
| PollError
| PollEntry (status : ibv_wc_status) (opcode : ibv_wc_opcode) (wr_id : Z).
Record cq_event := CqEvent { ce_failed : bool; ce_cq : Z; ce_notify : Z }.

(** Where a thread that takes completions stands when it waits for the next
    report: [tmp_cq] and the reports to come. *)
Record cq_source := CqSource { tmp_cq : Z; cq_polls : list cq_poll; cq_events : list cq_event }.

(** [fdmi_get_wc(1, &tmp_cq, cc, &wc)]: its result and the completion, [None]
    when it waits for ever.  Each round of [while(1)] takes one event.  An error
    of [ibv_poll_cq] is a number the inner loop takes for an entry: it reads a
    completion that nobody has stored. *)
Fixpoint get_wc (tmp_cq : Z) (polls : list cq_poll) (events : list cq_event)
    : outcome (option (Z * (ibv_wc_opcode * Z) * cq_source)) :=
  let wait polls :=
    match events with
    | [] => Done None
    | e :: events =>
        if ce_failed e then Fatal "ibv_get_cq_event failed"
        else if 0 <? ce_notify e then Fatal "ibv_req_notify_cq failed"
        else get_wc (ce_cq e) polls events
    end in
  if tmp_cq =? NULL then wait polls
  else
    match polls with
    | [] => Done None
    | PollEmpty :: polls => wait polls
    | PollError :: _ => Undef
    | PollEntry status opcode wr_id :: polls =>
        Done (Some (if decide (status = IBV_WC_SUCCESS) then 1 else -1, (opcode, wr_id), CqSource tmp_cq polls events))
    end.
Definition fdmi_get_wc (src : cq_source) : outcome (option (Z * (ibv_wc_opcode * Z) * cq_source)) :=
  get_wc (tmp_cq src) (cq_polls src) (cq_events src).

(** [while(fdmi_get_wc(...) < 0);]: every round takes a report. *)
Fixpoint next_wc (fuel : nat) (src : cq_source) : outcome (option (ibv_wc_opcode * Z * cq_source)) :=
  match fuel with
  | O => Diverge
  | S fuel =>
      res <- fdmi_get_wc src ;;
      match res with
      | None => Done None
      | Some (num, wc, src) => if num <? 0 then next_wc fuel src else Done (Some (wc, src))
      end
  end.

(** The thread [fdmi_poll_sendrecv_cq], until it waits for ever.  The field
    [tmp_cq] of the context is used by this thread only. *)
Fixpoint poll_thread (fuel : nat) s (D : Z) (src : cq_source) : outcome process :=
  match fuel with
  | O => Diverge
  | S fuel =>
      res <- next_wc (S (length (cq_polls src))) src ;;
      match res with
      | None => Done s
      | Some (opcode, wr_id, src) =>
          s <- fdmi_poll_sendrecv_cq s D opcode wr_id ;; poll_thread fuel s D src
      end
  end.

(** ** Connecting *)

(** What the other threads make of the process while this one sleeps [n]
    times. *)
Context (others : runtime → nat → runtime).

(** [while (fdmi_is_connected(rank) == 0) usleep(1000);]. *)
Fixpoint connected_wait (fuel : nat) r (rank : Z) (n : nat) : outcome runtime :=
  match fuel with
  | O => Diverge
  | S fuel =>
      c <- fdmi_is_connected (rt_proc (others r n)) rank ;;
      if c =? 0 then connected_wait fuel r rank (S n) else Done (others r n)
  end.

(** The round of the loop of [fdmi_verbs_connect] for the domain [d]. *)
Definition connect_domain (fuel : nat) r (rank : Z) (hostname : string) (d : fdmi_domain) : outcome runtime :=
  let id := net_id (rt_calls r) in
  r <- must_zero r (CCreateId (dom_rec d)) "rdma_create_id failed" ;;
  pm <- fdmi_rmap_itop_add (ps_pm (rt_proc r)) id rank ;;
  let r := with_proc r (rt_proc r <| ps_pm := pm |>) in
  r <- must_zero r (CGetAddrInfo hostname IBTL_LISTEN_PORT) "getaddrinfo failed" ;;
  r <- must_zero r (CResolveAddr id TIMEOUT_IN_MS) "rdma_resolve_addr failed" ;;
  connected_wait fuel r rank 0.

Fixpoint connect_domains (fuel : nat) r (rank : Z) (hostname : string) (ds : list fdmi_domain) : outcome runtime :=
  match ds with
  | [] => Done r
  | d :: ds => r <- connect_domain fuel r rank hostname d ;; connect_domains fuel r rank hostname ds
  end.

(** The result is the connection over the last domain. *)
Definition fdmi_verbs_connect (fuel : nat) r (rank : Z) (hostname : string) : outcome (Z * runtime) :=
  peer <- aget (ps_peers (rt_proc r)) rank ;;
  r <- connect_domains fuel r rank hostname (ps_domains (rt_proc r)) ;;
  peer <- aget (ps_peers (rt_proc r)) rank ;;
  conn <- aget (p_conn peer) (Z.of_nat (length (ps_domains (rt_proc r))) - 1) ;;
  Done (conn, r).

(** ** The three topologies, over [fdmi_connect], which does nothing *)

(** The ranks the loop of [fdmi_make_alltoall_connection] visits. *)
Fixpoint alltoall_loop (n : nat) s (rank size : Z) : process :=
  match n with
  | O => s
  | S n =>
      let s := if ps_prank s =? rank then s else fdmi_connect s rank in
      alltoall_loop n s (Z.rem (rank + 1) size) size
  end.

Fixpoint start_send_pollers (ds : list fdmi_domain) r : outcome runtime :=
  match ds with
  | [] => Done r
  | d :: ds =>
      _ <- dctx_at (rt_proc r) (dom_dctx d) ;;
      r <- must_not_exceed r (CThreadCreate (TPollSendCq (dom_dctx d))) "pthread_create failed" ;;
      r <- must_not_exceed r (CThreadDetach (TPollSendCq (dom_dctx d))) "pthread_detach failed" ;;
      start_send_pollers ds r
  end.

Definition fdmi_make_alltoall_connection r : outcome runtime :=
  if fdmi_size r =? 0 then Undef
  else
    let s := alltoall_loop (Z.to_nat (fdmi_size r)) (rt_proc r) (Z.rem (ps_prank (rt_proc r) + 1) (fdmi_size r)) (fdmi_size r) in
    start_send_pollers (ps_domains s) (with_proc r s).

Definition fdmi_make_line_connection r : outcome runtime :=
  if ps_prank (rt_proc r) =? 0 then Done r
  else if fdmi_size r =? 0 then Undef
  else Done (with_proc r (fdmi_connect (rt_proc r) (Z.rem (ps_prank (rt_proc r) + (fdmi_size r - 1)) (fdmi_size r)))).

Definition fdmi_make_ring_connection r : outcome runtime :=
  if fdmi_size r =? 0 then Undef
  else Done (with_proc r (fdmi_connect (rt_proc r) (Z.rem (ps_prank (rt_proc r) + (fdmi_size r - 1)) (fdmi_size r)))).
End ops.
