(* ===== verification/Init.v ===== *)
(** * src/src/fdmi_param.c and the start of the process in src/src/fdmi.c

    The configuration variables, which are environment variables, and
    [fdmi_verbs_init], which reads them and creates everything a process needs
    before its first connection. *)
From S2P Require Import Prelude Mem Queue Hashtable Datatype ProcMan State MrCache Query Matching Transfer Progress MsgSpec Engine Delivery Fault Net Api Connection.
From Stdlib Require Import Ascii.

(** ** src/src/fdmi_param.c *)

Definition environment := gmap string string.

Definition fdmi_param_get (env : environment) (param_name : string) : option string := env !! param_name.

(** The name and the value of a string [name=value], as [putenv] takes it
    apart. *)
Fixpoint split_at_eq (s : string) : option (string * string) :=
  match s with
  | EmptyString => None
  | String c s =>
      if Ascii.eqb c "=" then Some (EmptyString, s)
      else match split_at_eq s with
           | Some (n, v) => Some (String c n, v)
           | None => None
           end
  end.

(** [putenv] of a string without [=] removes the variable. *)
Definition putenv (env : environment) (s : string) : environment :=
  match split_at_eq s with
  | Some (n, v) => <[n := v]> env
  | None => delete s env
  end.

(** The string is written to a buffer of 1024 bytes. *)
Definition fdmi_param_set (env : environment) (name value : string) : outcome environment :=
  let s := name +:+ "=" +:+ value in
  if (String.length s <? 1024)%nat then Done (putenv env s) else Undef.

(** [atoi]: white space, a sign, digits; a number that does not fit is
    undefined. *)
Definition is_space (c : ascii) : bool :=
  let n := nat_of_ascii c in (n =? 32)%nat || ((9 <=? n)%nat && (n <=? 13)%nat).
Definition digit (c : ascii) : option Z :=
  let n := Z.of_nat (nat_of_ascii c) in
  if (48 <=? n) && (n <=? 57) then Some (n - 48) else None.

Fixpoint digits (acc : Z) (s : string) : Z :=
  match s with
  | EmptyString => acc
  | String c s => match digit c with Some d => digits (10 * acc + d) s | None => acc end
  end.

Fixpoint skip_space (s : string) : string :=
  match s with
  | String c s' => if is_space c then skip_space s' else s
  | EmptyString => s
  end.

Definition atoi (s : string) : outcome Z :=
  match skip_space s with
  | String "-" s => c_int (- digits 0 s)
  | String "+" s => c_int (digits 0 s)
  | s => c_int (digits 0 s)
  end.

(** ** The start of the process *)
Section ops.
Context {HMalloc : Malloc} {HVerbs : Verbs} {HNet : Net}.
Implicit Types (r : runtime) (s : process).

(** [if ((value = fdmi_param_get(name)) != NULL) v = atoi(value); else v = old]. *)
Definition env_int (env : environment) (name : string) (old : Z) : outcome Z :=
  match fdmi_param_get env name with Some value => atoi value | None => Done old end.

(** The queue [cached_query_q] is created and never used. *)
Definition fdmi_set_envs r (env : environment) : outcome runtime :=
  let s := rt_proc r in
  prank <- env_int env "FDRANK" (ps_prank s) ;;
  size <- env_int env "FDMI_SIZE" (1024 * 1024) ;;
  numproc <- env_int env "FDMI_NUMPROC" (ps_numproc s) ;;
  numspare <- env_int env "FDMI_NUMSPARE" (fdmi_numspare r) ;;
  let create k := fdmi_queue_create (net_queue k).1 (net_queue k).2 in
  locked <- create 2%nat ;;
  reg <- create 3%nat ;;
  _ <- create 4%nat ;;
  free <- create 5%nat ;;
  sends <- create 6%nat ;;
  failed <- create 7%nat ;;
  disconnected <- create 8%nat ;;
  Done (with_proc r (s <| ps_prank := prank |> <| ps_numproc := numproc |>
          <| locked_request_sem_q := locked |> <| reg_mr_q := reg |> <| free_query_q := free |>
          <| send_req_q := sends |> <| failed_prank_q := failed |> <| disconnected_prank_q := disconnected |>)
        <| fdmi_size := size |> <| fdmi_numspare := numspare |>).

(** [garbage] is what the allocations of the process manager contain. *)
Definition fdmi_init_proc_man (addr garbage : nat → Z) : outcome proc_man :=
  fdmi_proc_man_init (1024 * 1024) 0 1 0 addr garbage (net_queue 9).1 (net_queue 9).2.

(** [fdmi_err_init] asks for the name of the host. *)
Definition fdmi_err_init r : outcome runtime := must_zero r CGetHostname "gethostname fialed".

Definition fdmi_verbs_init r (env : environment) (addr garbage : nat → Z) : outcome (Z * runtime) :=
  r <- fdmi_err_init r ;;
  r <- fdmi_set_envs r env ;;
  pm <- fdmi_init_proc_man addr garbage ;;
  let r := with_proc r (rt_proc r <| ps_pm := pm |>
    <| ft_msg := FtMsg 0 [] (ft_elected (ft_msg (rt_proc r))) 0 |>) in
  r <- fdmi_create_sendrecv_channel r ;;
  r <- fdmi_bind_addr_and_listen r ;;
  r <- fdmi_run_event_channel_poller r ;;
  Done (0, (call r (CSleep 1)).2).

Definition fdmi_verbs_finalize r : Z * runtime := (0, r).
End ops.
