(* ===== verification/Serving.v ===== *)
(** * src/src/fdmi.c: from the start of a process to its first messages

    Theorems about Init.v and Connection.v: a process that initialises and
    accepts a connection is ready in the sense of Delivery.v, and clients are
    given consecutive ranks. *)
From S2P Require Import Prelude Mem Queue Hashtable Datatype ProcMan State MrCache Query Matching Transfer Progress MsgSpec Engine Delivery Fault Net Api Connection Init.

(** ** A network that grants everything *)

(** The calls that return a pointer. *)
Definition returns_pointer (c : net_call) : bool :=
  match c with
  | COpenDevice _ | CCreateEventChannel | CAllocPd _ | CCreateCompChannel _ | CCreateCq _ _ _ => true
  | _ => false
  end.

(** Every call succeeds, all identifiers belong to one device context [ctx],
    every queue pair exists, and there is one device. *)
Record net_grants `{Net} (ctx : Z) : Prop := {
  ng_zero l c : returns_pointer c = false → net l c = 0;
  ng_pointer l c : returns_pointer c = true → net l c ≠ NULL ∧ net l c ≠ -1;
  ng_verbs id : net_verbs id = ctx;
  ng_qp l id : net_qp l id ≠ NULL;
  ng_queue k : (net_queue k).1 ≠ NULL;
  ng_device : ∃ dev, ∀ l, net_devices l = Some [dev];
}.

Section calls.
Context {HMalloc : Malloc} {HVerbs : Verbs} {HNet : Net} (ctx : Z) (Hnet : net_grants ctx).
Implicit Types (r : runtime).

(** The process after one more call. *)
Definition logged r (cs : list net_call) : runtime := r <| rt_calls := rt_calls r ++ cs |>.

Lemma must_zero_ok r c why : returns_pointer c = false → must_zero r c why = Done (logged r [c]).
Proof. intros Hc. unfold must_zero, call. by rewrite (ng_zero _ Hnet) by done. Qed.
Lemma must_not_exceed_ok r c why : returns_pointer c = false → must_not_exceed r c why = Done (logged r [c]).
Proof. intros Hc. unfold must_not_exceed, call. by rewrite (ng_zero _ Hnet) by done. Qed.
Lemma must_pointer_ok r c why :
  returns_pointer c = true → must_pointer r c why = Done (net (rt_calls r) c, logged r [c]).
Proof.
  intros Hc. unfold must_pointer, call. destruct (ng_pointer _ Hnet (rt_calls r) c Hc) as [Hn _].
  by rewrite (proj2 (Z.eqb_neq _ _)).
Qed.

Lemma logged_logged r cs cs' : logged (logged r cs) cs' = logged r (cs ++ cs').
Proof. unfold logged. cbn. by rewrite (assoc_L (++)). Qed.

(** The context of the domain after [fdmi_create_qp]: the one there is, or a
    fresh one with two empty queues. *)
Definition new_dctx (h h' : heap fdmi_domain_context) (D : Z) : Prop :=
  D ≠ NULL ∧ cells h !! D = None ∧ ∃ dc, cells h' = <[D := dc]> (cells h) ∧ dc_ctx dc = ctx ∧
    queue_rep Unlocked (qp_aq (dc_query_qp dc)) [] ∧ queue_rep Unlocked (qp_pq (dc_query_qp dc)) [].

Lemma create_dctx_ok r rcid :
  malloc_total →
  ends (create_dctx r rcid) (λ x, ∃ cs h,
    x.2 = logged (with_proc r (rt_proc r <| ps_dctxs := h |>)) cs ∧ new_dctx (ps_dctxs (rt_proc r)) h x.1).
Proof.
  intros Hm. unfold create_dctx. rewrite fdmi_malloc_ok by apply Hm. cbn [obind].
  do 3 (rewrite must_pointer_ok by done; cbn [obind]).
  rewrite must_not_exceed_ok by done. cbn [obind]. unfold fdmi_create_query_qp.
  pose proof (rep_create (rep := queue_rep) (net_queue 0).1 (net_queue 0).2 (ng_queue _ Hnet 0)) as H0.
  pose proof (rep_create (rep := queue_rep) (net_queue 1).1 (net_queue 1).2 (ng_queue _ Hnet 1)) as H1.
  apply ends_Done in H0 as (q0 & -> & H0). apply ends_Done in H1 as (q1 & -> & H1). cbn [obind].
  rewrite poke_ok by (cbn; rewrite lookup_insert_eq; by eexists). cbn [obind ends fst snd].
  eexists _, _. split; [by rewrite !logged_logged|].
  split; [apply Hm|]. split; [by apply malloc_fresh, Hm|]. eexists. split; [cbn; by rewrite insert_insert_eq|].
  cbn. by rewrite (ng_verbs _ Hnet).
Qed.

(** The context the code finds or makes for the domain whose context is [D]. *)
Definition qp_dctx (D : Z) (h h' : heap fdmi_domain_context) (D' : Z) : Prop :=
  if D =? NULL then new_dctx h h' D' else D' = D ∧ h' = h.

Definition dctx_live (s : process) (D : Z) : Prop :=
  D ≠ NULL → ∃ dc, cells (ps_dctxs s) !! D = Some dc ∧ dc_ctx dc = ctx.

Lemma get_dctx_ok r D rcid :
  malloc_total → dctx_live (rt_proc r) D →
  ends (get_dctx r D rcid) (λ x, ∃ cs h, x.2 = logged (with_proc r (rt_proc r <| ps_dctxs := h |>)) cs ∧
    is_Some (cells h !! x.1) ∧ qp_dctx D (ps_dctxs (rt_proc r)) h x.1).
Proof.
  intros Hm Hlive. unfold get_dctx, qp_dctx. destruct (D =? NULL) eqn:E.
  - eapply ends_mono; [by apply create_dctx_ok|]. intros x (cs & h & Hx & Hnew). exists cs, h.
    split_and!; [done| |done]. destruct Hnew as (_ & _ & dc & -> & _). rewrite lookup_insert_eq. by eexists.
  - apply Z.eqb_neq in E. destruct (Hlive E) as (dc & Hdc & Hctx). unfold dctx_at, peek.
    rewrite (proj2 (load_Done _ _ _) Hdc). cbn [obind]. rewrite Hctx, (ng_verbs _ Hnet), Z.eqb_refl.
    cbn [ends fst snd]. exists [], (ps_dctxs (rt_proc r)). split_and!; [|by exists dc|done|done].
    unfold logged, with_proc. cbn. rewrite app_nil_r. by destruct r as [[]].
Qed.

Lemma domain_create_qp_ok r d rcid :
  malloc_total → ps_domains (rt_proc r) = [d] → dctx_live (rt_proc r) (dom_dctx d) →
  ends (domain_create_qp r 0 rcid) (λ x, ∃ cs h,
    x.2 = logged (with_proc r (rt_proc r <| ps_dctxs := h |>
            <| ps_domains := [Domain (dom_rec d) (dom_rcid d) x.1] |>)) cs ∧
    is_Some (cells h !! x.1) ∧ qp_dctx (dom_dctx d) (ps_dctxs (rt_proc r)) h x.1).
Proof.
  intros Hm Hd Hlive. unfold domain_create_qp. rewrite Hd. change (aget [d] 0) with (Done d). cbn [obind].
  unfold fdmi_create_qp. rewrite obind_assoc.
  c_step (get_dctx_ok r (dom_dctx d) rcid Hm Hlive) as [D' r1] (cs & h & -> & [dc Hdc] & Hqp). cbn [fst snd] in *.
  set (r1 := logged _ _). unfold dctx_at, peek.
  rewrite (proj2 (load_Done _ _ _) (Hdc : cells (ps_dctxs (rt_proc r1)) !! D' = Some dc)). cbn [obind].
  rewrite must_not_exceed_ok by done. cbn [obind].
  rewrite (proj2 (Z.eqb_neq _ _)) by apply (ng_qp _ Hnet). cbn [obind].
  match goal with |- context [aset ?l 0 _] => change l with (ps_domains (rt_proc r)) end. rewrite Hd. cbn.
  eexists _, h. split; [|split; [by exists dc|exact Hqp]]. unfold r1. rewrite logged_logged. reflexivity.
Qed.
End calls.

(** ** Accepting a connection *)

(** [s'] is [s] after the peer at the end of [id] has been given the next rank:
    its connection [conn] over the context [D']. *)
Record accepted (ctx : Z) (s s' : process) (t : table) (id conn D' : Z) (d : fdmi_domain) (peer : fdmi_peer) : Prop := {
  ac_domains : ps_domains s' = [Domain (dom_rec d) (dom_rcid d) D'];
  ac_dctx : is_Some (cells (ps_dctxs s') !! D') ∧ qp_dctx ctx (dom_dctx d) (ps_dctxs s) (ps_dctxs s') D';
  ac_conn : conn ≠ NULL ∧ cells (ps_conns s) !! conn = None;
  ac_conns : ∃ qp, qp ≠ NULL ∧ cells (ps_conns s') = <[conn := Connection id qp D']> (cells (ps_conns s));
  ac_peers : ps_peers s' = <[Z.to_nat (connected_rank s) := peer <| on_connecting_lock := Locked |> <| p_conn := [conn] |>]> (ps_peers s);
  ac_rank : connected_rank s' = connected_rank s + 1;
  ac_routes : routes (spec_add t id (connected_rank s)) s';
  ac_store : pm_store (ps_pm s') = pm_store (ps_pm s);
  ac_rest : s' = s <| ps_domains := ps_domains s' |> <| ps_dctxs := ps_dctxs s' |> <| ps_conns := ps_conns s' |>
    <| ps_peers := ps_peers s' |> <| ps_pm := ps_pm s' |> <| connected_rank := connected_rank s' |>;
}.

Section accepting.
Context {HMalloc : Malloc} {HVerbs : Verbs} {HNet : Net} (ctx : Z) (Hnet : net_grants ctx).
Context (Hm : malloc_total).
Implicit Types (r : runtime).

Lemma aset_here {A} (l : list A) i v w : aget l i = Done v → aset l i w = Done (<[Z.to_nat i := w]> l).
Proof. intros H. apply aset_ok. by eapply aget_inrange. Qed.

Lemma aget_set_here {A} (l : list A) i v w : aget l i = Done v → aget (<[Z.to_nat i := w]> l) i = Done w.
Proof.
  intros H. apply aget_Done in H as [Hi Hl]. apply aget_Done. split; [done|].
  apply list_lookup_insert_eq. by eapply lookup_lt_Some.
Qed.

Lemma create_connection_ok r id D :
  ends (fdmi_create_connection r id D) (λ x, ∃ h, x.2 = with_proc r (rt_proc r <| ps_conns := h |>) ∧
    x.1 ≠ NULL ∧ cells (ps_conns (rt_proc r)) !! x.1 = None ∧
    ∃ qp, qp ≠ NULL ∧ cells h = <[x.1 := Connection id qp D]> (cells (ps_conns (rt_proc r)))).
Proof.
  unfold fdmi_create_connection. rewrite fdmi_malloc_ok by apply Hm. cbn [obind ends fst snd].
  eexists. split; [done|]. split; [apply Hm|]. split; [by apply malloc_fresh, Hm|].
  eexists. split; [apply (ng_qp _ Hnet)|done].
Qed.

Lemma set_conn_ok s rank conn peer :
  aget (ps_peers s) rank = Done peer → length (p_conn peer) = 1%nat →
  set_conn s rank 0 conn = Done (s <| ps_peers := <[Z.to_nat rank := peer <| p_conn := [conn] |>]> (ps_peers s) |>).
Proof.
  intros Hpe Hlen. unfold set_conn. rewrite Hpe. cbn [obind].
  destruct (p_conn peer) as [|c0 [|]]; try done. change (aset [c0] 0 conn) with (Done [conn]). cbn [obind].
  by rewrite (aset_here _ _ _ _ Hpe).
Qed.

(** The tail of the handler, in the state where the connection is made. *)
Lemma accept_tail r t id conn rank cn :
  routes t (rt_proc r) → cells (ps_conns (rt_proc r)) !! conn = Some cn → cn_rcid cn = id → 0 ≤ rank < INT_MAX →
  ends (r <- must_not_exceed r (CAccept id fdmi_build_params) "P:rdma_accept failed" ;;
        cn <- conn_at (rt_proc r) conn ;;
        pm <- fdmi_rmap_itop_add (ps_pm (rt_proc r)) (cn_rcid cn) rank ;;
        next <- c_int (rank + 1) ;;
        Done (with_proc r (rt_proc r <| ps_pm := pm |> <| connected_rank := next |>)))
    (λ r', ∃ pm, rt_proc r' = rt_proc r <| ps_pm := pm |> <| connected_rank := rank + 1 |> ∧
       routes (spec_add t id rank) (rt_proc r') ∧ pm_store pm = pm_store (ps_pm (rt_proc r))).
Proof.
  intros Hrt Hcn <- Hrank. rewrite (must_not_exceed_ok ctx Hnet) by done. cbn [obind].
  unfold conn_at, peek. cbn [rt_proc logged set_field]. 
  change (rt_proc (logged r [CAccept (cn_rcid cn) fdmi_build_params])) with (rt_proc r).
  rewrite (proj2 (load_Done _ _ _) Hcn). cbn [obind]. unfold fdmi_rmap_itop_add. rewrite obind_assoc.
  c_step (hrep_add (hrep := ht_rep queue_rep)) as ht Hht; [intros; apply Hm..|]. cbn [obind].
  rewrite c_int_bounds by lia. cbn [obind ends]. eexists. by split_and!.
Qed.

Lemma on_connect_request_ok r d peer t id :
  ps_domains (rt_proc r) = [d] → dctx_live ctx (rt_proc r) (dom_dctx d) → routes t (rt_proc r) →
  aget (ps_peers (rt_proc r)) (connected_rank (rt_proc r)) = Done peer →
  on_connecting_lock peer = Unlocked → length (p_conn peer) = 1%nat → connected_rank (rt_proc r) < INT_MAX →
  ends (on_connect_request r 0 id) (λ r', ∃ conn D', accepted ctx (rt_proc r) (rt_proc r') t id conn D' d peer).
Proof.
  intros Hd Hlive Hrt Hpe Hlock Hlen Hmax. unfold on_connect_request. rewrite Hpe. cbn [obind]. rewrite Hlock.
  pose proof (aget_inrange _ _ _ Hpe) as [Hr0 _]. set (rank := connected_rank (rt_proc r)) in *.
  rewrite (aset_here _ _ _ _ Hpe). cbn [obind]. set (peer1 := peer <| on_connecting_lock := Locked |>).
  assert (Hpe1 : aget (<[Z.to_nat rank := peer1]> (ps_peers (rt_proc r))) rank = Done peer1) by (by eapply aget_set_here).
  set (r1 := with_proc r _).
  c_step (domain_create_qp_ok ctx Hnet r1 d id) as [D' r2] (cs & h & -> & HD & Hqp). cbn [fst snd] in *.
  set (r2 := logged _ _).
  c_step (create_connection_ok r2 id D') as [conn r3] (hc & -> & Hc0 & Hcn & qp & Hqp0 & Hcells). cbn [fst snd] in *.
  set (r3 := with_proc r2 _).
  rewrite (set_conn_ok (rt_proc r3) rank conn peer1) by done. cbn [obind]. set (s4 := rt_proc r3 <| ps_peers := _ |>).
  c_last (accept_tail (with_proc r3 s4) t id conn rank (Connection id qp D')) as r' (pm & Er & Hrt' & Hst).
  { cbn. rewrite Hcells. apply lookup_insert_eq. }
  exists conn, D'. split; rewrite ?Er; try done.
  - by exists qp.
  - cbn. by rewrite list_insert_insert_eq.
  - by rewrite <- Er.
Qed.
End accepting.

(** ** Consecutive ranks *)

(** The peer number [rank] is at the end of the connection identifier [id]. *)
Definition peer_at (s : process) (rank id : Z) : Prop :=
  ∃ peer conn cn d, aget (ps_peers s) rank = Done peer ∧ p_conn peer = [conn] ∧ on_connecting_lock peer = Locked ∧
    cells (ps_conns s) !! conn = Some cn ∧ cn_rcid cn = id ∧ ps_domains s = [d] ∧ cn_dctx cn = dom_dctx d.

(** [s'] is [s] after the connection requests [ids]. *)
Record connected_from (ctx : Z) (s s' : process) (t t' : table) (ids : list Z) : Prop := {
  cf_rank : connected_rank s' = connected_rank s + Z.of_nat (length ids);
  cf_routes : routes t' s';
  cf_others id : id ∉ ids → t' id = t id;
  cf_conns : cells (ps_conns s) ⊆ cells (ps_conns s');
  cf_peers j : j < connected_rank s → aget (ps_peers s') j = aget (ps_peers s) j;
  cf_domain d : ps_domains s = [d] → ∃ d', ps_domains s' = [d'] ∧ (dom_dctx d ≠ NULL → dom_dctx d' = dom_dctx d);
  cf_each i id : ids !! i = Some id → t' id = [connected_rank s + Z.of_nat i] ∧ peer_at s' (connected_rank s + Z.of_nat i) id;
}.

(** A process that can take [n] more connections over its only domain. *)
Record accepting (ctx : Z) (s : process) (n : nat) : Prop := {
  at_domain : ∃ d, ps_domains s = [d] ∧ dctx_live ctx s (dom_dctx d);
  at_rank : connected_rank s + Z.of_nat n ≤ INT_MAX;
  at_peers i : (i < n)%nat → ∃ peer, aget (ps_peers s) (connected_rank s + Z.of_nat i) = Done peer ∧
                 on_connecting_lock peer = Unlocked ∧ length (p_conn peer) = 1%nat;
}.

Lemma aget_set_other {A} (l : list A) i j v : i ≠ j → 0 ≤ i → aget (<[Z.to_nat i := v]> l) j = aget l j.
Proof.
  intros Hij Hi. unfold aget. destruct (j <? 0) eqn:E; [done|]. apply Z.ltb_ge in E.
  rewrite list_lookup_insert_ne by lia. done.
Qed.

Lemma accepted_next ctx s s' t id conn D' d peer n :
  accepted ctx s s' t id conn D' d peer → ps_domains s = [d] → dctx_live ctx s (dom_dctx d) → 0 ≤ connected_rank s →
  accepting ctx s (S n) → accepting ctx s' n.
Proof.
  intros [Hds [_ Hqp] _ _ Hps Hrank _ _ _] Hd Hlive Hr0 [_ Hmax Hpeers]. split.
  - eexists. split; [exact Hds|]. cbn. intros _. unfold qp_dctx in Hqp. destruct (dom_dctx d =? NULL) eqn:E.
    + destruct Hqp as (_ & _ & dc & Hc & Hctx & _). exists dc. by rewrite Hc, lookup_insert_eq.
    + apply Z.eqb_neq in E. destruct Hqp as [-> ->]. by apply Hlive.
  - rewrite Hrank. lia.
  - intros i Hi. destruct (Hpeers (S i)) as (p & Hp & Hrest); [lia|]. exists p. split; [|done].
    rewrite Hps, Hrank, aget_set_other by lia. rewrite <- Hp. f_equal. lia.
Qed.

(** One request and then others. *)
Lemma connected_cons ctx s s1 s' t t' id ids conn D' d peer :
  accepted ctx s s1 t id conn D' d peer → connected_from ctx s1 s' (spec_add t id (connected_rank s)) t' ids →
  ps_domains s = [d] → aget (ps_peers s) (connected_rank s) = Done peer → id ∉ ids → t id = [] →
  connected_from ctx s s' t t' (id :: ids).
Proof.
  intros [Hds [_ Hqp] [Hc0 Hcn] (qp & Hq0 & Hcs) Hps Hrank _ _ _] [Frank Froutes Foth Fconns Fpeers Fdom Feach] Hd Hpe Hid Ht.
  pose proof (aget_inrange _ _ _ Hpe) as [Hr0 _].
  assert (HD0 : D' ≠ NULL).
  { unfold qp_dctx in Hqp. destruct (dom_dctx d =? NULL) eqn:E; [by destruct Hqp|].
    apply Z.eqb_neq in E. by destruct Hqp as [-> _]. }
  destruct (Fdom _ Hds) as (d' & Hd' & Hsame). cbn in Hsame. split.
  - rewrite Frank, Hrank. cbn [length]. lia.
  - done.
  - intros x Hx. apply not_elem_of_cons in Hx as [Hx1 Hx2]. rewrite Foth by done. unfold spec_add.
    by rewrite table_set_ne.
  - etrans; [|exact Fconns]. rewrite Hcs. by apply insert_subseteq.
  - intros j Hj. rewrite Fpeers by lia. rewrite Hps. apply aget_set_other; lia.
  - intros d0 Hd0. exists d'. split; [done|]. intros Hn. rewrite Hd in Hd0. injection Hd0 as <-.
    rewrite Hsame by done. unfold qp_dctx in Hqp. rewrite (proj2 (Z.eqb_neq _ _) Hn) in Hqp. by destruct Hqp.
  - intros [|i] x Hx; cbn in Hx.
    + injection Hx as <-. split.
      { rewrite Foth by done. unfold spec_add. rewrite table_set_eq, Ht. cbn. by rewrite Z.add_0_r. }
      exists (peer <| on_connecting_lock := Locked |> <| p_conn := [conn] |>), conn, (Connection id qp D'), d'.
      rewrite Z.add_0_r. split_and!; try done.
      * rewrite Fpeers by lia. rewrite Hps. by eapply aget_set_here.
      * eapply lookup_weaken; [|exact Fconns]. rewrite Hcs. apply lookup_insert_eq.
      * cbn. by rewrite Hsame.
    + destruct (Feach i x Hx) as [H1 H2]. rewrite Hrank in H1, H2.
      replace (connected_rank s + Z.of_nat (S i)) with (connected_rank s + 1 + Z.of_nat i) by lia. by split.
Qed.

(** C25: connection requests are numbered in the order they arrive: after any
    number of them each identifier is routed to its own rank, [connected_rank]
    and the ranks after it, and the peer of that rank holds a connection over
    it, locked against a second request. *)
Theorem connect_requests_numbered `{Malloc} `{Verbs} `{Net} ctx r frank t ids :
  net_grants ctx → malloc_total → accepting ctx (rt_proc r) (length ids) → routes t (rt_proc r) →
  0 ≤ connected_rank (rt_proc r) → NoDup ids → (∀ id, id ∈ ids → t id = []) →
  ends (fdmi_poll_event_recv_channel r 0 frank (map (λ id, (0, (RDMA_CM_EVENT_CONNECT_REQUEST, id))) ids))
    (λ r', ∃ t', connected_from ctx (rt_proc r) (rt_proc r') t t' ids).
Proof.
  intros Hnet Hm. revert r t. induction ids as [|id ids IH]; intros r t Hat Hrt Hr0 Hnd Hfresh; cbn [map fdmi_poll_event_recv_channel].
  - cbn. exists t. split; try done; [cbn; lia|]. intros d Hd. by exists d.
  - apply NoDup_cons in Hnd as [Hid Hnd]. destruct (at_domain _ _ _ Hat) as (d & Hd & Hlive).
    rewrite Hd. change (aget [d] 0) with (Done d). cbn [obind Z.eqb]. cbv zeta. set (r1 := (call r _).2).
    destruct (at_peers _ _ _ Hat 0%nat) as (peer & Hpe & Hlock & Hlen); [cbn; lia|]. rewrite Z.add_0_r in Hpe.
    pose proof (at_rank _ _ _ Hat) as Hmax. cbn [length] in Hmax.
    unfold fdmi_on_cm_event. rewrite obind_assoc.
    c_step (on_connect_request_ok ctx Hnet Hm r1 d peer t id) as r2 (conn & D' & Hacc); [cbn; lia|]. cbn [obind].
    change (rt_proc r1) with (rt_proc r) in Hacc.
    eapply ends_mono; [apply (IH _ (spec_add t id (connected_rank (rt_proc r))))|].
    + cbn. eapply accepted_next; [exact Hacc|done..].
    + cbn. apply Hacc.
    + cbn. rewrite (ac_rank _ _ _ _ _ _ _ _ _ Hacc). lia.
    + done.
    + intros x Hx. unfold spec_add. rewrite table_set_ne by (by intros ->). apply Hfresh. by right.
    + cbv beta. intros r' (t' & Hcf). exists t'. eapply connected_cons; [exact Hacc|exact Hcf|done|done|done|].
      apply Hfresh. by left.
Qed.

(** ** An established connection *)
Section established.
Context {HMalloc : Malloc} {HVerbs : Verbs} {HNet : Net} (ctx : Z) (Hnet : net_grants ctx).
Context (Hm : malloc_total) (Hreg : reg_total) (Hpost : post_total).
Implicit Types (r : runtime).

Lemma post_receives_engine D n s rq st free aq pq reads lost c :
  engine queue_rep D Unlocked Unlocked s rq st free aq pq reads lost → c ≠ NULL → is_Some (cells (ps_conns s) !! c) →
  ends (post_receives n s c) (λ s', fixed_part s' = fixed_part s ∧ ∃ qs free', length qs = n ∧
    engine queue_rep D Unlocked Unlocked s' (rq ++ map (pair c) qs) (m_outputs st n) free' aq pq reads lost).
Proof.
  revert s rq st free. induction n as [|n IH]; intros s rq st free He Hc Hcs; cbn [post_receives].
  - cbn. split; [done|]. exists [], free. split; [done|]. unfold m_outputs. rewrite !app_nil_r.
    by destruct st.
  - c_step (post_fresh_engine (rep := queue_rep) Hm Hreg Hpost D s rq st free aq pq reads lost c He Hc Hcs) as s1
      (Hf & qp & q & sges & free1 & _ & He1).
    eapply ends_mono; [eapply (IH s1 _ _ free1 He1 Hc)|].
    { unfold fixed_part in Hf. by injection Hf as -> _ _ _ _ _ _. }
    cbv beta. intros s2 (Hf2 & qs & free2 & Hlen & He2). split; [congruence|]. exists (q :: qs), free2.
    split; [cbn; lia|]. cbn [map]. rewrite <- (assoc_L (++)) in He2. unfold m_outputs in *. cbn in *.
    by rewrite <- (assoc_L (++)) in He2.
Qed.

Lemma engine_peers D ma mp s rq st free aq pq reads lost ps :
  engine queue_rep D ma mp s rq st free aq pq reads lost →
  engine queue_rep D ma mp (s <| ps_peers := ps |>) rq st free aq pq reads lost.
Proof. intros He. split; try apply He. destruct (en_inv He). by split. Qed.
Lemma engine_polling D ma mp s rq st free aq pq reads lost v :
  engine queue_rep D ma mp s rq st free aq pq reads lost →
  engine queue_rep D ma mp (s <| is_recv_cq_polling := v |>) rq st free aq pq reads lost.
Proof. intros He. split; try apply He. destruct (en_inv He). by split. Qed.

Lemma start_cq_poller_ok r D :
  is_Some (cells (ps_dctxs (rt_proc r)) !! D) →
  ends (start_cq_poller r D) (λ r', ∃ v, v ≠ 0 ∧ rt_proc r' = rt_proc r <| is_recv_cq_polling := v |>).
Proof.
  intros [dc Hdc]. unfold start_cq_poller. destruct (_ =? 0) eqn:E.
  - unfold dctx_at, peek.
    match goal with |- context [load ?h D] => change (load h D) with (load (cells (ps_dctxs (rt_proc r))) D) end.
    rewrite (proj2 (load_Done _ _ _) Hdc).
    cbn [obind]. rewrite !(must_not_exceed_ok ctx Hnet) by done. cbn [obind].
    rewrite !(must_not_exceed_ok ctx Hnet) by done. cbn [ends]. by exists 1.
  - apply Z.eqb_neq in E. exists (is_recv_cq_polling (rt_proc r)). split; [done|]. by destruct r as [[]].
Qed.

Lemma itop_get_run r t id :
  routes t (rt_proc r) → ends (itop_get r id) (λ x, ∃ pm, x.1 = i32 (spec_get t id) ∧
    x.2 = with_proc r (rt_proc r <| ps_pm := pm |>) ∧ routes t (rt_proc x.2) ∧ pm_store pm = pm_store (ps_pm (rt_proc r)) ∧
    (∀ t', routes t' (rt_proc r) → routes t' (rt_proc x.2))).
Proof.
  intros Ht. unfold itop_get, fdmi_rmap_itop_get. rewrite obind_assoc.
  assert (Hg : ∀ t', routes t' (rt_proc r) → ends (fdmi_hashtable_get (hstb_itop (ps_pm (rt_proc r))) id)
    (λ x, x.1 = spec_get t' id ∧ ht_rep queue_rep x.2 t')) by (intros t'; apply (hrep_get (hrep := ht_rep queue_rep))).
  destruct (fdmi_hashtable_get _ _) as [[x ht]| | |]; try by destruct (Hg t Ht).
  destruct (Hg t Ht) as [Hx Hht]. cbn in Hx, Hht |- *. rewrite Hx. eexists. split_and!; [done..|].
  intros t' Ht'. apply (Hg t' Ht').
Qed.

(** The first event after a connection is established makes the process able
    to receive over it: ten receives are posted on the connection, each with a
    query of its own, and the process otherwise stands where it stood. *)
Lemma on_established_ok D r d t id rank peer conn rq st free aq pq reads lost :
  engine queue_rep D Unlocked Unlocked (rt_proc r) rq st free aq pq reads lost →
  ps_domains (rt_proc r) = [d] → dom_dctx d = D → routes t (rt_proc r) → i32 (spec_get t id) = rank →
  aget (ps_peers (rt_proc r)) rank = Done peer → p_conn peer = [conn] →
  conn ≠ NULL → is_Some (cells (ps_conns (rt_proc r)) !! conn) →
  ends (on_established r 0 id) (λ r', routes t (rt_proc r') ∧
    (∃ qs free', length qs = FDMI_MAX_PENDING_RECV_QUERY ∧
       engine queue_rep D Unlocked Unlocked (rt_proc r') (rq ++ map (pair conn) qs)
         (m_outputs st FDMI_MAX_PENDING_RECV_QUERY) free' aq pq reads lost) ∧
    ps_peers (rt_proc r') = <[Z.to_nat rank := peer <| is_connected := 1 |>]> (ps_peers (rt_proc r)) ∧
    ps_conns (rt_proc r') = ps_conns (rt_proc r) ∧ ps_domains (rt_proc r') = ps_domains (rt_proc r)).
Proof.
  intros He Hd HD Hrt Hrank Hpe Hpc Hc0 Hcs. unfold on_established. rewrite Hd. change (aget [d] 0) with (Done d).
  cbn [obind]. rewrite HD. destruct (pi_dctx (en_inv He)) as (dc & Hdc & _).
  c_step (start_cq_poller_ok r D) as r1 (v & _ & E1).
  c_step (itop_get_run r1 t id) as [x r2] (pm & -> & -> & Hrt2 & _ & Hr2); [by rewrite E1|]. cbn [fst snd] in *. set (r2 := with_proc _ _) in *.
  assert (E2 : rt_proc r2 = rt_proc r <| is_recv_cq_polling := v |> <| ps_pm := pm |>) by (unfold r2; cbn; by rewrite E1).
  rewrite E2. cbn [ps_peers set_field]. change (ps_peers (_ <| ps_pm := pm |>)) with (ps_peers (rt_proc r)).
  rewrite Hrank, Hpe. cbn [obind]. rewrite Hpc. change (aget [conn] 0) with (Done conn). cbn [obind].
  c_step (post_receives_engine D FDMI_MAX_PENDING_RECV_QUERY (rt_proc r <| is_recv_cq_polling := v |> <| ps_pm := pm |>)) as s3
    (Hf3 & qs & free3 & Hlen & He3); [apply engine_pm; [|by apply engine_polling]; intros t' Ht'; rewrite <- E2; apply Hr2; by rewrite E1|].
  c_step (itop_get_run (with_proc r2 s3) t id) as [x r4] (pm4 & -> & -> & Hrt4 & _ & Hr4).
  { cbn. unfold routes in *. unfold fixed_part in Hf3. injection Hf3 as _ _ -> _ _ _ _. by rewrite E2 in Hrt2. }
  cbn [fst snd] in *. set (r4 := with_proc (with_proc r2 s3) (rt_proc (with_proc r2 s3) <| ps_pm := pm4 |>)) in *. rewrite Hrank.
  assert (Hps : ps_peers (rt_proc r4) = ps_peers (rt_proc r)).
  { change (ps_peers (rt_proc r4)) with (ps_peers s3). unfold fixed_part in Hf3. by injection Hf3 as _ _ _ _ _ -> _. }
  rewrite Hps, Hpe. cbn [obind]. rewrite (aset_here _ _ _ _ Hpe). cbn [obind ends].
  split; [exact Hrt4|].
  split; [|split; [done|cbn; unfold fixed_part in Hf3; by injection Hf3 as -> -> _ _ _ _ _]]. exists qs, free3. split; [done|].
  change (engine queue_rep D Unlocked Unlocked (s3 <| ps_pm := pm4 |> <| ps_peers := <[Z.to_nat rank := peer <| is_connected := 1 |>]> (ps_peers (rt_proc r)) |>)
    (rq ++ map (pair conn) qs) (m_outputs st FDMI_MAX_PENDING_RECV_QUERY) free3 aq pq reads lost).
  apply engine_peers, engine_pm; [exact Hr4|exact He3].
Qed.
End established.

(** ** The start *)

(** The static variables before [main]: the heaps are empty, nothing is posted;
    [connected_rank] is initialised with 1. *)
Record booted (s : process) : Prop := {
  bo_queries : cells (ps_queries s) = ∅;
  bo_msgs : cells (ps_msgs s) = ∅;
  bo_conns : cells (ps_conns s) = ∅;
  bo_dctxs : cells (ps_dctxs s) = ∅;
  bo_mrs : ps_mrs s = ∅;
  bo_cached : reg_mr_cached_size s = 0;
  bo_posted : ps_posted s = [];
  bo_rank : connected_rank s = 1;
}.

(** The process after [fdmi_verbs_init], with room for [size] peers. *)
Record started (s0 s : process) (size : Z) : Prop := {
  sa_boot : booted s;
  sa_free : queue_rep Unlocked (free_query_q s) [];
  sa_reg : queue_rep Unlocked (reg_mr_q s) [];
  sa_send : queue_rep Unlocked (send_req_q s) [];
  sa_locked : queue_rep Unlocked (locked_request_sem_q s) [];
  sa_domain : ∃ channel id, ps_domains s = [Domain channel id NULL];
  sa_peers : ps_peers s = replicate (Z.to_nat size) (fdmi_create_peer 1);
  sa_routes : routes empty_table s;
  sa_user : ps_memory s = ps_memory s0 ∧ ps_requests s = ps_requests s0;
  sa_epoch : ft_epoch (ft_msg s) = 0;
}.

Section starting.
Context {HMalloc : Malloc} {HVerbs : Verbs} {HNet : Net} (ctx : Z) (Hnet : net_grants ctx).
Context (Hm : malloc_total).
Implicit Types (r : runtime).

(** The configuration can be read, and gives [size] peers. *)
Record configured (env : environment) (s : process) (spare size : Z) : Prop := {
  cg_prank : ∃ v, env_int env "FDRANK" (ps_prank s) = Done v;
  cg_size : env_int env "FDMI_SIZE" (1024 * 1024) = Done size;
  cg_numproc : ∃ v, env_int env "FDMI_NUMPROC" (ps_numproc s) = Done v;
  cg_numspare : ∃ v, env_int env "FDMI_NUMSPARE" spare = Done v;
}.

Lemma create_queue_ok k :
  ∃ q, fdmi_queue_create (net_queue k).1 (net_queue k).2 = Done q ∧ queue_rep Unlocked q [].
Proof.
  pose proof (rep_create (rep := queue_rep) (net_queue k).1 (net_queue k).2 (ng_queue _ Hnet k)) as H.
  by apply ends_Done in H.
Qed.

(** [fdmi_set_envs] replaces the configuration and the queues. *)
Lemma set_envs_ok r env size :
  configured env (rt_proc r) (fdmi_numspare r) size →
  ends (fdmi_set_envs r env) (λ r', fdmi_size r' = size ∧
    ∃ prank numproc locked reg free sends failed disconnected,
    rt_proc r' = rt_proc r <| ps_prank := prank |> <| ps_numproc := numproc |>
          <| locked_request_sem_q := locked |> <| reg_mr_q := reg |> <| free_query_q := free |>
          <| send_req_q := sends |> <| failed_prank_q := failed |> <| disconnected_prank_q := disconnected |> ∧
    Forall (λ q, queue_rep Unlocked q []) [locked; reg; free; sends; failed; disconnected]).
Proof.
  intros [[p Hp] Hs [n Hn] [k Hk]]. unfold fdmi_set_envs. rewrite Hp. cbn [obind]. rewrite Hs. cbn [obind].
  rewrite Hn. cbn [obind]. rewrite Hk. cbn [obind]. cbv zeta.
  destruct (create_queue_ok 2) as (q2 & -> & H2), (create_queue_ok 3) as (q3 & -> & H3), (create_queue_ok 4) as (q4 & -> & _),
    (create_queue_ok 5) as (q5 & -> & H5), (create_queue_ok 6) as (q6 & -> & H6), (create_queue_ok 7) as (q7 & -> & H7),
    (create_queue_ok 8) as (q8 & -> & H8). cbn [obind ends].
  split; [done|]. eexists p, n, q2, q3, q5, q6, q7, q8. split; [done|]. by repeat constructor.
Qed.

(** The channel: one domain without a context, and the peers. *)
Lemma create_channel_ok r :
  ends (fdmi_create_sendrecv_channel r) (λ r', ∃ channel id,
    rt_proc r' = rt_proc r <| ps_domains := [Domain channel id NULL] |>
      <| ps_peers := replicate (Z.to_nat (fdmi_size r)) (fdmi_create_peer 1) |>).
Proof.
  destruct (ng_device _ Hnet) as [dev Hdev].
  unfold fdmi_create_sendrecv_channel, get_port_count, ibv_get_device_list. rewrite Hdev. cbn [obind].
  rewrite Hdev. cbn [obind]. change (Z.to_nat (Z.of_nat (length [dev]))) with 1%nat. cbn [create_domains].
  rewrite (must_pointer_ok ctx Hnet) by done. cbn [obind]. unfold fdmi_create_domain.
  rewrite (must_pointer_ok ctx Hnet) by done. cbn [obind]. rewrite (must_zero_ok ctx Hnet) by done. cbn [obind].
  unfold call at 1. rewrite (ng_zero _ Hnet) by done. cbn [Z.eqb obind ends]. by eexists _, _.
Qed.

Lemma bind_ok r d : ps_domains (rt_proc r) = [d] →
  ends (fdmi_bind_addr_and_listen r) (λ r', rt_proc r' = rt_proc r ∧
    rt_calls r' = rt_calls r ++ [CBindAddr (dom_rcid d) 54583; CListen (dom_rcid d) 16]).
Proof.
  intros Hd. unfold fdmi_bind_addr_and_listen. rewrite Hd. cbn [bind_and_listen]. unfold call.
  rewrite (ng_zero _ Hnet) by done. cbn [Z.eqb obind]. rewrite (must_zero_ok ctx Hnet) by done.
  cbn [obind ends]. split; [done|]. cbn. by rewrite <- (assoc_L (++)).
Qed.

Lemma run_poller_ok r d : ps_domains (rt_proc r) = [d] →
  ends (fdmi_run_event_channel_poller r) (λ r', rt_proc r' = rt_proc r).
Proof.
  intros Hd. unfold fdmi_run_event_channel_poller. rewrite Hd. cbn [run_pollers].
  rewrite (must_not_exceed_ok ctx Hnet) by done. cbn [obind].
  by rewrite (must_not_exceed_ok ctx Hnet) by done.
Qed.

Lemma init_proc_man_ok addr garbage :
  (∀ i, addr i ≠ NULL) →
  ends (fdmi_init_proc_man addr garbage) (λ pm, ht_rep queue_rep (hstb_itop pm) empty_table).
Proof.
  intros Ha. unfold fdmi_init_proc_man. generalize (eq_refl (1024 * 1024)). generalize (1024 * 1024) at 1 3. intros psize Hp.
  eapply ends_mono; [apply proc_man_init_ok; [exact Hm|exact Ha|apply (ng_queue _ Hnet)|lia|lia]|].
  intros pm Hpm. apply (in_itop _ _ _ _ _ Hpm).
Qed.

Lemma verbs_init_ok r env addr garbage size :
  booted (rt_proc r) → configured env (rt_proc r) (fdmi_numspare r) size → (∀ i, addr i ≠ NULL) →
  ends (fdmi_verbs_init r env addr garbage) (λ x, x.1 = 0 ∧ started (rt_proc r) (rt_proc x.2) size).
Proof.
  intros Hb Hcg Ha. unfold fdmi_verbs_init. pose proof (init_proc_man_ok addr garbage Ha) as Hman.
  revert Hman. generalize (fdmi_init_proc_man addr garbage). intros man Hman. unfold fdmi_err_init. rewrite (must_zero_ok ctx Hnet) by done. cbn [obind].
  c_step (set_envs_ok (logged r [CGetHostname]) env size) as r1
    (Hsz & prank & numproc & q1 & q2 & q3 & q4 & q5 & q6 & E1 & Hqs).
  apply Forall_cons in Hqs as [H1 [H2 [H3 [H4 _]%Forall_cons]%Forall_cons]%Forall_cons].
  apply ends_bind. eapply ends_mono; [exact Hman|]. cbv beta. intros pm Hpm.
  c_step create_channel_ok as r2 (channel & id & E2).
  c_step (bind_ok r2 (Domain channel id NULL)) as r3 (E3 & _); [by rewrite E2|].
  c_step (run_poller_ok r3 (Domain channel id NULL)) as r4 E4; [by rewrite E3, E2|].
  cbn [ends fst snd]. split; [done|].
  change (rt_proc (call r4 (CSleep 1)).2) with (rt_proc r4). rewrite E4, E3, E2. cbn. rewrite E1. cbn.
  destruct Hb. split; try done.
  - by eexists _, _.
  - cbn. by rewrite Hsz.
Qed.
End starting.

(** ** Ready *)

(** The machine a process with the given memory and requests starts as. *)
Definition initial_machine (s : process) : mstate := MState [] [] [] (ps_memory s) (ps_requests s) 0 [].

(** [s'] is [s] with the connection [conn], the first, over the context [D']. *)
Record wired (ctx : Z) (s s' : process) (id conn D' : Z) (d : fdmi_domain) : Prop := {
  wi_domains : ps_domains s' = [Domain (dom_rec d) (dom_rcid d) D'];
  wi_dctx : qp_dctx ctx (dom_dctx d) (ps_dctxs s) (ps_dctxs s') D';
  wi_conn : conn ≠ NULL;
  wi_conns : ∃ qp, qp ≠ NULL ∧ cells (ps_conns s') = <[conn := Connection id qp D']> (cells (ps_conns s));
  wi_rest : s' = s <| ps_domains := ps_domains s' |> <| ps_dctxs := ps_dctxs s' |> <| ps_conns := ps_conns s' |>
    <| ps_peers := ps_peers s' |> <| ps_pm := ps_pm s' |> <| connected_rank := connected_rank s' |>;
}.

Lemma accepted_wired ctx s s' t id conn D' d peer : accepted ctx s s' t id conn D' d peer → wired ctx s s' id conn D' d.
Proof. intros [? [_ ?] [? _] ? _ _ _ _ ?]. by split. Qed.

(** The first connection makes the process an engine with nothing in it. *)
Lemma first_engine ctx s0 s s' size id conn D' d :
  started s0 s size → ps_domains s = [d] → dom_dctx d = NULL → wired ctx s s' id conn D' d →
  engine queue_rep D' Unlocked Unlocked s' [] (initial_machine s0) [] [] [] [] [].
Proof.
  intros [[Bq Bm Bc Bd Bmr Bca Bp Br] Hfr Hrg Hsd Hlk _ _ _ [Hme Hrq] Hep] Hd Hdn [Hds Hqp Hc0 (qp & Hq0 & Hcs) Hrest].
  unfold qp_dctx in Hqp. rewrite Hdn in Hqp. destruct Hqp as (HD0 & _ & dc & Hh & _ & Ha & Hp).
  rewrite Bd in Hh. rewrite Bc in Hcs.
  assert (Hcn : ∀ c cn, cells (ps_conns s') !! c = Some cn → cn = Connection id qp D').
  { intros c cn. rewrite Hcs, lookup_insert. case_decide; [by intros [= <-]|by rewrite lookup_empty]. }
  assert (Hsame : (free_query_q s', reg_mr_q s', send_req_q s', locked_request_sem_q s', ps_mrs s', reg_mr_cached_size s',
    ps_queries s', ps_msgs s', ps_memory s', ps_requests s', ft_msg s', ps_posted s') =
    (free_query_q s, reg_mr_q s, send_req_q s, locked_request_sem_q s, ps_mrs s, reg_mr_cached_size s,
    ps_queries s, ps_msgs s, ps_memory s, ps_requests s, ft_msg s, ps_posted s)) by (by rewrite Hrest).
  clear Hrest. injection Hsame as E1 E2 E3 E4 E5 E6 E7 E8 E9 E10 E11 E12.
  split; rewrite ?E9, ?E10, ?E11, ?E12; try done.
  - split; rewrite ?E1, ?E3, ?E4, ?E7, ?E8; try done.
    + exists []. unfold regs_ok. rewrite E2, E5, Bmr.
      split_and!; [done|apply not_elem_of_nil|by intros ? ?%elem_of_nil|done].
    + by exists [].
    + by exists [].
    + exists dc. split; [|done]. by rewrite Hh, lookup_insert_eq.
    + intros c cn H. by apply Hcn in H as ->.
    + constructor.
    + by intros a ?%elem_of_nil.
    + intros a q. by rewrite Bq.
    + intros a b qa qb. by rewrite Bq.
    + by rewrite Bm.
  - intros c cn H. by apply Hcn in H as ->.
  - split; [done|]. eexists. by rewrite Hds.
  - by intros x ?%elem_of_nil.
  - rewrite Bp. constructor.
Qed.

Lemma first_route id : i32 (spec_get (spec_add empty_table id 1) id) = 1.
Proof. unfold spec_get, spec_add. by rewrite table_set_eq. Qed.

(** A process in the state [fdmi_verbs_init] leaves behind. *)
Lemma started_becomes_ready `{Malloc} `{Verbs} `{Net} ctx s0 r1 size frank id :
  malloc_total → reg_total → post_total → net_grants ctx → started s0 (rt_proc r1) size → 1 < size →
  ends (fdmi_poll_event_recv_channel r1 0 frank
          [(0, (RDMA_CM_EVENT_CONNECT_REQUEST, id)); (0, (RDMA_CM_EVENT_ESTABLISHED, id))]) (λ r', ∃ D t c rq,
    length rq = FDMI_MAX_PENDING_RECV_QUERY ∧
    ready D t c (rt_proc r') rq (m_outputs (initial_machine s0) FDMI_MAX_PENDING_RECV_QUERY) ∧
    rank_of t (rt_proc r') c = 1 ∧ fdmi_is_connected (rt_proc r') 1 = Done 1).
Proof.
  intros Hm Hreg Hpost Hnet Hst Hsize. destruct (sa_domain _ _ _ Hst) as (ch & rid & Hd). set (d := Domain ch rid NULL) in *.
  cbn [fdmi_poll_event_recv_channel]. rewrite Hd. change (aget [d] 0) with (Done d). cbn [obind Z.eqb]. cbv zeta.
  set (r2 := (call r1 _).2). unfold fdmi_on_cm_event at 1. rewrite obind_assoc.
  assert (Hr1 : connected_rank (rt_proc r2) = 1) by apply (bo_rank _ (sa_boot _ _ _ Hst)).
  assert (Hpe : aget (ps_peers (rt_proc r2)) (connected_rank (rt_proc r2)) = Done (fdmi_create_peer 1)).
  { rewrite Hr1. change (ps_peers (rt_proc r2)) with (ps_peers (rt_proc r1)). rewrite (sa_peers _ _ _ Hst).
    apply aget_Done. split; [lia|]. apply lookup_replicate_2. lia. }
  c_step (on_connect_request_ok ctx Hnet Hm r2 d (fdmi_create_peer 1) empty_table id) as r3 (conn & D & Hacc);
    [by intros []|apply Hst|rewrite Hr1; unfold INT_MAX; lia|]. cbn [obind].
  pose proof (first_engine ctx _ _ _ _ _ _ _ _ Hst Hd eq_refl (accepted_wired _ _ _ _ _ _ _ _ _ Hacc)) as He.
  pose proof Hacc as [Hds _ [Hc0 _] (qp & Hq0 & Hcs) Hps _ Hrt _ _]. rewrite Hr1 in Hrt, Hps.
  change (ps_peers (rt_proc r2)) with (ps_peers (rt_proc r1)) in Hps. rewrite (sa_peers _ _ _ Hst) in Hps.
  assert (Hpe' : aget (ps_peers (rt_proc r3)) 1 = Done (fdmi_create_peer 1 <| on_connecting_lock := Locked |> <| p_conn := [conn] |>)).
  { rewrite Hps. eapply (aget_set_here _ 1). rewrite <- (sa_peers _ _ _ Hst). by rewrite Hr1 in Hpe. }
  change (rt_proc (call r3 CAckEvent).2) with (rt_proc r3). rewrite Hds. change (aget [?x] 0) with (Done x). cbn [obind].
  unfold fdmi_on_cm_event. rewrite obind_assoc. set (r4 := (call _ (CGetEvent _)).2).
  c_step (on_established_ok ctx Hnet Hm Hreg Hpost D r4 _ (spec_add empty_table id 1) id 1 _ conn _ _ _ _ _ _ _ He Hds eq_refl Hrt)
    as r5 (Hrt5 & (qs & free' & Hlen & He5) & Hps5 & Hcs5 & _).
  { apply first_route. } { cbn. rewrite Hcs, lookup_insert_eq. by eexists. } cbn [obind ends].
  change (rt_proc (call r5 CAckEvent).2) with (rt_proc r5). change (ps_conns (rt_proc r4)) with (ps_conns (rt_proc r3)) in Hcs5.
  exists D, (spec_add empty_table id 1), conn, (map (pair conn) qs). split_and!.
  - by rewrite length_map.
  - split; try done.
    + by exists free', [], [], [], [].
    + intros x Hx. apply list_elem_of_fmap in Hx as (q & -> & _). done.
    + by destruct qs.
  - unfold rank_of. by rewrite Hcs5, Hcs, lookup_insert_eq, first_route.
  - unfold fdmi_is_connected. cbn [Z.eqb FMI_ANY_SOURCE]. rewrite Hps5. by erewrite aget_set_here.
Qed.

(** C11: a process that initialises and is connected to is ready: from the static
    variables, [fdmi_verbs_init], a connection request and the establishment of
    the connection lead to a process that implements the message machine with
    nothing pending, has ten receives posted on the new connection, knows the
    peer as rank 1 and has touched neither the program's memory nor its
    requests.  The theorems of Delivery.v apply to it. *)
Theorem server_becomes_ready `{Malloc} `{Verbs} `{Net} ctx r env addr garbage size frank id :
  malloc_total → reg_total → post_total → net_grants ctx → (∀ i, addr i ≠ NULL) →
  booted (rt_proc r) → configured env (rt_proc r) (fdmi_numspare r) size → 1 < size →
  ends (fdmi_verbs_init r env addr garbage) (λ x, x.1 = 0 ∧
    ends (fdmi_poll_event_recv_channel x.2 0 frank
            [(0, (RDMA_CM_EVENT_CONNECT_REQUEST, id)); (0, (RDMA_CM_EVENT_ESTABLISHED, id))]) (λ r', ∃ D t c rq,
      length rq = FDMI_MAX_PENDING_RECV_QUERY ∧
      ready D t c (rt_proc r') rq (m_outputs (initial_machine (rt_proc r)) FDMI_MAX_PENDING_RECV_QUERY) ∧
      rank_of t (rt_proc r') c = 1 ∧ fdmi_is_connected (rt_proc r') 1 = Done 1)).
Proof.
  intros Hm Hreg Hpost Hnet Haddr Hb Hcg Hsize.
  eapply ends_mono; [exact (verbs_init_ok ctx Hnet Hm r env addr garbage size Hb Hcg Haddr)|].
  intros x [Hx Hst]. split; [done|]. by eapply started_becomes_ready.
Qed.

(** ** A network to evaluate on

    Every call succeeds, there is one device, and all identifiers belong to the
    device context of the sample process. *)
#[export] Instance Net_sample : Net := {|
  net l c := if returns_pointer c then 4096 else 0;
  net_id l := 2000 + Z.of_nat (length l);
  net_devices _ := Some [7];
  net_verbs _ := dc_ctx sample_dctx;
  net_qp _ _ := 64;
  net_queue k := (8000 + Z.of_nat k, 0);
|}.

Lemma sample_net_grants : net_grants (dc_ctx sample_dctx).
Proof.
  split.
  - intros l c Hc. cbn. by rewrite Hc.
  - intros l c Hc. cbn. by rewrite Hc.
  - done.
  - done.
  - intros k. cbn. lia.
  - by exists 7.
Qed.

(** The sample process with room for two more peers. *)
Definition sample_accepting : runtime :=
  Runtime (sample_process <| ps_peers := [Peer [NULL] 0 Unlocked; Peer [NULL] 0 Unlocked; Peer [NULL] 0 Unlocked] |>) [] 3 0 0.

Lemma connect_requests_numbered_witness :
  ends (fdmi_poll_event_recv_channel sample_accepting 0 0
    [(0, (RDMA_CM_EVENT_CONNECT_REQUEST, 1616)); (0, (RDMA_CM_EVENT_CONNECT_REQUEST, 1632))])
    (λ r', connected_rank (rt_proc r') = 3 ∧ ∃ t', routes t' (rt_proc r') ∧ t' 1616 = [1] ∧ t' 1632 = [2]).
Proof.
  eapply ends_mono; [eapply (connect_requests_numbered (dc_ctx sample_dctx) sample_accepting 0 sample_table [1616; 1632])|].
  - exact sample_net_grants.
  - exact Malloc_bump_total.
  - split.
    + eexists. split; [reflexivity|]. intros _. exists sample_dctx. by split.
    + by vm_compute.
    + intros [|[|i]] Hi; [by eexists|by eexists|cbn in Hi; lia].
  - exact sample_routes.
  - done.
  - repeat constructor; set_solver.
  - intros id [->|[->|[]%elem_of_nil]%elem_of_cons]%elem_of_cons; reflexivity.
  - intros r' (t' & Hcf). split; [exact (cf_rank _ _ _ _ _ _ Hcf)|]. exists t'.
    split; [exact (cf_routes _ _ _ _ _ _ Hcf)|].
    split; [exact (proj1 (cf_each _ _ _ _ _ _ Hcf 0%nat 1616 eq_refl))|exact (proj1 (cf_each _ _ _ _ _ _ Hcf 1%nat 1632 eq_refl))].
Defined.

(** The static variables of a process with two of the program's requests, and
    its environment. *)
Definition sample_boot : runtime :=
  Runtime (sample_process <| ps_conns := empty_heap |> <| ps_dctxs := empty_heap |> <| ps_peers := [] |> <| ps_domains := [] |>) [] 0 0 0.
Definition sample_env : environment := <["FDMI_SIZE" := "4"]> {[ "FDRANK" := " 2" ]}.

Lemma server_becomes_ready_witness :
  ends (fdmi_verbs_init sample_boot sample_env (λ i, 16 + Z.of_nat i) (λ _, 0)) (λ x, x.1 = 0 ∧
    ends (fdmi_poll_event_recv_channel x.2 0 0
            [(0, (RDMA_CM_EVENT_CONNECT_REQUEST, 1616)); (0, (RDMA_CM_EVENT_ESTABLISHED, 1616))]) (λ r', ∃ D t c rq,
      ready D t c (rt_proc r') rq (MState [] [] [] ∅ (ps_requests sample_process) 0 (repeat ORecv 10)))).
Proof.
  eapply ends_mono; [eapply (server_becomes_ready (dc_ctx sample_dctx) sample_boot sample_env (λ i, 16 + Z.of_nat i) (λ _, 0) 4)|].
  - exact Malloc_bump_total.
  - exact sample_reg_total.
  - by intros l w.
  - exact sample_net_grants.
  - intros i. lia.
  - by split.
  - split; eexists; vm_compute; reflexivity.
  - done.
  - intros x [Hx H]. split; [exact Hx|]. eapply ends_mono; [exact H|]. cbv beta.
    intros r' (D & t & c & rq & _ & Hr & _). exists D, t, c, rq. exact Hr.
Defined.
