(* ===== verification/Client.v ===== *)
(** * src/src/fdmi.c: from the start of a process to its connection

    Theorems about [fdmi_verbs_connect]: the program waits while the thread of
    connection events takes the new connection through its three events; the
    process is then ready in the sense of Delivery.v. *)
From S2P Require Import Prelude Mem Queue Hashtable Datatype ProcMan State MrCache Query Matching Transfer Progress MsgSpec Engine Delivery Fault Net Api Connection Init Serving.

(** The events of a connection that succeeds. *)
Definition connect_events (id : Z) : list (Z * (rdma_cm_event_type * Z)) :=
  [(0, (RDMA_CM_EVENT_ADDR_RESOLVED, id)); (0, (RDMA_CM_EVENT_ROUTE_RESOLVED, id)); (0, (RDMA_CM_EVENT_ESTABLISHED, id))].

(** The process as the program finds it at its [n]-th look: the event thread
    has handled the first [sched n] events. *)
Definition event_thread `{Malloc} `{Verbs} `{Net} (frank : Z) (events : list (Z * (rdma_cm_event_type * Z)))
    (sched : nat → nat) (r : runtime) (n : nat) : runtime :=
  match fdmi_poll_event_recv_channel r 0 frank (take (sched n) events) with
  | Done r' => r'
  | _ => r
  end.

Section connecting.
Context {HMalloc : Malloc} {HVerbs : Verbs} {HNet : Net} (ctx : Z) (Hnet : net_grants ctx).
Context (Hm : malloc_total) (Hreg : reg_total) (Hpost : post_total).
Implicit Types (r : runtime).

(** The address is known: the connection is made and entered for the peer, the
    route is asked for. *)
Lemma on_addr_resolved_ok r d t id rank peer :
  ps_domains (rt_proc r) = [d] → dctx_live ctx (rt_proc r) (dom_dctx d) → routes t (rt_proc r) →
  i32 (spec_get t id) = rank → aget (ps_peers (rt_proc r)) rank = Done peer → p_conn peer = [NULL] →
  ends (on_addr_resolved r 0 id) (λ r', ∃ conn D', wired ctx (rt_proc r) (rt_proc r') id conn D' d ∧
    routes t (rt_proc r') ∧
    ps_peers (rt_proc r') = <[Z.to_nat rank := peer <| p_conn := [conn] |>]> (ps_peers (rt_proc r)) ∧
    last (rt_calls r') = Some (CResolveRoute id TIMEOUT_IN_MS)).
Proof.
  intros Hd Hlive Hrt Hrank Hpe Hpc. unfold on_addr_resolved.
  c_step (domain_create_qp_ok ctx Hnet r d id) as [D' r1] (cs & h & -> & HD & Hqp). cbn [fst snd] in *.
  set (r1 := logged _ cs).
  c_step (create_connection_ok ctx Hnet Hm r1 id D') as [conn r2] (hc & -> & Hc0 & Hcn & qp & Hqp0 & Hcells).
  cbn [fst snd] in *. set (r2 := with_proc r1 _).
  c_step (itop_get_run r2 t id) as [x r3] (pm3 & -> & -> & Hrt3 & _). cbn [fst snd] in *. rewrite Hrank.
  change (ps_peers (rt_proc (with_proc r2 (rt_proc r2 <| ps_pm := pm3 |>)))) with (ps_peers (rt_proc r)).
  rewrite Hpe. cbn [obind]. rewrite Hpc. change (aget [NULL] 0) with (Done NULL). cbn [obind Z.eqb].
  c_step (itop_get_run (with_proc r2 (rt_proc r2 <| ps_pm := pm3 |>)) t id) as [x r4] (pm4 & -> & -> & Hrt4 & _).
  cbn [fst snd] in *. rewrite Hrank.
  rewrite (set_conn_ok _ rank conn peer) by (done || by rewrite Hpc). cbn [obind].
  rewrite (must_zero_ok ctx Hnet) by done. cbn [ends]. exists conn, D'. split_and!.
  - split; [done|exact Hqp|exact Hc0|by exists qp|done].
  - exact Hrt4.
  - done.
  - cbn. by rewrite last_snoc.
Qed.

Lemma on_route_resolved_ok r id :
  ends (on_route_resolved r id) (λ r', rt_proc r' = rt_proc r ∧ last (rt_calls r') = Some (CConnect id fdmi_build_params)).
Proof.
  unfold on_route_resolved. rewrite (must_zero_ok ctx Hnet) by done. cbn. by rewrite last_snoc.
Qed.

(** What the connection leaves: a process that implements the message machine,
    with ten receives posted on [conn], and knows the peer by its rank. *)
Definition joined (s0 s : process) (rank conn : Z) : Prop :=
  ∃ D t rq, length rq = FDMI_MAX_PENDING_RECV_QUERY ∧
    ready D t conn s rq (m_outputs (initial_machine s0) FDMI_MAX_PENDING_RECV_QUERY) ∧
    rank_of t s conn = rank ∧ fdmi_is_connected s rank = Done 1 ∧
    ∃ peer, aget (ps_peers s) rank = Done peer ∧ p_conn peer = [conn].

Lemma poll_one r d frank event id events :
  ps_domains (rt_proc r) = [d] →
  fdmi_poll_event_recv_channel r 0 frank ((0, (event, id)) :: events) =
  (r' <- fdmi_on_cm_event (call r (CGetEvent (dom_rec d))).2 0 frank event id ;; fdmi_poll_event_recv_channel r' 0 frank events).
Proof. intros Hd. cbn. rewrite Hd. done. Qed.

Lemma on_cm_event_acks (P : runtime → Prop) r frank event id :
  ends (match event with
        | RDMA_CM_EVENT_CONNECT_REQUEST => on_connect_request r 0 id
        | RDMA_CM_EVENT_ESTABLISHED => on_established r 0 id
        | RDMA_CM_EVENT_DISCONNECTED => on_disconnected r frank id
        | RDMA_CM_EVENT_ADDR_RESOLVED => on_addr_resolved r 0 id
        | RDMA_CM_EVENT_ROUTE_RESOLVED => on_route_resolved r id
        | _ => Done r
        end) (λ r', P (call r' CAckEvent).2) → ends (fdmi_on_cm_event r 0 frank event id) P.
Proof. intros H. unfold fdmi_on_cm_event. apply ends_bind. by eapply ends_mono. Qed.

(** A change of the table of connections does not matter to the first one. *)
Lemma wired_pm s pm s' id conn D d : wired ctx (s <| ps_pm := pm |>) s' id conn D d → wired ctx s s' id conn D d.
Proof. intros []. split; try done. Qed.

Lemma peer_lookup (l : list fdmi_peer) rank p p' :
  aget l rank = Done p → aget (<[Z.to_nat rank := p']> l) rank = Done p'.
Proof. apply aget_set_here. Qed.

Lemma not_connected s rank peer : 0 ≤ rank → aget (ps_peers s) rank = Done peer →
  fdmi_is_connected s rank = Done (is_connected peer).
Proof.
  intros Hr Hp. unfold fdmi_is_connected. rewrite (proj2 (Z.eqb_neq rank FMI_ANY_SOURCE)) by (unfold FMI_ANY_SOURCE; lia).
  by rewrite Hp.
Qed.

(** The third event, in a process whose only connection is [conn]. *)
Lemma established_joins s0 s r t frank size id conn D d rank peer :
  started s0 s size → ps_domains s = [d] → dom_dctx d = NULL → wired ctx s (rt_proc r) id conn D d →
  routes t (rt_proc r) → i32 (spec_get t id) = rank → 0 ≤ rank →
  aget (ps_peers (rt_proc r)) rank = Done peer → p_conn peer = [conn] →
  ends (fdmi_on_cm_event r 0 frank RDMA_CM_EVENT_ESTABLISHED id) (λ r',
    length (ps_domains (rt_proc r')) = 1%nat ∧ joined s0 (rt_proc r') rank conn).
Proof.
  intros Hst Hd Hdn Hw Hrt Hrk Hr0 Hpe Hpc.
  pose proof (first_engine ctx s0 s (rt_proc r) size id conn D d Hst Hd Hdn Hw) as He.
  destruct Hw as [Hds Hqp Hc0 (qp & Hqp0 & Hcs) _]. apply on_cm_event_acks.
  c_last (on_established_ok ctx Hnet Hm Hreg Hpost D r _ t id rank peer conn _ _ _ _ _ _ _ He Hds eq_refl Hrt Hrk Hpe Hpc Hc0)
    as r' (Hrt' & (qs & free' & Hlen & He') & Hps & Hcs' & Hds').
  { rewrite Hcs, lookup_insert_eq. by eexists. }
  change (rt_proc (call r' CAckEvent).2) with (rt_proc r').
  assert (Hpe' : aget (ps_peers (rt_proc r')) rank = Done (peer <| is_connected := 1 |>))
    by (rewrite Hps; by eapply peer_lookup).
  split; [by rewrite Hds', Hds|]. exists D, t, (map (pair conn) qs). split_and!.
  - by rewrite length_map.
  - split; try done; [by exists free', [], [], [], []| |by destruct qs].
    by intros x (q & -> & _)%list_elem_of_fmap.
  - unfold rank_of. by rewrite Hcs', Hcs, lookup_insert_eq.
  - by rewrite (not_connected _ _ _ Hr0 Hpe').
  - by eexists.
Qed.

(** One event after another: each prefix of them is handled, and only after
    the last is the peer connected. *)
Lemma connect_events_ok s0 s r size pm t frank id rank :
  started s0 s size → rt_proc r = s <| ps_pm := pm |> → routes t (rt_proc r) → i32 (spec_get t id) = rank →
  0 ≤ rank < size →
  ∃ r1 r2 r3 conn,
    fdmi_poll_event_recv_channel r 0 frank (take 1 (connect_events id)) = Done r1 ∧
    fdmi_poll_event_recv_channel r 0 frank (take 2 (connect_events id)) = Done r2 ∧
    fdmi_poll_event_recv_channel r 0 frank (connect_events id) = Done r3 ∧
    fdmi_is_connected (rt_proc r) rank = Done 0 ∧ fdmi_is_connected (rt_proc r1) rank = Done 0 ∧
    fdmi_is_connected (rt_proc r2) rank = Done 0 ∧
    length (ps_domains (rt_proc r3)) = 1%nat ∧ joined s0 (rt_proc r3) rank conn.
Proof.
  intros Hst Er Hrt Hrk [Hr0 Hrs]. destruct (sa_domain _ _ _ Hst) as (ch & rid & Hd0).
  set (d := Domain ch rid NULL) in *.
  assert (Hd : ps_domains (rt_proc r) = [d]) by (by rewrite Er).
  assert (Hpe : aget (ps_peers (rt_proc r)) rank = Done (fdmi_create_peer 1)).
  { rewrite Er. cbn. rewrite (sa_peers _ _ _ Hst). apply aget_Done. split; [lia|]. apply lookup_replicate_2. lia. }
  assert (E1 : ends (fdmi_on_cm_event (call r (CGetEvent (dom_rec d))).2 0 frank RDMA_CM_EVENT_ADDR_RESOLVED id) (λ r1,
    ∃ conn D, wired ctx (rt_proc r) (rt_proc r1) id conn D d ∧ routes t (rt_proc r1) ∧
      ps_peers (rt_proc r1) = <[Z.to_nat rank := fdmi_create_peer 1 <| p_conn := [conn] |>]> (ps_peers (rt_proc r)))).
  { apply on_cm_event_acks. eapply ends_mono; [apply (on_addr_resolved_ok _ d t id rank (fdmi_create_peer 1)); [done|by intros []|done..]|].
    cbv beta. intros r1 (conn & D & Hw & Hrt1 & Hps & _). by exists conn, D. }
  apply ends_Done in E1 as (r1 & E1 & conn & D & Hw & Hrt1 & Hps1).
  assert (Hd1 : ps_domains (rt_proc r1) = [Domain ch rid D]) by apply (wi_domains _ _ _ _ _ _ _ Hw).
  assert (E2 : ends (fdmi_on_cm_event (call r1 (CGetEvent ch)).2 0 frank RDMA_CM_EVENT_ROUTE_RESOLVED id)
    (λ r2, rt_proc r2 = rt_proc r1)).
  { apply on_cm_event_acks. eapply ends_mono; [apply on_route_resolved_ok|]. by intros r2 [E _]. }
  apply ends_Done in E2 as (r2 & E2 & Er2).
  assert (Hpe1 : aget (ps_peers (rt_proc r1)) rank = Done (fdmi_create_peer 1 <| p_conn := [conn] |>))
    by (rewrite Hps1; by eapply peer_lookup).
  pose proof (established_joins s0 s (call r2 (CGetEvent ch)).2 t frank size id conn D d rank
    (fdmi_create_peer 1 <| p_conn := [conn] |>) Hst Hd0 eq_refl) as E3.
  change (rt_proc (call r2 (CGetEvent ch)).2) with (rt_proc r2) in E3. rewrite Er2 in E3.
  rewrite Er in Hw. specialize (E3 (wired_pm _ _ _ _ _ _ _ Hw) Hrt1 Hrk Hr0 Hpe1 eq_refl).
  apply ends_Done in E3 as (r3 & E3 & Hlen & Hj).
  assert (P1 : ∀ l, fdmi_poll_event_recv_channel r 0 frank ((0, (RDMA_CM_EVENT_ADDR_RESOLVED, id)) :: l) =
    fdmi_poll_event_recv_channel r1 0 frank l) by (intros l; by rewrite (poll_one r d), E1).
  assert (P2 : ∀ l, fdmi_poll_event_recv_channel r1 0 frank ((0, (RDMA_CM_EVENT_ROUTE_RESOLVED, id)) :: l) =
    fdmi_poll_event_recv_channel r2 0 frank l) by (intros l; rewrite (poll_one r1 _ _ _ _ _ Hd1); cbn [dom_rec]; by rewrite E2).
  exists r1, r2, r3, conn. unfold connect_events. cbn [take]. rewrite !P1, !P2.
  rewrite (poll_one r2 (Domain ch rid D)) by (by rewrite Er2). cbn [dom_rec]. rewrite E3.
  rewrite Er2, (not_connected _ _ _ Hr0 Hpe), (not_connected _ _ _ Hr0 Hpe1). by split_and!.
Qed.
End connecting.

(** ** Waiting for the connection *)
Lemma connected_wait_first `{Malloc} `{Verbs} others r rank fuel n k :
  (∀ j, (k ≤ j < n)%nat → fdmi_is_connected (rt_proc (others r j)) rank = Done 0) →
  fdmi_is_connected (rt_proc (others r n)) rank = Done 1 → (k ≤ n)%nat → (n - k < fuel)%nat →
  connected_wait others fuel r rank k = Done (others r n).
Proof.
  intros Hno Hyes. revert k Hno. induction fuel as [|fuel IH]; intros k Hno Hk Hf; [lia|]. cbn.
  destruct (decide (k = n)) as [->|]; [by rewrite Hyes|]. rewrite Hno by lia. cbn.
  apply IH; [|lia|lia]. intros j Hj. apply Hno. lia.
Qed.

Lemma connected_wait_never `{Malloc} `{Verbs} others r rank fuel k :
  (∀ j, fdmi_is_connected (rt_proc (others r j)) rank = Done 0) → connected_wait others fuel r rank k = Diverge.
Proof. intros Hno. revert k. induction fuel as [|fuel IH]; intros k; [done|]. cbn. rewrite Hno. apply IH. Qed.

(** The process at the start of the wait. *)
Lemma dial_ok `{Malloc} `{Verbs} `{Net} ctx s0 others r size rank host fuel :
  net_grants ctx → malloc_total → started s0 (rt_proc r) size → 0 ≤ rank < size → rank ≤ INT_MAX →
  ∃ r' pm, fdmi_verbs_connect others fuel r rank host =
      (r' <- connected_wait others fuel r' rank 0 ;;
       peer <- aget (ps_peers (rt_proc r')) rank ;;
       conn <- aget (p_conn peer) (Z.of_nat (length (ps_domains (rt_proc r'))) - 1) ;; Done (conn, r')) ∧
    rt_proc r' = rt_proc r <| ps_pm := pm |> ∧
    routes (spec_add empty_table (net_id (rt_calls r)) rank) (rt_proc r').
Proof.
  intros Hnet Hm Hst [Hr0 Hrs] Hmax. destruct (sa_domain _ _ _ Hst) as (ch & rid & Hd).
  assert (Hadd : ends (fdmi_rmap_itop_add (ps_pm (rt_proc r)) (net_id (rt_calls r)) rank) (λ pm,
    ht_rep queue_rep (hstb_itop pm) (spec_add empty_table (net_id (rt_calls r)) rank))).
  { pose proof (sa_routes _ _ _ Hst) as Hrt. unfold routes in Hrt. unfold fdmi_rmap_itop_add.
    c_step (hrep_add (hrep := ht_rep queue_rep)) as ht Hht; [intros; apply Hm..|]. exact Hht. }
  apply ends_Done in Hadd as (pm & Hadd & Hht).
  exists (logged (with_proc (logged r [CCreateId ch]) (rt_proc r <| ps_pm := pm |>))
    [CGetAddrInfo host IBTL_LISTEN_PORT; CResolveAddr (net_id (rt_calls r)) TIMEOUT_IN_MS]), pm.
  split; [|split; [done|exact Hht]].
  unfold fdmi_verbs_connect. replace (aget (ps_peers (rt_proc r)) rank) with (Done (fdmi_create_peer 1)).
  2:{ symmetry. rewrite (sa_peers _ _ _ Hst). apply aget_Done. split; [lia|]. apply lookup_replicate_2. lia. }
  cbn [obind]. rewrite Hd. cbn [connect_domains]. unfold connect_domain.
  rewrite (must_zero_ok ctx Hnet) by done. cbn [obind dom_rec].
  change (ps_pm (rt_proc (logged r [CCreateId ch]))) with (ps_pm (rt_proc r)). rewrite Hadd. cbn [obind].
  do 2 (rewrite (must_zero_ok ctx Hnet) by done; cbn [obind]). rewrite logged_logged, obind_assoc.
  change (rt_proc (logged r [CCreateId ch])) with (rt_proc r). cbn [app].
  by destruct (connected_wait _ _ _ _ _).
Qed.

(** C12: a process that initialises and connects is ready.  [fdmi_verbs_connect]
    returns exactly when the event thread has taken the connection through its
    three events, however it does so between the looks of the waiting program;
    it returns the connection it has entered for the peer, the process then
    implements the message machine with nothing pending, has ten receives
    posted on that connection, knows the peer by the rank it asked for and has
    touched neither the program's memory nor its requests. *)
Theorem client_becomes_ready `{Malloc} `{Verbs} `{Net} ctx r env addr garbage size frank rank host sched fuel :
  malloc_total → reg_total → post_total → net_grants ctx → (∀ i, addr i ≠ NULL) →
  booted (rt_proc r) → configured env (rt_proc r) (fdmi_numspare r) size → 0 ≤ rank < size → rank ≤ INT_MAX →
  ends (fdmi_verbs_init r env addr garbage) (λ x, x.1 = 0 ∧
    let thread := event_thread frank (connect_events (net_id (rt_calls x.2))) sched in
    (∀ n, (∀ j, (j < n)%nat → (sched j < 3)%nat) → (3 ≤ sched n)%nat → (n < fuel)%nat →
       ends (fdmi_verbs_connect thread fuel x.2 rank host) (λ y, joined (rt_proc r) (rt_proc y.2) rank y.1)) ∧
    ((∀ n, (sched n < 3)%nat) → fdmi_verbs_connect thread fuel x.2 rank host = Diverge)).
Proof.
  intros Hm Hreg Hpost Hnet Haddr Hb Hcg Hrank Hmax.
  eapply ends_mono; [exact (verbs_init_ok ctx Hnet Hm r env addr garbage size Hb Hcg Haddr)|].
  intros [code r1] [Hx Hst]. cbn [fst snd] in *. split; [done|]. set (id := net_id (rt_calls r1)).
  set (thread := event_thread frank (connect_events id) sched).
  destruct (dial_ok ctx (rt_proc r) thread r1 size rank host fuel Hnet Hm Hst Hrank Hmax) as (r2 & pm & E & Er & Hrt).
  assert (Hrk : i32 (spec_get (spec_add empty_table id rank) id) = rank).
  { unfold spec_get, spec_add. rewrite table_set_eq. cbn. apply i32_id. unfold is_int, INT_MIN, INT_MAX in *. lia. }
  destruct (connect_events_ok ctx Hnet Hm Hreg Hpost (rt_proc r) (rt_proc r1) r2 size pm _ frank id rank Hst Er Hrt Hrk Hrank)
    as (e1 & e2 & e3 & conn & P1 & P2 & P3 & C0 & C1 & C2 & Hlen & Hj).
  assert (Hno : ∀ j, (sched j < 3)%nat → fdmi_is_connected (rt_proc (thread r2 j)) rank = Done 0).
  { intros j Hj'. unfold thread, event_thread. destruct (sched j) as [|[|[|]]]; [done|by rewrite P1|by rewrite P2|lia]. }
  rewrite E. split.
  - intros n Hbefore Hn Hf.
    assert (Ht : thread r2 n = e3).
    { unfold thread, event_thread. rewrite take_ge by (cbn; lia). by rewrite P3. }
    rewrite (connected_wait_first thread r2 rank fuel n 0); [|intros j Hj'; apply Hno, Hbefore; lia| |lia|lia].
    + rewrite Ht. cbn [obind]. destruct Hj as (D & t & rq & Hl & Hr & Hro & Hc & peer & Hpe & Hpc).
      rewrite Hpe. cbn [obind]. rewrite Hlen, Hpc. change (aget [conn] (Z.of_nat 1 - 1)) with (Done conn). cbn.
      exists D, t, rq. split_and!; try done. by exists peer.
    + rewrite Ht. by destruct Hj as (D & t & rq & Hl & Hr & Hro & Hc & _).
  - intros Hnever. rewrite connected_wait_never; [done|]. intros j. by apply Hno.
Qed.

(** The events come between the second look and the third. *)
Definition sample_sched (n : nat) : nat := match n with O => 0 | 1%nat => 2 | _ => 3 end.

Lemma client_becomes_ready_witness :
  ends (fdmi_verbs_init sample_boot sample_env (λ i, 16 + Z.of_nat i) (λ _, 0)) (λ x,
    ends (fdmi_verbs_connect (event_thread 0 (connect_events (net_id (rt_calls x.2))) sample_sched) 3 x.2 0 "server")
      (λ y, joined (rt_proc sample_boot) (rt_proc y.2) 0 y.1)).
Proof.
  eapply ends_mono; [eapply (client_becomes_ready (dc_ctx sample_dctx) sample_boot sample_env (λ i, 16 + Z.of_nat i) (λ _, 0) 4
    0 0 "server" sample_sched 3)|].
  - exact Malloc_bump_total.
  - exact sample_reg_total.
  - by intros l w.
  - exact sample_net_grants.
  - intros i. lia.
  - by split.
  - split; eexists; vm_compute; reflexivity.
  - lia.
  - unfold INT_MAX. lia.
  - intros x [_ [Hx _]]. apply (Hx 2%nat); [|cbn; lia|lia]. intros [|[|j]] Hj; cbn; lia.
Defined.
