(* ===== verification/Ibio.v ===== *)
(** * src/examples/ibio_common.c and ibio_client.c: remote files, the client

    The tags of the protocol and the calls of the client, as programs over the
    calls of libibtl: [io] has a constructor for each pair of a transfer and the
    [fdmi_verbs_wait] that follows it.  What a transfer does is the subject of
    Api.v and Delivery.v; here it hands over a message. *)
From S2P Require Import Prelude Mem Queue Datatype ProcMan State.
From Stdlib Require Import Ascii.

(** ** src/examples/ibio_common.h and ibio_common.c *)
Definition IBVIO_OP_NOOP : Z := 0.
Definition IBVIO_OP_OPEN : Z := 1.
Definition IBVIO_OP_WRITE : Z := 2.
Definition IBVIO_OP_WRITE_BEGIN : Z := 3.
Definition IBVIO_OP_WRITE_CHUNK : Z := 4.
Definition IBVIO_OP_READ : Z := 5.
Definition IBVIO_OP_CLOSE : Z := 6.

Definition IBVIO_CHUNK_SIZE : Z := 64 * 1024 * 1024.
Definition IBVIO_OP_MASK : Z := 65535.
Definition IBVIO_OP_OFFSET : Z := 16.
Definition IBVIO_FD_MASK : Z := 65535.
Definition IBVIO_FD_OFFSET : Z := 0.

Record ibvio_open := IOpen {
  io_fd : Z;
  io_stat : Z;
  io_count : Z;
  io_path : string;
  io_flags : Z;
  io_mode : Z;
}.
#[export] Instance eta_ibvio_open : Eta ibvio_open := λ o,
  IOpen (io_fd o) (io_stat o) (io_count o) (io_path o) (io_flags o) (io_mode o).

(** [x << k] on [int]s: undefined when the result does not fit. *)
Definition c_shl (x k : Z) : outcome Z := if x <? 0 then Undef else c_int (Z.shiftl x k).

Definition ibvio_serialize_tag (fd op : Z) : outcome Z :=
  hi <- c_shl (Z.land op IBVIO_OP_MASK) IBVIO_OP_OFFSET ;;
  lo <- c_shl (Z.land fd IBVIO_FD_MASK) IBVIO_FD_OFFSET ;;
  Done (Z.lor hi lo).

(** The results [fd] and [op]. *)
Definition ibvio_deserialize_tag (tag : Z) : Z * Z :=
  (Z.land (Z.shiftr tag IBVIO_FD_OFFSET) IBVIO_FD_MASK, Z.land (Z.shiftr tag IBVIO_OP_OFFSET) IBVIO_OP_MASK).

(** ** Programs that transfer messages *)

(** A message holds a [struct ibvio_open] or bytes of a file. *)
Inductive payload :=
| POpen (o : ibvio_open)
| PData (bs : list Z).

(** [SendWait dest tag p k]: [fdmi_verbs_isend] and [fdmi_verbs_wait], then [k];
    [RecvWait source tag k]: [fdmi_verbs_irecv] and [fdmi_verbs_wait], then [k]
    with what has been received. *)
Inductive io (R : Type) : Type :=
| Ret (r : R)
| Fault
| Unfinished
| InitVerbs (k : io R)
| Connect (rank : Z) (hostname : string) (k : io R)
| SendWait (dest tag : Z) (p : payload) (k : io R)
| RecvWait (source tag : Z) (k : payload → io R).
Arguments Ret {R} _.
Arguments Fault {R}.
Arguments Unfinished {R}.
Arguments InitVerbs {R} _.
Arguments Connect {R} _ _ _.
Arguments SendWait {R} _ _ _ _.
Arguments RecvWait {R} _ _ _.

(** A computation between two transfers. *)
Definition lift {A R} (c : outcome A) (k : A → io R) : io R :=
  match c with Done a => k a | Diverge => Unfinished | _ => Fault end.

(** A receive into a [struct ibvio_open]. *)
Definition recv_open {R} (source tag : Z) (k : ibvio_open → io R) : io R :=
  RecvWait source tag (λ p, match p with POpen o => k o | PData _ => Fault end).

(** The bytes of a buffer, and the buffer with other bytes in it. *)
Definition slice (buf : list Z) (off n : Z) : outcome (list Z) :=
  if (0 <=? off) && (0 <=? n) && (off + n <=? Z.of_nat (length buf))
  then Done (take (Z.to_nat n) (drop (Z.to_nat off) buf)) else Undef.
Definition splice (buf : list Z) (off : Z) (bs : list Z) : outcome (list Z) :=
  if (0 <=? off) && (off + Z.of_nat (length bs) <=? Z.of_nat (length buf))
  then Done (take (Z.to_nat off) buf ++ bs ++ drop (Z.to_nat off + length bs) buf) else Undef.

(** ** src/examples/ibio_client.c *)

(** [is_init], [next_host_id] and [host_ids[1024]]. *)
Record client := Client {
  is_init : Z;
  next_host_id : Z;
  host_ids : list Z;
}.

(** [strtok] with the delimiter [":"]: a token and the rest of the string. *)
Fixpoint skip_colons (s : string) : string :=
  match s with
  | String ":" s => skip_colons s
  | _ => s
  end.
Fixpoint until_colon (s : string) : string * string :=
  match s with
  | EmptyString => (EmptyString, EmptyString)
  | String ":" s => (EmptyString, s)
  | String c s => let '(t, r) := until_colon s in (String c t, r)
  end.
Definition strtok (s : string) : option (string * string) :=
  match skip_colons s with
  | EmptyString => None
  | s => Some (until_colon s)
  end.

(** [garbage] is what the local [struct ibvio_open] holds before it is
    stored to. *)
Definition ibtl_open (c : client) (garbage : ibvio_open) (pathname : string) (flags mode : Z) : io (Z * client) :=
  let go (k : io (Z * client)) := if is_init c =? 0 then InitVerbs k else k in
  go (
    let host_id := next_host_id c in
    if (256 <=? String.length pathname)%nat then Fault
    else
      match strtok pathname with
      | None => Fault
      | Some (hostname, rest) =>
          match strtok rest with
          | None => Fault
          | Some (path, _) =>
              let iopen := garbage <| io_path := path |> <| io_flags := flags |> <| io_mode := mode |> in
              Connect host_id hostname (
                lift (ibvio_serialize_tag IBVIO_OP_OPEN 0) (λ tag,
                SendWait host_id tag (POpen iopen) (
                recv_open host_id FMI_ANY_TAG (λ iopen,
                lift (aset (host_ids c) (io_fd iopen) (next_host_id c)) (λ hosts,
                lift (c_int (next_host_id c + 1)) (λ next,
                Ret (io_fd iopen, Client 1 next hosts)))))))
          end
      end).

(** The size of the next chunk: [current] and [chunk_size] are [int]s, [count]
    is a [size_t]. *)
Definition next_chunk (current chunk_size count : Z) : outcome Z :=
  sum <- c_int (current + chunk_size) ;;
  Done (if count <? u64 sum then i32 (u64 (count - u64 current)) else chunk_size).

(** The loop that sends [buf]. *)
Fixpoint send_chunks {R} (fuel : nat) (buf : list Z) (count host_id tag current chunk_size : Z) (k : io R) : io R :=
  match fuel with
  | O => Unfinished
  | S fuel =>
      if u64 current <? count then
        lift (next_chunk current chunk_size count) (λ chunk_size,
        lift (slice buf current chunk_size) (λ data,
        SendWait host_id tag (PData data) (
        lift (c_int (current + chunk_size)) (λ current,
        send_chunks fuel buf count host_id tag current chunk_size k))))
      else k
  end.

(** The loop that receives into [buf]. *)
Fixpoint recv_chunks {R} (fuel : nat) (buf : list Z) (count host_id tag current chunk_size : Z)
    (k : list Z → io R) : io R :=
  match fuel with
  | O => Unfinished
  | S fuel =>
      if u64 current <? count then
        lift (next_chunk current chunk_size count) (λ chunk_size,
        RecvWait host_id tag (λ p,
          match p with
          | POpen _ => Fault
          | PData data =>
              lift (splice buf current data) (λ buf,
              lift (c_int (current + chunk_size)) (λ current,
              recv_chunks fuel buf count host_id tag current chunk_size k))
          end))
      else k buf
  end.

(** After 32 chunks the sum of the sizes does not fit an [int]. *)
Definition CHUNK_FUEL : nat := 34.

(** The reply is received into [iopen]; its field [stat] is returned. *)
Definition finish (host_id : Z) : io Z := recv_open host_id FMI_ANY_TAG (λ iopen, Ret (io_stat iopen)).

Definition ibtl_dwrite (c : client) (garbage : ibvio_open) (fd : Z) (buf : list Z) (count : Z) : io Z :=
  lift (aget (host_ids c) fd) (λ host_id,
  lift (ibvio_serialize_tag IBVIO_OP_WRITE fd) (λ tag,
  SendWait host_id tag (POpen (garbage <| io_count := i32 count |>)) (
  send_chunks CHUNK_FUEL buf count host_id tag 0 IBVIO_CHUNK_SIZE (finish host_id)))).

Definition ibtl_write (c : client) (garbage : ibvio_open) (fd : Z) (buf : list Z) (count : Z) : io Z :=
  lift (aget (host_ids c) fd) (λ host_id,
  lift (ibvio_serialize_tag IBVIO_OP_WRITE_BEGIN fd) (λ tag,
  SendWait host_id tag (POpen (garbage <| io_count := i32 count |>)) (
  lift (ibvio_serialize_tag IBVIO_OP_WRITE_CHUNK fd) (λ tag,
  send_chunks CHUNK_FUEL buf count host_id tag 0 IBVIO_CHUNK_SIZE (finish host_id))))).

(** The result is a field of [iopen] that nobody has stored to. *)
Definition ibtl_read (c : client) (garbage : ibvio_open) (fd : Z) (buf : list Z) (count : Z) : io (Z * list Z) :=
  lift (aget (host_ids c) fd) (λ host_id,
  lift (ibvio_serialize_tag IBVIO_OP_READ fd) (λ tag,
  SendWait host_id tag (POpen (garbage <| io_count := i32 count |>)) (
  recv_chunks CHUNK_FUEL buf count host_id tag 0 IBVIO_CHUNK_SIZE (λ buf, Ret (io_stat garbage, buf))))).

Definition ibtl_close (c : client) (garbage : ibvio_open) (fd : Z) : io Z :=
  lift (aget (host_ids c) fd) (λ host_id,
  lift (ibvio_serialize_tag IBVIO_OP_CLOSE fd) (λ tag,
  SendWait host_id tag (POpen garbage) (finish host_id))).

(** ** Tags *)

Lemma land_mask16 x : 0 ≤ x < 2 ^ 16 → Z.land x 65535 = x.
Proof. intros H. change 65535 with (Z.ones 16). rewrite Z.land_ones by lia. by apply Z.mod_small. Qed.

Lemma serialize_ok fd op :
  0 ≤ fd < 2 ^ 16 → 0 ≤ op < 2 ^ 15 → ibvio_serialize_tag fd op = Done (Z.lor (Z.shiftl op 16) fd).
Proof.
  intros Hf Ho. unfold ibvio_serialize_tag, c_shl, IBVIO_OP_MASK, IBVIO_FD_MASK, IBVIO_OP_OFFSET, IBVIO_FD_OFFSET.
  rewrite !land_mask16 by lia. rewrite (proj2 (Z.ltb_ge op 0)), (proj2 (Z.ltb_ge fd 0)) by lia.
  rewrite Z.shiftl_0_r, !c_int_bounds; [done|unfold INT_MAX; lia|].
  rewrite Z.shiftl_mul_pow2 by lia. unfold INT_MAX. lia.
Qed.

Lemma deserialize_ok fd op :
  0 ≤ fd < 2 ^ 16 → 0 ≤ op < 2 ^ 15 → ibvio_deserialize_tag (Z.lor (Z.shiftl op 16) fd) = (fd, op).
Proof.
  intros Hf Ho. unfold ibvio_deserialize_tag, IBVIO_OP_MASK, IBVIO_FD_MASK, IBVIO_OP_OFFSET, IBVIO_FD_OFFSET.
  rewrite Z.shiftr_0_r, Z.shiftr_lor, Z.shiftr_shiftl_l, Z.shiftl_0_r, Z.land_lor_distr_l by lia.
  assert (Hhi : Z.shiftr fd 16 = 0) by (rewrite Z.shiftr_div_pow2 by lia; apply Z.div_small; lia).
  assert (Hlo : Z.land (Z.shiftl op 16) 65535 = 0).
  { change 65535 with (Z.ones 16). rewrite Z.land_ones, Z.shiftl_mul_pow2 by lia. by apply Z.mod_mul. }
  by rewrite Hhi, Hlo, Z.lor_0_r, !Z.lor_0_l, !land_mask16 by lia.
Qed.

(** The tags of the protocol.  Two numbers of 16 bits, the second below
    2^15, are packed into a tag that is not the wildcard and from which both
    come back; with a larger second number (the number of an open file, as the
    client calls it) the shift overflows. *)
Theorem tag_roundtrip fd op :
  0 ≤ fd < 2 ^ 16 → 0 ≤ op < 2 ^ 16 →
  if op <? 2 ^ 15
  then ends (ibvio_serialize_tag fd op) (λ tag, 0 ≤ tag ∧ ibvio_deserialize_tag tag = (fd, op))
  else ibvio_serialize_tag fd op = Undef.
Proof.
  intros Hf Ho. destruct (op <? 2 ^ 15) eqn:E; [apply Z.ltb_lt in E|apply Z.ltb_ge in E].
  - rewrite serialize_ok by lia. cbn [ends]. split; [|by apply deserialize_ok; lia].
    apply Z.lor_nonneg. split; [apply Z.shiftl_nonneg|]; lia.
  - unfold ibvio_serialize_tag, c_shl, IBVIO_OP_MASK, IBVIO_OP_OFFSET. rewrite land_mask16 by lia.
    rewrite (proj2 (Z.ltb_ge op 0)) by lia. rewrite Z.shiftl_mul_pow2 by lia. unfold c_int.
    rewrite (proj2 (Z.leb_gt _ INT_MAX)) by (unfold INT_MAX; lia). by rewrite andb_false_r.
Qed.

Lemma tag_roundtrip_witness :
  ends (ibvio_serialize_tag IBVIO_OP_WRITE_CHUNK 32767) (λ tag, 0 ≤ tag ∧ ibvio_deserialize_tag tag = (4, 32767)) ∧
  ibvio_serialize_tag IBVIO_OP_WRITE_CHUNK 32768 = Undef.
Proof.
  split; [apply (tag_roundtrip 4 32767)|apply (tag_roundtrip 4 32768)]; unfold IBVIO_OP_WRITE_CHUNK; lia.
Defined.
