(* ===== verification/IbioServer.v ===== *)
(** * src/examples/ibio_server.c: remote files, the server

    The handlers of the messages, the threads they start and the loop of
    [main], as steps of a server: [main_step] is a step of [main], from a probe
    to the end of the handler or to the point where the handler waits, and
    [thread_step] a step of a thread, of which the mutex of a file orders
    some. *)
From S2P Require Import Prelude Mem Queue Datatype ProcMan State Ibio.

Definition BUF_SIZE : Z := 1024 * 1024 * 1024.
Definition MAX_FILE_OPEN : Z := 1024 * 1024.

(** [struct ibvio_sopen_info], with the cache of its [file_info]: the byte at
    each offset, [None] for a null pointer.  The times and the fields for
    reading are not used.  [so_fd] is a [size_t]. *)
Record sopen_info := SInfo {
  so_fd : Z;
  write_count : Z;
  current_write_count : Z;
  current_recv_size : Z;
  fastmutex : mutex;
  cache : option (Z → Z);
}.
#[export] Instance eta_sopen_info : Eta sopen_info := λ i,
  SInfo (so_fd i) (write_count i) (current_write_count i) (current_recv_size i) (fastmutex i) (cache i).

(** A static object is zero; a zero mutex is an unlocked one. *)
Definition zero_info : sopen_info := SInfo 0 0 0 0 Unlocked None.

(** [FMI_Status]. *)
Record fmi_status := Status { FMI_SOURCE : Z; FMI_TAG : Z }.

(** The calls that leave the program. *)
Inductive os_call :=
| OOpen (path : string) (flags mode : Z)
| OWrite (fd : Z) (bs : list Z)
| ORead (fd size : Z)
| OFsync (fd : Z)
| OClose (fd : Z)
| OThreadCreate
| OThreadDetach.

(** What they return, given those made before, and the bytes a read stores. *)
Class OS : Type := {
  os_ret : list os_call → os_call → Z;
  os_data : list os_call → Z → Z → list Z;
}.

(** The rest of [ibvio_swrite] after the header has been received: the local
    variables, and whether it waits for a chunk. *)
Record swrite := Swrite {
  sw_fd : Z;
  sw_stat : fmi_status;
  sw_iopen : ibvio_open;
  sw_received : Z;
  sw_chunk : Z;
  sw_write_size : Z;
  sw_write_chunk : Z;
  sw_posted : bool;
}.
#[export] Instance eta_swrite : Eta swrite := λ w,
  Swrite (sw_fd w) (sw_stat w) (sw_iopen w) (sw_received w) (sw_chunk w) (sw_write_size w) (sw_write_chunk w) (sw_posted w).

(** Where [main] is. *)
Inductive main_state :=
| Probing
| Receiving (w : swrite)
| Spinning (fd : Z) (stat : fmi_status).

(** Where a thread is: before and in the critical section of
    [ibvio_swrite_chunk_thread]; before [pthread_mutex_lock], before the header
    is received and in the loop of [ibvio_sread]. *)
Inductive thread_state :=
| TChunk (fd : Z)
| TWriting (fd size : Z)
| TRead (fd : Z) (stat : fmi_status)
| TReadLocked (fd : Z) (stat : fmi_status)
| TReading (fd : Z) (stat : fmi_status) (iopen : ibvio_open) (sent chunk read : Z).

Record smsg := SMsg { sm_rank : Z; sm_tag : Z; sm_data : payload }.

(** [sv_in]: messages that have arrived and have not been received, [sv_out]:
    those sent, with the rank they go to. *)
Record server := Server {
  sv_open : gmap Z sopen_info;
  sv_main : main_state;
  sv_threads : list thread_state;
  sv_in : list smsg;
  sv_out : list smsg;
  sv_calls : list os_call;
}.
#[export] Instance eta_server : Eta server := λ v,
  Server (sv_open v) (sv_main v) (sv_threads v) (sv_in v) (sv_out v) (sv_calls v).

Section ops.
Context {HOS : OS}.
Implicit Types (v : server).

(** ** Access *)

Definition info_at v (fd : Z) : outcome sopen_info :=
  if (0 <=? fd) && (fd <? MAX_FILE_OPEN) then Done (default zero_info (sv_open v !! fd)) else Undef.
Definition set_info v (fd : Z) (i : sopen_info) : server := v <| sv_open := <[fd := i]> (sv_open v) |>.

(** [cache + off]: the block has [BUF_SIZE] bytes. *)
Definition cache_read (i : sopen_info) (off n : Z) : outcome (list Z) :=
  match cache i with
  | Some c => if (0 <=? off) && (0 <=? n) && (off + n <=? BUF_SIZE) then Done (c <$> seqZ off n) else Undef
  | None => Undef
  end.
Definition store_at (c : Z → Z) (off : Z) (bs : list Z) (j : Z) : Z :=
  if (off <=? j) && (j <? off + Z.of_nat (length bs)) then nth (Z.to_nat (j - off)) bs 0 else c j.
Definition cache_write (i : sopen_info) (off : Z) (bs : list Z) : outcome sopen_info :=
  match cache i with
  | Some c =>
      if (0 <=? off) && (off + Z.of_nat (length bs) <=? BUF_SIZE)
      then Done (i <| cache := Some (store_at c off bs) |>) else Undef
  | None => Undef
  end.

Definition os v (c : os_call) : Z * server := (os_ret (sv_calls v) c, v <| sv_calls := sv_calls v ++ [c] |>).

(** [if (write(fd, cache + off, n) < 0) fdmi_err(...)]. *)
Definition write_cache v (fd : Z) (i : sopen_info) (off n : Z) : outcome server :=
  bs <- cache_read i off n ;;
  let '(r, v) := os v (OWrite fd bs) in
  if r <? 0 then Fatal "Write Error" else Done v.

(** At most [n] bytes. *)
Definition first_bytes (n : Z) (bs : list Z) : list Z := take (Z.to_nat (Z.min n (Z.of_nat (length bs)))) bs.

(** [if (read(fd, cache + off, n) < 0) fdmi_err(...)]: the block must have room
    for [n] bytes; fewer may come. *)
Definition read_cache v (fd : Z) (i : sopen_info) (off n : Z) : outcome (sopen_info * server) :=
  if (0 <=? off) && (off + n <=? BUF_SIZE) then
    let bs := first_bytes n (os_data (sv_calls v) fd n) in
    let '(r, v) := os v (ORead fd n) in
    if r <? 0 then Fatal "Read Error" else i <- cache_write i off bs ;; Done (i, v)
  else Undef.

(** [fdmi_verbs_irecv] and [fdmi_verbs_wait]: the first message with this source
    and tag; [None] when it has not arrived. *)
Fixpoint take_message (source tag : Z) (ms : list smsg) : option (payload * list smsg) :=
  match ms with
  | [] => None
  | m :: ms =>
      if (sm_rank m =? source) && (sm_tag m =? tag) then Some (sm_data m, ms)
      else match take_message source tag ms with
           | Some (p, rest) => Some (p, m :: rest)
           | None => None
           end
  end.
Definition receive v (stat : fmi_status) : option (payload * server) :=
  match take_message (FMI_SOURCE stat) (FMI_TAG stat) (sv_in v) with
  | Some (p, rest) => Some (p, v <| sv_in := rest |>)
  | None => None
  end.
Definition receive_open v (stat : fmi_status) (k : ibvio_open → server → outcome server) : outcome (option server) :=
  match receive v stat with
  | Some (POpen o, v) => v <- k o v ;; Done (Some v)
  | Some (PData _, _) => Undef
  | None => Done None
  end.

(** [fdmi_verbs_isend] and [fdmi_verbs_wait]. *)
Definition send v (stat : fmi_status) (p : payload) : server :=
  v <| sv_out := sv_out v ++ [SMsg (FMI_SOURCE stat) (FMI_TAG stat) p] |>.

(** ** Handlers *)

(** The reply is sent before the number of the file is looked at. *)
Definition ibvio_sopen v (garbage : Z → Z) (stat : fmi_status) : outcome (option server) :=
  receive_open v stat (λ iopen v,
    let '(fd, v) := os v (OOpen (io_path iopen) (io_flags iopen) (io_mode iopen)) in
    let v := send v stat (POpen (iopen <| io_fd := fd |>)) in
    i <- info_at v fd ;;
    Done (set_info v fd (i <| so_fd := u64 fd |> <| cache := Some garbage |> <| write_count := 0 |>
      <| current_write_count := 0 |> <| fastmutex := Unlocked |> <| current_recv_size := 0 |>))).

(** The part of [ibvio_swrite] up to its loop.  [write_size] and
    [write_chunk_size] are not initialised. *)
Definition ibvio_swrite v (garbage1 garbage2 : Z) (fd : Z) (stat : fmi_status) : outcome (option server) :=
  receive_open v stat (λ iopen v,
    Done (v <| sv_main := Receiving (Swrite fd stat iopen 0 IBVIO_CHUNK_SIZE garbage1 garbage2 false) |>)).

(** A step of its loop: to the receive of a chunk and the write of the one
    before, then to the end of the receive; and its end. *)
Definition swrite_loop v (w : swrite) : outcome (option server) :=
  i <- info_at v (sw_fd w) ;;
  if sw_posted w then
    match receive v (sw_stat w) with
    | Some (PData bs, v) =>
        i <- cache_write i (sw_received w) bs ;;
        received <- c_int (sw_received w + sw_chunk w) ;;
        Done (Some (set_info v (sw_fd w) i <| sv_main := Receiving (w <| sw_received := received |>
          <| sw_write_chunk := sw_chunk w |> <| sw_posted := false |>) |>))
    | Some (POpen _, _) => Undef
    | None => Done None
    end
  else if sw_received w <? io_count (sw_iopen w) then
    sum <- c_int (sw_received w + sw_chunk w) ;;
    chunk <- (if io_count (sw_iopen w) <? sum then c_int (io_count (sw_iopen w) - sw_received w) else Done (sw_chunk w)) ;;
    let w := w <| sw_chunk := chunk |> <| sw_posted := true |> in
    if 0 <? sw_received w then
      v <- write_cache v (sw_fd w) i (sw_write_size w) (sw_write_chunk w) ;;
      size <- c_int (sw_write_size w + sw_write_chunk w) ;;
      Done (Some (v <| sv_main := Receiving (w <| sw_write_size := size |>) |>))
    else Done (Some (v <| sv_main := Receiving w |>))
  else
    v <- write_cache v (sw_fd w) i (sw_write_size w) (sw_write_chunk w) ;;
    _ <- c_int (sw_write_size w + sw_write_chunk w) ;;
    let v := (os v (OFsync (sw_fd w))).2 in
    Done (Some (send v (sw_stat w) (POpen (sw_iopen w)) <| sv_main := Probing |>)).

Definition ibvio_swrite_begin v (fd : Z) (stat : fmi_status) : outcome (option server) :=
  receive_open v stat (λ iopen v,
    i <- info_at v fd ;;
    Done (set_info v fd (i <| write_count := u64 (io_count iopen) |> <| current_recv_size := 0 |>
      <| current_write_count := 0 |>))).

(** The size of a chunk, from the counts of a file, which are [size_t]s. *)
Definition chunk_of (current total : Z) : Z :=
  if total <? u64 (current + IBVIO_CHUNK_SIZE) then i32 (u64 (total - current)) else IBVIO_CHUNK_SIZE.

Definition ibvio_run_thread v (t : thread_state) : outcome server :=
  let '(r, v) := os v OThreadCreate in
  if negb (r =? 0) then Fatal "pthread create failed"
  else
    let '(r, v) := os (v <| sv_threads := sv_threads v ++ [t] |>) OThreadDetach in
    if negb (r =? 0) then Fatal "pthread detach failed" else Done v.

(** Up to the wait for the threads that write, for the last chunk. *)
Definition ibvio_swrite_chunk v (fd : Z) (stat : fmi_status) : outcome (option server) :=
  i <- info_at v fd ;;
  let chunk_size := chunk_of (current_recv_size i) (write_count i) in
  match receive v stat with
  | Some (PData bs, v) =>
      i <- cache_write i (current_recv_size i) bs ;;
      let i := i <| current_recv_size := u64 (current_recv_size i + chunk_size) |> in
      v <- ibvio_run_thread (set_info v fd i) (TChunk fd) ;;
      Done (Some (if current_recv_size i =? write_count i then v <| sv_main := Spinning fd stat |> else v))
  | Some (POpen _, _) => Undef
  | None => Done None
  end.

(** [while (current_write_count != write_count)] and the reply, whose content
    [garbage] is never stored. *)
Definition swrite_chunk_end v (garbage : ibvio_open) (fd : Z) (stat : fmi_status) : outcome (option server) :=
  i <- info_at v fd ;;
  if current_write_count i =? write_count i then
    let v := (os v (OFsync fd)).2 in
    Done (Some (send v stat (POpen garbage) <| sv_main := Probing |>))
  else Done None.

Definition ibvio_sread_async v (fd : Z) (stat : fmi_status) : outcome (option server) :=
  _ <- info_at v fd ;;
  v <- ibvio_run_thread v (TRead fd stat) ;; Done (Some v).

(** [memset(&open_info[fd], 0, sizeof(struct ibvio_open))] clears 276 bytes; a
    [struct ibvio_sopen_info] has 176.  The other 100 are those of the next
    entry up to the middle of [current_read_count]; its pointer to the cache is
    behind them. *)
Definition clear_two v (fd : Z) : outcome server :=
  i <- info_at v (fd + 1) ;;
  Done (set_info (set_info v fd zero_info) (fd + 1) (zero_info <| cache := cache i |>)).

Definition ibvio_sclose v (fd : Z) (stat : fmi_status) : outcome (option server) :=
  receive_open v stat (λ iopen v,
    let '(r, v) := os v (OClose fd) in
    let v := send v stat (POpen (iopen <| io_stat := r |>)) in
    if r =? 0 then
      i <- info_at v fd ;;
      match cache i with
      | Some _ => clear_two v fd
      | None => Undef
      end
    else Done v).

(** ** [main] *)

(** The contents of the local variables a handler leaves uninitialised. *)
Record locals := Locals {
  l_cache : Z → Z;
  l_write_size : Z;
  l_write_chunk : Z;
  l_iopen : ibvio_open;
}.

(** The switch over the operation. *)
Definition dispatch v (l : locals) (op fd : Z) (stat : fmi_status) : outcome (option server) :=
  if op =? IBVIO_OP_OPEN then ibvio_sopen v (l_cache l) stat
  else if op =? IBVIO_OP_WRITE then ibvio_swrite v (l_write_size l) (l_write_chunk l) fd stat
  else if op =? IBVIO_OP_WRITE_BEGIN then ibvio_swrite_begin v fd stat
  else if op =? IBVIO_OP_WRITE_CHUNK then ibvio_swrite_chunk v fd stat
  else if op =? IBVIO_OP_READ then ibvio_sread_async v fd stat
  else if op =? IBVIO_OP_CLOSE then ibvio_sclose v fd stat
  else Done None.

(** A round of [while (1)]: the first message that has arrived is probed.
    [None]: nothing happens. *)
Definition main_step v (l : locals) : outcome (option server) :=
  match sv_main v with
  | Probing =>
      match sv_in v with
      | [] => Done None
      | m :: _ =>
          let '(op, fd) := ibvio_deserialize_tag (sm_tag m) in
          dispatch v l op fd (Status (sm_rank m) (sm_tag m))
      end
  | Receiving w => swrite_loop v w
  | Spinning fd stat => swrite_chunk_end v (l_iopen l) fd stat
  end.

(** ** Threads *)

Definition lock_info (i : sopen_info) : outcome (option sopen_info) :=
  match fastmutex i with
  | Unlocked => Done (Some (i <| fastmutex := Locked |>))
  | Locked => Done None
  | Destroyed => Undef
  end.

(** What a step of a thread gives: the next state of the thread, [None] at its
    end, and the server; [None] when it waits. *)
Definition ibvio_swrite_chunk_thread v (t : thread_state) : outcome (option (option thread_state * server)) :=
  match t with
  | TChunk fd =>
      i <- info_at v fd ;;
      l <- lock_info i ;;
      match l with
      | Some i =>
          Done (Some (Some (TWriting fd (chunk_of (current_write_count i) (write_count i))), set_info v fd i))
      | None => Done None
      end
  | TWriting fd size =>
      i <- info_at v fd ;;
      v <- write_cache v (i32 (so_fd i)) i (current_write_count i) size ;;
      let v := (os v (OFsync (i32 (so_fd i)))).2 in
      let i := i <| current_write_count := u64 (current_write_count i + size) |> <| fastmutex := Unlocked |> in
      Done (Some (None, set_info v fd i))
  | _ => Done None
  end.

(** [ibvio_sread], which [ibvio_sread_thread] calls. *)
Definition ibvio_sread v (t : thread_state) : outcome (option (option thread_state * server)) :=
  match t with
  | TRead fd stat =>
      i <- info_at v fd ;;
      l <- lock_info i ;;
      match l with
      | Some i => Done (Some (Some (TReadLocked fd stat), set_info v fd i))
      | None => Done None
      end
  | TReadLocked fd stat =>
      match receive v stat with
      | Some (POpen iopen, v) =>
          i <- info_at v fd ;;
          let! (i, v) := read_cache v fd i 0 IBVIO_CHUNK_SIZE in
          Done (Some (Some (TReading fd stat iopen 0 IBVIO_CHUNK_SIZE IBVIO_CHUNK_SIZE), set_info v fd i))
      | Some (PData _, _) => Undef
      | None => Done None
      end
  | TReading fd stat iopen sent chunk_size read =>
      i <- info_at v fd ;;
      if sent <? io_count iopen then
        sum <- c_int (sent + chunk_size) ;;
        chunk_size <- (if io_count iopen <? sum then c_int (io_count iopen - sent) else Done chunk_size) ;;
        bs <- cache_read i sent chunk_size ;;
        let v := send v stat (PData bs) in
        sent <- c_int (sent + chunk_size) ;;
        if read <? io_count iopen then
          let! (i, v) := read_cache v fd i read IBVIO_CHUNK_SIZE in
          read <- c_int (read + IBVIO_CHUNK_SIZE) ;;
          Done (Some (Some (TReading fd stat iopen sent chunk_size read), set_info v fd i))
        else Done (Some (Some (TReading fd stat iopen sent chunk_size read), v))
      else Done (Some (None, set_info v fd (i <| fastmutex := Unlocked |>)))
  | _ => Done None
  end.

(** A step of the thread in state [t]. *)
Definition thread_step v (t : thread_state) : outcome (option (option thread_state * server)) :=
  match t with
  | TChunk _ | TWriting _ _ => ibvio_swrite_chunk_thread v t
  | TRead _ _ | TReadLocked _ _ | TReading _ _ _ _ _ _ => ibvio_sread v t
  end.

(** A step of the [k]-th thread. *)
Definition run_thread v (k : nat) : outcome (option server) :=
  match sv_threads v !! k with
  | None => Done None
  | Some t =>
      r <- thread_step v t ;;
      match r with
      | None => Done None
      | Some (t', v) =>
          Done (Some (v <| sv_threads := match t' with
                                          | Some t => <[k := t]> (sv_threads v)
                                          | None => delete k (sv_threads v)
                                          end |>))
      end
  end.
End ops.
