(* ===== verification/IbioSession.v ===== *)
(** * src/examples: a write over the network

    The client and the server of the example together: for every interleaving
    of the client, the main loop of the server and its threads, a write of
    [ibtl_write] ends, and when the client returns the bytes are in the file. *)
From S2P Require Import Prelude Fairness Mem Queue Datatype ProcMan State Ibio IbioServer.

(** ** The system *)

(** The first message for [rank] that a receive with [tag] takes. *)
Fixpoint take_reply (rank tag : Z) (ms : list smsg) : option (payload * list smsg) :=
  match ms with
  | [] => None
  | m :: ms =>
      if (sm_rank m =? rank) && ((tag =? FMI_ANY_TAG) || (sm_tag m =? tag)) then Some (sm_data m, ms)
      else match take_reply rank tag ms with
           | Some (p, rest) => Some (p, m :: rest)
           | None => None
           end
  end.

Record system (R : Type) := Sys { sy_client : io R; sy_server : server }.
Arguments Sys {R} _ _.
Arguments sy_client {R} _.
Arguments sy_server {R} _.

(** The client knows the server as [host]; the server knows the client as
    [me].  Messages arrive in the order in which they are sent. *)
Inductive sys_step `{OS} {R} (l : locals) (host me : Z) : system R → system R → Prop :=
| step_init k v : sys_step l host me (Sys (InitVerbs k) v) (Sys k v)
| step_connect hostname k v : sys_step l host me (Sys (Connect host hostname k) v) (Sys k v)
| step_send tag p k v :
    sys_step l host me (Sys (SendWait host tag p k) v) (Sys k (v <| sv_in := sv_in v ++ [SMsg me tag p] |>))
| step_recv tag k v p rest :
    take_reply me tag (sv_out v) = Some (p, rest) →
    sys_step l host me (Sys (RecvWait host tag k) v) (Sys (k p) (v <| sv_out := rest |>))
| step_main c v v' :
    main_step v l = Done (Some v') → sys_step l host me (Sys c v) (Sys c v')
| step_thread c v k v' :
    run_thread v k = Done (Some v') → sys_step l host me (Sys c v) (Sys c v').

(** The next step of a part is undefined, ends the process or does not come to
    an end. *)
Definition sys_fault `{OS} {R} (l : locals) (s : system R) : Prop :=
  sy_client s = Fault ∨ sy_client s = Unfinished ∨ (∀ r, main_step (sy_server s) l ≠ Done r) ∨
  ∃ k, ∀ r, run_thread (sy_server s) k ≠ Done r.

(** What [write] appends to the file [fd] in the calls [todo], made after
    [before]. *)
Fixpoint file_bytes `{OS} (fd : Z) (before todo : list os_call) : list Z :=
  match todo with
  | [] => []
  | c :: todo =>
      (match c with OWrite f bs => if f =? fd then take (Z.to_nat (os_ret before c)) bs else [] | _ => [] end)
      ++ file_bytes fd (before ++ [c]) todo
  end.

Lemma file_bytes_app `{OS} fd before a b :
  file_bytes fd before (a ++ b) = file_bytes fd before a ++ file_bytes fd (before ++ a) b.
Proof.
  revert before. induction a as [|c a IH]; intros before; cbn.
  - by rewrite app_nil_r.
  - by rewrite IH, <- !(assoc_L (++)).
Qed.

(** A system whose calls succeed: [write] takes all it is given. *)
Record os_works `{OS} : Prop := {
  ow_write log fd bs : os_ret log (OWrite fd bs) = Z.of_nat (length bs);
  ow_create log : os_ret log OThreadCreate = 0;
  ow_detach log : os_ret log OThreadDetach = 0;
}.

(** ** Chunks *)
Section bounds.
Context {n : Z} (Hn : 0 < n ≤ BUF_SIZE).
Local Notation C := IBVIO_CHUNK_SIZE.

(** Where the [i]-th chunk begins, and their number. *)
Definition bound (i : nat) : Z := Z.min (Z.of_nat i * C) n.
Definition chunks : nat := Z.to_nat ((n + C - 1) `div` C).

Lemma chunks_spec i : (i < chunks)%nat ↔ Z.of_nat i * C < n.
Proof.
  unfold chunks, IBVIO_CHUNK_SIZE. pose proof (Z.div_mod (n + 64 * 1024 * 1024 - 1) (64 * 1024 * 1024)).
  pose proof (Z.mod_pos_bound (n + 64 * 1024 * 1024 - 1) (64 * 1024 * 1024)). lia.
Qed.
Lemma chunks_pos : (0 < chunks ≤ 16)%nat.
Proof.
  split; [apply chunks_spec; lia|]. destruct (decide (16 < chunks)%nat) as [H|]; [|lia].
  apply chunks_spec in H. unfold BUF_SIZE, IBVIO_CHUNK_SIZE in *. lia.
Qed.
Lemma bound_0 : bound 0 = 0.
Proof. unfold bound. lia. Qed.
Lemma bound_lt i : (i < chunks)%nat → bound i = Z.of_nat i * C ∧ bound i < n.
Proof. intros H%chunks_spec. unfold bound. lia. Qed.
Lemma bound_last : bound chunks = n.
Proof. pose proof (chunks_spec chunks). unfold bound. lia. Qed.
Lemma bound_range i : 0 ≤ bound i ≤ n.
Proof. unfold bound, IBVIO_CHUNK_SIZE. lia. Qed.
Lemma bound_step i : (i < chunks)%nat → 0 < bound (S i) - bound i ≤ C.
Proof. intros H%chunks_spec. unfold bound, IBVIO_CHUNK_SIZE in *. lia. Qed.
Lemma bound_step_full i : (S i < chunks)%nat → bound (S i) - bound i = C.
Proof. intros H%chunks_spec. unfold bound, IBVIO_CHUNK_SIZE in *. lia. Qed.
Lemma bound_mono i j : (i ≤ j)%nat → bound i ≤ bound j.
Proof. intros H. unfold bound, IBVIO_CHUNK_SIZE. lia. Qed.
Lemma bound_eq_last i : (i ≤ chunks)%nat → (bound i =? n) = bool_decide (i = chunks).
Proof.
  intros Hi. case_bool_decide as H; [rewrite H, bound_last; apply Z.eqb_refl|].
  apply Z.eqb_neq. destruct (bound_lt i); lia.
Qed.

Lemma next_chunk_ok i : (i < chunks)%nat → next_chunk (bound i) C n = Done (bound (S i) - bound i).
Proof.
  intros Hi. pose proof (bound_lt i Hi) as [Hb Hlt]. pose proof (bound_range i) as Hr. unfold next_chunk.
  rewrite c_int_bounds by (unfold BUF_SIZE, INT_MAX, IBVIO_CHUNK_SIZE in *; lia). cbn [obind].
  rewrite !u64_id by (unfold BUF_SIZE, IBVIO_CHUNK_SIZE in *; lia). f_equal.
  rewrite Hb. unfold bound. pose proof (proj1 (chunks_spec i) Hi). unfold BUF_SIZE, IBVIO_CHUNK_SIZE in *.
  destruct (n <? _) eqn:E; [apply Z.ltb_lt in E|apply Z.ltb_ge in E]; [|lia].
  rewrite (u64_id (_ * _)), u64_id, i32_id; [lia| |lia|lia]. unfold is_int, INT_MIN, INT_MAX. lia.
Qed.
Lemma chunk_of_ok i : (i < chunks)%nat → chunk_of (bound i) n = bound (S i) - bound i.
Proof.
  intros Hi. pose proof (next_chunk_ok i Hi) as H. unfold next_chunk in H. inv_done.
  apply c_int_inv in H0 as [-> _]. unfold chunk_of. rewrite <- H.
  by rewrite (u64_id (bound i)) by (pose proof (bound_range i); unfold BUF_SIZE in *; lia).
Qed.
End bounds.
Arguments bound : clear implicits.
Arguments chunks : clear implicits.

Section chunks.
Context {n : Z} {buf : list Z}.
Context (Hn : 0 < n ≤ BUF_SIZE) (Hbuf : n = Z.of_nat (length buf)).
Local Notation bound := (bound n).
Local Notation chunks := (chunks n).

(** The bytes of the [i]-th chunk. *)
Definition chunk (i : nat) : list Z := take (Z.to_nat (bound (S i) - bound i)) (drop (Z.to_nat (bound i)) buf).

Lemma chunk_length i : (i < chunks)%nat → Z.of_nat (length (chunk i)) = bound (S i) - bound i.
Proof.
  intros Hi. unfold chunk. pose proof (bound_range Hn (S i)). pose proof (bound_range Hn i). pose proof (bound_step Hn i Hi).
  rewrite length_take, length_drop. lia.
Qed.
Lemma slice_ok i : (i < chunks)%nat → slice buf (bound i) (bound (S i) - bound i) = Done (chunk i).
Proof.
  intros Hi. pose proof (bound_range Hn (S i)). pose proof (bound_range Hn i). pose proof (bound_step Hn i Hi).
  unfold slice. rewrite !(proj2 (Z.leb_le _ _)) by lia. done.
Qed.
Lemma take_chunk i : (i < chunks)%nat →
  take (Z.to_nat (bound (S i))) buf = take (Z.to_nat (bound i)) buf ++ chunk i.
Proof.
  intros Hi. unfold chunk. pose proof (bound_range Hn i). pose proof (bound_step Hn i Hi).
  replace (Z.to_nat (bound (S i))) with (Z.to_nat (bound i) + Z.to_nat (bound (S i) - bound i))%nat by lia.
  by rewrite take_take_drop.
Qed.

(** The cache with the first [r] chunks in it. *)
Definition cached (c : Z → Z) (r : nat) : Prop := ∀ j, 0 ≤ j < bound r → buf !! Z.to_nat j = Some (c j).

Lemma cached_lookup c r i k : cached c r → (i < r ≤ chunks)%nat →
  chunk i !! k = if decide (Z.of_nat k < bound (S i) - bound i) then Some (c (bound i + Z.of_nat k)) else None.
Proof.
  intros Hc Hi. unfold chunk. pose proof (bound_range Hn i). pose proof (bound_step Hn i ltac:(lia)).
  pose proof (bound_mono (n:=n) (S i) r ltac:(lia)). case_decide as Hk.
  - rewrite lookup_take_lt, lookup_drop by lia. rewrite <- Hc by lia. f_equal. lia.
  - apply lookup_take_ge. lia.
Qed.

Lemma cached_store c r : cached c r → (r < chunks)%nat → cached (store_at c (bound r) (chunk r)) (S r).
Proof.
  intros Hc Hr j Hj. pose proof (bound_range Hn r). pose proof (bound_step Hn r Hr). pose proof (chunk_length r Hr) as Hl.
  unfold store_at. rewrite Hl. destruct (decide (j < bound r)) as [Hlt|Hge].
  - rewrite (proj2 (Z.leb_gt _ _)) by lia. cbn [andb]. by apply Hc; lia.
  - rewrite (proj2 (Z.leb_le _ _)), (proj2 (Z.ltb_lt _ _)) by lia. cbn [andb].
    assert (Hk : chunk r !! Z.to_nat (j - bound r) = buf !! Z.to_nat j).
    { unfold chunk. rewrite lookup_take_lt, lookup_drop by lia. f_equal. lia. }
    rewrite <- Hk. destruct (lookup_lt_is_Some_2 (chunk r) (Z.to_nat (j - bound r))) as [x Hx]; [lia|].
    rewrite Hx. f_equal. symmetry. by apply nth_lookup_Some with (d := 0) in Hx.
Qed.

Lemma cache_write_ok i c r : cache i = Some c → (r < chunks)%nat →
  cache_write i (bound r) (chunk r) = Done (i <| cache := Some (store_at c (bound r) (chunk r)) |>).
Proof.
  intros Hi Hr. unfold cache_write. rewrite Hi, chunk_length by done. pose proof (bound_range Hn r). pose proof (bound_range Hn (S r)).
  by rewrite !(proj2 (Z.leb_le _ _)) by lia.
Qed.

Lemma cache_read_ok i c r w : cache i = Some c → cached c r → (w < r ≤ chunks)%nat →
  cache_read i (bound w) (bound (S w) - bound w) = Done (chunk w).
Proof.
  intros Hi Hc Hw. unfold cache_read. rewrite Hi. pose proof (bound_range Hn w). pose proof (bound_range Hn (S w)).
  pose proof (bound_step Hn w ltac:(lia)). rewrite !(proj2 (Z.leb_le _ _)) by lia. cbn [andb]. f_equal.
  apply list_eq. intros k. rewrite (cached_lookup c r w k Hc Hw), list_lookup_fmap. case_decide as Hk.
  - rewrite lookup_seqZ_lt by lia. done.
  - by rewrite lookup_seqZ_ge by lia.
Qed.
End chunks.
Arguments chunk : clear implicits.
Arguments cached : clear implicits.

Lemma info_at_small v fd : 0 ≤ fd < 2 ^ 16 → info_at v fd = Done (default zero_info (sv_open v !! fd)).
Proof.
  intros H. unfold info_at, MAX_FILE_OPEN. by rewrite (proj2 (Z.leb_le _ _)), (proj2 (Z.ltb_lt _ _)) by lia.
Qed.

(** ** Sending a buffer in chunks *)
Section sender.
Context {n : Z} {buf : list Z} (Hn : 0 < n ≤ BUF_SIZE) (Hbuf : n = Z.of_nat (length buf)).
Context {R : Type} (host tag : Z) (k : io R).
Local Notation K := (chunks n).

(** The client when [s] chunks have been sent. *)
Definition sender_at (s : nat) : io R :=
  if decide (s < K)%nat then send_chunks (CHUNK_FUEL - s) buf n host tag (bound n s) IBVIO_CHUNK_SIZE k else k.

Lemma sender_end : sender_at K = k.
Proof. unfold sender_at. rewrite decide_False by lia. done. Qed.

Lemma send_chunks_end fuel cs : (0 < fuel)%nat → send_chunks fuel buf n host tag (bound n K) cs k = k.
Proof using Hn.
  intros Hf. destruct fuel as [|fuel]; [lia|]. cbn [send_chunks]. rewrite (bound_last Hn).
  rewrite u64_id by (unfold BUF_SIZE in *; lia). by rewrite Z.ltb_irrefl.
Qed.

Lemma sender_step s : (s < K)%nat → sender_at s = SendWait host tag (PData (chunk n buf s)) (sender_at (S s)).
Proof using Hn Hbuf.
  intros Hs. pose proof (chunks_pos Hn) as Hk. pose proof (bound_lt Hn s Hs) as [Hb Hlt].
  pose proof (bound_range Hn s). pose proof (bound_range Hn (S s)).
  unfold sender_at at 1. rewrite decide_True by done. unfold CHUNK_FUEL.
  replace (34 - s)%nat with (S (34 - S s)) by lia. cbn [send_chunks].
  rewrite u64_id by (unfold BUF_SIZE in *; lia). rewrite (proj2 (Z.ltb_lt _ _)) by lia.
  rewrite (next_chunk_ok Hn) by done. cbn [lift]. rewrite (slice_ok Hn Hbuf) by done. cbn [lift].
  rewrite c_int_bounds by (unfold BUF_SIZE, INT_MAX in *; lia). cbn [lift]. rewrite Zplus_minus.
  f_equal. unfold sender_at. destruct (decide _) as [Hs'|Hs'].
  - by rewrite (bound_step_full Hn) by done.
  - replace (S s) with K by lia. rewrite send_chunks_end; [done|]. lia.
Qed.

Lemma sender_start : send_chunks CHUNK_FUEL buf n host tag 0 IBVIO_CHUNK_SIZE k = sender_at 0.
Proof using Hn.
  unfold sender_at. pose proof (chunks_pos Hn). by rewrite decide_True, (bound_0 Hn), Nat.sub_0_r by lia.
Qed.

(** What the client does between two chunks and at the end. *)
Lemma sender_cases s : (s ≤ K)%nat →
  (s < K)%nat ∧ sender_at s = SendWait host tag (PData (chunk n buf s)) (sender_at (S s)) ∨ s = K ∧ sender_at s = k.
Proof using Hn Hbuf.
  intros Hs. destruct (decide (s < K)%nat); [left; split; [done|by apply sender_step]|right].
  assert (s = K) as -> by lia. split; [done|apply sender_end].
Qed.
End sender.
Arguments sender_at : clear implicits.
Arguments sender_at n buf {R} host tag k s.

(** ** A write session *)
(** A server that has nothing to do, with the file [fd] open. *)
Record idle (fd : Z) (v : server) : Prop := {
  id_main : sv_main v = Probing;
  id_threads : sv_threads v = [];
  id_in : sv_in v = [];
  id_out : sv_out v = [];
  id_info : ∃ i c, sv_open v !! fd = Some i ∧ so_fd i = fd ∧ fastmutex i = Unlocked ∧ cache i = Some c;
}.

Section session.
Context {HOS : OS} (Hos : os_works) (l : locals) (host me fd : Z).
Context (n : Z) (buf : list Z) (Hn : 0 < n ≤ BUF_SIZE) (Hbuf : n = Z.of_nat (length buf)) (Hfd : 0 ≤ fd < 2 ^ 15).
Context (garbage : ibvio_open) (v0 : server).
Local Notation K := (chunks n).
Local Notation size w := (bound n (S w) - bound n w).

Definition tag_of (op : Z) : Z := Z.lor (Z.shiftl fd 16) op.
Definition begin_msg : smsg := SMsg me (tag_of IBVIO_OP_WRITE_BEGIN) (POpen (garbage <| io_count := i32 n |>)).
Definition chunk_msgs (r k : nat) : list smsg :=
  map (λ i, SMsg me (tag_of IBVIO_OP_WRITE_CHUNK) (PData (chunk n buf i))) (seq r k).

Context (Hidle : idle fd v0).

(** *** The client *)

(** The client when [s] chunks have been sent. *)
Definition client_at (s : nat) : io Z := sender_at n buf host (tag_of IBVIO_OP_WRITE_CHUNK) (finish host) s.

Lemma client_end : client_at K = finish host.
Proof. apply sender_end. Qed.
Lemma client_step s : (s < K)%nat →
  client_at s = SendWait host (tag_of IBVIO_OP_WRITE_CHUNK) (PData (chunk n buf s)) (client_at (S s)).
Proof. by apply sender_step. Qed.

Lemma client_start c : aget (host_ids c) fd = Done host →
  ibtl_write c garbage fd buf n =
    SendWait host (tag_of IBVIO_OP_WRITE_BEGIN) (POpen (garbage <| io_count := i32 n |>)) (client_at 0).
Proof.
  intros Hh. unfold ibtl_write. rewrite Hh. cbn [lift].
  rewrite !serialize_ok by (unfold IBVIO_OP_WRITE_BEGIN, IBVIO_OP_WRITE_CHUNK; lia). cbn [lift].
  by rewrite sender_start.
Qed.

Lemma deserialize_tag op : 0 ≤ op < 2 ^ 16 → ibvio_deserialize_tag (tag_of op) = (op, fd).
Proof. intros Ho. by apply deserialize_ok. Qed.

(** *** The server *)

(** One thread for each chunk that has not been written, of which [lk] is in its
    critical section. *)
Definition threads_at (r w : nat) (lk : option nat) (ts : list thread_state) : Prop :=
  match lk with
  | None => ts = replicate (r - w) (TChunk fd)
  | Some k => (k < r - w)%nat ∧ ts = <[k := TWriting fd (size w)]> (replicate (r - w) (TChunk fd))
  end.

(** [s] chunks have been sent, [r] received and [w] written; [lk] is the thread
    that holds the mutex. *)
Record serving (s r w : nat) (lk : option nat) (v : server) : Prop := {
  se_bounds : (w ≤ r ≤ s)%nat ∧ (s ≤ K)%nat;
  se_main : sv_main v = if decide (r = K) then Spinning fd (Status me (tag_of IBVIO_OP_WRITE_CHUNK)) else Probing;
  se_in : sv_in v = chunk_msgs r (s - r);
  se_out : sv_out v = [];
  se_info : ∃ i c, sv_open v !! fd = Some i ∧ so_fd i = fd ∧ write_count i = n ∧ current_recv_size i = bound n r ∧
    current_write_count i = bound n w ∧ fastmutex i = (if lk then Locked else Unlocked) ∧ cache i = Some c ∧
    cached n buf c r;
  se_threads : threads_at r w lk (sv_threads v);
  se_file : file_bytes fd [] (sv_calls v) =
    file_bytes fd [] (sv_calls v0) ++ take (Z.to_nat (bound n w)) buf;
}.

(** The reply has been sent. *)
Record replied (v : server) : Prop := {
  re_main : sv_main v = Probing;
  re_in : sv_in v = [];
  re_threads : sv_threads v = [];
  re_out : sv_out v = [SMsg me (tag_of IBVIO_OP_WRITE_CHUNK) (POpen (l_iopen l))];
  re_info : ∃ i c, sv_open v !! fd = Some i ∧ so_fd i = fd ∧ fastmutex i = Unlocked ∧ cache i = Some c;
  re_file : file_bytes fd [] (sv_calls v) = file_bytes fd [] (sv_calls v0) ++ buf;
}.

Lemma info_at_ok v i : sv_open v !! fd = Some i → info_at v fd = Done i.
Proof using Hfd.
  clear - Hfd. intros Hi. by rewrite info_at_small, Hi by lia.
Qed.

(** Calls that write nothing to the file. *)
Lemma file_bytes_other log c : (∀ f bs, c ≠ OWrite f bs) → file_bytes fd [] (log ++ [c]) = file_bytes fd [] log.
Proof. intros Hc. rewrite file_bytes_app. destruct c; try (by rewrite !app_nil_r). by edestruct Hc. Qed.

Lemma receive_head v tag p ms : sv_in v = SMsg me tag p :: ms →
  receive v (Status me tag) = Some (p, v <| sv_in := ms |>).
Proof. intros Hv. unfold receive. rewrite Hv. cbn. by rewrite !Z.eqb_refl. Qed.

Lemma main_probe v op p ms : sv_main v = Probing → sv_in v = SMsg me (tag_of op) p :: ms → 0 ≤ op < 2 ^ 16 →
  main_step v l = dispatch v l op fd (Status me (tag_of op)).
Proof. intros Hm Hv Hop. unfold main_step. rewrite Hm, Hv. cbn [sm_tag sm_rank]. by rewrite deserialize_tag. Qed.

Lemma main_begin s v : (s ≤ K)%nat → v = v0 <| sv_in := begin_msg :: chunk_msgs 0 s |> →
  ∃ v', main_step v l = Done (Some v') ∧ serving s 0 0 None v'.
Proof.
  intros Hs Hv. destruct Hidle as [Hm Ht _ Ho (i & c & Hi & Hf & Hmx & Hc)].
  assert (Hin : sv_in v = begin_msg :: chunk_msgs 0 s) by (by rewrite Hv).
  rewrite (main_probe v IBVIO_OP_WRITE_BEGIN _ _ ltac:(by rewrite Hv) Hin) by (unfold IBVIO_OP_WRITE_BEGIN; lia).
  change (dispatch v l IBVIO_OP_WRITE_BEGIN fd) with (ibvio_swrite_begin v fd). unfold ibvio_swrite_begin, receive_open.
  rewrite (receive_head _ _ _ _ Hin), (info_at_ok _ i) by (by rewrite Hv). cbn [obind].
  eexists. split; [reflexivity|]. pose proof (chunks_pos Hn). rewrite Hv.
  split; cbn.
  - lia.
  - by rewrite decide_False by lia.
  - by rewrite Nat.sub_0_r.
  - done.
  - eexists _, c. rewrite lookup_insert_eq. split_and!; try done; cbn.
    + rewrite i32_id by (unfold is_int, INT_MIN, INT_MAX, BUF_SIZE in *; lia).
      apply u64_id. unfold BUF_SIZE in *. lia.
    + by rewrite (bound_0 Hn).
    + by rewrite (bound_0 Hn).
    + intros j. rewrite (bound_0 Hn). lia.
  - done.
  - rewrite (bound_0 Hn). cbn. by rewrite app_nil_r.
Qed.

Lemma threads_snoc r w lk ts : (w ≤ r)%nat → threads_at r w lk ts → threads_at (S r) w lk (ts ++ [TChunk fd]).
Proof.
  intros Hr. unfold threads_at. rewrite Nat.sub_succ_l, replicate_S_end by done. destruct lk as [k|].
  - intros [Hk ->]. split; [lia|]. by rewrite insert_app_l by (by rewrite length_replicate).
  - by intros ->.
Qed.

Lemma main_chunk s r w lk v : serving s r w lk v → (r < s)%nat →
  ∃ v', main_step v l = Done (Some v') ∧ serving s (S r) w lk v'.
Proof.
  intros [Hb Hm Hin Ho (i & c & Hi & Hf & Hwc & Hrs & Hcw & Hmx & Hc & Hca) Ht Hfile] Hrs'.
  rewrite decide_False in Hm by lia.
  assert (Hin' : sv_in v = SMsg me (tag_of IBVIO_OP_WRITE_CHUNK) (PData (chunk n buf r)) :: chunk_msgs (S r) (s - S r)).
  { rewrite Hin. replace (s - r)%nat with (S (s - S r)) by lia. done. }
  rewrite (main_probe v IBVIO_OP_WRITE_CHUNK _ _ Hm Hin') by (unfold IBVIO_OP_WRITE_CHUNK; lia).
  change (dispatch v l IBVIO_OP_WRITE_CHUNK fd) with (ibvio_swrite_chunk v fd). unfold ibvio_swrite_chunk.
  rewrite (info_at_ok _ i Hi). cbn [obind]. rewrite (receive_head _ _ _ _ Hin'), Hrs, Hwc.
  rewrite (cache_write_ok Hn Hbuf i c) by (done || lia). cbn [obind]. cbn [current_recv_size set_field].
  rewrite Hrs, (chunk_of_ok Hn) by lia. rewrite Zplus_minus. pose proof (bound_range Hn (S r)).
  rewrite (u64_id (bound n (S r))) by (unfold BUF_SIZE in *; lia).
  unfold ibvio_run_thread, os. rewrite (ow_create Hos). cbn [Z.eqb negb]. rewrite (ow_detach Hos). cbn [Z.eqb negb obind].
  cbn [write_count set_field]. rewrite Hwc, (bound_eq_last Hn) by lia.
  match goal with |- ∃ v', Done (Some (if _ then set_field _ _ ?x else _)) = _ ∧ _ => set (v1 := x) end.
  assert (Hv1 : file_bytes fd [] (sv_calls v1) = file_bytes fd [] (sv_calls v)).
  { change (sv_calls v1) with ((sv_calls v ++ [OThreadCreate]) ++ [OThreadDetach]). by rewrite !file_bytes_other. }
  assert (Ht1 : sv_threads v1 = sv_threads v ++ [TChunk fd]) by done.
  eexists. split; [reflexivity|]. rewrite bool_decide_decide. destruct (decide (S r = K)) as [E|E].
  all: split; [lia| | |done| | |exact (eq_trans Hv1 Hfile)]; try done.
  all: cbn [sv_main set_field]; try (by rewrite ?decide_True, ?decide_False by done).
  1,3: eexists _, (store_at c (bound n r) (chunk n buf r)); split; [apply lookup_insert_eq|]; split_and!; try done;
    apply (cached_store Hn Hbuf); [done|lia].
  all: change (threads_at (S r) w lk (sv_threads v ++ [TChunk fd])); apply threads_snoc; [lia|done].
Qed.

Lemma main_idle s w lk v : serving s s w lk v → (s < K)%nat → main_step v l = Done None.
Proof.
  intros [_ Hm Hin _ _ _ _] Hs. rewrite decide_False in Hm by lia. unfold main_step.
  by rewrite Hm, Hin, Nat.sub_diag.
Qed.

Lemma main_spin s w lk v : serving s K w lk v →
  if decide (w = K) then lk = None ∧ ∃ v', main_step v l = Done (Some v') ∧ replied v' else main_step v l = Done None.
Proof.
  intros [Hb Hm Hin Ho (i & c & Hi & Hf & Hwc & Hrs & Hcw & Hmx & Hc & Hca) Ht Hfile].
  rewrite decide_True in Hm by done. unfold main_step. rewrite Hm. unfold swrite_chunk_end.
  rewrite (info_at_ok _ i Hi). cbn [obind]. rewrite Hcw, Hwc, (bound_eq_last Hn) by lia.
  rewrite bool_decide_decide. destruct (decide (w = K)) as [->|Hne]; [|done].
  destruct lk as [k|]; [destruct Ht; lia|]. cbn [threads_at] in Ht. rewrite Nat.sub_diag in Ht. split; [done|].
  eexists. split; [reflexivity|]. split; try done.
  - cbn. rewrite Hin. by replace (s - K)%nat with 0%nat by lia.
  - cbn. by rewrite Ho.
  - exists i, c. by split_and!.
  - cbn. rewrite file_bytes_other, Hfile, (bound_last Hn) by done. f_equal. apply take_ge. lia.
Qed.

Lemma file_bytes_write log bs : file_bytes fd [] (log ++ [OWrite fd bs]) = file_bytes fd [] log ++ bs.
Proof using Hos.
  clear - Hos. rewrite file_bytes_app. cbn. rewrite Z.eqb_refl, (ow_write Hos), Nat2Z.id, app_nil_r. by rewrite take_ge by lia.
Qed.

(** The write of a chunk, which ends the critical section. *)
Lemma thread_write s r w k v : serving s r w (Some k) v →
  ∃ v', run_thread v k = Done (Some v') ∧ serving s r (S w) None v'.
Proof.
  intros [Hb Hm Hin Ho (i & c & Hi & Hf & Hwc & Hrs & Hcw & Hmx & Hc & Hca) [Hk Ht] Hfile]. unfold run_thread.
  rewrite Ht, list_lookup_insert_eq by (by rewrite length_replicate). cbn [thread_step ibvio_swrite_chunk_thread ibvio_sread].
  rewrite (info_at_ok _ i Hi). cbn [obind]. unfold write_cache.
  rewrite Hcw, (cache_read_ok Hn i c r w) by (done || lia). cbn [obind]. unfold os at 1.
  rewrite (ow_write Hos), (proj2 (Z.ltb_ge _ _)) by lia. cbn [obind]. pose proof (bound_range Hn (S w)).
  rewrite Zplus_minus, Hf, i32_id, u64_id by (unfold is_int, INT_MIN, INT_MAX, BUF_SIZE in *; lia).
  eexists. split; [reflexivity|]. split; try done.
  - lia.
  - eexists _, c. split; [apply lookup_insert_eq|]. by split_and!.
  - change (delete k (sv_threads v) = replicate (r - S w) (TChunk fd)).
    rewrite Ht, delete_insert_replicate by done. f_equal. lia.
  - change (file_bytes fd [] ((sv_calls v ++ [OWrite fd (chunk n buf w)]) ++ [OFsync fd]) =
      file_bytes fd [] (sv_calls v0) ++ take (Z.to_nat (bound n (S w))) buf).
    rewrite file_bytes_other, file_bytes_write, Hfile by done.
    by rewrite (take_chunk Hn), (assoc_L (++)) by lia.
Qed.

(** A thread that finds the mutex free takes it; it waits if not. *)
Lemma thread_lock s r w k v : serving s r w None v →
  if decide (k < r - w)%nat then ∃ v', run_thread v k = Done (Some v') ∧ serving s r w (Some k) v'
  else run_thread v k = Done None.
Proof.
  intros [Hb Hm Hin Ho (i & c & Hi & Hf & Hwc & Hrs & Hcw & Hmx & Hc & Hca) Ht Hfile]. unfold run_thread.
  cbn [threads_at] in Ht. rewrite Ht. destruct (decide (k < r - w)%nat) as [Hk|Hk].
  - rewrite lookup_replicate_2 by done. cbn [thread_step ibvio_swrite_chunk_thread ibvio_sread]. rewrite (info_at_ok _ i Hi). cbn [obind].
    unfold lock_info. rewrite Hmx. cbn [obind]. cbn [current_write_count write_count set_field].
    rewrite Hcw, Hwc, (chunk_of_ok Hn) by lia. eexists. split; [reflexivity|]. split; try done.
    + eexists _, c. split; [apply lookup_insert_eq|]. by split_and!.
    + split; [done|]. cbn. by rewrite Ht.
  - by rewrite (proj1 (lookup_replicate_None _ _ _)) by lia.
Qed.

Lemma thread_waits s r w k k' v : serving s r w (Some k) v → k' ≠ k → run_thread v k' = Done None.
Proof.
  intros [Hb Hm Hin Ho (i & c & Hi & Hf & Hwc & Hrs & Hcw & Hmx & Hc & Hca) [Hk Ht] Hfile] Hne. unfold run_thread.
  rewrite Ht, list_lookup_insert_ne by done. destruct (replicate _ _ !! k') as [t|] eqn:E; [|done].
  apply lookup_replicate in E as [-> _]. cbn [thread_step ibvio_swrite_chunk_thread ibvio_sread]. rewrite (info_at_ok _ i Hi). cbn [obind].
  unfold lock_info. by rewrite Hmx.
Qed.

(** A step of any thread takes the mutex or writes a chunk. *)
Lemma thread_ok s r w lk v k : serving s r w lk v →
  run_thread v k = Done None ∨ ∃ v', run_thread v k = Done (Some v') ∧
    (lk = None ∧ serving s r w (Some k) v' ∨ lk = Some k ∧ serving s r (S w) None v').
Proof.
  intros Hs. destruct lk as [k0|].
  - destruct (decide (k = k0)) as [->|Hne]; [|left; by eapply thread_waits].
    destruct (thread_write _ _ _ _ _ Hs) as (v' & E & Hs'). right. exists v'. split; [done|]. by right.
  - pose proof (thread_lock _ _ _ k _ Hs) as H. destruct (decide _); [|by left].
    destruct H as (v' & E & Hs'). right. exists v'. split; [done|]. by left.
Qed.

(** *** The whole session *)

(** The client has the reply. *)
Definition ended (v : server) : Prop :=
  idle fd v ∧ file_bytes fd [] (sv_calls v) = file_bytes fd [] (sv_calls v0) ++ buf.

(** Where the session is after so many steps. *)
Inductive session : nat → system Z → Prop :=
| se_start : session 0 (Sys (SendWait host (tag_of IBVIO_OP_WRITE_BEGIN) (POpen (garbage <| io_count := i32 n |>)) (client_at 0)) v0)
| se_header s v :
    (s ≤ K)%nat → v = v0 <| sv_in := begin_msg :: chunk_msgs 0 s |> → session (1 + s) (Sys (client_at s) v)
| se_serving s r w lk v :
    serving s r w lk v → session (2 + s + r + 2 * w + (if lk then 1 else 0)) (Sys (client_at s) v)
| se_replied v : replied v → session (4 * K + 3) (Sys (finish host) v)
| se_ended v : ended v → session (4 * K + 4) (Sys (Ret (io_stat (l_iopen l))) v).

Lemma quiet_main v : sv_main v = Probing → sv_in v = [] → main_step v l = Done None.
Proof. intros Hm Hi. unfold main_step. by rewrite Hm, Hi. Qed.
Lemma quiet_thread v k : sv_threads v = [] → run_thread v k = Done None.
Proof. intros Ht. unfold run_thread. by rewrite Ht. Qed.

Lemma client_at_cases s : (s ≤ K)%nat →
  (s < K)%nat ∧ client_at s = SendWait host (tag_of IBVIO_OP_WRITE_CHUNK) (PData (chunk n buf s)) (client_at (S s)) ∨
  s = K ∧ client_at s = finish host.
Proof. by apply sender_cases. Qed.

Lemma chunk_msgs_snoc r k : chunk_msgs r k ++ [SMsg me (tag_of IBVIO_OP_WRITE_CHUNK) (PData (chunk n buf (r + k)))] = chunk_msgs r (S k).
Proof. unfold chunk_msgs. rewrite seq_S, map_app. done. Qed.

Lemma serving_send s r w lk v : serving s r w lk v → (s < K)%nat →
  serving (S s) r w lk (v <| sv_in := sv_in v ++ [SMsg me (tag_of IBVIO_OP_WRITE_CHUNK) (PData (chunk n buf s))] |>).
Proof.
  intros [Hb Hm Hin Ho Hi Ht Hfile] Hs. split; try done; [lia|]. cbn. rewrite Hin.
  replace (S s - r)%nat with (S (s - r)) by lia. rewrite <- chunk_msgs_snoc. do 4 f_equal. f_equal. lia.
Qed.

Lemma session_client m sy sy' tag p k v :
  session m sy → sy = Sys (SendWait host tag p k) v → sy' = Sys k (v <| sv_in := sv_in v ++ [SMsg me tag p] |>) →
  session (S m) sy'.
Proof.
  intros Hse Hsy ->. destruct Hse as [|s v1 Hs Hv|s r w lk v1 Hs|v1 Hr|v1 He]; injection Hsy; intros; subst; try done.
  - apply (se_header 0); [lia|]. by rewrite (id_in _ _ Hidle).
  - destruct (client_at_cases s Hs) as [[Hlt E]|[-> E]]; rewrite E in *; [|done].
    match goal with H : SendWait _ _ _ _ = _ |- _ => injection H as <- <- <- end.
    apply (se_header (S s)); [done|]. by rewrite <- (chunk_msgs_snoc 0 s).
  - pose proof (se_bounds _ _ _ _ _ Hs) as Hb.
    destruct (client_at_cases s ltac:(lia)) as [[Hlt E]|[-> E]]; rewrite E in *; [|done].
    match goal with H : SendWait _ _ _ _ = _ |- _ => injection H as <- <- <- end.
    replace (S (2 + s + r + 2 * w + (if lk then 1 else 0)))%nat with (2 + S s + r + 2 * w + (if lk then 1 else 0))%nat by lia.
    apply se_serving. by apply serving_send.
Qed.

Lemma session_reply m tag k v p rest :
  session m (Sys (RecvWait host tag k) v) → take_reply me tag (sv_out v) = Some (p, rest) →
  session (S m) (Sys (k p) (v <| sv_out := rest |>)).
Proof.
  remember (Sys (RecvWait host tag k) v) as sy eqn:Hsy. intros Hse Ht.
  destruct Hse as [|s v1 Hs Hv|s r w lk v1 Hs|v1 Hr|v1 He]; injection Hsy; intros; subst; try done.
  - cbn [sv_out set_field] in Ht. by rewrite (id_out _ _ Hidle) in Ht.
  - by rewrite (se_out _ _ _ _ _ Hs) in Ht.
  - destruct Hr as [Hm Hi Hth Ho Hinfo Hf]. rewrite Ho in Ht. cbn in Ht. rewrite Z.eqb_refl in Ht. injection Ht as <- <-.
    replace (S (4 * K + 3)) with (4 * K + 4)%nat by lia. apply se_ended. by split.
Qed.

Lemma session_main m c v v' :
  session m (Sys c v) → main_step v l = Done (Some v') → session (S m) (Sys c v').
Proof.
  remember (Sys c v) as sy eqn:Hsy. intros Hse Hv.
  destruct Hse as [|s v1 Hs Hv1|s r w lk v1 Hs|v1 Hr|v1 He]; injection Hsy; intros; subst.
  - by rewrite quiet_main in Hv by apply Hidle.
  - destruct (main_begin s _ Hs eq_refl) as (v2 & E & H). rewrite E in Hv. injection Hv as <-.
    replace (S (1 + s)) with (2 + s + 0 + 2 * 0 + 0)%nat by lia. exact (se_serving s 0 0 None v2 H).
  - pose proof (se_bounds _ _ _ _ _ Hs) as Hb. destruct (decide (r < s)%nat) as [Hrs|Hrs].
    { destruct (main_chunk _ _ _ _ _ Hs Hrs) as (v2 & E & H). rewrite E in Hv. injection Hv as <-.
      replace (S _) with (2 + s + S r + 2 * w + (if lk then 1 else 0))%nat by lia. by apply se_serving. }
    assert (r = s) as -> by lia. destruct (decide (s < K)%nat) as [Hsk|Hsk].
    { by rewrite (main_idle _ _ _ _ Hs Hsk) in Hv. }
    assert (s = K) as -> by lia. pose proof (main_spin _ _ _ _ Hs) as H. destruct (decide (w = K)) as [->|]; [|congruence].
    destruct H as (-> & v2 & E & H). rewrite E in Hv. injection Hv as <-. rewrite client_end.
    replace (S _) with (4 * K + 3)%nat by lia. by apply se_replied.
  - by rewrite quiet_main in Hv by apply Hr.
  - by rewrite quiet_main in Hv by apply He.
Qed.

Lemma session_thread m c v k v' :
  session m (Sys c v) → run_thread v k = Done (Some v') → session (S m) (Sys c v').
Proof.
  remember (Sys c v) as sy eqn:Hsy. intros Hse Hv.
  destruct Hse as [|s v1 Hs Hv1|s r w lk v1 Hs|v1 Hr|v1 He]; injection Hsy; intros; subst.
  - by rewrite quiet_thread in Hv by apply Hidle.
  - by rewrite quiet_thread in Hv by apply Hidle.
  - destruct (thread_ok _ _ _ _ _ k Hs) as [E|(v2 & E & [[-> H]|[-> H]])]; rewrite E in Hv; [done|..]; injection Hv as <-.
    + replace (S _) with (2 + s + r + 2 * w + 1)%nat by lia. exact (se_serving _ _ _ (Some k) _ H).
    + replace (S _) with (2 + s + r + 2 * S w + 0)%nat by lia. exact (se_serving _ _ _ None _ H).
  - by rewrite quiet_thread in Hv by apply Hr.
  - by rewrite quiet_thread in Hv by apply He.
Qed.

(** The client of a session only transfers. *)
Lemma session_transfers m sy : session m sy → match sy_client sy with InitVerbs _ | Connect _ _ _ => False | _ => True end.
Proof.
  intros Hse. destruct Hse as [|s v1 Hs Hv|s r w lk v1 Hs|v1 Hr|v1 He]; try done; cbn.
  - by destruct (client_at_cases s Hs) as [[_ ->]|[_ ->]].
  - pose proof (se_bounds _ _ _ _ _ Hs). by destruct (client_at_cases s ltac:(lia)) as [[_ ->]|[_ ->]].
Qed.

Lemma session_step m sy sy' : session m sy → sys_step l host me sy sy' → session (S m) sy'.
Proof.
  intros Hse Hst. pose proof (session_transfers _ _ Hse) as Htr. destruct Hst; [done|done|..].
  - by eapply session_client.
  - by eapply session_reply.
  - by eapply session_main.
  - by eapply session_thread.
Qed.

Lemma session_steps m sy : nsteps (sys_step l host me) m (Sys (SendWait host (tag_of IBVIO_OP_WRITE_BEGIN)
    (POpen (garbage <| io_count := i32 n |>)) (client_at 0)) v0) sy → session m sy.
Proof.
  revert sy. induction m as [|m IH]; intros sy H.
  - inversion H; subst. constructor.
  - apply nsteps_inv_r in H as (sy1 & H1 & H2). eapply session_step; [by apply IH|done].
Qed.

(** No part goes wrong. *)
Lemma session_sound m sy : session m sy → ¬ sys_fault l sy.
Proof.
  assert (Hq : ∀ v, sv_main v = Probing → sv_in v = [] → sv_threads v = [] →
    ¬ ((∀ r, main_step v l ≠ Done r) ∨ ∃ k, ∀ r, run_thread v k ≠ Done r)).
  { intros v H1 H2 H3 [H|[k H]]; [by apply (H None), quiet_main|by apply (H None), quiet_thread]. }
  intros Hse [Hc|[Hc|Hf]].
  1, 2: destruct Hse as [|s v Hs Hv|s r w lk v Hs|v Hr|v He]; try done.
  1, 3: destruct (client_at_cases s Hs) as [[_ E]|[_ E]]; cbn in Hc; by rewrite E in Hc.
  1, 2: pose proof (se_bounds _ _ _ _ _ Hs); destruct (client_at_cases s ltac:(lia)) as [[_ E]|[_ E]]; cbn in Hc; by rewrite E in Hc.
  destruct Hse as [|s v Hs Hv|s r w lk v Hs|v Hr|v He]; cbn [sy_server] in Hf.
  - revert Hf. apply Hq; apply Hidle.
  - destruct Hf as [H|[k H]].
    + destruct (main_begin s v Hs Hv) as (v2 & E & _). by apply (H (Some v2)).
    + apply (H None), quiet_thread. rewrite Hv. apply Hidle.
  - pose proof (se_bounds _ _ _ _ _ Hs) as Hb. destruct Hf as [H|[k H]].
    + destruct (decide (r < s)%nat) as [Hrs|Hrs].
      { destruct (main_chunk _ _ _ _ _ Hs Hrs) as (v2 & E & _). by apply (H (Some v2)). }
      assert (r = s) as -> by lia. destruct (decide (s < K)%nat) as [Hsk|Hsk].
      { by apply (H None), (main_idle _ _ _ _ Hs). }
      assert (s = K) as -> by lia. pose proof (main_spin _ _ _ _ Hs) as H'. destruct (decide (w = K)).
      { destruct H' as (_ & v2 & E & _). by apply (H (Some v2)). } by apply (H None).
    + destruct (thread_ok _ _ _ _ _ k Hs) as [E|(v2 & E & _)]; [by apply (H None)|by apply (H (Some v2))].
  - revert Hf. apply Hq; apply Hr.
  - revert Hf. apply Hq; apply He.
Qed.

(** Until the client has returned something can happen. *)
Lemma session_progress m sy : session m sy → (m < 4 * K + 4)%nat → ∃ sy', sys_step l host me sy sy'.
Proof.
  intros Hse Hm. destruct Hse as [|s v Hs Hv|s r w lk v Hs|v Hr|v He]; [..|lia].
  - eexists. apply step_send.
  - destruct (main_begin s v Hs Hv) as (v2 & E & _). eexists. by apply step_main.
  - pose proof (se_bounds _ _ _ _ _ Hs) as Hb.
    destruct (client_at_cases s ltac:(lia)) as [[_ E]|[-> E]]; [rewrite E; eexists; apply step_send|].
    destruct (decide (r < K)%nat) as [Hrs|Hrs].
    { destruct (main_chunk _ _ _ _ _ Hs Hrs) as (v2 & E' & _). eexists. by apply step_main. }
    assert (r = K) as -> by lia. destruct (decide (w = K)) as [->|Hw].
    { pose proof (main_spin _ _ _ _ Hs) as H. rewrite decide_True in H by done. destruct H as (_ & v2 & E' & _).
      eexists. by apply step_main. }
    destruct lk as [k|].
    { destruct (thread_write _ _ _ _ _ Hs) as (v2 & E' & _). eexists. by apply (step_thread _ _ _ _ _ k). }
    pose proof (thread_lock _ _ _ 0 _ Hs) as H. rewrite decide_True in H by lia. destruct H as (v2 & E' & _).
    eexists. by apply (step_thread _ _ _ _ _ 0).
  - unfold finish, recv_open. eexists. apply (step_recv _ _ _ FMI_ANY_TAG _ _ (POpen (l_iopen l)) []). destruct Hr as [_ _ _ -> _ _]. cbn.
    by rewrite Z.eqb_refl.
Qed.

Lemma session_end m sy r : session m sy → sy_client sy = Ret r →
  m = (4 * K + 4)%nat ∧ r = io_stat (l_iopen l) ∧ ended (sy_server sy).
Proof.
  intros Hse Hc. destruct Hse as [|s v Hs Hv|s r' w lk v Hs|v Hr|v He]; try done; cbn in Hc.
  - destruct (client_at_cases s Hs) as [[_ E]|[_ E]]; by rewrite E in Hc.
  - pose proof (se_bounds _ _ _ _ _ Hs). destruct (client_at_cases s ltac:(lia)) as [[_ E]|[_ E]]; by rewrite E in Hc.
  - injection Hc as <-. by split_and!.
Qed.

Lemma session_length m sy : session m sy → (m < 4 * K + 4)%nat ∨ m = (4 * K + 4)%nat ∧ ∃ r, sy_client sy = Ret r.
Proof.
  intros Hse. destruct Hse as [|s v Hs Hv|s r w lk v Hs|v Hr|v He]; [left; lia..| |left; lia|right; by eauto].
  pose proof (se_bounds _ _ _ _ _ Hs) as Hb. pose proof (se_threads _ _ _ _ _ Hs) as Ht.
  left. destruct lk; [destruct Ht|]; lia.
Qed.
End session.

(** C7: a write over the network.  For every interleaving of the client, the
    main loop of the server and its threads: nothing goes wrong; the session
    goes on until the client returns, which is after four steps for each chunk
    and four more; and when it has returned the bytes of the buffer have been
    appended to the file, in order and once, and the server is idle.  What the client returns is a
    field of a structure of the server that nobody has stored to. *)
Theorem write_session_correct `{OS} l host me fd (buf : list Z) garbage v0 c m sy :
  os_works → 0 < Z.of_nat (length buf) ≤ BUF_SIZE → 0 ≤ fd < 2 ^ 15 → idle fd v0 → aget (host_ids c) fd = Done host →
  nsteps (sys_step l host me) m (Sys (ibtl_write c garbage fd buf (Z.of_nat (length buf))) v0) sy →
  let steps := (4 * chunks (Z.of_nat (length buf)) + 4)%nat in
  ¬ sys_fault l sy ∧ (m ≤ steps)%nat ∧
  ((∃ sy', sys_step l host me sy sy') ∨ m = steps ∧ ∃ r, sy_client sy = Ret r) ∧
  ∀ r, sy_client sy = Ret r → r = io_stat (l_iopen l) ∧ idle fd (sy_server sy) ∧
    file_bytes fd [] (sv_calls (sy_server sy)) = file_bytes fd [] (sv_calls v0) ++ buf.
Proof.
  intros Hos Hn Hfd Hidle Hh Hst steps. erewrite client_start in Hst by done.
  eapply session_steps in Hst as Hse; [|done..]. split_and!.
  - by eapply session_sound.
  - apply session_length in Hse. subst steps. lia.
  - destruct (session_length _ _ _ _ _ _ _ _ _ _ Hse) as [Hm|Hm]; [left|by right].
    by eapply session_progress.
  - intros r Hr. eapply session_end in Hr as (_ & -> & Hid & Hf); done.
Qed.

(** ** Running the system by a schedule *)

Inductive choice := ByClient | ByMain | ByThread (k : nat).

Definition sys_do `{OS} {R} (l : locals) (host me : Z) (by_whom : choice) (s : system R) : option (system R) :=
  let v := sy_server s in
  match by_whom with
  | ByClient =>
      match sy_client s with
      | InitVerbs k => Some (Sys k v)
      | Connect h _ k => if h =? host then Some (Sys k v) else None
      | SendWait h tag p k => if h =? host then Some (Sys k (v <| sv_in := sv_in v ++ [SMsg me tag p] |>)) else None
      | RecvWait h tag k =>
          if h =? host then
            match take_reply me tag (sv_out v) with
            | Some (p, rest) => Some (Sys (k p) (v <| sv_out := rest |>))
            | None => None
            end
          else None
      | _ => None
      end
  | ByMain => match main_step v l with Done (Some v) => Some (Sys (sy_client s) v) | _ => None end
  | ByThread k => match run_thread v k with Done (Some v) => Some (Sys (sy_client s) v) | _ => None end
  end.

Fixpoint sys_run `{OS} {R} (l : locals) (host me : Z) (sched : list choice) (s : system R) : option (system R) :=
  match sched with
  | [] => Some s
  | c :: sched => match sys_do l host me c s with Some s => sys_run l host me sched s | None => None end
  end.

Lemma sys_do_step `{OS} {R} l host me c (s s' : system R) : sys_do l host me c s = Some s' → sys_step l host me s s'.
Proof.
  destruct s as [cl v], c; cbn.
  - destruct cl; try done.
    + intros [= <-]. apply step_init.
    + destruct (Z.eqb_spec rank host) as [->|]; [|done]. intros [= <-]. apply step_connect.
    + destruct (Z.eqb_spec dest host) as [->|]; [|done]. intros [= <-]. apply step_send.
    + destruct (Z.eqb_spec source host) as [->|]; [|done]. destruct (take_reply _ _ _) as [[p rest]|] eqn:E; [|done].
      intros [= <-]. by apply step_recv.
  - destruct (main_step _ _) as [[v'|]|?| |] eqn:E; try done. intros [= <-]. by apply step_main.
  - destruct (run_thread _ _) as [[v'|]|?| |] eqn:E; try done. intros [= <-]. by eapply step_thread.
Qed.

Lemma sys_step_do `{OS} {R} l host me (s s' : system R) : sys_step l host me s s' → ∃ c, sys_do l host me c s = Some s'.
Proof.
  intros Hst. destruct Hst as [k v|name k v|tag p k v|tag k v p rest Ht|c v v' Hm|c v k v' Hm].
  - by exists ByClient.
  - exists ByClient. cbn. by rewrite Z.eqb_refl.
  - exists ByClient. cbn. by rewrite Z.eqb_refl.
  - exists ByClient. cbn. by rewrite Z.eqb_refl, Ht.
  - exists ByMain. cbn. by rewrite Hm.
  - exists (ByThread k). cbn. by rewrite Hm.
Qed.

(** Who moves: the client, the main loop or the threads. *)
Inductive actor := AClient | AMain | AThreads.
Definition actor_of (c : choice) : actor :=
  match c with ByClient => AClient | ByMain => AMain | ByThread _ => AThreads end.
Definition moves `{OS} {R} (l : locals) (host me : Z) (a : actor) (s s' : system R) : Prop :=
  ∃ c, actor_of c = a ∧ sys_do l host me c s = Some s'.

Lemma sys_run_steps `{OS} {R} l host me sched (s s' : system R) :
  sys_run l host me sched s = Some s' → nsteps (sys_step l host me) (length sched) s s'.
Proof.
  revert s. induction sched as [|c sched IH]; intros s; cbn; [intros [= <-]; constructor|].
  destruct (sys_do _ _ _ _ _) as [s1|] eqn:E; [|done]. intros Hs. eapply nsteps_l; [by eapply sys_do_step|by apply IH].
Qed.

Lemma sys_run_app `{OS} {R} l host me a b (s : system R) :
  sys_run l host me (a ++ b) s = match sys_run l host me a s with Some s => sys_run l host me b s | None => None end.
Proof. revert s. induction a as [|c a IH]; intros s; [done|]. cbn. destruct (sys_do _ _ _ c s); [apply IH|done]. Qed.

(** The run that follows a schedule and then stands still. *)
Definition schedule_run `{OS} {R} (l : locals) (host me : Z) (sched : list choice) (s : system R) (i : nat) : system R :=
  default s (sys_run l host me (take i sched) s).

(** It is fair when nobody can move at its end. *)
Lemma schedule_run_ok `{OS} {R} l host me sched (s s' : system R) :
  sys_run l host me sched s = Some s' → (∀ c, sys_do l host me c s' = None) →
  run (moves l host me) (schedule_run l host me sched s) ∧ fair (moves l host me) (schedule_run l host me sched s).
Proof.
  intros Hs Hend. assert (Hpre : ∀ i, is_Some (sys_run l host me (take i sched) s)).
  { intros i. rewrite <- (take_drop i sched), sys_run_app in Hs. by destruct (sys_run _ _ _ (take i sched) s). }
  split.
  - intros i. unfold schedule_run. destruct (sched !! i) as [c|] eqn:Ec.
    + right. exists (actor_of c), c. split; [done|]. destruct (Hpre i) as [si Ei], (Hpre (S i)) as [sj Ej].
      rewrite (take_S_r _ _ _ Ec) in Ej |- *. rewrite sys_run_app, Ei in Ej |- *. rewrite Ej. cbn in *.
      by destruct (sys_do _ _ _ c si).
    + left. apply lookup_ge_None in Ec. by rewrite !take_ge by lia.
  - intros a i. exists (i + length sched)%nat. split; [lia|right]. unfold schedule_run. rewrite take_ge, Hs by lia.
    intros s1 (c & _ & Hc). cbn in Hc. by rewrite Hend in Hc.
Qed.

(** ** A session to evaluate on *)

(** Every call succeeds; [open] returns 5.  The file 5 holds three bytes; a
    read goes on where the one before has ended. *)
Definition sample_file : list Z := [10; 20; 30].
Definition sample_pos (log : list os_call) : nat :=
  foldl (λ p c, match c with
                | ORead f k => if (f =? 5)%Z then p + length (first_bytes k (drop p sample_file)) else p
                | _ => p
                end)%nat 0%nat log.
#[export] Instance OS_sample : OS := {|
  os_ret log c :=
    match c with
    | OWrite _ bs => Z.of_nat (length bs)
    | OOpen _ _ _ => 5
    | ORead _ k => Z.of_nat (length (first_bytes k (drop (sample_pos log) sample_file)))
    | _ => 0
    end;
  os_data log _ k := first_bytes k (drop (sample_pos log) sample_file);
|}.

Lemma sample_os_works : os_works.
Proof. by split. Qed.

Definition sample_iopen : ibvio_open := IOpen 0 77 0 "" 0 0.
Definition sample_locals : locals := Locals (λ _, 0) 0 0 sample_iopen.
Definition sample_client : client := Client 1 1 (replicate 1024 0).
Definition sample_server : server :=
  Server {[ 5 := SInfo 5 0 0 0 Unlocked (Some (λ _, 0)) ]} Probing [] [] [] [].

Lemma sample_idle : idle 5 sample_server.
Proof. split; try done. by eexists _, _. Qed.

Definition sample_schedule : list choice :=
  [ByClient; ByMain; ByClient; ByMain; ByThread 0; ByThread 0; ByMain; ByClient].

Lemma write_session_correct_witness :
  ∃ sy, nsteps (sys_step sample_locals 0 1) 8 (Sys (ibtl_write sample_client sample_iopen 5 [10; 20; 30] 3) sample_server) sy ∧
    sy_client sy = Ret 77 ∧ file_bytes 5 [] (sv_calls (sy_server sy)) = [10; 20; 30].
Proof.
  destruct (sys_run sample_locals 0 1 sample_schedule
    (Sys (ibtl_write sample_client sample_iopen 5 [10; 20; 30] 3) sample_server)) as [sy|] eqn:E; [|by vm_compute in E].
  pose proof (sys_run_steps _ _ _ _ _ _ E) as Hrun. exists sy. split; [exact Hrun|].
  assert (Hret : sy_client sy = Ret 77).
  { apply (f_equal (fmap sy_client)) in E. vm_compute in E. by injection E. }
  split; [exact Hret|].
  destruct (write_session_correct sample_locals 0 1 5 [10; 20; 30] sample_iopen sample_server sample_client 8 sy
    sample_os_works ltac:(unfold BUF_SIZE; cbn; lia) ltac:(lia) sample_idle eq_refl Hrun) as (_ & _ & _ & H).
  exact (proj2 (proj2 (H 77 Hret))).
Defined.
