(* ===== verification/IbioProgram.v ===== *)
(** * src/examples: programs of the client

    Calls of the client one after the other.  [completes] says of a client and
    a server that in every interleaving nothing goes wrong, that they come to an
    end within a number of steps, and what holds then; it has a rule for
    sequences and one for each call.  With them: a program that opens a file,
    writes to it and closes it, and the test program of ibio_test.c. *)
From S2P Require Import Prelude Fairness Mem Queue Datatype ProcMan State Ibio IbioServer IbioSession.

(** ** Sequences of programs *)
Fixpoint io_bind {A B} (p : io A) (k : A → io B) : io B :=
  match p with
  | Ret a => k a
  | Fault => Fault
  | Unfinished => Unfinished
  | InitVerbs p => InitVerbs (io_bind p k)
  | Connect rank hostname p => Connect rank hostname (io_bind p k)
  | SendWait dest tag x p => SendWait dest tag x (io_bind p k)
  | RecvWait source tag f => RecvWait source tag (λ x, io_bind (f x) k)
  end.
Notation "'do' x <- p ; k" := (io_bind p (λ x, k))
  (at level 60, x pattern, p at next level, k at level 200, right associativity) : c_scope.

Section logic.
Context {HOS : OS} (l : locals) (host me : Z).
Local Notation step := (sys_step l host me).

(** Within [b] steps the client returns a value [r] and the server is in a state
    [v] with [Q r v]. *)
Definition completes {R} (s : system R) (b : nat) (Q : R → server → Prop) : Prop :=
  ∀ m s', nsteps step m s s' →
    ¬ sys_fault l s' ∧ (m ≤ b)%nat ∧ ((∃ r, sy_client s' = Ret r) ∨ ∃ s'', step s' s'') ∧
    ∀ r, sy_client s' = Ret r → Q r (sy_server s').

Lemma completes_mono {R} (s : system R) b b' (Q Q' : R → server → Prop) :
  completes s b Q → (b ≤ b')%nat → (∀ r v, Q r v → Q' r v) → completes s b' Q'.
Proof.
  intros Hs Hb HQ m s' Hst. destruct (Hs m s' Hst) as (H1 & H2 & H3 & H4). split_and!; [done|lia|done|]. by eauto.
Qed.

(** *** The sequence rule *)
Lemma step_bind {A B} (p : io A) (k : A → io B) v s' :
  step (Sys (io_bind p k) v) s' →
  (∃ p' v', step (Sys p v) (Sys p' v') ∧ s' = Sys (io_bind p' k) v') ∨ ∃ r, p = Ret r.
Proof.
  intros Hst. destruct p as [r| | |p|rank name p|dest tag x p|source tag f]; cbn [io_bind] in Hst; [by right; exists r|left..].
  all: inversion Hst; subst; eexists _, _; (split; [by econstructor|]); done.
Qed.

Lemma bind_step {A B} (p p' : io A) (k : A → io B) v v' :
  step (Sys p v) (Sys p' v') → step (Sys (io_bind p k) v) (Sys (io_bind p' k) v').
Proof.
  intros Hst. inversion Hst; subst; cbn [io_bind].
  - apply step_init.
  - apply step_connect.
  - apply step_send.
  - by apply (step_recv l host me tag (λ x, io_bind (k0 x) k)).
  - by apply step_main.
  - by eapply step_thread.
Qed.

Lemma steps_bind {A B} m (p : io A) (k : A → io B) v s' :
  nsteps step m (Sys (io_bind p k) v) s' →
  (∃ p' v', nsteps step m (Sys p v) (Sys p' v') ∧ s' = Sys (io_bind p' k) v') ∨
  ∃ i r v', (i ≤ m)%nat ∧ nsteps step i (Sys p v) (Sys (Ret r) v') ∧ nsteps step (m - i) (Sys (k r) v') s'.
Proof.
  revert p v. induction m as [|m IH]; intros p v Hst.
  - inversion Hst; subst. left. eexists _, _. split; [constructor|done].
  - inversion Hst as [|? ? s1 ? H1 H2]; subst. apply step_bind in H1 as H1'. destruct H1' as [(p' & v' & Hp & ->)|[r ->]].
    + destruct (IH _ _ H2) as [(p2 & v2 & H & ->)|(i & r & v2 & Hi & H & H')].
      * left. exists p2, v2. split; [by eapply nsteps_l|done].
      * right. exists (S i), r, v2. split_and!; [lia|by eapply nsteps_l|]. by rewrite Nat.sub_succ.
    + right. exists 0%nat, r, v. split_and!; [lia|constructor|done].
Qed.

Lemma completes_bind {A B} (p : io A) (k : A → io B) v b1 b2 P Q :
  completes (Sys p v) b1 P → (∀ r v', P r v' → completes (Sys (k r) v') b2 Q) →
  completes (Sys (io_bind p k) v) (b1 + b2) Q.
Proof.
  intros H1 H2 m s' Hst. apply steps_bind in Hst as [(p' & v' & Hst & ->)|(i & r & v' & Hi & Hst & Hst')].
  - destruct (H1 m _ Hst) as (Hf & Hb & Hp & HP). cbn [sy_client sy_server] in *.
    assert (Hret : (∃ r, p' = Ret r) ∨ ∀ r, p' ≠ Ret r) by (destruct p'; [by left; eexists|by right..]).
    destruct Hret as [[r ->]|Hret].
    + destruct (H2 r v' (HP r eq_refl) 0%nat _ (nsteps_O _ _)) as (Hf' & _ & Hp' & HQ). by split_and!; [..|lia| |].
    + split_and!; [|lia| |].
      * intros Hfault. apply Hf. unfold sys_fault in *. cbn [sy_client sy_server] in *.
        destruct Hfault as [E|[E|Hs]]; [left|right; left|by right; right]; destruct p'; try done; by destruct (Hret r).
      * right. destruct Hp as [[r E]|[[p2 v2] Hs]]; [by destruct (Hret r)|]. eexists. by apply bind_step.
      * intros r E. destruct p'; try done. by destruct (Hret r0).
  - destruct (H1 i _ Hst) as (_ & Hb & _ & HP). destruct (H2 r v' (HP r eq_refl) _ _ Hst') as (Hf & Hb' & Hp & HQ).
    by split_and!; [|lia| |].
Qed.

(** *** Steps of which there is only one *)

(** The server does not move. *)
Definition quiet (v : server) : Prop := main_step v l = Done None ∧ ∀ k, run_thread v k = Done None.

Lemma rest_quiet v : sv_main v = Probing → sv_in v = [] → sv_threads v = [] → quiet v.
Proof. intros Hm Hi Ht. split; [by apply quiet_main|intros; by apply quiet_thread]. Qed.

Lemma completes_ret {R} (r : R) v (Q : R → server → Prop) : quiet v → Q r v → completes (Sys (Ret r) v) 0 Q.
Proof.
  intros [Hm Ht] HQ m s' Hst. assert (m = 0%nat ∧ s' = Sys (Ret r) v) as [-> ->].
  { inversion Hst as [|? ? s1 ? H1 H2]; subst; [done|]. inversion H1; subst; congruence. }
  split_and!; [|lia|left; by eexists|by intros ? [= <-]].
  intros [E|[E|[E|[k E]]]]; try done; [by apply (E None)|by apply (E None)].
Qed.

Lemma completes_step {R} (s s1 : system R) b Q :
  ¬ sys_fault l s → (∀ r, sy_client s ≠ Ret r) → step s s1 → (∀ s', step s s' → s' = s1) →
  completes s1 b Q → completes s (S b) Q.
Proof.
  intros Hf Hr Hs Hdet H1 m s' Hst. inversion Hst as [|? ? s2 ? H2 H3]; subst.
  - split_and!; [done|lia|right; by eexists|]. intros r E. by destruct (Hr r).
  - apply Hdet in H2 as ->. destruct (H1 _ _ H3) as (? & ? & ? & ?). by split_and!; [|lia| |].
Qed.

Lemma quiet_sound {R} (c : io R) v : quiet v → c ≠ Fault → c ≠ Unfinished → ¬ sys_fault l (Sys c v).
Proof. intros [Hm Ht] H1 H2 [E|[E|[E|[k E]]]]; try done; [by apply (E None)|by apply (E None)]. Qed.

Lemma completes_init {R} (k : io R) v b Q : quiet v → completes (Sys k v) b Q → completes (Sys (InitVerbs k) v) (S b) Q.
Proof.
  intros Hv. apply completes_step; [by apply quiet_sound|done|constructor|]. destruct Hv as [Hm Ht].
  intros s' Hst. inversion Hst; subst; congruence.
Qed.
Lemma completes_connect {R} name (k : io R) v b Q :
  quiet v → completes (Sys k v) b Q → completes (Sys (Connect host name k) v) (S b) Q.
Proof.
  intros Hv. apply completes_step; [by apply quiet_sound|done|constructor|]. destruct Hv as [Hm Ht].
  intros s' Hst. inversion Hst; subst; congruence.
Qed.
Lemma completes_send {R} tag p (k : io R) v b Q :
  quiet v → completes (Sys k (v <| sv_in := sv_in v ++ [SMsg me tag p] |>)) b Q → completes (Sys (SendWait host tag p k) v) (S b) Q.
Proof.
  intros Hv. apply completes_step; [by apply quiet_sound|done|constructor|]. destruct Hv as [Hm Ht].
  intros s' Hst. inversion Hst; subst; congruence.
Qed.
Lemma completes_recv {R} tag (k : payload → io R) v p rest b Q :
  quiet v → take_reply me tag (sv_out v) = Some (p, rest) → completes (Sys (k p) (v <| sv_out := rest |>)) b Q →
  completes (Sys (RecvWait host tag k) v) (S b) Q.
Proof.
  intros Hv Hp. apply completes_step; [by apply quiet_sound|done|by constructor|]. destruct Hv as [Hm Ht].
  intros s' Hst. inversion Hst; subst; congruence.
Qed.
(** The client waits for a reply and the main loop has something to do. *)
Lemma completes_main {R} tag (k : payload → io R) v v' b Q :
  sv_out v = [] → sv_threads v = [] → main_step v l = Done (Some v') →
  completes (Sys (RecvWait host tag k) v') b Q → completes (Sys (RecvWait host tag k) v) (S b) Q.
Proof.
  intros Ho Ht Hm. pose proof (λ k, quiet_thread v k Ht) as Hk. apply completes_step; [|done|by apply step_main|].
  - intros [E|[E|[E|[j E]]]]; try done; [by apply (E (Some v'))|by apply (E None)].
  - intros s' Hst. inversion Hst; subst; [|congruence..]. rewrite Ho in *. done.
Qed.

(** *** A rule for each call *)

(** The server has nothing to do and has sent nothing. *)
Definition at_rest (v : server) : Prop := sv_main v = Probing ∧ sv_in v = [] ∧ sv_threads v = [] ∧ sv_out v = [].

Lemma at_rest_quiet v : at_rest v → quiet v.
Proof. intros (Hm & Hi & Ht & _). by apply rest_quiet. Qed.
Lemma idle_rest fd v : idle fd v → at_rest v.
Proof. by intros [Hm Ht Hi Ho _]. Qed.
Lemma take_reply_any tag p : take_reply me FMI_ANY_TAG [SMsg me tag p] = Some (p, []).
Proof. cbn. by rewrite Z.eqb_refl. Qed.

(** A request to which the handler of [op] replies at once. *)
Lemma completes_call {R} fd op (o : ibvio_open) (k : ibvio_open → io R) v v' reply b Q :
  0 ≤ fd < 2 ^ 15 → 0 ≤ op < 2 ^ 16 → at_rest v →
  dispatch (v <| sv_in := [SMsg me (tag_of fd op) (POpen o)] |>) l op fd (Status me (tag_of fd op)) = Done (Some v') →
  sv_main v' = Probing → sv_in v' = [] → sv_threads v' = [] → sv_out v' = [SMsg me (tag_of fd op) (POpen reply)] →
  completes (Sys (k reply) (v' <| sv_out := [] |>)) b Q →
  completes (Sys (SendWait host (tag_of fd op) (POpen o) (recv_open host FMI_ANY_TAG k)) v) (3 + b) Q.
Proof.
  intros Hfd Hop Hv Hd Hm Hi Ht Ho Hk. apply completes_send; [by apply at_rest_quiet|].
  destruct Hv as (Hm0 & Hi0 & Ht0 & Ho0). rewrite Hi0. cbn [app].
  apply (completes_main _ _ _ v'); [done|done| |].
  - by rewrite (main_probe l me fd Hfd _ op (POpen o) []).
  - eapply completes_recv; [by apply rest_quiet|rewrite Ho; apply take_reply_any|done].
Qed.

Lemma open_completes c garbage pathname flags mode hostname rest path rest' v :
  let fd := os_ret (sv_calls v) (OOpen path flags mode) in
  at_rest v → (String.length pathname < 256)%nat → strtok pathname = Some (hostname, rest) → strtok rest = Some (path, rest') →
  next_host_id c = host → 0 ≤ host < INT_MAX → length (host_ids c) = 1024%nat → 0 ≤ fd < 1024 →
  completes (Sys (ibtl_open c garbage pathname flags mode) v) 5 (λ r v',
    r.1 = fd ∧ aget (host_ids r.2) fd = Done host ∧ idle fd v' ∧ sv_calls v' = sv_calls v ++ [OOpen path flags mode]).
Proof.
  intros fd Hv Hlen H1 H2 Hnext Hh Hl Hfd. unfold ibtl_open. rewrite Hnext.
  set (go := λ k : io (Z * client), if is_init c =? 0 then InitVerbs k else k).
  assert (Hgo : ∀ k Q, completes (Sys k v) 4 Q → completes (Sys (go k) v) 5 Q).
  { intros k Q Hk. unfold go. destruct (_ =? 0); [by apply completes_init; [apply at_rest_quiet|]|].
    eapply completes_mono; [done|lia|done]. }
  apply Hgo. rewrite (proj2 (Nat.leb_gt _ _) Hlen), H1, H2. apply completes_connect; [by apply at_rest_quiet|].
  rewrite serialize_ok by (unfold IBVIO_OP_OPEN; lia). cbn [lift].
  change (Z.lor (Z.shiftl 0 16) IBVIO_OP_OPEN) with (tag_of 0 IBVIO_OP_OPEN).
  set (o := garbage <| io_path := path |> <| io_flags := flags |> <| io_mode := mode |>).
  destruct Hv as (Hm & Hi & Ht & Ho).
  eapply (completes_call 0 IBVIO_OP_OPEN o _ v _ (o <| io_fd := fd |>) 0); [done|done|done| | | | | |].
  - change (dispatch ?v l IBVIO_OP_OPEN 0 ?st) with (ibvio_sopen v (l_cache l) st). unfold ibvio_sopen, receive_open.
    erewrite receive_head by done. unfold os. cbn [io_path io_flags io_mode set_field sv_calls o]. fold fd.
    unfold info_at. rewrite (proj2 (Z.leb_le _ _)), (proj2 (Z.ltb_lt _ _)) by (unfold MAX_FILE_OPEN; lia). reflexivity.
  - done.
  - done.
  - done.
  - cbn. by rewrite Ho.
  - cbn [io_fd set_field o]. rewrite aset_ok by lia. cbn [lift]. rewrite c_int_bounds by lia. cbn [lift].
    apply completes_ret; [by apply rest_quiet|]. cbn [fst snd host_ids]. split_and!; [done| | |done].
    + rewrite aget_insert by lia. by rewrite decide_True.
    + split; try done. eexists _, (l_cache l). split; [apply lookup_insert_eq|]. split_and!; try done.
      cbn. apply u64_id. lia.
Qed.

Lemma sclose_ok v fd o stat i ca :
  0 ≤ fd < 2 ^ 15 → sv_open v !! fd = Some i → cache i = Some ca →
  take_message (FMI_SOURCE stat) (FMI_TAG stat) (sv_in v) = Some (POpen o, []) →
  ∃ v', ibvio_sclose v fd stat = Done (Some v') ∧ sv_main v' = sv_main v ∧ sv_in v' = [] ∧ sv_threads v' = sv_threads v ∧
    sv_out v' = sv_out v ++ [SMsg (FMI_SOURCE stat) (FMI_TAG stat) (POpen (o <| io_stat := os_ret (sv_calls v) (OClose fd) |>))] ∧
    sv_calls v' = sv_calls v ++ [OClose fd].
Proof.
  intros Hfd Hi Hc Hin. unfold ibvio_sclose, receive_open, receive. rewrite Hin. unfold os. cbn [sv_calls set_field].
  destruct (_ =? 0).
  - rewrite info_at_small by lia. cbn [sv_open set_field send]. rewrite Hi. cbn [obind default from_option id]. rewrite Hc.
    unfold clear_two. rewrite info_at_small by lia. cbn [obind]. eexists. by split_and!.
  - cbn [obind]. eexists. by split_and!.
Qed.

Lemma close_completes c garbage fd v :
  0 ≤ fd < 2 ^ 15 → idle fd v → aget (host_ids c) fd = Done host →
  completes (Sys (ibtl_close c garbage fd) v) 3 (λ r v',
    r = os_ret (sv_calls v) (OClose fd) ∧ at_rest v' ∧ sv_calls v' = sv_calls v ++ [OClose fd]).
Proof.
  intros Hfd [Hm Ht Hi Ho (i & ca & Hinf & Hso & Hmx & Hc)] Hh. unfold ibtl_close. rewrite Hh. cbn [lift].
  rewrite serialize_ok by (unfold IBVIO_OP_CLOSE; lia). cbn [lift].
  change (Z.lor (Z.shiftl fd 16) IBVIO_OP_CLOSE) with (tag_of fd IBVIO_OP_CLOSE).
  destruct (sclose_ok (v <| sv_in := [SMsg me (tag_of fd IBVIO_OP_CLOSE) (POpen garbage)] |>) fd garbage (Status me (tag_of fd IBVIO_OP_CLOSE)) i ca)
    as (v' & E & Hm' & Hi' & Ht' & Ho' & Hl'); [done..|cbn; by rewrite !Z.eqb_refl|].
  cbn [sv_main sv_threads sv_out sv_calls set_field app FMI_SOURCE FMI_TAG] in *.
  eapply (completes_call fd IBVIO_OP_CLOSE garbage _ v v' _ 0); [done|done|done|exact E|congruence|done|congruence| |].
  - by rewrite Ho', Ho.
  - apply completes_ret; [apply rest_quiet; cbn; congruence|].
    split_and!; [done|unfold at_rest; cbn; by split_and!; congruence|exact Hl'].
Qed.

Lemma write_completes c garbage fd buf v :
  os_works → 0 < Z.of_nat (length buf) ≤ BUF_SIZE → 0 ≤ fd < 2 ^ 15 → idle fd v → aget (host_ids c) fd = Done host →
  completes (Sys (ibtl_write c garbage fd buf (Z.of_nat (length buf))) v) (4 * chunks (Z.of_nat (length buf)) + 4) (λ r v',
    r = io_stat (l_iopen l) ∧ idle fd v' ∧ file_bytes fd [] (sv_calls v') = file_bytes fd [] (sv_calls v) ++ buf).
Proof.
  intros Hos Hn Hfd Hidle Hh m s' Hst. erewrite client_start in Hst by done.
  eapply session_steps in Hst as Hse; [|done..]. split_and!.
  - by eapply session_sound.
  - apply session_length in Hse. lia.
  - destruct (session_length _ _ _ _ _ _ _ _ _ _ Hse) as [Hm|[_ Hr]]; [right|by left]. by eapply session_progress.
  - intros r Hr. eapply session_end in Hr as (_ & -> & Hid & Hf); done.
Qed.

(** *** Several writes *)
Fixpoint write_all (c : client) (garbage : ibvio_open) (fd : Z) (bufs : list (list Z)) : io unit :=
  match bufs with
  | [] => Ret ()
  | buf :: bufs => do _ <- ibtl_write c garbage fd buf (Z.of_nat (length buf)); write_all c garbage fd bufs
  end.
Definition write_steps (bufs : list (list Z)) : nat :=
  foldr (λ buf b, 4 * chunks (Z.of_nat (length buf)) + 4 + b)%nat 0%nat bufs.
Definition writable (buf : list Z) : Prop := 0 < Z.of_nat (length buf) ≤ BUF_SIZE.

Lemma write_all_completes c garbage fd bufs v :
  os_works → Forall writable bufs → 0 ≤ fd < 2 ^ 15 → idle fd v → aget (host_ids c) fd = Done host →
  completes (Sys (write_all c garbage fd bufs) v) (write_steps bufs) (λ _ v',
    idle fd v' ∧ file_bytes fd [] (sv_calls v') = file_bytes fd [] (sv_calls v) ++ concat bufs).
Proof.
  intros Hos Hbufs Hfd Hidle Hh. revert v Hidle. induction Hbufs as [|buf bufs Hbuf _ IH]; intros v Hidle.
  - apply completes_ret; [by eapply at_rest_quiet, idle_rest|]. split; [done|]. by rewrite app_nil_r.
  - cbn [write_all write_steps foldr]. eapply completes_bind; [by apply write_completes|]. intros _ v1 (_ & H1 & Hf1).
    eapply completes_mono; [by apply IH|done|]. intros _ v2 [H2 Hf2]. split; [done|]. rewrite Hf2, Hf1. cbn [concat].
    by rewrite <- (assoc_L (++)).
Qed.

(** *** A file from its opening to its end *)
Definition file_program (c : client) (garbage : ibvio_open) (pathname : string) (flags mode : Z) (bufs : list (list Z)) : io Z :=
  do (fd, c) <- ibtl_open c garbage pathname flags mode;
  do _ <- write_all c garbage fd bufs;
  ibtl_close c garbage fd.

Lemma file_bytes_open fd log path flags mode : file_bytes fd [] (log ++ [OOpen path flags mode]) = file_bytes fd [] log.
Proof. rewrite file_bytes_app. cbn. by rewrite app_nil_r. Qed.
Lemma file_bytes_close fd log f : file_bytes fd [] (log ++ [OClose f]) = file_bytes fd [] log.
Proof. rewrite file_bytes_app. cbn. by rewrite app_nil_r. Qed.
End logic.

(** The client can open a file of this name on the server. *)
Record can_open (c : client) (host : Z) (pathname hostname path : string) : Prop := {
  co_length : (String.length pathname < 256)%nat;
  co_name : ∃ rest rest', strtok pathname = Some (hostname, rest) ∧ strtok rest = Some (path, rest');
  co_next : next_host_id c = host;
  co_host : 0 ≤ host < INT_MAX;
  co_hosts : length (host_ids c) = 1024%nat;
}.

(** C6: a file over the network, from its opening to its end.  For every
    interleaving of the client, the main loop of the server and its threads, a
    program that opens a file, writes any buffers of at most 1 GiB to it, one
    after the other, and closes it comes to an end within so many steps, nothing
    goes wrong, and then the file has the buffers in order behind what it had,
    the client has the result of the server's [close], and the server is at
    rest. *)
Theorem file_program_correct `{OS} l host me c garbage pathname hostname path flags mode bufs v :
  let fd := os_ret (sv_calls v) (OOpen path flags mode) in
  os_works → at_rest v → can_open c host pathname hostname path → 0 ≤ fd < 1024 → Forall writable bufs →
  completes l host me (Sys (file_program c garbage pathname flags mode bufs) v) (8 + write_steps bufs) (λ r v',
    at_rest v' ∧ file_bytes fd [] (sv_calls v') = file_bytes fd [] (sv_calls v) ++ concat bufs ∧
    ∃ log, sv_calls v' = log ++ [OClose fd] ∧ r = os_ret log (OClose fd)).
Proof.
  intros fd. subst fd. intros Hos Hv [Hlen (rest & rest' & H1 & H2) Hnext Hhost Hl] Hfd Hbufs. unfold file_program.
  replace (8 + write_steps bufs)%nat with (5 + (write_steps bufs + 3))%nat by lia.
  eapply completes_bind; [by eapply open_completes|]. intros [fd' c'] v1. cbn [fst snd].
  intros (-> & Hh & H3 & Hc1). eapply completes_bind; [apply write_all_completes; try done; lia|].
  intros _ v2 [H4 Hf2]. eapply completes_mono; [apply close_completes; try done; lia|lia|].
  intros r v3 (-> & H5 & Hc3). split; [done|]. split; [|by eexists]. rewrite Hc3, file_bytes_close, Hf2, Hc1. by rewrite file_bytes_open.
Qed.

(** The client 1 opens the file 5 and writes to it twice. *)
Definition fresh_client : client := Client 0 0 (replicate 1024 0).
Definition fresh_server : server := Server ∅ Probing [] [] [] [].

Lemma fresh_can_open : can_open fresh_client 0 "rkm00:/tmp/a" "rkm00" "/tmp/a".
Proof. split; try done; [cbn; lia|]. by eexists _, _. Qed.

Lemma file_program_correct_witness :
  completes sample_locals 0 1 (Sys (file_program fresh_client sample_iopen "rkm00:/tmp/a" 66 448 [[1; 2]; [3]]) fresh_server) 24
    (λ r v', file_bytes 5 [] (sv_calls v') = [1; 2; 3]).
Proof.
  eapply completes_mono; [apply (file_program_correct sample_locals 0 1 fresh_client sample_iopen "rkm00:/tmp/a" "rkm00" "/tmp/a" 66 448
    [[1; 2]; [3]] fresh_server sample_os_works)|..].
  - by split_and!.
  - exact fresh_can_open.
  - cbn. lia.
  - repeat constructor; cbn; unfold BUF_SIZE; lia.
  - vm_compute. lia.
  - intros r v (_ & Hf & _). exact Hf.
Defined.
