(* ===== verification/IbioTest.v ===== *)
(** * src/examples/ibio_test.c: the test program

    [test1], which [main] calls, and [test2], which nobody calls, as programs of
    the client.  The writes of [test1] are run by IbioProgram.v; [test2] reads
    beyond the end of its buffer. *)
From S2P Require Import Prelude Fairness Mem Queue Datatype ProcMan State Init Ibio IbioServer IbioSession IbioProgram.

Definition SBUF_SIZE : Z := 1024.
Definition TEST_BUF_SIZE : Z := 1 * 256 * 1024 * 1024.
Definition LOOP : nat := 1.

(** The constants of the system's headers. *)
Definition O_RDWR : Z := 2.
Definition O_CREAT : Z := 64.
Definition S_IRWXU : Z := 448.

Definition memset (value size : Z) : list Z := replicate (Z.to_nat size) value.

(** [for (i = 0; i < n; i++)] *)
Fixpoint io_for {A} (n : nat) (body : A → io A) (a : A) : io A :=
  match n with
  | O => Ret a
  | S n => do a <- body a; io_for n body a
  end.

(** The arguments of [main]: its name, the file and the mode. *)
Definition test_args {R} (argv : list string) (k : string → Z → io R) : io R :=
  match argv with
  | [_; path; mode] =>
      if (256 <=? String.length path)%nat then Fault else lift (atoi mode) (λ is_read_mode, k path is_read_mode)
  | _ => Fault
  end.

Definition test1 (c : client) (garbage : ibvio_open) (argv : list string) : io Z :=
  test_args argv (λ path is_read_mode,
    do (fd, c) <- ibtl_open c garbage path (Z.lor O_RDWR O_CREAT) S_IRWXU;
    let data1 := memset 1 TEST_BUF_SIZE in
    let write (_ : ()) := do _ <- ibtl_write c garbage fd data1 TEST_BUF_SIZE; Ret () in
    let read buf := do (_, buf) <- ibtl_read c garbage fd buf TEST_BUF_SIZE; Ret buf in
    if is_read_mode =? 0 then
      do _ <- write ();
      do _ <- io_for LOOP write ();
      do _ <- write ();
      Ret 0
    else
      do data1 <- read data1;
      do data1 <- io_for LOOP read data1;
      do _ <- read data1;
      Ret 0).

Definition test2 (c : client) (garbage : ibvio_open) (argv : list string) : io Z :=
  test_args argv (λ path is_read_mode,
    do (fd, c) <- ibtl_open c garbage path (Z.lor O_RDWR O_CREAT) S_IRWXU;
    let data := memset 1 SBUF_SIZE in
    let data1 := memset 1 TEST_BUF_SIZE in
    if is_read_mode =? 0 then
      do _ <- ibtl_write c garbage fd data TEST_BUF_SIZE;
      do _ <- ibtl_write c garbage fd data1 TEST_BUF_SIZE;
      Ret 0
    else
      do _ <- ibtl_read c garbage fd data TEST_BUF_SIZE;
      do _ <- ibtl_read c garbage fd data1 TEST_BUF_SIZE;
      Ret 0).

Lemma test_size : TEST_BUF_SIZE = 268435456.
Proof. done. Qed.
Lemma memset_length value size : 0 ≤ size → Z.of_nat (length (memset value size)) = size.
Proof. intros H. unfold memset. rewrite length_replicate. lia. Qed.

#[global] Opaque memset TEST_BUF_SIZE.

Lemma test_writable : writable (memset 1 TEST_BUF_SIZE).
Proof. unfold writable. rewrite memset_length; rewrite test_size; unfold BUF_SIZE; lia. Qed.
Lemma test_chunks : chunks TEST_BUF_SIZE = 4%nat.
Proof. by rewrite test_size. Qed.

Section test.
Context {HOS : OS} (Hos : os_works) (l : locals) (host me : Z).

(** In its first mode the test appends its buffer three times, and its steps
    are counted: 5 for the file, 20 for each buffer. *)
Lemma test1_writes c garbage pathname hostname path name mode v :
  let fd := os_ret (sv_calls v) (OOpen path (Z.lor O_RDWR O_CREAT) S_IRWXU) in
  at_rest v → can_open c host pathname hostname path → 0 ≤ fd < 1024 → atoi mode = Done 0 →
  completes l host me (Sys (test1 c garbage [name; pathname; mode]) v) 65 (λ r v',
    r = 0 ∧ idle fd v' ∧
    file_bytes fd [] (sv_calls v') = file_bytes fd [] (sv_calls v) ++ concat (replicate 3 (memset 1 TEST_BUF_SIZE))).
Proof.
  intros fd. subst fd. intros Hv [Hlen (rest & rest' & H1 & H2) Hnext Hhost Hl] Hfd Hmode. unfold test1, test_args.
  rewrite (proj2 (Nat.leb_gt _ _) Hlen), Hmode. cbn [lift]. set (fd := os_ret _ _) in *.
  change 65%nat with (5 + 60)%nat. eapply completes_bind; [by eapply open_completes|]. intros [fd' c'] v1. cbn [fst snd].
  intros (-> & Hh & Hid & Hc). cbn zeta. rewrite Z.eqb_refl. fold fd in Hid |- *.
  pose proof (memset_length 1 TEST_BUF_SIZE ltac:(rewrite test_size; lia)) as Hdata. pose proof test_writable as Hwr.
  set (data1 := memset 1 TEST_BUF_SIZE) in *. clearbody data1.
  set (write := λ _ : (), do _ <- ibtl_write c' garbage fd data1 TEST_BUF_SIZE; Ret ()).
  assert (Hwrite : ∀ w, idle fd w → completes l host me (Sys (write ()) w) 20 (λ _ w',
    idle fd w' ∧ file_bytes fd [] (sv_calls w') = file_bytes fd [] (sv_calls w) ++ data1)).
  { intros w Hw. pose proof (write_completes l host me c' garbage fd data1 w Hos Hwr ltac:(lia) Hw Hh) as H.
    rewrite Hdata, test_chunks in H. change 20%nat with (4 * 4 + 4 + 0)%nat. eapply completes_bind; [exact H|].
    intros r w' (_ & Hw' & Hf). apply completes_ret; [by eapply at_rest_quiet, idle_rest|done]. }
  assert (Hloop : ∀ w, idle fd w → completes l host me (Sys (io_for LOOP write ()) w) 20 (λ _ w',
    idle fd w' ∧ file_bytes fd [] (sv_calls w') = file_bytes fd [] (sv_calls w) ++ data1)).
  { intros w Hw. change 20%nat with (20 + 0)%nat. eapply completes_bind; [by apply Hwrite|].
    intros [] w' H. apply completes_ret; [by eapply at_rest_quiet, idle_rest, H|exact H]. }
  change 60%nat with (20 + (20 + (20 + 0)))%nat. eapply completes_bind; [by apply Hwrite|]. intros [] v2 [Hid2 Hf2].
  eapply completes_bind; [by apply Hloop|].
  intros [] v3 [Hid3 Hf3]. eapply completes_bind; [by apply Hwrite|]. intros [] v4 [Hid4 Hf4].
  apply completes_ret; [by eapply at_rest_quiet, idle_rest|]. split_and!; [done|done|].
  rewrite Hf4, Hf3, Hf2, Hc, file_bytes_open. cbn [replicate concat]. by rewrite app_nil_r, <- !(assoc_L (++)).
Qed.
End test.

(** [test2] reads beyond [data] for its first chunk. *)
Lemma test2_reads_beyond c garbage fd host :
  aget (host_ids c) fd = Done host → 0 ≤ fd < 2 ^ 15 →
  ∃ tag hdr, ibtl_write c garbage fd (memset 1 SBUF_SIZE) TEST_BUF_SIZE = SendWait host tag hdr Fault.
Proof.
  intros Hh Hfd. unfold ibtl_write. rewrite Hh. cbn [lift].
  rewrite !serialize_ok by (unfold IBVIO_OP_WRITE_BEGIN, IBVIO_OP_WRITE_CHUNK; lia). cbn [lift]. rewrite test_size.
  eexists _, _. reflexivity.
Qed.
