(* ===== verification/IbioNet.v ===== *)
(** * src/examples: several clients

    Any number of clients of one server, each with its own program, and the types
    of their messages: an operation has a [struct ibvio_open] or bytes with it,
    and no handler or thread of the server ever takes a message of the other
    kind.  [follows] is the protocol of a client, [run_calls] the programs that
    are made of calls of the client's library and keep to it. *)
From S2P Require Import Prelude Fairness Mem Queue Datatype ProcMan State Ibio IbioServer IbioSession IbioProgram.

(** The [i]-th client, counted from 0, has connected as the [i]-th and has the
    rank [i + 1], as the server counts from 1; it knows the server as [hosts i]. *)
Record net := Net { nt_clients : list (io Z); nt_server : server }.

Inductive net_step `{OS} (l : locals) (hosts : nat → Z) : net → net → Prop :=
| net_move i c c' cs v v' :
    cs !! i = Some c → sys_step l (hosts i) (Z.of_nat i + 1) (Sys c v) (Sys c' v') →
    net_step l hosts (Net cs v) (Net (<[i := c']> cs) v').

Section types.
Context {HOS : OS} (l : locals).
Implicit Types (v : server) (t : thread_state).

Definition op_of (tag : Z) : Z := (ibvio_deserialize_tag tag).1.
Definition is_open (p : payload) : bool := match p with POpen _ => true | PData _ => false end.

(** What comes with an operation; [ibvio_swrite], which takes both kinds under
    one tag, and operations there are not get nothing. *)
Definition request_fits (tag : Z) (p : payload) : Prop :=
  (op_of tag ∈ [IBVIO_OP_OPEN; IBVIO_OP_WRITE_BEGIN; IBVIO_OP_READ; IBVIO_OP_CLOSE] ∧ is_open p = true) ∨
  (op_of tag = IBVIO_OP_WRITE_CHUNK ∧ is_open p = false).
(** What the answers are. *)
Definition reply_fits (tag : Z) (p : payload) : Prop := is_open p = negb (op_of tag =? IBVIO_OP_READ).

(** A program whose requests fit, whatever fitting answers it gets. *)
Inductive io_typed {R} : io R → Prop :=
| ty_ret r : io_typed (Ret r)
| ty_fault : io_typed Fault
| ty_unfinished : io_typed Unfinished
| ty_init k : io_typed k → io_typed (InitVerbs k)
| ty_connect rank hostname k : io_typed k → io_typed (Connect rank hostname k)
| ty_send dest tag p k : request_fits tag p → io_typed k → io_typed (SendWait dest tag p k)
| ty_recv source tag k : (∀ p, tag = FMI_ANY_TAG ∨ reply_fits tag p → io_typed (k p)) → io_typed (RecvWait source tag k).

Definition reads_file (stat : fmi_status) : Prop := op_of (FMI_TAG stat) = IBVIO_OP_READ.
Definition thread_typed t : Prop :=
  match t with
  | TChunk _ | TWriting _ _ => True
  | TRead _ stat | TReadLocked _ stat | TReading _ stat _ _ _ _ => reads_file stat
  end.
Definition main_typed (m : main_state) : Prop :=
  match m with
  | Probing => True
  | Receiving _ => False
  | Spinning _ stat => op_of (FMI_TAG stat) = IBVIO_OP_WRITE_CHUNK
  end.

Record server_typed v : Prop := {
  st_main : main_typed (sv_main v);
  st_threads : Forall thread_typed (sv_threads v);
  st_in : Forall (λ m, request_fits (sm_tag m) (sm_data m)) (sv_in v);
  st_out : Forall (λ m, reply_fits (sm_tag m) (sm_data m)) (sv_out v);
}.

Record net_typed (s : net) : Prop := {
  nt_programs : Forall io_typed (nt_clients s);
  nt_typed : server_typed (nt_server s);
}.

(** *** The calls of the client

    What a client may do next: it is between two calls; it has announced a write
    of which [left] bytes are to be sent; it has asked for bytes; or it waits for
    an answer. *)
Inductive stage :=
| SIdle
| SWriting (host fd left : Z)
| SReading (host tag : Z)
| SAwaiting (host : Z).

(** The program keeps to the protocol from a stage on.  A write announces the
    number of its bytes (as an [int]), sends chunks of this length in all, under
    the tag of the same file and to the same server, and then takes one answer; a
    request to open or to close takes one answer; a read takes bytes under its
    own tag.  A message of the other kind is not accepted. *)
Inductive follows {R} : stage → io R → Prop :=
| fo_ret r : follows SIdle (Ret r)
| fo_fault q : follows q Fault
| fo_unfinished q : follows q Unfinished
| fo_init k : follows SIdle k → follows SIdle (InitVerbs k)
| fo_connect rank hostname k : follows SIdle k → follows SIdle (Connect rank hostname k)
| fo_open host tag o k :
    ibvio_serialize_tag IBVIO_OP_OPEN 0 = Done tag → follows (SAwaiting host) k →
    follows SIdle (SendWait host tag (POpen o) k)
| fo_close host fd tag o k :
    ibvio_serialize_tag IBVIO_OP_CLOSE fd = Done tag → follows (SAwaiting host) k →
    follows SIdle (SendWait host tag (POpen o) k)
| fo_begin host fd tag count o k :
    ibvio_serialize_tag IBVIO_OP_WRITE_BEGIN fd = Done tag → io_count o = i32 count →
    follows (SWriting host fd count) k → follows SIdle (SendWait host tag (POpen o) k)
| fo_chunk host fd tag left bs k :
    ibvio_serialize_tag IBVIO_OP_WRITE_CHUNK fd = Done tag → Z.of_nat (length bs) ≤ left →
    follows (SWriting host fd (left - Z.of_nat (length bs))) k →
    follows (SWriting host fd left) (SendWait host tag (PData bs) k)
| fo_written host fd left c : left ≤ 0 → follows (SAwaiting host) c → follows (SWriting host fd left) c
| fo_answer host k :
    (∀ o, follows SIdle (k (POpen o))) → (∀ bs, k (PData bs) = Fault) →
    follows (SAwaiting host) (RecvWait host FMI_ANY_TAG k)
| fo_read host fd tag o k :
    ibvio_serialize_tag IBVIO_OP_READ fd = Done tag → follows (SReading host tag) k →
    follows SIdle (SendWait host tag (POpen o) k)
| fo_bytes host tag k :
    (∀ bs, follows (SReading host tag) (k (PData bs))) → (∀ o, k (POpen o) = Fault) →
    follows (SReading host tag) (RecvWait host tag k)
| fo_all_read host tag c : follows SIdle c → follows (SReading host tag) c.

(** A tag that could be packed unpacks to its operation. *)
Lemma serialize_op op fd tag : 0 ≤ op < 2 ^ 16 → ibvio_serialize_tag op fd = Done tag → op_of tag = op.
Proof.
  intros Hop H. unfold ibvio_serialize_tag, c_shl in H. inv_done.
  repeat match goal with H : c_int _ = Done _ |- _ => apply c_int_inv in H as [-> ?] end.
  unfold IBVIO_OP_MASK, IBVIO_FD_MASK, IBVIO_OP_OFFSET, IBVIO_FD_OFFSET in *. rewrite (land_mask16 op) by done. rewrite Z.shiftl_0_r.
  unfold op_of. rewrite deserialize_ok; [done|done|].
  assert (0 ≤ Z.land fd 65535) by (apply Z.land_nonneg; lia).
  match goal with H : is_int (Z.shiftl (Z.land fd 65535) 16) |- _ => rewrite Z.shiftl_mul_pow2 in H by lia; unfold is_int, INT_MAX in H end. lia.
Qed.

Lemma serialize_fits_open op fd tag o :
  op ∈ [IBVIO_OP_OPEN; IBVIO_OP_WRITE_BEGIN; IBVIO_OP_READ; IBVIO_OP_CLOSE] →
  ibvio_serialize_tag op fd = Done tag → request_fits tag (POpen o).
Proof.
  intros Hop Ht. left. split; [|done]. apply serialize_op in Ht as ->; [done|].
  revert Hop. rewrite !elem_of_cons, elem_of_nil. unfold IBVIO_OP_OPEN, IBVIO_OP_WRITE_BEGIN, IBVIO_OP_READ, IBVIO_OP_CLOSE. lia.
Qed.

(** Whoever keeps to the protocol sends what fits. *)
Lemma follows_typed {R} q (c : io R) : follows q c → io_typed c.
Proof.
  induction 1; try done; try (by constructor);
    try (constructor; [eapply serialize_fits_open; [|eassumption]; repeat constructor|done]).
  - constructor; [|done]. right. split; [by eapply serialize_op|done].
  - constructor. intros [o|bs] _; [done|]. match goal with H : ∀ bs, _ = Fault |- _ => rewrite H end. constructor.
  - constructor. intros [o|bs] _; [|done]. match goal with H : ∀ o, _ = Fault |- _ => rewrite H end. constructor.
Qed.

Lemma follows_bind {A B} q (p : io A) (k : A → io B) :
  follows q p → (∀ r, follows SIdle (k r)) → follows q (io_bind p k).
Proof.
  intros Hp Hk. induction Hp; cbn [io_bind]; try (by econstructor); [by apply Hk|..].
  - constructor; [done|]. intros bs. match goal with H : ∀ bs, _ = Fault |- _ => by rewrite H end.
  - constructor; [done|]. intros o. match goal with H : ∀ o, _ = Fault |- _ => by rewrite H end.
Qed.

Lemma follows_lift {A R} q (o : outcome A) (k : A → io R) :
  (∀ a, o = Done a → follows q (k a)) → follows q (lift o k).
Proof. intros Hk. destruct o; cbn; try constructor. by apply Hk. Qed.

Lemma follows_recv_open {R} host (k : ibvio_open → io R) :
  (∀ o, follows SIdle (k o)) → follows (SAwaiting host) (recv_open host FMI_ANY_TAG k).
Proof. intros Hk. by constructor. Qed.

Lemma follows_finish host : follows (SAwaiting host) (finish host).
Proof. apply follows_recv_open. constructor. Qed.

Lemma slice_length buf off n bs : slice buf off n = Done bs → 0 ≤ n ∧ Z.of_nat (length bs) = n.
Proof.
  unfold slice. destruct (_ && _) eqn:E; [|done]. intros [= <-]. rewrite length_take, length_drop. lia.
Qed.

Lemma next_chunk_bound cur size count size' :
  0 ≤ cur ≤ INT_MAX → 0 ≤ size → cur < count → next_chunk cur size count = Done size' → 0 ≤ size' ≤ count - cur.
Proof.
  unfold INT_MAX. intros Hc Hs Hlt H. unfold next_chunk in H. apply obind_Done_inv in H as (sum & Hsum & H).
  apply c_int_inv in Hsum as [-> Hsum]. unfold is_int, INT_MAX in Hsum. rewrite (u64_id (cur + size)) in H by lia.
  rewrite (u64_id cur) in H by lia. destruct (count <? cur + size) eqn:E; injection H as <-; [|lia].
  rewrite u64_id by lia. rewrite i32_id by (unfold is_int, INT_MIN, INT_MAX; lia). lia.
Qed.

Lemma follows_send_chunks {R} fuel buf count host fd tag cur size (k : io R) :
  ibvio_serialize_tag IBVIO_OP_WRITE_CHUNK fd = Done tag → follows (SAwaiting host) k → 0 ≤ cur ≤ INT_MAX → 0 ≤ size →
  follows (SWriting host fd (count - cur)) (send_chunks fuel buf count host tag cur size k).
Proof.
  intros Ht Hk. revert cur size. induction fuel as [|fuel IH]; intros cur size Hcur Hsize; cbn [send_chunks]; [constructor|].
  assert (Hu : u64 cur = cur) by (apply u64_id; unfold INT_MAX in Hcur; lia). rewrite Hu.
  destruct (cur <? count) eqn:E; [|apply fo_written; [lia|done]].
  apply follows_lift. intros size' Hsz. apply next_chunk_bound in Hsz; [|done|done|lia].
  apply follows_lift. intros data Hd. apply slice_length in Hd as [_ Hd].
  apply fo_chunk; [done|lia|]. rewrite Hd.
  apply follows_lift. intros cur' [-> Hc']%c_int_inv. unfold is_int in Hc'.
  replace (count - cur - size') with (count - (cur + size')) by lia. apply IH; lia.
Qed.

Lemma follows_recv_chunks {R} fuel buf count host tag cur size (k : list Z → io R) :
  (∀ buf, follows SIdle (k buf)) → follows (SReading host tag) (recv_chunks fuel buf count host tag cur size k).
Proof.
  intros Hk. revert buf cur size. induction fuel as [|fuel IH]; intros buf cur size; cbn [recv_chunks]; [constructor|].
  destruct (_ <? _); [|by apply fo_all_read]. apply follows_lift. intros size' _. apply fo_bytes; [|done]. intros bs.
  apply follows_lift. intros buf' _. apply follows_lift. intros cur' _. apply IH.
Qed.

Lemma follows_open c garbage pathname flags mode : follows SIdle (ibtl_open c garbage pathname flags mode).
Proof.
  unfold ibtl_open. set (go := λ k : io (Z * client), if is_init c =? 0 then InitVerbs k else k).
  assert (Hgo : ∀ k, follows SIdle k → follows SIdle (go k)) by (intros k Hk; unfold go; destruct (_ =? 0); [by constructor|done]).
  apply Hgo. destruct (_ <=? _)%nat; [constructor|]. destruct (strtok pathname) as [[hostname rest]|]; [|constructor].
  destruct (strtok rest) as [[path rest']|]; [|constructor]. constructor. apply follows_lift. intros tag Ht.
  apply fo_open; [done|]. apply follows_recv_open. intros o. apply follows_lift. intros hs _. apply follows_lift. constructor.
Qed.

Lemma follows_write c garbage fd buf count : follows SIdle (ibtl_write c garbage fd buf count).
Proof.
  unfold ibtl_write. apply follows_lift. intros host _. apply follows_lift. intros tag Ht.
  apply (fo_begin host fd tag count); [done|done|]. apply follows_lift. intros tag' Ht'.
  replace count with (count - 0) at 1 by lia. apply follows_send_chunks; [done|apply follows_finish|by split|done].
Qed.

Lemma follows_read c garbage fd buf count : follows SIdle (ibtl_read c garbage fd buf count).
Proof.
  unfold ibtl_read. apply follows_lift. intros host _. apply follows_lift. intros tag Ht.
  apply (fo_read host fd); [done|]. apply follows_recv_chunks. constructor.
Qed.

Lemma follows_close c garbage fd : follows SIdle (ibtl_close c garbage fd).
Proof.
  unfold ibtl_close. apply follows_lift. intros host _. apply follows_lift. intros tag Ht.
  apply (fo_close host fd); [done|apply follows_finish].
Qed.

(** *** The server *)
Lemma take_message_in source tag ms p rest :
  take_message source tag ms = Some (p, rest) →
  ∃ m, m ∈ ms ∧ sm_tag m = tag ∧ sm_data m = p ∧ ∀ x, x ∈ rest → x ∈ ms.
Proof.
  revert rest. induction ms as [|m ms IH]; intros rest; cbn [take_message]; [done|].
  destruct (_ && _) eqn:E.
  - intros [= <- <-]. apply andb_true_iff in E as [_ E%Z.eqb_eq]. exists m. split_and!; [by left|done|done|by right].
  - destruct (take_message _ _ ms) as [[p' rest']|] eqn:E'; [|done]. intros [= <- <-].
    destruct (IH _ eq_refl) as (m' & ? & ? & ? & Hr). exists m'. split_and!; [by right|done|done|].
    intros x [->|?]%elem_of_cons; [by left|right; by apply Hr].
Qed.

Lemma receive_typed v stat p v' : server_typed v → receive v stat = Some (p, v') →
  request_fits (FMI_TAG stat) p ∧ server_typed v' ∧ sv_main v' = sv_main v ∧ sv_threads v' = sv_threads v.
Proof.
  intros [Hm Ht Hin Ho]. unfold receive. destruct (take_message _ _ _) as [[p0 rest]|] eqn:E; [|done]. intros [= <- <-].
  apply take_message_in in E as (m & Hm' & <- & <- & Hr). rewrite Forall_forall in Hin. split; [by apply Hin|].
  split; [|done]. split; try done. cbn. apply Forall_forall. intros x Hx. by apply Hin, Hr.
Qed.

(** Changes that keep the types. *)
Lemma set_info_typed v fd i : server_typed v → server_typed (set_info v fd i).
Proof. by intros []. Qed.
Lemma os_typed v c : server_typed v → server_typed (os v c).2.
Proof. by intros []. Qed.
Lemma main_set_typed v m : server_typed v → main_typed m → server_typed (v <| sv_main := m |>).
Proof. by intros [] ?. Qed.
Lemma send_typed v stat p : server_typed v → reply_fits (FMI_TAG stat) p → server_typed (send v stat p).
Proof. intros [] Hp. split; try done. apply Forall_app. split; [done|]. by constructor. Qed.
Lemma write_cache_typed v fd i off n v' : server_typed v → write_cache v fd i off n = Done v' → server_typed v'.
Proof.
  intros Hv Hw. unfold write_cache, os in Hw. destruct (cache_read _ _ _); try done. cbn [obind] in Hw.
  destruct (_ <? 0); [done|]. injection Hw as <-. by apply (os_typed v (OWrite fd a)).
Qed.
Lemma read_cache_typed v fd i off n i' v' : server_typed v → read_cache v fd i off n = Done (i', v') → server_typed v'.
Proof.
  intros Hv Hr. unfold read_cache, os in Hr. destruct (_ && _); [|done]. destruct (_ <? 0); [done|].
  destruct (cache_write _ _ _); try done. cbn [obind] in Hr. injection Hr as _ <-. by apply (os_typed v (ORead fd n)).
Qed.
Lemma run_thread_typed v t v' : server_typed v → thread_typed t → ibvio_run_thread v t = Done v' → server_typed v'.
Proof.
  intros Hv Ht Hr. unfold ibvio_run_thread, os in Hr. destruct (negb _); [done|]. destruct (negb _); [done|]. injection Hr as <-.
  destruct Hv. split; try done. apply Forall_app. split; [done|]. by constructor.
Qed.
Lemma receive_open_typed v stat k v' : server_typed v →
  (∀ o v1 v2, server_typed v1 → k o v1 = Done v2 → server_typed v2) → receive_open v stat k = Done (Some v') → server_typed v'.
Proof.
  intros Hv Hk Hr. unfold receive_open in Hr. destruct (receive v stat) as [[[o|bs] v1]|] eqn:E; try done.
  apply receive_typed in E as (_ & Hv1 & _); [|done]. destruct (k o v1) as [v2| | |] eqn:Ek; try done.
  cbn in Hr. injection Hr as <-. by eapply Hk.
Qed.

Definition not_read (stat : fmi_status) : Prop := op_of (FMI_TAG stat) ≠ IBVIO_OP_READ.
Lemma reply_open stat o : not_read stat → reply_fits (FMI_TAG stat) (POpen o).
Proof. unfold not_read, reply_fits. intros H. by rewrite (proj2 (Z.eqb_neq _ _) H). Qed.

Lemma sopen_typed v g stat v' : server_typed v → not_read stat → ibvio_sopen v g stat = Done (Some v') → server_typed v'.
Proof.
  intros Hv Hs. apply receive_open_typed; [done|]. intros o v1 v2 Hv1 H. unfold os in H. inv_done.
  apply set_info_typed, send_typed; [|by apply reply_open]. by apply (os_typed v1 (OOpen (io_path o) (io_flags o) (io_mode o))).
Qed.
Lemma swrite_begin_typed v fd stat v' : server_typed v → ibvio_swrite_begin v fd stat = Done (Some v') → server_typed v'.
Proof. intros Hv. apply receive_open_typed; [done|]. intros o v1 v2 Hv1 H. inv_done. by apply set_info_typed. Qed.
Lemma sclose_typed v fd stat v' : server_typed v → not_read stat → ibvio_sclose v fd stat = Done (Some v') → server_typed v'.
Proof.
  intros Hv Hs. apply receive_open_typed; [done|]. intros o v1 v2 Hv1 H. unfold os in H.
  assert (Hv3 : ∀ r, server_typed (send (v1 <| sv_calls := sv_calls v1 ++ [OClose fd] |>) stat (POpen (o <| io_stat := r |>)))).
  { intros r. apply send_typed; [by apply (os_typed v1 (OClose fd))|by apply reply_open]. }
  destruct (_ =? 0); [|injection H as <-; by apply Hv3]. destruct (info_at _ fd) as [i| | |]; try done. cbn [obind] in H.
  destruct (cache i); [|done]. unfold clear_two in H. destruct (info_at _ (fd + 1)) as [i'| | |]; try done. cbn [obind] in H.
  injection H as <-. do 2 apply set_info_typed. by apply Hv3.
Qed.
Lemma swrite_chunk_typed v fd stat v' : server_typed v → op_of (FMI_TAG stat) = IBVIO_OP_WRITE_CHUNK →
  ibvio_swrite_chunk v fd stat = Done (Some v') → server_typed v'.
Proof.
  intros Hv Hs H. unfold ibvio_swrite_chunk in H. destruct (info_at v fd) as [i| | |]; try done. cbn [obind] in H.
  destruct (receive v stat) as [[[o|bs] v1]|] eqn:E; try done. apply receive_typed in E as (_ & Hv1 & _); [|done].
  destruct (cache_write _ _ _) as [i'| | |]; try done. cbn [obind] in H.
  destruct (ibvio_run_thread _ _) as [v2| | |] eqn:Er; try done. cbn [obind] in H. apply run_thread_typed in Er; [|by apply set_info_typed|done].
  destruct (_ =? _); injection H as <-; [by apply main_set_typed|done].
Qed.
Lemma sread_async_typed v fd stat v' : server_typed v → reads_file stat → ibvio_sread_async v fd stat = Done (Some v') → server_typed v'.
Proof.
  intros Hv Hs H. unfold ibvio_sread_async in H. destruct (info_at v fd) as [i| | |]; try done. cbn [obind] in H.
  destruct (ibvio_run_thread _ _) as [v2| | |] eqn:Er; try done. injection H as <-. by apply run_thread_typed in Er.
Qed.

Lemma main_step_typed v v' : server_typed v → main_step v l = Done (Some v') → server_typed v'.
Proof.
  intros Hv. pose proof Hv as [Hm _ Hin _]. unfold main_step. destruct (sv_main v) as [|w|fd stat] eqn:Em; [|done|].
  - destruct (sv_in v) as [|m ms] eqn:Ei; [done|]. apply Forall_cons in Hin as [Hfit _].
    destruct (ibvio_deserialize_tag (sm_tag m)) as [op fd] eqn:Ed.
    assert (Hop : op_of (sm_tag m) = op) by (unfold op_of; by rewrite Ed). unfold request_fits in Hfit. rewrite Hop in Hfit.
    assert (Hnr : op ≠ IBVIO_OP_READ → not_read (Status (sm_rank m) (sm_tag m))) by (intros ?; unfold not_read; cbn [FMI_TAG]; by rewrite Hop).
    unfold dispatch. repeat match goal with |- context [op =? ?x] => destruct (Z.eqb_spec op x) as [->|]; [|] end.
    + apply sopen_typed; [done|by apply Hnr].
    + destruct Hfit as [[Hf _]|[Hf _]]; [|done]. rewrite !elem_of_cons, elem_of_nil in Hf. by naive_solver.
    + by apply swrite_begin_typed.
    + by apply swrite_chunk_typed.
    + by apply sread_async_typed.
    + apply sclose_typed; [done|by apply Hnr].
    + done.
  - unfold swrite_chunk_end. destruct (info_at v fd) as [i| | |]; try done. cbn [obind]. destruct (_ =? _); [|done].
    intros [= <-]. apply main_set_typed; [|done]. apply send_typed; [by apply (os_typed v (OFsync fd))|].
    apply reply_open. unfold not_read. cbn [main_typed] in Hm. by rewrite Hm.
Qed.

Lemma lock_typed v fd (t' : thread_state) r : server_typed v →
  (i <- info_at v fd ;; l <- lock_info i ;; match l with Some i => Done (Some (Some t', set_info v fd i)) | None => Done None end) = Done (Some r) →
  r.1 = Some t' ∧ server_typed r.2.
Proof.
  intros Hv H. destruct (info_at v fd) as [i| | |]; try done. cbn [obind] in H.
  destruct (lock_info i) as [[i'|]| | |]; try done. injection H as <-. split; [done|by apply set_info_typed].
Qed.

Lemma thread_step_typed v t r : server_typed v → thread_typed t → thread_step v t = Done (Some r) →
  from_option thread_typed True r.1 ∧ server_typed r.2.
Proof.
  intros Hv Ht H. destruct t as [fd|fd size|fd stat|fd stat|fd stat o sent size rd]; cbn [thread_step ibvio_swrite_chunk_thread ibvio_sread] in H.
  - destruct (info_at v fd) as [i| | |]; try done. cbn [obind] in H.
    destruct (lock_info i) as [[i'|]| | |]; try done. injection H as <-. split; [done|by apply set_info_typed].
  - destruct (info_at v fd) as [i| | |]; try done. cbn [obind] in H.
    destruct (write_cache _ _ _ _ _) as [v1| | |] eqn:Ew; try done. apply write_cache_typed in Ew; [|done]. injection H as <-.
    split; [done|]. apply set_info_typed. by apply (os_typed v1 (OFsync (i32 (so_fd i)))).
  - apply lock_typed in H as [-> H2]; done.
  - destruct (receive v stat) as [[[o|bs] v1]|] eqn:Er; try done. apply receive_typed in Er as (_ & Hv1 & _); [|done].
    destruct (info_at v1 fd) as [i| | |]; try done. cbn [obind] in H.
    destruct (read_cache _ _ _ _ _) as [[i' v2]| | |] eqn:Erd; try done. apply read_cache_typed in Erd; [|done].
    injection H as <-. split; [done|by apply set_info_typed].
  - destruct (info_at v fd) as [i| | |]; try done. cbn [obind] in H.
    destruct (_ <? _); [|injection H as <-; split; [done|by apply set_info_typed]].
    destruct (c_int (sent + size)) as [sum| | |]; try done. cbn [obind] in H.
    destruct (if _ <? sum then _ else _) as [size'| | |]; try done. cbn [obind] in H.
    destruct (cache_read i sent size') as [bs| | |]; try done. cbn [obind] in H.
    assert (Hv1 : server_typed (send v stat (PData bs))).
    { apply send_typed; [done|]. unfold reply_fits. by rewrite Ht. }
    destruct (c_int (sent + size')) as [sent'| | |]; try done. cbn [obind] in H.
    destruct (rd <? _); [|by injection H as <-].
    destruct (read_cache _ _ _ _ _) as [[i' v2]| | |] eqn:Erd; try done. apply read_cache_typed in Erd; [|done]. cbn [obind] in H.
    destruct (c_int _) as [rd'| | |]; try done. injection H as <-. split; [done|by apply set_info_typed].
Qed.

Lemma run_thread_step_typed v k v' : server_typed v → run_thread v k = Done (Some v') → server_typed v'.
Proof.
  intros Hv H. unfold run_thread in H. destruct (sv_threads v !! k) as [t|] eqn:Et; [|done].
  destruct (thread_step v t) as [[[t' v1]|]| | |] eqn:Es; try done. cbn [obind] in H. injection H as <-.
  pose proof (Forall_lookup_1 _ _ _ _ (st_threads _ Hv) Et) as Ht. destruct (thread_step_typed _ _ _ Hv Ht Es) as [Ht' [Hm Hts Hin Ho]].
  split; try done. cbn in *. destruct t'; [by apply Forall_insert|by apply Forall_delete].
Qed.

(** *** The system *)
Lemma take_reply_in rank tag ms p rest :
  take_reply rank tag ms = Some (p, rest) →
  ∃ m, m ∈ ms ∧ (tag = FMI_ANY_TAG ∨ sm_tag m = tag) ∧ sm_data m = p ∧ ∀ x, x ∈ rest → x ∈ ms.
Proof.
  revert rest. induction ms as [|m ms IH]; intros rest; cbn [take_reply]; [done|].
  destruct (_ && _) eqn:E.
  - intros [= <- <-]. apply andb_true_iff in E as [_ E]. apply orb_true_iff in E. rewrite !Z.eqb_eq in E.
    exists m. split_and!; [by left|done|done|by right].
  - destruct (take_reply _ _ ms) as [[p' rest']|] eqn:E'; [|done]. intros [= <- <-].
    destruct (IH _ eq_refl) as (m' & ? & ? & ? & Hr). exists m'. split_and!; [by right|done|done|].
    intros x [->|?]%elem_of_cons; [by left|right; by apply Hr].
Qed.

Lemma sys_step_typed {R} host me (c c' : io R) v v' :
  io_typed c → server_typed v → sys_step l host me (Sys c v) (Sys c' v') → io_typed c' ∧ server_typed v'.
Proof.
  intros Hc Hv Hst. inversion Hst; subst.
  - inversion Hc; by subst.
  - inversion Hc; by subst.
  - inversion Hc; subst. split; [done|]. destruct Hv. split; try done. apply Forall_app. split; [done|]. by constructor.
  - match goal with H : take_reply _ _ _ = Some _ |- _ => apply take_reply_in in H as (m & Hm & Htag & <- & Hr) end. destruct Hv as [? ? ? Ho]. rewrite Forall_forall in Ho.
    inversion Hc as [| | | | | |source tag' k' Hk]; subst. split.
    + apply Hk. destruct Htag as [->| <-]; [by left|right]. by apply Ho.
    + split; try done. apply Forall_forall. intros x Hx. by apply Ho, Hr.
  - split; [done|]. by eapply main_step_typed.
  - split; [done|]. by eapply run_thread_step_typed.
Qed.

Lemma net_step_typed hosts s s' : net_typed s → net_step l hosts s s' → net_typed s'.
Proof.
  intros [Hcs Hv] Hst. destruct Hst as [i c c' cs v v' Hi Hst]. cbn [nt_clients nt_server] in *.
  destruct (sys_step_typed _ _ _ _ _ _ (Forall_lookup_1 _ _ _ _ Hcs Hi) Hv Hst) as [Hc' Hv']. split; [by apply Forall_insert|done].
Qed.

Lemma net_steps_typed hosts s s' : rtc (net_step l hosts) s s' → net_typed s → net_typed s'.
Proof. induction 1 as [|s s1 s2 Hst _ IH]; [done|]. intros Hs. by eapply IH, net_step_typed. Qed.
End types.

(** ** Programs made of the four calls

    What a program does next may depend on the results of the calls before. *)
Inductive file_prog :=
| FRet (r : Z)
| FOpen (c : client) (garbage : ibvio_open) (pathname : string) (flags mode : Z) (k : Z * client → file_prog)
| FWrite (c : client) (garbage : ibvio_open) (fd : Z) (buf : list Z) (count : Z) (k : Z → file_prog)
| FRead (c : client) (garbage : ibvio_open) (fd : Z) (buf : list Z) (count : Z) (k : Z * list Z → file_prog)
| FClose (c : client) (garbage : ibvio_open) (fd : Z) (k : Z → file_prog).

Fixpoint run_calls (p : file_prog) : io Z :=
  match p with
  | FRet r => Ret r
  | FOpen c garbage pathname flags mode k => do r <- ibtl_open c garbage pathname flags mode; run_calls (k r)
  | FWrite c garbage fd buf count k => do r <- ibtl_write c garbage fd buf count; run_calls (k r)
  | FRead c garbage fd buf count k => do r <- ibtl_read c garbage fd buf count; run_calls (k r)
  | FClose c garbage fd k => do r <- ibtl_close c garbage fd; run_calls (k r)
  end.

Lemma run_calls_follows p : follows SIdle (run_calls p).
Proof.
  induction p; cbn [run_calls]; [constructor|apply follows_bind..]; try done;
    [apply follows_open|apply follows_write|apply follows_read|apply follows_close].
Qed.

(** C19: the protocol of the remote files.  For any number of clients, each a
    program made of calls of [ibtl_open], [ibtl_write], [ibtl_read] and
    [ibtl_close] (not of [ibtl_dwrite], whose tag stands for both kinds of
    messages), and every interleaving with the server and its threads: each
    client keeps to the protocol [follows]; whatever the main loop or a thread
    of the server receives is of the kind it expects, a [struct ibvio_open] with
    the operations that take one and bytes with a chunk, and so is every answer
    a client takes by its tag; the server never gets into the loop of
    [ibvio_swrite]. *)
Theorem messages_well_typed `{OS} l hosts ps v s :
  at_rest v → rtc (net_step l hosts) (Net (map run_calls ps) v) s →
  Forall (follows SIdle) (map run_calls ps) ∧
  (∀ w, sv_main (nt_server s) ≠ Receiving w) ∧
  (∀ m, m ∈ sv_in (nt_server s) → request_fits (sm_tag m) (sm_data m)) ∧
  (∀ stat p v', receive (nt_server s) stat = Some (p, v') →
     is_open p = negb (op_of (FMI_TAG stat) =? IBVIO_OP_WRITE_CHUNK)) ∧
  (∀ rank tag p rest, take_reply rank tag (sv_out (nt_server s)) = Some (p, rest) → tag ≠ FMI_ANY_TAG →
     is_open p = negb (op_of tag =? IBVIO_OP_READ)).
Proof.
  intros (Hm & Hi & Ht & Ho) Hst.
  assert (Hf : Forall (follows SIdle) (map run_calls ps)).
  { apply Forall_forall. intros c Hc. apply list_elem_of_In in Hc. apply in_map_iff in Hc as (p & <- & _). apply run_calls_follows. }
  assert (Hs : net_typed s).
  { eapply net_steps_typed; [done|]. split; [by eapply Forall_impl; [exact Hf|apply follows_typed]|].
    by split; cbn [nt_server]; rewrite ?Hm, ?Ht, ?Hi, ?Ho. }
  split; [exact Hf|]. destruct Hs as [_ Hv]. split_and!.
  - intros w E. pose proof (st_main _ Hv) as Hmain. by rewrite E in Hmain.
  - pose proof (st_in _ Hv) as Hin. by rewrite Forall_forall in Hin.
  - intros stat p v' Hr. apply receive_typed in Hr as [Hfit _]; [|done]. destruct Hfit as [[Hop ->]|[-> ->]]; [|done].
    rewrite (proj2 (Z.eqb_neq _ _)); [done|]. intros E. rewrite E, !elem_of_cons, elem_of_nil in Hop. by naive_solver.
  - intros rank tag p rest Hr Htag. apply take_reply_in in Hr as (m & Hm' & Ht' & <- & _).
    destruct Ht' as [?| <-]; [done|]. pose proof (st_out _ Hv) as Hout. rewrite Forall_forall in Hout. by apply Hout.
Qed.

(** Two clients that each write a file, read it and close it; the second has
    sent its first message. *)
Definition one_writer (path : string) (bs : list Z) : file_prog :=
  FOpen fresh_client sample_iopen path 66 448 (λ '(fd, c),
  FWrite c sample_iopen fd bs 2 (λ _, FRead c sample_iopen fd bs 2 (λ _, FClose c sample_iopen fd FRet))).
Definition two_writers : list file_prog := [one_writer "rkm00:/tmp/a" [1; 2]; one_writer "rkm00:/tmp/b" [3; 4]].

Lemma messages_well_typed_witness :
  ∃ s, rtc (net_step sample_locals (λ _, 0)) (Net (map run_calls two_writers) fresh_server) s ∧
    length (sv_in (nt_server s)) = 1%nat ∧
    (∀ m, m ∈ sv_in (nt_server s) → request_fits (sm_tag m) (sm_data m)) ∧
    Forall (follows SIdle) (map run_calls two_writers).
Proof.
  eexists. match goal with |- ?A ∧ ?B ∧ ?C ∧ ?E => assert (Hrun : A) end.
  { eapply rtc_l; [eapply (net_move _ _ 1); [reflexivity|apply step_init]|].
    eapply rtc_l; [eapply (net_move _ _ 1); [reflexivity|apply step_connect]|].
    eapply rtc_l; [eapply (net_move _ _ 1); [reflexivity|apply step_send]|]. apply rtc_refl. }
  split; [exact Hrun|]. split; [reflexivity|].
  destruct (messages_well_typed sample_locals (λ _, 0) two_writers fresh_server _ ltac:(by split_and!) Hrun)
    as (Hf & _ & Hin & _). split; [exact Hin|exact Hf].
Defined.
