(* ===== verification/IbioClients.v ===== *)
(** * src/examples: writes of several clients at once

    Any number of clients write, each to a file of its own, while the server has
    one main loop and a thread for each chunk.  Each client is followed in its
    view of the server: the messages from and to it, the threads and the entry of
    its file, and the bytes of the file; what the server does for another client
    leaves the view as it is. *)
From S2P Require Import Prelude Fairness Mem Queue Datatype ProcMan State Ibio IbioServer IbioSession IbioProgram IbioNet.

(** ** The view of a client *)
Definition thread_fd (t : thread_state) : Z :=
  match t with
  | TChunk fd | TWriting fd _ | TRead fd _ | TReadLocked fd _ | TReading fd _ _ _ _ _ => fd
  end.
Definition from_to (me : Z) (ms : list smsg) : list smsg := filter (λ m, sm_rank m = me) ms.
Definition threads_on (fd : Z) (ts : list thread_state) : list thread_state := filter (λ t, thread_fd t = fd) ts.
#[global] Arguments from_to : simpl never.
#[global] Arguments threads_on : simpl never.

Record same_view `{OS} (me fd : Z) (v v' : server) : Prop := {
  sm_in : from_to me (sv_in v') = from_to me (sv_in v);
  sm_out : from_to me (sv_out v') = from_to me (sv_out v);
  sm_threads : threads_on fd (sv_threads v') = threads_on fd (sv_threads v);
  sm_info : sv_open v' !! fd = sv_open v !! fd;
  sm_bytes : file_bytes fd [] (sv_calls v') = file_bytes fd [] (sv_calls v);
}.
(** Nobody else sees a difference. *)
Definition concerns_only `{OS} (me fd : Z) (v v' : server) : Prop :=
  ∀ me' fd', me' ≠ me → fd' ≠ fd → same_view me' fd' v v'.

Lemma from_to_app me a b : from_to me (a ++ b) = from_to me a ++ from_to me b.
Proof. apply filter_app. Qed.
Lemma from_to_here me tag p : from_to me [SMsg me tag p] = [SMsg me tag p].
Proof. unfold from_to. by rewrite filter_cons_True. Qed.
Lemma from_to_other me m : sm_rank m ≠ me → from_to me [m] = [].
Proof. intros H. unfold from_to. by rewrite filter_cons_False. Qed.
Lemma from_to_cons_other me m ms : sm_rank m ≠ me → from_to me (m :: ms) = from_to me ms.
Proof. intros H. unfold from_to. by rewrite filter_cons_False. Qed.
Lemma from_to_cons_here me m ms : sm_rank m = me → from_to me (m :: ms) = m :: from_to me ms.
Proof. intros H. unfold from_to. by rewrite filter_cons_True. Qed.
Lemma threads_on_app fd a b : threads_on fd (a ++ b) = threads_on fd a ++ threads_on fd b.
Proof. apply filter_app. Qed.
Lemma threads_on_here fd t : thread_fd t = fd → threads_on fd [t] = [t].
Proof. intros H. unfold threads_on. by rewrite filter_cons_True. Qed.
Lemma threads_on_other fd t : thread_fd t ≠ fd → threads_on fd [t] = [].
Proof. intros H. unfold threads_on. by rewrite filter_cons_False. Qed.
Lemma insert_middle {A} (a b : list A) x y : <[length a := y]> (a ++ x :: b) = a ++ y :: b.
Proof. rewrite insert_app_r_alt by lia. by rewrite Nat.sub_diag. Qed.

(** ** One of the writes *)

(** [WServing s r w lk]: [s] chunks have been sent, [r] received and [w]
    written, and a thread is writing when [lk]. *)
Inductive wphase :=
| WStart
| WHeader (s : nat)
| WServing (s r w : nat) (lk : bool)
| WReplied
| WEnded.
#[export] Instance wphase_eq_dec : EqDecision wphase.
Proof. solve_decision. Defined.

Section one.
Context {HOS : OS} (Hos : os_works) (l : locals) (host me fd : Z).
Context (n : Z) (buf : list Z) (Hn : 0 < n ≤ BUF_SIZE) (Hbuf : n = Z.of_nat (length buf)) (Hfd : 0 ≤ fd < 2 ^ 15).
Context (garbage : ibvio_open) (b0 : list Z).
Implicit Types (v : server).
Local Notation K := (chunks n).
Local Notation chunk_tag := (tag_of fd IBVIO_OP_WRITE_CHUNK).
Local Notation size w := (bound n (S w) - bound n w).

Definition client_in (ph : wphase) : io Z :=
  match ph with
  | WStart => SendWait host (tag_of fd IBVIO_OP_WRITE_BEGIN) (POpen (garbage <| io_count := i32 n |>)) (client_at host fd n buf 0)
  | WHeader s | WServing s _ _ _ => client_at host fd n buf s
  | WReplied => finish host
  | WEnded => Ret (io_stat (l_iopen l))
  end.
Definition valid_phase (ph : wphase) : Prop :=
  match ph with
  | WHeader s => (s ≤ K)%nat
  | WServing s r w lk => (w ≤ r ≤ s)%nat ∧ (s ≤ K)%nat ∧ (lk = true → (w < r)%nat)
  | _ => True
  end.
Definition in_of (ph : wphase) : list smsg :=
  match ph with
  | WHeader s => begin_msg me fd n garbage :: chunk_msgs me fd n buf 0 s
  | WServing s r _ _ => chunk_msgs me fd n buf r (s - r)
  | _ => []
  end.
Definition out_of (ph : wphase) : list smsg :=
  match ph with WReplied => [SMsg me chunk_tag (POpen (l_iopen l))] | _ => [] end.
Definition threads_in (ph : wphase) : list thread_state :=
  match ph with
  | WServing _ r w lk =>
      if lk then TWriting fd (size w) :: replicate (r - S w) (TChunk fd) else replicate (r - w) (TChunk fd)
  | _ => []
  end.
Definition written (ph : wphase) : nat :=
  match ph with WStart | WHeader _ => 0 | WServing _ _ w _ => w | WReplied | WEnded => K end.
Definition info_in (ph : wphase) (o : option sopen_info) : Prop :=
  ∃ i c, o = Some i ∧ so_fd i = fd ∧ cache i = Some c ∧
    match ph with
    | WServing _ r w lk => write_count i = n ∧ current_recv_size i = bound n r ∧ current_write_count i = bound n w ∧
        fastmutex i = (if lk then Locked else Unlocked) ∧ cached n buf c r
    | _ => fastmutex i = Unlocked
    end.

Record writing (ph : wphase) (v : server) : Prop := {
  wr_valid : valid_phase ph;
  wr_in : from_to me (sv_in v) = in_of ph;
  wr_out : from_to me (sv_out v) = out_of ph;
  wr_threads : threads_on fd (sv_threads v) ≡ₚ threads_in ph;
  wr_info : info_in ph (sv_open v !! fd);
  wr_bytes : file_bytes fd [] (sv_calls v) = b0 ++ take (Z.to_nat (bound n (written ph))) buf;
}.

(** The server is to answer this client next. *)
Definition answering (ph : wphase) : bool := match ph with WServing _ r _ _ => (r =? K)%nat | _ => false end.
(** The steps made for it. *)
Definition steps_of (ph : wphase) : nat :=
  match ph with
  | WStart => 0
  | WHeader s => 1 + s
  | WServing s r w lk => 2 + s + r + 2 * w + (if lk then 1 else 0)
  | WReplied => 4 * K + 3
  | WEnded => 4 * K + 4
  end.

Lemma writing_same ph v v' : same_view me fd v v' → writing ph v → writing ph v'.
Proof. intros [] []. by split; congruence || rewrite ?sm_threads0, ?sm_info0. Qed.

Lemma steps_of_max ph : valid_phase ph → (steps_of ph ≤ 4 * K + 4)%nat.
Proof using Type. clear. destruct ph as [|s|s r w lk| |]; cbn; try lia. destruct lk; lia. Qed.

(** The client is in a transfer or has returned. *)
Lemma client_in_transfers ph : valid_phase ph →
  match client_in ph with
  | Ret _ => ph = WEnded
  | SendWait dest _ _ _ => dest = host
  | RecvWait source _ _ => source = host
  | _ => False
  end.
Proof.
  destruct ph as [|s|s r w lk| |]; try done; cbn; intros Hv.
  - by destruct (client_at_cases host fd n buf Hn Hbuf s Hv) as [[_ ->]|[_ ->]].
  - by destruct (client_at_cases host fd n buf Hn Hbuf s ltac:(lia)) as [[_ ->]|[_ ->]].
Qed.

(** *** The client moves *)
Lemma writing_send ph v tag p k : writing ph v → client_in ph = SendWait host tag p k →
  ∃ ph', client_in ph' = k ∧ writing ph' (v <| sv_in := sv_in v ++ [SMsg me tag p] |>) ∧
    steps_of ph' = S (steps_of ph) ∧ answering ph' = answering ph.
Proof.
  intros [Hv Hin Ho Ht Hi Hb] Hc. destruct ph as [|s|s r w lk| |]; try done.
  - injection Hc as <- <- <-. exists (WHeader 0). split; [done|]. split; [|done]. split; try done; [cbn; lia|].
    cbn. by rewrite from_to_app, Hin, from_to_here.
  - cbn in Hc, Hv. destruct (client_at_cases host fd n buf Hn Hbuf s Hv) as [[Hlt E]|[-> E]]; rewrite E in Hc; [|done].
    injection Hc as <- <- <-. exists (WHeader (S s)). split; [done|]. split; [|done]. split; try done. cbn [sv_in set_field in_of].
    rewrite from_to_app, Hin, from_to_here, <- (chunk_msgs_snoc me fd n buf 0 s). done.
  - cbn in Hc, Hv. destruct (client_at_cases host fd n buf Hn Hbuf s ltac:(lia)) as [[Hlt E]|[-> E]]; rewrite E in Hc; [|done].
    injection Hc as <- <- <-. exists (WServing (S s) r w lk). split; [done|]. split; [|done].
    split; try done; [cbn; split_and!; [lia..|apply Hv]|]. cbn [sv_in set_field in_of]. rewrite from_to_app, Hin, from_to_here. cbn [in_of].
    replace (S s - r)%nat with (S (s - r)) by lia. rewrite <- chunk_msgs_snoc.
    by replace (r + (s - r))%nat with s by lia.
Qed.

Lemma take_reply_none tag ms : from_to me ms = [] → take_reply me tag ms = None.
Proof.
  induction ms as [|m ms IH]; [done|]. cbn [take_reply]. destruct (Z.eqb_spec (sm_rank m) me) as [E|E].
  - by rewrite from_to_cons_here.
  - rewrite from_to_cons_other by done. intros H. cbn [andb]. by rewrite IH.
Qed.
Lemma take_reply_one tag p ms : from_to me ms = [SMsg me tag p] →
  ∃ rest, take_reply me FMI_ANY_TAG ms = Some (p, rest) ∧ from_to me rest = [] ∧
    ∀ me', me' ≠ me → from_to me' rest = from_to me' ms.
Proof.
  induction ms as [|m ms IH]; [done|]. cbn [take_reply]. destruct (Z.eqb_spec (sm_rank m) me) as [E|E].
  - rewrite from_to_cons_here by done. intros [= -> Hms]. cbn [andb]. rewrite Z.eqb_refl. cbn [orb sm_data].
    exists ms. split_and!; [done|done|]. intros me' Hme. by rewrite from_to_cons_other.
  - rewrite from_to_cons_other by done. intros H. cbn [andb]. destruct (IH H) as (rest & -> & H1 & H2).
    exists (m :: rest). split; [done|]. split; [by rewrite from_to_cons_other|]. intros me' Hme.
    destruct (decide (sm_rank m = me')); [rewrite !from_to_cons_here|rewrite !from_to_cons_other]; try done; [f_equal|]; by apply H2.
Qed.

Lemma writing_recv ph v tag k p rest : writing ph v → client_in ph = RecvWait host tag k → take_reply me tag (sv_out v) = Some (p, rest) →
  ph = WReplied ∧ client_in WEnded = k p ∧ writing WEnded (v <| sv_out := rest |>) ∧ concerns_only me fd v (v <| sv_out := rest |>).
Proof.
  intros [Hv Hin Ho Ht Hi Hb] Hc Hp. assert (ph = WReplied) as ->.
  { destruct ph as [|s|s r w lk| |]; try done; cbn in Ho; by rewrite take_reply_none in Hp. }
  injection Hc as <- <-. destruct (take_reply_one _ _ _ Ho) as (rest' & E & H1 & H2). rewrite E in Hp. injection Hp as <- <-.
  split; [done|]. split; [done|]. split; [by split|]. intros me' fd' Hme _. split; try done. cbn. by apply H2.
Qed.

(** *** The main loop moves *)
Lemma main_takes_header s v m ms : writing (WHeader s) v → sv_main v = Probing → sv_in v = m :: ms → sm_rank m = me →
  ∃ v', main_step v l = Done (Some v') ∧ writing (WServing s 0 0 false) v' ∧ concerns_only me fd v v' ∧
    sv_in v' = ms ∧ sv_threads v' = sv_threads v ∧ sv_main v' = Probing.
Proof.
  intros [Hv Hin Ho Ht Hi Hb] Hm Hms Hr. rewrite Hms, from_to_cons_here in Hin by done. injection Hin as -> Hin.
  destruct Hi as (i & c & Hi & Hso & Hc & Hmx).
  rewrite (main_probe l me fd Hfd v IBVIO_OP_WRITE_BEGIN _ _ Hm Hms) by (unfold IBVIO_OP_WRITE_BEGIN; lia).
  change (dispatch v l IBVIO_OP_WRITE_BEGIN fd) with (ibvio_swrite_begin v fd). unfold ibvio_swrite_begin, receive_open.
  rewrite (receive_head _ _ _ _ _ Hms), (info_at_ok fd Hfd _ i) by done. cbn [obind].
  eexists. split; [reflexivity|]. pose proof (chunks_pos Hn). split; [|split; [|done]].
  - split; try done.
    + cbn in Hv |- *. lia.
    + cbn. rewrite Nat.sub_0_r. exact Hin.
    + cbn [sv_open set_info set_field]. rewrite lookup_insert_eq. eexists _, c. split_and!; try done; cbn.
      * rewrite i32_id by (unfold is_int, INT_MIN, INT_MAX, BUF_SIZE in *; lia). apply u64_id. unfold BUF_SIZE in *. lia.
      * by rewrite (bound_0 Hn).
      * by rewrite (bound_0 Hn).
      * intros j. rewrite (bound_0 Hn). lia.
  - intros me' fd' Hme Hfd'. split; try done; cbn.
    + by rewrite Hms, from_to_cons_other.
    + by rewrite lookup_insert_ne.
Qed.

Lemma main_takes_chunk s r w lk v m ms : writing (WServing s r w lk) v → sv_main v = Probing → sv_in v = m :: ms → sm_rank m = me →
  ∃ v', main_step v l = Done (Some v') ∧ writing (WServing s (S r) w lk) v' ∧ concerns_only me fd v v' ∧
    sv_in v' = ms ∧ sv_threads v' = sv_threads v ++ [TChunk fd] ∧
    sv_main v' = if decide (S r = K) then Spinning fd (Status me chunk_tag) else Probing.
Proof.
  intros [Hv Hin Ho Ht Hi Hb] Hm Hms Hr. cbn [valid_phase] in Hv.
  assert (Hlt : (r < s)%nat).
  { destruct (decide (r < s)%nat); [done|]. cbn [in_of] in Hin. replace (s - r)%nat with 0%nat in Hin by lia.
    by rewrite Hms, from_to_cons_here in Hin. }
  cbn [in_of] in Hin. replace (s - r)%nat with (S (s - S r)) in Hin by lia.
  change (from_to me (sv_in v) = SMsg me chunk_tag (PData (chunk n buf r)) :: chunk_msgs me fd n buf (S r) (s - S r)) in Hin.
  rewrite Hms, from_to_cons_here in Hin by done. injection Hin as -> Hin.
  destruct Hi as (i & c & Hi & Hso & Hc & Hwc & Hrs & Hcw & Hmx & Hca).
  rewrite (main_probe l me fd Hfd v IBVIO_OP_WRITE_CHUNK _ _ Hm Hms) by (unfold IBVIO_OP_WRITE_CHUNK; lia).
  change (dispatch v l IBVIO_OP_WRITE_CHUNK fd) with (ibvio_swrite_chunk v fd). unfold ibvio_swrite_chunk.
  rewrite (info_at_ok fd Hfd _ i Hi). cbn [obind]. rewrite (receive_head _ _ _ _ _ Hms), Hrs, Hwc.
  rewrite (cache_write_ok Hn Hbuf i c) by (done || lia). cbn [obind]. cbn [current_recv_size set_field].
  rewrite Hrs, (chunk_of_ok Hn) by lia. rewrite Zplus_minus. pose proof (bound_range Hn (S r)).
  rewrite (u64_id (bound n (S r))) by (unfold BUF_SIZE in *; lia).
  unfold ibvio_run_thread, os. rewrite (ow_create Hos). cbn [Z.eqb negb]. rewrite (ow_detach Hos). cbn [Z.eqb negb obind].
  cbn [write_count set_field]. rewrite Hwc, (bound_eq_last Hn) by lia. rewrite bool_decide_decide.
  match goal with |- ∃ v', Done (Some (if _ then set_field _ _ ?x else _)) = _ ∧ _ => set (v1 := x) end.
  assert (Hlog : ∀ f, file_bytes f [] (sv_calls v1) = file_bytes f [] (sv_calls v)).
  { intros f. change (sv_calls v1) with ((sv_calls v ++ [OThreadCreate]) ++ [OThreadDetach]). by rewrite !file_bytes_other. }
  assert (Hw1 : writing (WServing s (S r) w lk) v1).
  { split; try done; [cbn; split_and!; [lia..|]; intros; lia| | |by rewrite Hlog].
    - change (sv_threads v1) with (sv_threads v ++ [TChunk fd]). rewrite threads_on_app, threads_on_here, Ht by done.
      cbn [threads_in]. destruct lk.
      + specialize (proj2 (proj2 Hv) eq_refl) as Hwr. replace (S r - S w)%nat with (S (r - S w)) by lia. by rewrite replicate_S_end.
      + replace (S r - w)%nat with (S (r - w)) by lia. by rewrite replicate_S_end.
    - eexists _, _. split; [apply lookup_insert_eq|]. split_and!; try done. apply (cached_store Hn Hbuf); [done|lia]. }
  assert (Hc1 : concerns_only me fd v v1).
  { intros me' fd' Hme Hfd'. split; [..|by apply Hlog]; try done.
    - change (sv_in v1) with ms. by rewrite Hms, from_to_cons_other.
    - change (sv_threads v1) with (sv_threads v ++ [TChunk fd]).
      rewrite threads_on_app, threads_on_other by (cbn; congruence). by rewrite app_nil_r.
    - cbn. by rewrite lookup_insert_ne. }
  eexists. split; [reflexivity|]. destruct (decide (S r = K)) as [E|E]; [|done].
  split; [by destruct Hw1|]. split; [|done]. intros me' fd' Hme Hfd'. by destruct (Hc1 me' fd' Hme Hfd').
Qed.

Lemma main_answers s w lk v : writing (WServing s K w lk) v → sv_main v = Spinning fd (Status me chunk_tag) →
  if decide (w = K)
  then ∃ v', main_step v l = Done (Some v') ∧ writing WReplied v' ∧ concerns_only me fd v v' ∧ sv_in v' = sv_in v ∧
         sv_threads v' = sv_threads v ∧ sv_main v' = Probing ∧ lk = false ∧ s = K
  else main_step v l = Done None.
Proof.
  intros [Hv Hin Ho Ht Hi Hb] Hm. cbn [valid_phase] in Hv. destruct Hi as (i & c & Hi & Hso & Hc & Hwc & Hrs & Hcw & Hmx & Hca).
  unfold main_step. rewrite Hm. unfold swrite_chunk_end. rewrite (info_at_ok fd Hfd _ i Hi). cbn [obind].
  rewrite Hcw, Hwc, (bound_eq_last Hn) by lia. rewrite bool_decide_decide. destruct (decide (w = K)) as [->|Hne]; [|done].
  assert (lk = false) as -> by (destruct lk; [specialize (proj2 (proj2 Hv) eq_refl); lia|done]).
  assert (s = K) as -> by lia. cbn [in_of threads_in] in Hin, Ht. rewrite Nat.sub_diag in Hin, Ht.
  eexists. split; [reflexivity|]. split; [|split; [|done]].
  - split; try done.
    + cbn. by rewrite from_to_app, Ho, from_to_here.
    + exists i, c. by split_and!.
    + cbn [sv_calls set_field send snd os]. by rewrite file_bytes_other.
  - intros me' fd' Hme Hfd'. split; try done.
    + cbn. rewrite from_to_app, from_to_other by (cbn; congruence). by rewrite app_nil_r.
    + cbn [sv_calls set_field send snd os]. by rewrite file_bytes_other.
Qed.

(** *** A thread moves *)
Lemma threads_on_middle a t b : thread_fd t = fd → threads_on fd (a ++ t :: b) ≡ₚ t :: threads_on fd (a ++ b).
Proof.
  intros H. change (t :: b) with ([t] ++ b). rewrite !threads_on_app, threads_on_here by done. by rewrite Permutation_middle.
Qed.
Lemma threads_on_middle_other fd' a t b : thread_fd t ≠ fd' → threads_on fd' (a ++ t :: b) = threads_on fd' (a ++ b).
Proof. intros H. change (t :: b) with ([t] ++ b). by rewrite !threads_on_app, threads_on_other. Qed.

Lemma thread_in_phase ph v k t : writing ph v → sv_threads v !! k = Some t → thread_fd t = fd →
  ∃ s r w lk, ph = WServing s r w lk ∧ (w < r)%nat ∧ (t = TChunk fd ∨ lk = true ∧ t = TWriting fd (size w)).
Proof.
  intros [Hv _ _ Ht _ _] Hk Hfd'. assert (Hin : t ∈ threads_in ph).
  { rewrite <- Ht. unfold threads_on. apply list_elem_of_filter. split; [done|]. by eapply list_elem_of_lookup_2. }
  destruct ph as [|s|s r w lk| |]; cbn [threads_in valid_phase] in *; try (by apply elem_of_nil in Hin).
  exists s, r, w, lk. split; [done|]. destruct lk.
  - split; [by apply Hv|]. apply elem_of_cons in Hin as [->|Hin]; [by right|]. apply elem_of_replicate in Hin as [-> _]. by left.
  - apply elem_of_replicate in Hin as [-> Hne]. split; [lia|by left].
Qed.

Lemma thread_locks s r w v k : writing (WServing s r w false) v → sv_threads v !! k = Some (TChunk fd) → (w < r)%nat →
  ∃ v', run_thread v k = Done (Some v') ∧ writing (WServing s r w true) v' ∧ concerns_only me fd v v' ∧
    sv_in v' = sv_in v ∧ sv_main v' = sv_main v ∧ sv_threads v' = <[k := TWriting fd (size w)]> (sv_threads v).
Proof.
  intros [Hv Hin Ho Ht Hi Hb] Hk Hwr. cbn [valid_phase] in Hv. destruct Hi as (i & c & Hi & Hso & Hc & Hwc & Hrs & Hcw & Hmx & Hca).
  unfold run_thread. rewrite Hk. cbn [thread_step ibvio_swrite_chunk_thread]. rewrite (info_at_ok fd Hfd _ i Hi). cbn [obind].
  unfold lock_info. rewrite Hmx. cbn [obind current_write_count write_count set_field]. rewrite Hcw, Hwc, (chunk_of_ok Hn) by lia.
  eexists. split; [reflexivity|]. apply list_elem_of_split_length in Hk as (a & b & E & ->).
  match goal with |- writing _ ?x ∧ _ => set (v1 := x) end.
  assert (Ht1 : sv_threads v1 = a ++ TWriting fd (size w) :: b) by (subst v1; cbn; by rewrite E, insert_middle).
  rewrite Ht1, E, insert_middle. split; [|split; [|done]].
  - split; try done.
    + cbn. by split_and!; try lia.
    + rewrite Ht1, threads_on_middle by done. cbn [threads_in]. constructor. apply (Permutation_cons_inv (a:=TChunk fd)).
      rewrite <- (threads_on_middle _ (TChunk fd)), <- E by done. rewrite Ht. cbn [threads_in].
      by replace (r - w)%nat with (S (r - S w)) by lia.
    + eexists _, c. split; [apply lookup_insert_eq|]. by split_and!.
  - intros me' fd' Hme Hfd'. split; try done.
    + by rewrite Ht1, E, !threads_on_middle_other by (cbn; congruence).
    + cbn. by rewrite lookup_insert_ne.
Qed.

Lemma thread_writes s r w v k : writing (WServing s r w true) v → sv_threads v !! k = Some (TWriting fd (size w)) →
  ∃ v', run_thread v k = Done (Some v') ∧ writing (WServing s r (S w) false) v' ∧ concerns_only me fd v v' ∧
    sv_in v' = sv_in v ∧ sv_main v' = sv_main v ∧ sv_threads v' = delete k (sv_threads v).
Proof.
  intros [Hv Hin Ho Ht Hi Hb] Hk. cbn [valid_phase] in Hv. specialize (proj2 (proj2 Hv) eq_refl) as Hwr.
  destruct Hi as (i & c & Hi & Hso & Hc & Hwc & Hrs & Hcw & Hmx & Hca).
  unfold run_thread. rewrite Hk. cbn [thread_step ibvio_swrite_chunk_thread]. rewrite (info_at_ok fd Hfd _ i Hi). cbn [obind].
  unfold write_cache. rewrite Hcw, (cache_read_ok Hn i c r w) by (done || lia). cbn [obind]. unfold os at 1.
  rewrite (ow_write Hos), (proj2 (Z.ltb_ge _ _)) by lia. cbn [obind]. pose proof (bound_range Hn (S w)).
  rewrite Zplus_minus, Hso, i32_id, u64_id by (unfold is_int, INT_MIN, INT_MAX, BUF_SIZE in *; lia).
  eexists. split; [reflexivity|]. apply list_elem_of_split_length in Hk as (a & b & E & ->).
  match goal with |- writing _ ?x ∧ _ => set (v1 := x) end.
  assert (Ht1 : sv_threads v1 = a ++ b) by (subst v1; cbn; by rewrite E, delete_middle).
  assert (Hl1 : sv_calls v1 = (sv_calls v ++ [OWrite fd (chunk n buf w)]) ++ [OFsync fd]) by done.
  rewrite Ht1, E, delete_middle. split; [|split; [|done]].
  - split; try done.
    + cbn. split_and!; [lia..|done].
    + rewrite Ht1. apply (Permutation_cons_inv (a:=TWriting fd (size w))). by rewrite <- threads_on_middle, <- E, Ht.
    + eexists _, c. split; [apply lookup_insert_eq|]. by split_and!.
    + rewrite Hl1, file_bytes_other, (file_bytes_write Hos), Hb by done. cbn [written].
      by rewrite (take_chunk Hn), (assoc_L (++)) by lia.
  - intros me' fd' Hme Hfd'. split; try done.
    + by rewrite Ht1, E, threads_on_middle_other by (cbn; congruence).
    + cbn. by rewrite lookup_insert_ne.
    + rewrite Hl1, file_bytes_other, file_bytes_app by done. cbn [file_bytes]. rewrite (proj2 (Z.eqb_neq _ _)) by done. by rewrite app_nil_r.
Qed.

(** A thread that finds the mutex taken waits. *)
Lemma thread_blocked s r w v k : writing (WServing s r w true) v → sv_threads v !! k = Some (TChunk fd) → run_thread v k = Done None.
Proof.
  intros [Hv Hin Ho Ht Hi Hb] Hk. destruct Hi as (i & c & Hi & Hso & Hc & Hwc & Hrs & Hcw & Hmx & Hca).
  unfold run_thread. rewrite Hk. cbn [thread_step ibvio_swrite_chunk_thread]. rewrite (info_at_ok fd Hfd _ i Hi). cbn [obind].
  unfold lock_info. by rewrite Hmx.
Qed.

Lemma thread_moves ph v k t : writing ph v → sv_threads v !! k = Some t → thread_fd t = fd →
  run_thread v k = Done None ∨
  ∃ v' ph', run_thread v k = Done (Some v') ∧ writing ph' v' ∧ concerns_only me fd v v' ∧ sv_in v' = sv_in v ∧ sv_main v' = sv_main v ∧
    (∀ x, x ∈ sv_threads v' → x ∈ sv_threads v ∨ thread_fd x = fd) ∧ steps_of ph' = S (steps_of ph) ∧ answering ph' = answering ph ∧ client_in ph' = client_in ph.
Proof.
  intros H Hk Hf. destruct (thread_in_phase _ _ _ _ H Hk Hf) as (s & r & w & lk & -> & Hwr & Hcase). destruct lk.
  - destruct Hcase as [->|[_ ->]]; [left; by eapply thread_blocked|right].
    destruct (thread_writes _ _ _ _ _ H Hk) as (v' & E & H' & Hc & Hi & Hm & Ht). eexists _, _. split_and!; try done; [|cbn; lia].
    rewrite Ht. intros x Hx. left. eapply elem_of_submseteq; [exact Hx|]. apply sublist_submseteq, sublist_delete.
  - destruct Hcase as [->|[? _]]; [|done]. right.
    destruct (thread_locks _ _ _ _ _ H Hk Hwr) as (v' & E & H' & Hc & Hi & Hm & Ht). eexists _, _. split_and!; try done; [|cbn; lia].
    rewrite Ht. intros x Hx. apply list_elem_of_lookup_1 in Hx as [j Hj].
    apply list_lookup_insert_Some in Hj as [(_ & <- & _)|[_ Hj]]; [by right|left; by eapply list_elem_of_lookup_2].
Qed.

(** While a chunk has not been written a thread can move. *)
Lemma thread_can_move s r w lk v : writing (WServing s r w lk) v → (w < r)%nat → ∃ k v', run_thread v k = Done (Some v').
Proof.
  intros H Hwr. pose proof (wr_threads _ _ H) as Ht.
  assert (Hin : ∀ t, t ∈ threads_in (WServing s r w lk) → ∃ k, sv_threads v !! k = Some t).
  { intros t Hin. rewrite <- Ht in Hin. apply list_elem_of_filter in Hin as [_ Hin]. by apply list_elem_of_lookup_1. }
  destruct lk; cbn [threads_in] in Hin.
  - destruct (Hin (TWriting fd (size w))) as [k Hk]; [by left|]. exists k.
    destruct (thread_writes _ _ _ _ _ H Hk) as (v' & E & _). by exists v'.
  - destruct (Hin (TChunk fd)) as [k Hk]; [apply elem_of_replicate; split; [done|lia]|]. exists k.
    destruct (thread_locks _ _ _ _ _ H Hk Hwr) as (v' & E & _). by exists v'.
Qed.
End one.

(** ** All of them *)

(** What a client does: [ibtl_write] of the buffer to the file. *)
Record job := Job { j_client : client; j_garbage : ibvio_open; j_fd : Z; j_buf : list Z }.
Definition j_size (j : job) : Z := Z.of_nat (length (j_buf j)).
Definition j_program (j : job) : io Z := ibtl_write (j_client j) (j_garbage j) (j_fd j) (j_buf j) (j_size j).

Record job_ok (host : Z) (j : job) : Prop := {
  jo_size : 0 < j_size j ≤ BUF_SIZE;
  jo_fd : 0 ≤ j_fd j < 2 ^ 15;
  jo_host : aget (host_ids (j_client j)) (j_fd j) = Done host;
}.

(** A client, the main loop or a thread goes wrong. *)
Definition net_fault `{OS} (l : locals) (s : net) : Prop :=
  (∃ i, nt_clients s !! i = Some Fault ∨ nt_clients s !! i = Some Unfinished) ∨
  (∀ r, main_step (nt_server s) l ≠ Done r) ∨ ∃ k, ∀ r, run_thread (nt_server s) k ≠ Done r.

Section many.
Context {HOS : OS} (Hos : os_works) (l : locals) (hosts : nat → Z) (jobs : list job) (v0 : server).
Context (Hjobs : ∀ i j, jobs !! i = Some j → job_ok (hosts i) j ∧ idle (j_fd j) v0).
Context (Hdistinct : ∀ i i' j j', jobs !! i = Some j → jobs !! i' = Some j' → j_fd j = j_fd j' → i = i').
Implicit Types (v : server) (phs : list wphase).

Definition job_writing (i : nat) (j : job) (ph : wphase) (v : server) : Prop :=
  writing l (Z.of_nat i + 1) (j_fd j) (j_size j) (j_buf j) (j_garbage j) (file_bytes (j_fd j) [] (sv_calls v0)) ph v.
Definition job_client (i : nat) (j : job) (ph : wphase) : io Z :=
  client_in l (hosts i) (j_fd j) (j_size j) (j_buf j) (j_garbage j) ph.
Definition total phs : nat := sum_list (zip_with (λ j ph, steps_of (j_size j) ph) jobs phs).
Definition last_step : nat := sum_list ((λ j, 4 * chunks (j_size j) + 4)%nat <$> jobs).

(** The main loop waits for the threads of exactly the client it is to answer. *)
Definition main_ok phs (m : main_state) : Prop :=
  match m with
  | Probing => ∀ i j ph, jobs !! i = Some j → phs !! i = Some ph → answering (j_size j) ph = false
  | Receiving _ => False
  | Spinning fd stat => ∃ i j, jobs !! i = Some j ∧ fd = j_fd j ∧ stat = Status (Z.of_nat i + 1) (tag_of (j_fd j) IBVIO_OP_WRITE_CHUNK) ∧
      ∀ i' j' ph', jobs !! i' = Some j' → phs !! i' = Some ph' → answering (j_size j') ph' = bool_decide (i' = i)
  end.

Record many phs (s : net) : Prop := {
  mn_phases : length phs = length jobs;
  mn_count : length (nt_clients s) = length jobs;
  mn_clients i j ph : jobs !! i = Some j → phs !! i = Some ph → nt_clients s !! i = Some (job_client i j ph);
  mn_each i j ph : jobs !! i = Some j → phs !! i = Some ph → job_writing i j ph (nt_server s);
  mn_in m : m ∈ sv_in (nt_server s) → ∃ i j, jobs !! i = Some j ∧ sm_rank m = Z.of_nat i + 1;
  mn_threads t : t ∈ sv_threads (nt_server s) → ∃ i j, jobs !! i = Some j ∧ thread_fd t = j_fd j;
  mn_main : main_ok phs (sv_main (nt_server s));
}.

Lemma total_insert phs i j ph ph' d :
  jobs !! i = Some j → phs !! i = Some ph → steps_of (j_size j) ph' = (steps_of (j_size j) ph + d)%nat →
  total (<[i := ph']> phs) = (total phs + d)%nat.
Proof.
  unfold total. clear Hjobs Hdistinct. revert phs i. induction jobs as [|j0 js IH]; intros phs i Hj Hp Hd; [done|].
  destruct phs as [|ph0 phs]; [done|]. destruct i as [|i]; cbn in *.
  - injection Hj as ->. injection Hp as ->. lia.
  - rewrite <- Nat.add_assoc. f_equal. exact (IH phs i Hj Hp Hd).
Qed.

(** The client [i] gets to another phase; the others do not see it. *)
Lemma many_update phs cs cs' v v' i j ph ph' :
  many phs (Net cs v) → jobs !! i = Some j → phs !! i = Some ph →
  job_writing i j ph' v' → concerns_only (Z.of_nat i + 1) (j_fd j) v v' →
  length cs' = length cs → cs' !! i = Some (job_client i j ph') → (∀ i', i' ≠ i → cs' !! i' = cs !! i') →
  (∀ m, m ∈ sv_in v' → m ∈ sv_in v ∨ sm_rank m = Z.of_nat i + 1) →
  (∀ t, t ∈ sv_threads v' → t ∈ sv_threads v ∨ thread_fd t = j_fd j) →
  main_ok (<[i := ph']> phs) (sv_main v') → many (<[i := ph']> phs) (Net cs' v').
Proof.
  intros [Hl Hc Hcl Hea Hin Hth Hma] Hj Hp Hw Hco Hlen Hci Hcs Hms Hts Hmain. cbn [nt_clients nt_server] in *. split; cbn [nt_clients nt_server].
  - by rewrite length_insert.
  - congruence.
  - intros i' j' p Hj' Hp'. apply list_lookup_insert_Some in Hp' as [(<- & <- & _)|[Hne Hp']]; [by simplify_eq|].
    rewrite Hcs by done. by apply Hcl.
  - intros i' j' p Hj' Hp'. apply list_lookup_insert_Some in Hp' as [(<- & <- & _)|[Hne Hp']]; [by simplify_eq|].
    eapply writing_same; [apply Hco|by apply Hea]; [lia|]. intros E. by destruct (Hne (Hdistinct _ _ _ _ Hj Hj' (eq_sym E))).
  - intros m Hm. destruct (Hms m Hm) as [?|?]; [by apply Hin|by eauto].
  - intros t Ht. destruct (Hts t Ht) as [?|?]; [by apply Hth|by eauto].
  - done.
Qed.

Lemma main_ok_same phs m i j ph ph' : jobs !! i = Some j → phs !! i = Some ph →
  answering (j_size j) ph' = answering (j_size j) ph → main_ok phs m → main_ok (<[i := ph']> phs) m.
Proof.
  intros Hj Hp Ha. destruct m as [|w|fd stat]; cbn; [|done|].
  - intros H i' j' p Hj' Hp'. apply list_lookup_insert_Some in Hp' as [(<- & <- & _)|[Hne Hp']]; [|by eapply H].
    simplify_eq. rewrite Ha. by eapply H.
  - intros (i0 & j0 & H1 & H2 & H3 & H). exists i0, j0. split_and!; [done..|]. intros i' j' p Hj' Hp'.
    apply list_lookup_insert_Some in Hp' as [(<- & <- & _)|[Hne Hp']]; [|by eapply H]. simplify_eq. rewrite Ha. by eapply H.
Qed.

Lemma many_phase phs s i j : many phs s → jobs !! i = Some j → ∃ ph, phs !! i = Some ph.
Proof.
  intros H Hj. apply lookup_lt_is_Some_2. rewrite (mn_phases _ _ H). by eapply lookup_lt_Some.
Qed.

(** *** The main loop *)
Lemma many_probe phs cs v m ms : many phs (Net cs v) → sv_main v = Probing → sv_in v = m :: ms →
  ∃ v' phs', main_step v l = Done (Some v') ∧ many phs' (Net cs v') ∧ total phs' = S (total phs).
Proof.
  intros H Hm Hms. destruct (mn_in _ _ H m) as (i & j & Hj & Hr); [cbn; rewrite Hms; by left|].
  destruct (many_phase _ _ _ _ H Hj) as [ph Hp]. pose proof (mn_each _ _ H i j ph Hj Hp) as Hw. cbn [nt_server] in Hw.
  destruct (Hjobs i j Hj) as [[Hn Hfd _] _]. pose proof (mn_main _ _ H) as Hmain. cbn [nt_server] in Hmain. rewrite Hm in Hmain.
  pose proof (mn_clients _ _ H i j ph Hj Hp) as Hc. cbn [nt_clients] in Hc.
  assert (Hms' : ∀ x, x ∈ ms → x ∈ sv_in v ∨ sm_rank x = Z.of_nat i + 1) by (intros x Hx; left; rewrite Hms; by right).
  assert (Hph : (∃ s, ph = WHeader s) ∨ ∃ s r w lk, ph = WServing s r w lk).
  { pose proof (wr_in _ _ _ _ _ _ _ _ _ Hw) as Hin. rewrite Hms, from_to_cons_here in Hin by done.
    destruct ph; try done; [left|right]; by repeat eexists. }
  destruct Hph as [[s ->]|(s & r & w & lk & ->)].
  - destruct (main_takes_header l _ _ _ _ Hn Hfd _ _ _ _ _ _ Hw Hm Hms Hr) as (v' & E & Hw' & Hco & Hin' & Hth' & Hm').
    exists v', (<[i := WServing s 0 0 false]> phs). split; [done|]. split.
    + eapply many_update; try done; [by rewrite Hin'|intros t; rewrite Hth'; by left|].
      rewrite Hm'. eapply main_ok_same; try done. cbn. pose proof (chunks_pos Hn). by destruct (chunks (j_size j)); [lia|].
    + rewrite (total_insert phs i j _ _ 1 Hj Hp); [lia|]. cbn. lia.
  - destruct (main_takes_chunk Hos l _ _ _ _ Hn eq_refl Hfd _ _ _ _ _ _ _ _ _ Hw Hm Hms Hr) as (v' & E & Hw' & Hco & Hin' & Hth' & Hm').
    exists v', (<[i := WServing s (S r) w lk]> phs). split; [done|]. split.
    + eapply many_update; try done; [by rewrite Hin'| |].
      { intros t. rewrite Hth'. intros [?|Ht]%elem_of_app; [by left|right]. by apply list_elem_of_singleton in Ht as ->. }
      rewrite Hm'. destruct (decide (S r = chunks (j_size j))) as [Er|Er].
      * exists i, j. split_and!; [done..|]. intros i' j' p Hj' Hp'.
        apply list_lookup_insert_Some in Hp' as [(<- & <- & _)|[Hne Hp']].
        -- simplify_eq. rewrite bool_decide_true by done. by apply Nat.eqb_eq.
        -- rewrite bool_decide_false by done. by eapply Hmain.
      * intros i' j' p Hj' Hp'. apply list_lookup_insert_Some in Hp' as [(<- & <- & _)|[Hne Hp']]; [|by eapply Hmain].
        simplify_eq. by apply Nat.eqb_neq.
    + rewrite (total_insert phs i j _ _ 1 Hj Hp); [lia|]. cbn. lia.
Qed.

Lemma many_spin phs cs v fd stat : many phs (Net cs v) → sv_main v = Spinning fd stat →
  ∃ i j s w lk, jobs !! i = Some j ∧ phs !! i = Some (WServing s (chunks (j_size j)) w lk) ∧
    if decide (w = chunks (j_size j))
    then ∃ v' phs', main_step v l = Done (Some v') ∧ many phs' (Net cs v') ∧ total phs' = S (total phs)
    else main_step v l = Done None.
Proof.
  intros H Hm. pose proof (mn_main _ _ H) as Hmain. cbn [nt_server] in Hmain. rewrite Hm in Hmain.
  destruct Hmain as (i & j & Hj & -> & -> & Hans). destruct (many_phase _ _ _ _ H Hj) as [ph Hp].
  pose proof (Hans i j ph Hj Hp) as Ha. rewrite bool_decide_true in Ha by done. destruct ph as [|s|s r w lk| |]; try done.
  apply Nat.eqb_eq in Ha as ->. exists i, j, s, w, lk. split; [done|]. split; [done|].
  pose proof (mn_each _ _ H i j _ Hj Hp) as Hw. cbn [nt_server] in Hw. destruct (Hjobs i j Hj) as [[Hn Hfd _] _].
  pose proof (main_answers l _ _ _ _ Hn Hfd _ _ _ _ _ _ Hw Hm) as Hs.
  destruct (decide (w = _)) as [->|]; [|done]. destruct Hs as (v' & E & Hw' & Hco & Hin' & Hth' & Hm' & -> & ->).
  exists v', (<[i := WReplied]> phs). split; [done|]. split.
  - eapply many_update; try done; [|intros x; rewrite Hin'; by left|intros t; rewrite Hth'; by left|].
    + pose proof (mn_clients _ _ H i j _ Hj Hp) as Hc. cbn [nt_clients] in Hc. rewrite Hc. f_equal. apply client_end.
    + rewrite Hm'. intros i' j' p Hj' Hp'. apply list_lookup_insert_Some in Hp' as [(<- & <- & _)|[Hne Hp']]; [done|].
      rewrite (Hans _ _ _ Hj' Hp'). by apply bool_decide_false.
  - rewrite (total_insert phs i j _ _ 1 Hj Hp); [lia|]. cbn. lia.
Qed.

Lemma many_main phs cs v : many phs (Net cs v) →
  main_step v l = Done None ∨
  ∃ v' phs', main_step v l = Done (Some v') ∧ many phs' (Net cs v') ∧ total phs' = S (total phs).
Proof.
  intros H. pose proof (mn_main _ _ H) as Hmain. cbn [nt_server] in Hmain. destruct (sv_main v) as [|w|fd stat] eqn:Hm; [|done|].
  - destruct (sv_in v) as [|m ms] eqn:Hi; [left; by apply quiet_main|right]. by eapply many_probe.
  - destruct (many_spin _ _ _ _ _ H Hm) as (i & j & s & w & lk & _ & _ & Hs). destruct (decide _); [by right|by left].
Qed.

(** *** The threads *)
Lemma many_thread phs cs v k : many phs (Net cs v) →
  run_thread v k = Done None ∨
  ∃ v' phs', run_thread v k = Done (Some v') ∧ many phs' (Net cs v') ∧ total phs' = S (total phs).
Proof.
  intros H. destruct (sv_threads v !! k) as [t|] eqn:Hk; [|left; unfold run_thread; by rewrite Hk].
  destruct (mn_threads _ _ H t) as (i & j & Hj & Hf); [by eapply list_elem_of_lookup_2|].
  destruct (many_phase _ _ _ _ H Hj) as [ph Hp]. pose proof (mn_each _ _ H i j ph Hj Hp) as Hw. cbn [nt_server] in Hw.
  destruct (Hjobs i j Hj) as [[Hn Hfd _] _]. pose proof (mn_clients _ _ H i j ph Hj Hp) as Hc. cbn [nt_clients] in Hc.
  destruct (thread_moves Hos l (hosts i) _ _ _ _ Hn Hfd _ _ _ _ _ _ Hw Hk Hf)
    as [E|(v' & ph' & E & Hw' & Hco & Hi & Hm & Ht & Hs & Ha & Hcl)]; [by left|right].
  exists v', (<[i := ph']> phs). split; [done|]. split.
  - eapply many_update; try done; [by rewrite Hc; f_equal|intros m; rewrite Hi; by left|].
    rewrite Hm. by eapply main_ok_same, (mn_main _ _ H).
  - rewrite (total_insert phs i j _ _ 1 Hj Hp); lia.
Qed.

(** *** The clients *)
Lemma many_client phs cs v i c c' v' : many phs (Net cs v) → cs !! i = Some c →
  sys_do l (hosts i) (Z.of_nat i + 1) ByClient (Sys c v) = Some (Sys c' v') →
  ∃ phs', many phs' (Net (<[i := c']> cs) v') ∧ total phs' = S (total phs).
Proof.
  intros H Hi Hdo. assert (Hlt : (i < length cs)%nat) by by eapply lookup_lt_Some.
  destruct (lookup_lt_is_Some_2 jobs i) as [j Hj]; [by rewrite <- (mn_count _ _ H)|].
  destruct (many_phase _ _ _ _ H Hj) as [ph Hp]. pose proof (mn_each _ _ H i j ph Hj Hp) as Hw. cbn [nt_server] in Hw.
  destruct (Hjobs i j Hj) as [[Hn Hfd _] _]. pose proof (mn_clients _ _ H i j ph Hj Hp) as Hc. cbn [nt_clients] in Hc.
  rewrite Hi in Hc. injection Hc as ->. pose proof (mn_main _ _ H) as Hmain. cbn [nt_server] in Hmain.
  pose proof (client_in_transfers l (hosts i) (j_fd j) _ _ Hn eq_refl (j_garbage j) ph (wr_valid _ _ _ _ _ _ _ _ _ Hw)) as Htr.
  unfold job_client in *. destruct (client_in _ _ _ _ _ _ ph) as [r| | |k|rank name k|dest tag p k|source tag k] eqn:Ec; try done.
  - subst dest. cbn in Hdo. rewrite Z.eqb_refl in Hdo. injection Hdo as <- <-.
    destruct (writing_send l (hosts i) _ _ _ _ Hn eq_refl _ _ _ _ _ _ _ Hw Ec) as (ph' & Ec' & Hw' & Hs & Ha).
    exists (<[i := ph']> phs). split; [|rewrite (total_insert phs i j _ _ 1 Hj Hp); lia].
    eapply many_update; try done.
    + intros me' fd' Hme _. split; try done. cbn. by rewrite from_to_app, from_to_other, app_nil_r by done.
    + by rewrite length_insert.
    + rewrite list_lookup_insert_eq by done. f_equal. symmetry. exact Ec'.
    + intros i' Hne. by rewrite list_lookup_insert_ne.
    + intros m [?|Hm]%elem_of_app; [by left|right]. by apply list_elem_of_singleton in Hm as ->.
    + by left.
    + by eapply main_ok_same.
  - subst source. cbn in Hdo. rewrite Z.eqb_refl in Hdo. destruct (take_reply _ _ _) as [[p rest]|] eqn:Er; [|done]. injection Hdo as <- <-.
    destruct (writing_recv l (hosts i) _ _ _ _ _ _ _ _ _ _ _ _ Hw Ec Er) as (-> & Ec' & Hw' & Hco).
    exists (<[i := WEnded]> phs). split; [|rewrite (total_insert phs i j _ _ 1 Hj Hp); [lia|cbn; lia]].
    eapply many_update; try done.
    + by rewrite length_insert.
    + rewrite list_lookup_insert_eq by done. f_equal. symmetry. exact Ec'.
    + intros i' Hne. by rewrite list_lookup_insert_ne.
    + by left.
    + by left.
    + by eapply main_ok_same.
Qed.

Lemma many_step phs s s' : many phs s → net_step l hosts s s' → ∃ phs', many phs' s' ∧ total phs' = S (total phs).
Proof.
  intros H Hst. destruct Hst as [i c c' cs v v' Hi Hst]. apply sys_step_do in Hst as [ch Hdo].
  destruct ch as [| |k]; [by eapply many_client| |]; cbn in Hdo.
  - destruct (many_main _ _ _ H) as [E|(v1 & phs' & E & H' & Ht)]; rewrite E in Hdo; [done|].
    injection Hdo as <- <-. rewrite list_insert_id by done. by exists phs'.
  - destruct (many_thread _ _ _ k H) as [E|(v1 & phs' & E & H' & Ht)]; rewrite E in Hdo; [done|].
    injection Hdo as <- <-. rewrite list_insert_id by done. by exists phs'.
Qed.

Lemma many_start : at_rest v0 → many (replicate (length jobs) WStart) (Net (j_program <$> jobs) v0).
Proof.
  intros (Hm & Hi & Ht & Ho). split; cbn [nt_clients nt_server].
  - by rewrite length_replicate.
  - by rewrite length_fmap.
  - intros i j ph Hj Hp. apply lookup_replicate in Hp as [-> _]. rewrite list_lookup_fmap, Hj. cbn [fmap option_fmap option_map].
    destruct (Hjobs i j Hj) as [[Hn Hfd Hh] _]. unfold j_program, job_client, client_in. f_equal. by apply client_start.
  - intros i j ph Hj Hp. apply lookup_replicate in Hp as [-> _]. destruct (Hjobs i j Hj) as [[Hn Hfd Hh] [_ _ _ _ (inf & c & H1 & H2 & H3 & H4)]].
    split; rewrite ?Hi, ?Ho, ?Ht; try done.
    + by exists inf, c.
    + cbn [written]. rewrite (bound_0 Hn). cbn. by rewrite app_nil_r.
  - rewrite Hi. by intros m ?%elem_of_nil.
  - rewrite Ht. by intros t ?%elem_of_nil.
  - rewrite Hm. intros i j ph Hj Hp. by apply lookup_replicate in Hp as [-> _].
Qed.

Lemma total_start : total (replicate (length jobs) WStart) = 0%nat.
Proof. unfold total. clear. by induction jobs as [|j js IH]. Qed.

Lemma many_steps m s : at_rest v0 → nsteps (net_step l hosts) m (Net (j_program <$> jobs) v0) s →
  ∃ phs, many phs s ∧ total phs = m.
Proof.
  intros Hv. revert s. induction m as [|m IH]; intros s Hst.
  - inversion Hst; subst. eexists. split; [by apply many_start|apply total_start].
  - apply nsteps_inv_r in Hst as (s1 & H1 & H2). destruct (IH _ H1) as (phs & H & <-). by eapply many_step.
Qed.

(** *** What follows *)
Lemma many_valid phs s i j ph : many phs s → jobs !! i = Some j → phs !! i = Some ph → valid_phase (j_size j) ph.
Proof. intros H Hj Hp. exact (wr_valid _ _ _ _ _ _ _ _ _ (mn_each _ _ H i j ph Hj Hp)). Qed.

Lemma many_bound phs s : many phs s → (total phs ≤ last_step)%nat.
Proof.
  intros H. pose proof (λ i j ph, many_valid phs s i j ph H) as Hv. clear H Hjobs Hdistinct. unfold total, last_step.
  revert phs Hv. induction jobs as [|j js IH]; intros phs Hv; [done|]. destruct phs as [|ph phs]; [cbn; lia|].
  pose proof (steps_of_max _ ph (Hv 0%nat j ph eq_refl eq_refl)) as H1.
  specialize (IH phs (λ i, Hv (S i))). cbn in *. lia.
Qed.

Lemma many_sound phs s : many phs s → ¬ net_fault l s.
Proof.
  intros H. destruct s as [cs v]. intros [[i Hi]|[Hf|[k Hf]]]; cbn [nt_clients nt_server] in *.
  - assert (Hlt : (i < length cs)%nat) by (destruct Hi as [Hi|Hi]; by eapply lookup_lt_Some).
    destruct (lookup_lt_is_Some_2 jobs i) as [j Hj]; [by rewrite <- (mn_count _ _ H)|].
    destruct (many_phase _ _ _ _ H Hj) as [ph Hp]. destruct (Hjobs i j Hj) as [[Hn Hfd _] _].
    pose proof (client_in_transfers l (hosts i) (j_fd j) _ _ Hn eq_refl (j_garbage j) ph (many_valid _ _ _ _ _ H Hj Hp)) as Htr.
    pose proof (mn_clients _ _ H i j ph Hj Hp) as Hc. cbn [nt_clients] in Hc. unfold job_client in Hc.
    destruct Hi as [Hi|Hi]; rewrite Hi in Hc; injection Hc as Hc; by rewrite <- Hc in Htr.
  - destruct (many_main _ _ _ H) as [E|(v' & phs' & E & _)]; by eapply Hf.
  - destruct (many_thread _ _ _ k H) as [E|(v' & phs' & E & _)]; by eapply Hf.
Qed.

Lemma many_client_moves phs cs v i j ph : many phs (Net cs v) → jobs !! i = Some j → phs !! i = Some ph →
  (ph = WStart ∨ (∃ s r w lk, ph = WServing s r w lk ∧ (s < chunks (j_size j))%nat) ∨ ph = WReplied) →
  ∃ s', net_step l hosts (Net cs v) s'.
Proof.
  intros H Hj Hp Hcase. destruct (Hjobs i j Hj) as [[Hn Hfd _] _]. pose proof (mn_clients _ _ H i j ph Hj Hp) as Hc.
  cbn [nt_clients] in Hc. destruct Hcase as [->|[(s & r & w & lk & -> & Hs)| ->]].
  - eexists. eapply net_move; [exact Hc|]. apply step_send.
  - unfold job_client, client_in in Hc. rewrite (client_step _ _ _ _ Hn eq_refl s Hs) in Hc.
    eexists. eapply net_move; [exact Hc|]. apply step_send.
  - pose proof (wr_out _ _ _ _ _ _ _ _ _ (mn_each _ _ H i j _ Hj Hp)) as Ho. apply take_reply_one in Ho as (rest & E & _).
    eexists. eapply net_move; [exact Hc|]. by apply step_recv.
Qed.

Lemma many_progress phs cs v : many phs (Net cs v) →
  Forall (λ ph, ph = WEnded) phs ∨ ∃ s', net_step l hosts (Net cs v) s'.
Proof.
  intros H. assert (Hserver : ∀ i c v', cs !! i = Some c → (main_step v l = Done (Some v') ∨ ∃ k, run_thread v k = Done (Some v')) →
    ∃ s', net_step l hosts (Net cs v) s').
  { intros i c v' Hi [Hm|[k Hm]]; eexists; (eapply net_move; [exact Hi|]); [by apply step_main|by eapply step_thread]. }
  assert (Hcl : ∀ i j ph, jobs !! i = Some j → phs !! i = Some ph → cs !! i = Some (job_client i j ph)) by apply (mn_clients _ _ H).
  pose proof (mn_main _ _ H) as Hmain. cbn [nt_server] in Hmain. destruct (sv_main v) as [|w|fd stat] eqn:Hm; [|done|].
  - destruct (sv_in v) as [|m ms] eqn:Hi.
    2:{ right. destruct (mn_in _ _ H m) as (i & j & Hj & _); [cbn; rewrite Hi; by left|]. destruct (many_phase _ _ _ _ H Hj) as [ph Hp].
        destruct (many_probe _ _ _ _ _ H Hm Hi) as (v' & phs' & E & _). eapply Hserver; [by eapply Hcl|by left]. }
    destruct (decide (Forall (λ ph, ph = WEnded) phs)) as [Hf|Hf]; [by left|right].
    apply not_Forall_Exists, Exists_exists in Hf as (ph & Hin & Hne); [|apply _]. apply list_elem_of_lookup_1 in Hin as [i Hp].
    destruct (lookup_lt_is_Some_2 jobs i) as [j Hj]; [rewrite <- (mn_phases _ _ H); by eapply lookup_lt_Some|].
    eapply many_client_moves; [done|exact Hj|exact Hp|]. pose proof (mn_each _ _ H i j ph Hj Hp) as Hw. cbn [nt_server] in Hw.
    pose proof (wr_in _ _ _ _ _ _ _ _ _ Hw) as Hw1. pose proof (wr_valid _ _ _ _ _ _ _ _ _ Hw) as Hw2. rewrite Hi in Hw1.
    change (from_to (Z.of_nat i + 1) []) with (@nil smsg) in Hw1.
    destruct ph as [|s|s r w lk| |]; try done; [by left| |by right; right|by destruct Hne]. right; left. exists s, r, w, lk. split; [done|].
    cbn [valid_phase in_of] in Hw1, Hw2. pose proof (Hmain i j _ Hj Hp) as Ha. cbn [answering] in Ha. apply Nat.eqb_neq in Ha.
    destruct (decide (r = s)) as [->|]; [lia|]. by replace (s - r)%nat with (S (s - S r)) in Hw1 by lia.
  - right. destruct (many_spin _ _ _ _ _ H Hm) as (i & j & s & w & lk & Hj & Hp & Hs). destruct (decide (w = _)) as [Ew|Hne].
    + destruct Hs as (v' & phs' & E & _). eapply Hserver; [by eapply Hcl|by left].
    + destruct (Hjobs i j Hj) as [[Hn Hfd _] _]. pose proof (mn_each _ _ H i j _ Hj Hp) as Hw. cbn [nt_server] in Hw.
      pose proof (wr_valid _ _ _ _ _ _ _ _ _ Hw) as Hv. cbn [valid_phase] in Hv.
      destruct (thread_can_move Hos l _ _ _ _ Hn Hfd _ _ _ _ _ _ _ Hw ltac:(lia)) as (k & v' & E).
      eapply Hserver; [by eapply Hcl|right; by exists k].
Qed.

Lemma many_end phs s i j r : many phs s → jobs !! i = Some j → nt_clients s !! i = Some (Ret r) →
  r = io_stat (l_iopen l) ∧
  file_bytes (j_fd j) [] (sv_calls (nt_server s)) = file_bytes (j_fd j) [] (sv_calls v0) ++ j_buf j.
Proof.
  intros H Hj Hi. destruct (many_phase _ _ _ _ H Hj) as [ph Hp]. destruct (Hjobs i j Hj) as [[Hn Hfd _] _].
  pose proof (client_in_transfers l (hosts i) (j_fd j) _ _ Hn eq_refl (j_garbage j) ph (many_valid _ _ _ _ _ H Hj Hp)) as Htr.
  rewrite (mn_clients _ _ H i j ph Hj Hp) in Hi. injection Hi as Hi. unfold job_client in Hi. rewrite Hi in Htr. subst ph.
  injection Hi as <-. split; [done|]. rewrite (wr_bytes _ _ _ _ _ _ _ _ _ (mn_each _ _ H i j _ Hj Hp)). cbn [written].
  rewrite (bound_last Hn). f_equal. apply take_ge. unfold j_size. lia.
Qed.
End many.

(** C5: writes of several clients do not disturb each other.  Any number of
    clients, each with a file of its own open on an idle server, write at the
    same time; for every interleaving of the clients, the one main loop and the
    threads of all files: nothing goes wrong, the system goes on until all have
    returned, within four steps for each chunk and four for each client, and
    when a client has returned its file has its bytes behind what it had, in
    order and once. *)
Theorem concurrent_writes_correct `{OS} l hosts jobs v0 m s :
  os_works → at_rest v0 →
  (∀ i j, jobs !! i = Some j → job_ok (hosts i) j ∧ idle (j_fd j) v0) →
  (∀ i i' j j', jobs !! i = Some j → jobs !! i' = Some j' → j_fd j = j_fd j' → i = i') →
  nsteps (net_step l hosts) m (Net (j_program <$> jobs) v0) s →
  ¬ net_fault l s ∧ (m ≤ last_step jobs)%nat ∧
  (Forall (λ c, ∃ r, c = Ret r) (nt_clients s) ∨ ∃ s', net_step l hosts s s') ∧
  ∀ i j r, jobs !! i = Some j → nt_clients s !! i = Some (Ret r) →
    file_bytes (j_fd j) [] (sv_calls (nt_server s)) = file_bytes (j_fd j) [] (sv_calls v0) ++ j_buf j.
Proof.
  intros Hos Hv Hjobs Hdistinct Hst. destruct (many_steps Hos l hosts jobs v0 Hjobs Hdistinct m s Hv Hst) as (phs & Hmany & <-).
  split_and!.
  - by eapply many_sound.
  - by eapply many_bound.
  - destruct s as [cs v]. destruct (many_progress Hos l hosts jobs v0 Hjobs Hdistinct _ _ _ Hmany) as [Hf|?]; [left|by right].
    apply Forall_lookup. intros i c Hi. destruct (lookup_lt_is_Some_2 jobs i) as [j Hj].
    { rewrite <- (mn_count _ _ _ _ _ _ Hmany). by eapply lookup_lt_Some. }
    destruct (many_phase _ _ _ _ _ _ _ _ Hmany Hj) as [ph Hp]. rewrite (mn_clients _ _ _ _ _ _ Hmany i j ph Hj Hp) in Hi.
    injection Hi as <-. rewrite (Forall_lookup_1 _ _ _ _ Hf Hp). by eexists.
  - intros i j r Hj Hi. by eapply many_end.
Qed.

(** ** Two writers to evaluate on *)

(** A schedule names a client and, for a move of the server, any of them. *)
Definition net_do `{OS} (l : locals) (hosts : nat → Z) (ic : nat * choice) (s : net) : option net :=
  match nt_clients s !! ic.1 with
  | Some c =>
      match sys_do l (hosts ic.1) (Z.of_nat ic.1 + 1) ic.2 (Sys c (nt_server s)) with
      | Some s' => Some (Net (<[ic.1 := sy_client s']> (nt_clients s)) (sy_server s'))
      | None => None
      end
  | None => None
  end.
Fixpoint net_run `{OS} (l : locals) (hosts : nat → Z) (sched : list (nat * choice)) (s : net) : option net :=
  match sched with
  | [] => Some s
  | ic :: sched => match net_do l hosts ic s with Some s => net_run l hosts sched s | None => None end
  end.

Lemma net_run_steps `{OS} l hosts sched s s' :
  net_run l hosts sched s = Some s' → nsteps (net_step l hosts) (length sched) s s'.
Proof.
  revert s. induction sched as [|[i c] sched IH]; intros s; cbn; [intros [= <-]; constructor|].
  unfold net_do. destruct s as [cs v]. cbn [nt_clients nt_server fst snd].
  destruct (cs !! i) as [p|] eqn:Hi; [|done]. destruct (sys_do _ _ _ _ _) as [[p' v']|] eqn:E; [|done].
  intros Hs. eapply nsteps_l; [|by apply IH]. eapply net_move; [done|]. by eapply sys_do_step.
Qed.

Definition sample_jobs : list job :=
  [Job sample_client sample_iopen 5 [1; 2]; Job sample_client sample_iopen 6 [3]].
Definition sample_files : server :=
  Server (<[5 := SInfo 5 0 0 0 Unlocked (Some (λ _, 0))]> {[ 6 := SInfo 6 0 0 0 Unlocked (Some (λ _, 0)) ]}) Probing [] [] [] [].
Definition sample_net_schedule : list (nat * choice) :=
  [(0, ByClient); (1, ByClient); (0, ByMain); (0, ByClient); (1, ByClient); (0, ByMain); (0, ByMain);
   (0, ByThread 0); (0, ByThread 0); (0, ByMain); (1, ByMain); (1, ByThread 0); (1, ByThread 0); (1, ByMain);
   (1, ByClient); (0, ByClient)]%nat.

Lemma sample_jobs_ok i j : sample_jobs !! i = Some j → job_ok 0 j ∧ idle (j_fd j) sample_files.
Proof.
  destruct i as [|[|i]]; intros [= <-]; (split; [split; unfold j_size, BUF_SIZE; cbn; done || lia|]); split; try done; by eexists _, _.
Qed.

Lemma concurrent_writes_correct_witness :
  ∃ s, nsteps (net_step sample_locals (λ _, 0)) 16 (Net (j_program <$> sample_jobs) sample_files) s ∧
    file_bytes 5 [] (sv_calls (nt_server s)) = [1; 2] ∧ file_bytes 6 [] (sv_calls (nt_server s)) = [3].
Proof.
  destruct (net_run sample_locals (λ _, 0) sample_net_schedule (Net (j_program <$> sample_jobs) sample_files)) as [s|] eqn:E; [|by vm_compute in E].
  pose proof (net_run_steps _ _ _ _ _ E) as Hrun. exists s. split; [exact Hrun|].
  assert (Hret : nt_clients s = [Ret 77; Ret 77]).
  { apply (f_equal (fmap nt_clients)) in E. vm_compute in E. injection E as E. by symmetry. }
  destruct (concurrent_writes_correct sample_locals (λ _, 0) sample_jobs sample_files 16 s sample_os_works ltac:(by split_and!)
    sample_jobs_ok ltac:(by intros [|[|]] [|[|]] ? ? [= <-] [= <-]) Hrun) as (_ & _ & _ & Hend).
  split; [exact (Hend 0%nat _ 77 eq_refl ltac:(by rewrite Hret))|exact (Hend 1%nat _ 77 eq_refl ltac:(by rewrite Hret))].
Defined.
