(* ===== verification/IbioRead.v ===== *)
(** * src/examples: a read over the network

    The client and the server of the example together in a read of [ibtl_read].
    The main loop only starts a thread, and until that thread takes the message
    it sees the same message again and starts further ones; for every
    interleaving the client still gets the bytes of the file, and in a fair run
    it returns. *)
From S2P Require Import Prelude Fairness Mem Queue Datatype ProcMan State Ibio IbioServer IbioSession.

(** ** The file *)

(** How far the reads of [fd] among the calls [todo], made after [before], have
    come. *)
Fixpoint file_pos `{OS} (fd : Z) (before todo : list os_call) : Z :=
  match todo with
  | [] => 0
  | c :: todo =>
      (match c with ORead f _ => if f =? fd then os_ret before c else 0 | _ => 0 end) + file_pos fd (before ++ [c]) todo
  end.

Lemma file_pos_app `{OS} fd before a b :
  file_pos fd before (a ++ b) = file_pos fd before a + file_pos fd (before ++ a) b.
Proof.
  revert before. induction a as [|c a IH]; intros before; cbn [file_pos app].
  - by rewrite app_nil_r.
  - rewrite IH, <- (assoc_L (++)). cbn [app]. lia.
Qed.

(** A call that neither changes the file nor moves its position, reads apart. *)
Definition leaves_file (fd : Z) (c : os_call) : Prop :=
  match c with OWrite f _ | OClose f => f ≠ fd | _ => True end.

(** After the calls [base] the file holds the bytes [rest] from its position
    on: until it is written, a read returns the next of them, as many as asked
    for if there are. *)
Record os_reads `{OS} (fd : Z) (base : list os_call) (rest : list Z) : Prop := {
  or_data more k : Forall (leaves_file fd) more →
    os_data (base ++ more) fd k = first_bytes k (drop (Z.to_nat (file_pos fd base more)) rest);
  or_ret more k : Forall (leaves_file fd) more →
    os_ret (base ++ more) (ORead fd k) = Z.of_nat (length (os_data (base ++ more) fd k));
}.

Lemma first_bytes_take k bs : 0 ≤ k → first_bytes k bs = take (Z.to_nat k) bs.
Proof.
  intros Hk. unfold first_bytes. destruct (decide (k ≤ Z.of_nat (length bs))).
  - by rewrite Z.min_l.
  - by rewrite Z.min_r, !take_ge by lia.
Qed.

Section reading.
Context {HOS : OS} (Hos : os_works) (l : locals) (host me fd : Z).
Context (n : Z) (Hn : 0 < n ≤ BUF_SIZE) (Hfd : 0 ≤ fd < 2 ^ 15).
Context (garbage : ibvio_open) (buf : list Z) (Hbuf : n ≤ Z.of_nat (length buf)).
Context (v0 : server) (c0 : Z → Z) (rest : list Z).
Context (Hidle : idle fd v0) (Hc0 : sv_open v0 !! fd ≫= cache = Some c0) (Hrd : os_reads fd (sv_calls v0) rest).
Local Notation K := (chunks n).
Local Notation C := IBVIO_CHUNK_SIZE.
Local Notation bound := (bound n).
Local Notation len := (Z.of_nat (length rest)).

(** What the client gets: the bytes of the file, and those that were in the
    cache where the file has no more. *)
Definition read_bytes : list Z := store_at c0 0 rest <$> seqZ 0 n.

Lemma read_bytes_length : n = Z.of_nat (length read_bytes).
Proof. unfold read_bytes. rewrite length_fmap, length_seqZ. lia. Qed.
Lemma read_bytes_lookup j : 0 ≤ j < n → read_bytes !! Z.to_nat j = Some (store_at c0 0 rest j).
Proof. intros Hj. unfold read_bytes. rewrite list_lookup_fmap, lookup_seqZ_lt by lia. cbn. do 2 f_equal. lia. Qed.

Lemma read_bytes_file : n ≤ len → read_bytes = take (Z.to_nat n) rest.
Proof.
  intros Hl. apply list_eq. intros k. destruct (decide (Z.of_nat k < n)) as [Hk|Hk].
  - rewrite lookup_take_lt by lia. rewrite <- (Nat2Z.id k) at 1. rewrite read_bytes_lookup by lia.
    unfold store_at. rewrite (proj2 (Z.leb_le _ _)), (proj2 (Z.ltb_lt _ _)) by lia. cbn [andb].
    rewrite Z.sub_0_r, Nat2Z.id. destruct (lookup_lt_is_Some_2 rest k) as [x Hx]; [lia|].
    rewrite Hx. f_equal. by apply nth_lookup_Some with (d := 0) in Hx.
  - rewrite (lookup_ge_None_2 read_bytes) by (pose proof read_bytes_length; lia).
    by rewrite lookup_take_ge by lia.
Qed.

(** The cache when [q] reads have been made. *)
Definition loaded (c : Z → Z) (q : nat) : Prop :=
  ∀ j, c j = if decide (0 ≤ j < Z.min (Z.of_nat q * C) len) then nth (Z.to_nat j) rest 0 else c0 j.
Definition pos_at (q : nat) : Z := Z.min (Z.of_nat q * C) len.

Lemma loaded_0 : loaded c0 0.
Proof. intros j. rewrite decide_False by lia. done. Qed.

Lemma loaded_cached c q : loaded c q → cached n read_bytes c q.
Proof.
  intros Hc j Hj. assert (bound q ≤ Z.of_nat q * C ∧ bound q ≤ n) by (unfold IbioSession.bound; lia).
  rewrite read_bytes_lookup, Hc by lia. f_equal. unfold store_at. destruct (decide (j < len)).
  - rewrite decide_True, (proj2 (Z.leb_le _ _)), (proj2 (Z.ltb_lt _ _)) by lia. cbn [andb]. by rewrite Z.sub_0_r.
  - rewrite decide_False, (proj2 (Z.ltb_ge _ _)) by lia. by rewrite andb_false_r.
Qed.

Lemma loaded_step c q : loaded c q → loaded (store_at c (Z.of_nat q * C) (take (Z.to_nat C) (drop (Z.to_nat (pos_at q)) rest))) (S q).
Proof.
  intros Hc j. unfold store_at. rewrite length_take, length_drop. unfold pos_at.
  assert (HC : 0 < C) by done. rewrite Nat2Z.inj_succ, Z.mul_succ_l.
  set (b := Z.of_nat q * C) in *. assert (0 ≤ b) by lia.
  destruct (decide (b ≤ j)) as [Hj|Hj].
  - rewrite (proj2 (Z.leb_le _ _) Hj). cbn [andb]. destruct (decide (j < Z.min (b + C) len)).
    + rewrite decide_True, (proj2 (Z.ltb_lt _ _)) by lia.
      rewrite nth_firstn, (proj2 (Nat.ltb_lt _ _)) by lia. rewrite nth_skipn. f_equal. lia.
    + rewrite decide_False, (proj2 (Z.ltb_ge _ _)) by lia. rewrite Hc, decide_False by lia. done.
  - rewrite (proj2 (Z.leb_gt _ _)) by lia. cbn [andb]. rewrite Hc. destruct (decide (0 ≤ j < len)).
    + by rewrite !decide_True by lia.
    + by rewrite !decide_False by lia.
Qed.

(** The calls of the session so far. *)
Definition progressed (q : nat) (log : list os_call) : Prop :=
  ∃ more, log = sv_calls v0 ++ more ∧ Forall (leaves_file fd) more ∧ file_pos fd (sv_calls v0) more = pos_at q.

Lemma progressed_other q log c :
  progressed q log → c = OThreadCreate ∨ c = OThreadDetach → progressed q (log ++ [c]).
Proof.
  intros (more & -> & Hl & Hp) Hc. exists (more ++ [c]). rewrite (assoc_L (++)). split; [done|]. split.
  - apply Forall_app. split; [done|]. by destruct Hc as [->| ->]; repeat constructor.
  - rewrite file_pos_app, Hp. destruct Hc as [->| ->]; cbn; lia.
Qed.

Lemma read_cache_ok v i c q :
  progressed q (sv_calls v) → cache i = Some c → loaded c q → (q < K)%nat →
  ∃ c', read_cache v fd i (Z.of_nat q * C) C = Done (i <| cache := Some c' |>, v <| sv_calls := sv_calls v ++ [ORead fd C] |>) ∧
    loaded c' (S q) ∧ progressed (S q) (sv_calls v ++ [ORead fd C]).
Proof.
  intros (more & E & Hl & Hp) Hc Hld Hq. assert (HC : 0 < C) by done.
  assert (Hq16 : Z.of_nat q * C + C ≤ BUF_SIZE).
  { pose proof (chunks_pos Hn). unfold BUF_SIZE, IBVIO_CHUNK_SIZE. lia. }
  assert (Hdata : os_data (sv_calls v) fd C = take (Z.to_nat C) (drop (Z.to_nat (pos_at q)) rest)).
  { by rewrite E, (or_data _ _ _ Hrd), Hp, first_bytes_take by (done || lia). }
  assert (Hret : os_ret (sv_calls v) (ORead fd C) = Z.of_nat (length (os_data (sv_calls v) fd C))).
  { by rewrite E, (or_ret _ _ _ Hrd). }
  assert (Hlen : Z.of_nat (length (os_data (sv_calls v) fd C)) = Z.min C (len - pos_at q)).
  { rewrite Hdata, length_take, length_drop. unfold pos_at. lia. }
  unfold read_cache. rewrite !(proj2 (Z.leb_le _ _)) by lia. cbn [andb].
  rewrite first_bytes_take by lia. rewrite take_ge by lia. unfold os. rewrite Hret, (proj2 (Z.ltb_ge _ _)) by lia.
  unfold cache_write. rewrite Hc, !(proj2 (Z.leb_le _ _)) by lia. cbn [andb obind].
  eexists. split; [reflexivity|]. split; [rewrite Hdata; by apply loaded_step|].
  exists (more ++ [ORead fd C]). rewrite E, (assoc_L (++)). split; [done|]. split.
  - apply Forall_app. split; [done|]. by repeat constructor.
  - rewrite file_pos_app, Hp. cbn [file_pos]. rewrite Z.eqb_refl, <- E, Hret, Hlen. unfold pos_at.
    rewrite Nat2Z.inj_succ, Z.mul_succ_l. lia.
Qed.

(** *** The client *)
Definition buf_at (r : nat) : list Z := take (Z.to_nat (bound r)) read_bytes ++ drop (Z.to_nat (bound r)) buf.
Local Notation tag := (tag_of fd IBVIO_OP_READ).

(** The client when [r] chunks have been received. *)
Definition recv_at (r : nat) : io (Z * list Z) :=
  if decide (r < K)%nat
  then recv_chunks (CHUNK_FUEL - r) (buf_at r) n host tag (bound r) C (λ buf, Ret (io_stat garbage, buf))
  else Ret (io_stat garbage, buf_at K).

Lemma splice_ok r : (r < K)%nat → splice (buf_at r) (bound r) (chunk n read_bytes r) = Done (buf_at (S r)).
Proof.
  intros Hr. pose proof (bound_range Hn r). pose proof (bound_range Hn (S r)). pose proof (bound_step Hn r Hr).
  pose proof read_bytes_length. pose proof (chunk_length Hn read_bytes_length r Hr) as Hc.
  assert (Hl : length (buf_at r) = length buf).
  { unfold buf_at. rewrite length_app, length_take, length_drop. lia. }
  unfold splice. rewrite Hl, Hc, !(proj2 (Z.leb_le _ _)) by lia. cbn [andb]. f_equal. unfold buf_at.
  rewrite take_app_length' by (rewrite length_take; lia). rewrite (take_chunk Hn r Hr), <- (assoc_L (++)).
  do 2 f_equal. rewrite drop_app_ge, drop_drop by (rewrite length_take; lia). f_equal. rewrite length_take. lia.
Qed.

Lemma recv_chunks_end fuel cs : (0 < fuel)%nat →
  recv_chunks fuel (buf_at K) n host tag (bound K) cs (λ buf, Ret (io_stat garbage, buf)) = Ret (io_stat garbage, buf_at K).
Proof.
  intros Hf. destruct fuel as [|fuel]; [lia|]. cbn [recv_chunks]. rewrite (bound_last Hn).
  rewrite u64_id by (unfold BUF_SIZE in *; lia). by rewrite Z.ltb_irrefl.
Qed.

Lemma recv_step r : (r < K)%nat →
  ∃ k, recv_at r = RecvWait host tag k ∧ k (PData (chunk n read_bytes r)) = recv_at (S r).
Proof.
  intros Hr. pose proof (chunks_pos Hn) as Hk. pose proof (bound_lt Hn r Hr) as [Hb Hlt].
  pose proof (bound_range Hn r). pose proof (bound_range Hn (S r)).
  unfold recv_at at 1. rewrite decide_True by done. unfold CHUNK_FUEL.
  replace (34 - r)%nat with (S (34 - S r)) by lia. cbn [recv_chunks].
  rewrite u64_id by (unfold BUF_SIZE in *; lia). rewrite (proj2 (Z.ltb_lt _ _)) by lia.
  rewrite (next_chunk_ok Hn) by done. cbn [lift]. eexists. split; [reflexivity|]. cbn beta iota.
  rewrite splice_ok by done. cbn [lift]. rewrite c_int_bounds by (unfold BUF_SIZE, INT_MAX in *; lia).
  cbn [lift]. rewrite Zplus_minus. unfold recv_at. destruct (decide (S r < K)%nat) as [Hs|Hs].
  - by rewrite (bound_step_full Hn) by done.
  - replace (S r) with K by lia. rewrite recv_chunks_end; [done|lia].
Qed.

Lemma recv_end : recv_at K = Ret (io_stat garbage, read_bytes ++ drop (Z.to_nat n) buf).
Proof.
  unfold recv_at, buf_at. rewrite decide_False, (bound_last Hn) by lia. pose proof read_bytes_length.
  by rewrite take_ge by lia.
Qed.

Definition read_msg : smsg := SMsg me tag (POpen (garbage <| io_count := i32 n |>)).

Lemma read_start c : aget (host_ids c) fd = Done host →
  ibtl_read c garbage fd buf n = SendWait host tag (POpen (garbage <| io_count := i32 n |>)) (recv_at 0).
Proof.
  intros Hh. unfold ibtl_read. rewrite Hh. cbn [lift].
  rewrite serialize_ok by (unfold IBVIO_OP_READ; lia). cbn [lift]. unfold recv_at.
  pose proof (chunks_pos Hn). rewrite decide_True by lia. unfold buf_at. rewrite (bound_0 Hn). done.
Qed.

(** *** The server *)
Local Notation stat := (Status me tag).
Local Notation waiting_thread := (TRead fd stat).

(** Where the thread that has the mutex is, if there is one; after [PDone] the
    reading thread has ended, and another one may take the mutex. *)
Inductive phase :=
| PWait
| PLocked (k : nat)
| PSending (k s : nat) (cs : Z)
| PDone
| PHeld (k : nat).

Definition active (ph : phase) : option (nat * thread_state) :=
  match ph with
  | PWait | PDone => None
  | PLocked k | PHeld k => Some (k, TReadLocked fd stat)
  | PSending k s cs => Some (k, TReading fd stat (garbage <| io_count := n |>) (bound s) cs (Z.of_nat (S s `min` K) * C))
  end.
Definition unread (ph : phase) : bool := match ph with PWait | PLocked _ => true | _ => false end.
Definition reads (ph : phase) : nat :=
  match ph with PWait | PLocked _ => 0 | PSending _ s _ => S s `min` K | PDone | PHeld _ => K end.
Definition sent (ph : phase) : nat :=
  match ph with PWait | PLocked _ => 0 | PSending _ s _ => s | PDone | PHeld _ => K end.
Definition full_chunk (ph : phase) : Prop :=
  match ph with PSending _ s cs => (s < K)%nat → cs = C | _ => True end.

Definition data_msgs (r k : nat) : list smsg := map (λ i, SMsg me tag (PData (chunk n read_bytes i))) (seq r k).

(** [N] threads have been started and have not ended, [r] chunks have been
    received by the client. *)
Record reading (N : nat) (ph : phase) (r : nat) (v : server) : Prop := {
  rd_bounds : (r ≤ sent ph ≤ K)%nat ∧ full_chunk ph;
  rd_main : sv_main v = Probing;
  rd_in : sv_in v = if unread ph then [read_msg] else [];
  rd_out : sv_out v = data_msgs r (sent ph - r);
  rd_info : ∃ i c, sv_open v !! fd = Some i ∧ fastmutex i = (if active ph then Locked else Unlocked) ∧ cache i = Some c ∧
    loaded c (reads ph);
  rd_threads : match active ph with
               | None => sv_threads v = replicate N waiting_thread
               | Some (k, t) => (k < N)%nat ∧ sv_threads v = <[k := t]> (replicate N waiting_thread)
               end;
  rd_calls : progressed (reads ph) (sv_calls v);
}.

(** The main loop starts a thread whenever it sees the message. *)
Lemma reading_main N ph r v : reading N ph r v →
  if unread ph then ∃ v', main_step v l = Done (Some v') ∧ reading (S N) ph r v' else main_step v l = Done None.
Proof.
  intros [Hb Hm Hin Ho (i & c & Hi & Hmx & Hc & Hld) Ht Hcalls]. destruct (unread ph) eqn:Hu; [|by apply quiet_main].
  rewrite (main_probe l me fd Hfd v IBVIO_OP_READ _ _ Hm Hin) by (unfold IBVIO_OP_READ; lia).
  change (dispatch v l IBVIO_OP_READ fd) with (ibvio_sread_async v fd). unfold ibvio_sread_async.
  rewrite (info_at_ok fd Hfd _ i Hi). cbn [obind]. unfold ibvio_run_thread, os. rewrite (ow_create Hos).
  cbn [Z.eqb negb]. rewrite (ow_detach Hos). cbn [Z.eqb negb obind]. eexists. split; [reflexivity|]. split; try done.
  - by rewrite Hu.
  - by exists i, c.
  - cbn [sv_threads set_field]. destruct (active ph) as [[k t]|].
    + destruct Ht as [Hk ->]. split; [lia|]. rewrite replicate_S_end. by rewrite insert_app_l by (by rewrite length_replicate).
    + by rewrite Ht, replicate_S_end.
  - apply progressed_other; [|by right]. apply progressed_other; [done|by left].
Qed.

(** A thread that finds the mutex taken waits. *)
Lemma reading_blocked N ph r v k : reading N ph r v →
  match active ph with Some (k', _) => k ≠ k' | None => (N ≤ k)%nat end → run_thread v k = Done None.
Proof.
  intros [Hb Hm Hin Ho (i & c & Hi & Hmx & Hc & Hld) Ht Hcalls] Hk. unfold run_thread. destruct (active ph) as [[k' t]|].
  - destruct Ht as [Hk' ->]. rewrite list_lookup_insert_ne by done. destruct (replicate _ _ !! k) as [t'|] eqn:E; [|done].
    apply lookup_replicate in E as [-> _]. cbn [thread_step ibvio_swrite_chunk_thread ibvio_sread]. rewrite (info_at_ok fd Hfd _ i Hi). cbn [obind].
    unfold lock_info. by rewrite Hmx.
  - rewrite Ht. by rewrite (proj1 (lookup_replicate_None _ _ _)) by lia.
Qed.

(** It takes the mutex when it is free. *)
Definition locked_by (k : nat) (ph : phase) : phase := match ph with PWait => PLocked k | _ => PHeld k end.
Lemma reading_lock N ph r v k : reading N ph r v → active ph = None → (k < N)%nat →
  ∃ v', run_thread v k = Done (Some v') ∧ reading N (locked_by k ph) r v'.
Proof.
  intros [Hb Hm Hin Ho (i & c & Hi & Hmx & Hc & Hld) Ht Hcalls] Ha Hk. unfold run_thread. rewrite Ha in *.
  rewrite Ht, lookup_replicate_2 by done. cbn [thread_step ibvio_swrite_chunk_thread ibvio_sread]. rewrite (info_at_ok fd Hfd _ i Hi). cbn [obind].
  unfold lock_info. rewrite Hmx. cbn [obind]. eexists. split; [reflexivity|].
  assert (E : unread (locked_by k ph) = unread ph ∧ reads (locked_by k ph) = reads ph ∧ sent (locked_by k ph) = sent ph ∧
    full_chunk (locked_by k ph) ∧ active (locked_by k ph) = Some (k, TReadLocked fd stat)) by (by destruct ph).
  destruct E as (Eu & Er & Es & Ef & Ea). split; rewrite ?Eu, ?Er, ?Es, ?Ea; try done.
  - by split; [apply Hb|].
  - eexists _, c. split; [apply lookup_insert_eq|]. by split_and!.
  - split; [done|]. cbn [sv_threads set_field]. by rewrite <- Ht.
Qed.

Lemma n_int : i32 n = n.
Proof. apply i32_id. unfold is_int, INT_MIN, INT_MAX, BUF_SIZE in *. lia. Qed.

(** The thread that has the mutex takes the message and reads a chunk. *)
Lemma reading_receive N r v k : reading N (PLocked k) r v →
  ∃ v', run_thread v k = Done (Some v') ∧ reading N (PSending k 0 C) r v'.
Proof.
  intros [Hb Hm Hin Ho (i & c & Hi & Hmx & Hc & Hld) [Hk Ht] Hcalls]. unfold run_thread. pose proof (chunks_pos Hn).
  rewrite Ht, list_lookup_insert_eq by (by rewrite length_replicate). cbn [thread_step ibvio_swrite_chunk_thread ibvio_sread].
  rewrite (receive_head _ _ _ _ _ Hin), (info_at_ok fd Hfd _ i) by done. cbn [obind].
  set (v1 := v <| sv_in := [] |>).
  destruct (read_cache_ok v1 i c 0 Hcalls Hc Hld ltac:(lia)) as (c' & E & Hld' & Hp).
  rewrite Z.mul_0_l in E. rewrite E. cbn [obind]. rewrite n_int. eexists. split; [reflexivity|].
  assert (E1 : (1 `min` K = 1)%nat) by lia.
  split; try done; cbn [reads active sent]; rewrite ?E1.
  - cbn [sent] in Hb. split; [lia|done].
  - eexists _, c'. split; [apply lookup_insert_eq|]. by split_and!.
  - split; [done|]. rewrite Z.mul_1_l, (bound_0 Hn). cbn [sv_threads set_field set_info v1].
    by rewrite Ht, list_insert_insert_eq.
  - done.
Qed.

(** The size of the next chunk. *)
Lemma server_chunk {A} s (k : Z → outcome A) : (s < K)%nat →
  (sum <- c_int (bound s + C) ;; size <- (if n <? sum then c_int (n - bound s) else Done C) ;; k size) =
  k (bound (S s) - bound s).
Proof.
  intros Hs. pose proof (bound_range Hn s). pose proof (bound_range Hn (S s)). pose proof (proj1 (chunks_spec Hn s) Hs).
  rewrite c_int_bounds by (unfold BUF_SIZE, INT_MAX, IBVIO_CHUNK_SIZE in *; lia). cbn [obind].
  destruct (bound_lt Hn s Hs) as [Hbs _]. destruct (n <? _) eqn:E; [apply Z.ltb_lt in E|apply Z.ltb_ge in E].
  - rewrite c_int_bounds by (unfold BUF_SIZE, INT_MAX in *; lia). cbn [obind]. f_equal.
    unfold IbioSession.bound, IBVIO_CHUNK_SIZE in *. lia.
  - cbn [obind]. f_equal. unfold IbioSession.bound, IBVIO_CHUNK_SIZE in *. lia.
Qed.

(** It sends a chunk, and reads the next one if there is one. *)
Lemma reading_chunk N r v k s cs : reading N (PSending k s cs) r v → (s < K)%nat →
  ∃ v' cs', run_thread v k = Done (Some v') ∧ reading N (PSending k (S s) cs') r v'.
Proof.
  intros [[Hb Hcs] Hm Hin Ho (i & c & Hi & Hmx & Hc & Hld) [Hk Ht] Hcalls] Hs. cbn [sent full_chunk reads] in *.
  rewrite (Hcs Hs) in Ht. unfold run_thread. pose proof (chunks_pos Hn). assert (E1 : (S s `min` K = S s)%nat) by lia. rewrite E1 in *.
  rewrite Ht, list_lookup_insert_eq by (by rewrite length_replicate). cbn [thread_step ibvio_swrite_chunk_thread ibvio_sread].
  rewrite (info_at_ok fd Hfd _ i) by done. cbn [obind io_count set_field].
  destruct (bound_lt Hn s Hs) as [_ Hlt]. rewrite (proj2 (Z.ltb_lt _ _) Hlt).
  rewrite (server_chunk s _ Hs). pose proof (loaded_cached c (S s) Hld) as Hca.
  rewrite (cache_read_ok Hn i c (S s) s Hc Hca) by lia. cbn [obind].
  pose proof (bound_range Hn (S s)). rewrite Zplus_minus, c_int_bounds by (unfold BUF_SIZE, INT_MAX in *; lia). cbn [obind].
  set (v1 := send v stat _).
  assert (Ho1 : sv_out v1 = data_msgs r (S s - r)).
  { change (sv_out v1) with (sv_out v ++ [SMsg me tag (PData (chunk n read_bytes s))]). rewrite Ho. unfold data_msgs.
    replace (S s - r)%nat with (S (s - r)) by lia. rewrite seq_S, map_app. cbn. do 5 f_equal. lia. }
  assert (Hb1 : (r ≤ S s ≤ K)%nat ∧ ((S s < K)%nat → bound (S s) - bound s = C)) by (split; [lia|by apply bound_step_full]).
  pose proof (chunks_spec Hn (S s)) as Hspec.
  assert (Ht1 : ∀ x, <[k := x]> (sv_threads v) = <[k := x]> (replicate N waiting_thread)).
  { intros x. by rewrite Ht, list_insert_insert_eq. }
  destruct (Z.ltb_spec (Z.of_nat (S s) * C) n) as [Hmore|Hlast].
  - destruct (read_cache_ok v1 i c (S s) Hcalls Hc Hld ltac:(lia)) as (c' & E & Hld' & Hp). rewrite E. cbn [obind].
    rewrite c_int_bounds by (unfold BUF_SIZE, INT_MAX, IBVIO_CHUNK_SIZE in *; lia). cbn [obind].
    assert (E2 : (S (S s) `min` K = S (S s))%nat) by lia.
    eexists _, _. split; [reflexivity|]. split; try done; cbn [reads active sent]; rewrite ?E2; try done.
    + eexists _, c'. split; [apply lookup_insert_eq|]. by split_and!.
    + split; [done|]. rewrite (Nat2Z.inj_succ (S s)), Z.mul_succ_l. apply Ht1.
  - assert (E2 : (S (S s) `min` K = S s)%nat) by lia.
    eexists _, _. split; [reflexivity|]. split; try done; cbn [reads active sent]; rewrite ?E2; try done.
    + by exists i, c.
    + split; [done|]. apply Ht1.
Qed.

(** After the last chunk it releases the mutex and ends. *)
Lemma reading_end N r v k cs : reading N (PSending k K cs) r v →
  ∃ v', run_thread v k = Done (Some v') ∧ reading (N - 1) PDone r v'.
Proof.
  intros [[Hb Hcs] Hm Hin Ho (i & c & Hi & Hmx & Hc & Hld) [Hk Ht] Hcalls]. cbn [sent reads] in *.
  assert (E1 : (S K `min` K = K)%nat) by lia. rewrite E1 in *. unfold run_thread.
  rewrite Ht, list_lookup_insert_eq by (by rewrite length_replicate). cbn [thread_step ibvio_swrite_chunk_thread ibvio_sread].
  rewrite (info_at_ok fd Hfd _ i) by done. cbn [obind io_count set_field]. rewrite (bound_last Hn), Z.ltb_irrefl. cbn [obind].
  eexists. split; [reflexivity|]. split; try done.
  - eexists _, c. split; [apply lookup_insert_eq|]. by split_and!.
  - cbn [active sv_threads set_field set_info]. by rewrite Ht, delete_insert_replicate.
Qed.

(** *** The whole session *)

(** The steps of the threads that are left. *)
Definition rem (N : nat) (ph : phase) : nat :=
  match ph with
  | PWait => match N with 0%nat => K + 5 | S _ => K + 4 end
  | PLocked _ => K + 3
  | PSending _ s _ => K + 2 - s
  | PDone => 1
  | PHeld _ => 0
  end.

Lemma reading_thread N ph r v k : reading N ph r v →
  run_thread v k = Done None ∨
  ∃ v' N' ph', run_thread v k = Done (Some v') ∧ reading N' ph' r v' ∧ (rem N' ph' < rem N ph)%nat.
Proof.
  intros H. pose proof (rd_bounds _ _ _ _ H) as [Hb Hcs].
  assert (Hfree : active ph = None → run_thread v k = Done None ∨
    ∃ v', run_thread v k = Done (Some v') ∧ reading N (locked_by k ph) r v' ∧ (0 < N)%nat).
  { intros Ha. destruct (decide (k < N)%nat) as [Hk|Hk].
    - destruct (reading_lock _ _ _ _ _ H Ha Hk) as (v' & E & H'). right. exists v'. split_and!; [done..|lia].
    - left. apply (reading_blocked _ _ _ _ _ H). rewrite Ha. lia. }
  assert (Hother : ∀ k' t, active ph = Some (k', t) → k ≠ k' → run_thread v k = Done None).
  { intros k' t Ha Hk. apply (reading_blocked _ _ _ _ _ H). by rewrite Ha. }
  destruct ph as [|k'|k' s cs| |k']; cbn [active sent] in *.
  - destruct (Hfree eq_refl) as [?|(v' & E & H' & HN)]; [by left|]. right. exists v', N, (PLocked k). split_and!; [done..|].
    cbn. destruct N; lia.
  - destruct (decide (k = k')) as [->|Hne]; [right|left; by eapply Hother].
    destruct (reading_receive _ _ _ _ H) as (v' & E & H'). eexists _, _, _. split_and!; [done..|]. cbn. lia.
  - destruct (decide (k = k')) as [->|Hne]; [right|left; by eapply Hother].
    destruct (decide (s < K)%nat) as [Hs|Hs].
    + destruct (reading_chunk _ _ _ _ _ _ H Hs) as (v' & cs' & E & H'). eexists _, _, _. split_and!; [done..|]. cbn. lia.
    + assert (s = K) as -> by lia. destruct (reading_end _ _ _ _ _ H) as (v' & E & H').
      eexists _, _, _. split_and!; [done..|]. cbn. lia.
  - destruct (Hfree eq_refl) as [?|(v' & E & H' & HN)]; [by left|]. right. exists v', N, (PHeld k). split_and!; [done..|].
    cbn. lia.
  - left. destruct (decide (k = k')) as [->|Hne]; [|by eapply Hother]. destruct H as [_ _ Hin _ _ [Hk Ht] _].
    unfold run_thread. rewrite Ht, list_lookup_insert_eq by (by rewrite length_replicate). cbn [thread_step ibvio_swrite_chunk_thread ibvio_sread].
    unfold receive. by rewrite Hin.
Qed.

(** The client takes what has been sent. *)
Lemma reading_client N ph r v : reading N ph r v →
  if decide (r < sent ph)%nat
  then ∃ rest', take_reply me tag (sv_out v) = Some (PData (chunk n read_bytes r), rest') ∧
         reading N ph (S r) (v <| sv_out := rest' |>)
  else take_reply me tag (sv_out v) = None.
Proof.
  intros H. pose proof (rd_out _ _ _ _ H) as Ho. pose proof (rd_bounds _ _ _ _ H) as [Hb Hcs]. rewrite Ho.
  destruct (decide _) as [Hr|Hr].
  - exists (data_msgs (S r) (sent ph - S r)). replace (sent ph - r)%nat with (S (sent ph - S r)) by lia.
    cbn. rewrite !Z.eqb_refl, orb_true_r. split; [done|]. destruct H as [_ Hm Hin _ Hi Ht Hc].
    split; try done. split; [lia|done].
  - by replace (sent ph - r)%nat with 0%nat by lia.
Qed.

(** Who can bring the end nearer. *)
Definition helpful (N : nat) (ph : phase) (r : nat) : actor :=
  match ph with
  | PWait => match N with 0%nat => AMain | S _ => AThreads end
  | PLocked _ => AThreads
  | PSending _ s _ => if decide (r < s)%nat then AClient else AThreads
  | PDone | PHeld _ => AClient
  end.

Inductive rstate : nat → actor → system (Z * list Z) → Prop :=
| rs_start : rstate (2 * K + 7) AClient (Sys (SendWait host tag (POpen (garbage <| io_count := i32 n |>)) (recv_at 0)) v0)
| rs_on N ph r v : reading N ph r v → rstate (rem N ph + (K - r)) (helpful N ph r) (Sys (recv_at r) v).

Lemma reading_start : reading 0 PWait 0 (v0 <| sv_in := sv_in v0 ++ [read_msg] |>).
Proof.
  destruct Hidle as [Hm Ht Hin Ho (i & c & Hi & Hf & Hmx & Hc)]. rewrite Hi in Hc0. cbn in Hc0. rewrite Hc in Hc0. simplify_eq.
  split; try done.
  - cbn. split; [lia|done].
  - cbn. by rewrite Hin.
  - exists i, c0. split_and!; [done..|]. apply loaded_0.
  - exists []. rewrite app_nil_r. split_and!; [done..|]. cbn. unfold pos_at. lia.
Qed.

Local Notation step := (sys_do l host me).
Local Notation move := (moves l host me).
Definition returned {R} (s : system R) : Prop := ∃ r, sy_client s = Ret r.

(** A move brings the end nearer, or leaves the helpful actor helpful. *)
Lemma rstate_on_main N ph r v s' : reading N ph r v → step ByMain (Sys (recv_at r) v) = Some s' →
  (∃ d' a', (d' < rem N ph + (K - r))%nat ∧ rstate d' a' s') ∨
  AMain ≠ helpful N ph r ∧ rstate (rem N ph + (K - r)) (helpful N ph r) s'.
Proof.
  intros H Hs. pose proof (reading_main _ _ _ _ H) as Hm. cbn in Hs. destruct (unread ph) eqn:Hu; [|by rewrite Hm in Hs].
  destruct Hm as (v' & E & H'). rewrite E in Hs. injection Hs as <-. pose proof (rs_on _ _ _ _ H') as Hr.
  destruct ph as [|k| | |]; try done.
  - destruct N; [left|by right]. eexists _, _. split; [|done]. cbn. lia.
  - by right.
Qed.

Lemma rstate_on N ph r v c s' : reading N ph r v → step c (Sys (recv_at r) v) = Some s' →
  (∃ d' a', (d' < rem N ph + (K - r))%nat ∧ rstate d' a' s') ∨
  actor_of c ≠ helpful N ph r ∧ rstate (rem N ph + (K - r)) (helpful N ph r) s'.
Proof.
  intros H Hs. destruct c as [| |k]; [left|by apply rstate_on_main with v|left].
  - destruct (decide (r < K)%nat) as [Hr|Hr].
    + destruct (recv_step r Hr) as (k & E & Ek). pose proof (reading_client _ _ _ _ H) as Hc. cbn in Hs.
      rewrite E, Z.eqb_refl in Hs. destruct (decide _); [|by rewrite Hc in Hs]. destruct Hc as (rest' & E' & H').
      rewrite E' in Hs. injection Hs as <-. rewrite Ek. eexists _, _. split; [|by apply rs_on]. lia.
    + pose proof (rd_bounds _ _ _ _ H) as [Hb _]. assert (r = K) as -> by lia. cbn in Hs. by rewrite recv_end in Hs.
  - cbn in Hs. destruct (reading_thread _ _ _ _ k H) as [E|(v' & N' & ph' & E & H' & Hd)]; rewrite E in Hs; [done|].
    injection Hs as <-. eexists _, _. split; [|by apply rs_on]. lia.
Qed.

Lemma rstate_step d a s c s' : rstate d a s → step c s = Some s' →
  (∃ d' a', (d' < d)%nat ∧ rstate d' a' s') ∨ actor_of c ≠ a ∧ rstate d a s'.
Proof.
  intros Hst Hs. destruct Hst as [|N ph r v H]; [|by apply rstate_on with v]. destruct c as [| |k]; cbn in Hs.
  - rewrite Z.eqb_refl in Hs. injection Hs as <-. left. eexists _, _. split; [|apply rs_on, reading_start]. cbn. lia.
  - by rewrite quiet_main in Hs by apply Hidle.
  - by rewrite quiet_thread in Hs by apply Hidle.
Qed.

(** The helpful actor can move until the client has returned. *)
Lemma rstate_helps d a s : rstate d a s → returned s ∨ ∃ c s', actor_of c = a ∧ step c s = Some s'.
Proof.
  intros Hst. destruct Hst as [|N ph r v H].
  { right. eexists ByClient, _. split; [done|]. cbn. by rewrite Z.eqb_refl. }
  pose proof (rd_bounds _ _ _ _ H) as [Hb Hcs]. destruct (decide (r < K)%nat) as [Hr|Hr].
  2: { left. assert (r = K) as -> by lia. eexists. apply recv_end. }
  right. assert (Hcl : (r < sent ph)%nat → ∃ c s', actor_of c = AClient ∧ step c (Sys (recv_at r) v) = Some s').
  { intros Hlt. destruct (recv_step r Hr) as (k & E & _). pose proof (reading_client _ _ _ _ H) as Hc.
    rewrite decide_True in Hc by done. destruct Hc as (rest' & E' & _). eexists ByClient, _. split; [done|].
    cbn. by rewrite E, Z.eqb_refl, E'. }
  assert (Hth : ∀ k, (∃ v', run_thread v k = Done (Some v')) → ∃ c s', actor_of c = AThreads ∧ step c (Sys (recv_at r) v) = Some s').
  { intros k (v' & E). eexists (ByThread k), _. split; [done|]. cbn. by rewrite E. }
  destruct ph as [|k|k s cs| |k]; cbn [helpful sent] in *; [..|by apply Hcl|by apply Hcl].
  - destruct N as [|N].
    + destruct (reading_main _ _ _ _ H) as (v' & E & _). eexists ByMain, _. split; [done|]. cbn. by rewrite E.
    + apply (Hth 0%nat). destruct (reading_lock _ _ _ _ 0 H eq_refl ltac:(lia)) as (v' & E & _). by eauto.
  - apply (Hth k). destruct (reading_receive _ _ _ _ H) as (v' & E & _). by eauto.
  - destruct (decide (r < s)%nat); [by apply Hcl|]. assert (r = s) as -> by lia. apply (Hth k).
    destruct (reading_chunk _ _ _ _ _ _ H Hr) as (v' & cs' & E & _). by eauto.
Qed.

Lemma rstate_reachable m s :
  nsteps (sys_step l host me) m (Sys (SendWait host tag (POpen (garbage <| io_count := i32 n |>)) (recv_at 0)) v0) s →
  ∃ d a, rstate d a s.
Proof.
  revert s. induction m as [|m IH]; intros s H.
  - inversion H; subst. eexists _, _. constructor.
  - apply nsteps_inv_r in H as (s1 & H1 & H2). destruct (IH _ H1) as (d & a & Hst).
    apply sys_step_do in H2 as [c H2]. destruct (rstate_step _ _ _ _ _ Hst H2) as [(d' & a' & _ & H3)|[_ H3]]; by eauto.
Qed.

(** No part goes wrong. *)
Lemma rstate_sound d a s : rstate d a s → ¬ sys_fault l s.
Proof.
  intros Hst Hf. destruct Hst as [|N ph r v H].
  - destruct Hf as [Hf|[Hf|[Hf|[k Hf]]]]; cbn in Hf; try done.
    + apply (Hf None), quiet_main; apply Hidle.
    + apply (Hf None), quiet_thread, Hidle.
  - assert (Hc : recv_at r = Fault ∨ recv_at r = Unfinished → False).
    { destruct (decide (r < K)%nat) as [Hr|Hr].
      - destruct (recv_step r Hr) as (k & -> & _). by intros [|].
      - unfold recv_at. rewrite decide_False by done. by intros [|]. }
    destruct Hf as [Hf|[Hf|[Hf|[k Hf]]]]; cbn in Hf; [by auto..| |].
    + pose proof (reading_main _ _ _ _ H) as Hm. destruct (unread ph); [|by apply (Hf None)].
      destruct Hm as (v' & E & _). by apply (Hf (Some v')).
    + destruct (reading_thread _ _ _ _ k H) as [E|(v' & N' & ph' & E & _)]; [by apply (Hf None)|by apply (Hf (Some v'))].
Qed.

(** When the client has returned. *)
Lemma rstate_end d a s x : rstate d a s → sy_client s = Ret x →
  x = (io_stat garbage, read_bytes ++ drop (Z.to_nat n) buf) ∧ progressed K (sv_calls (sy_server s)).
Proof.
  intros Hst Hc. destruct Hst as [|N ph r v H]; [done|]. cbn in Hc. pose proof (rd_bounds _ _ _ _ H) as [Hb _].
  destruct (decide (r < K)%nat) as [Hr|Hr].
  { destruct (recv_step r Hr) as (k & E & _). by rewrite E in Hc. }
  assert (r = K) as -> by lia. rewrite recv_end in Hc. injection Hc as <-. split; [done|].
  pose proof (rd_calls _ _ _ _ H) as Hp. destruct ph as [|k|k s cs| |k]; cbn [sent reads] in *; try done.
  1, 2: pose proof (chunks_pos Hn); lia.
  assert (s = K) as -> by lia. by replace (S K `min` K)%nat with K in Hp by lia.
Qed.

(** *** A thread that is left over *)
Local Notation start := (Sys (SendWait host tag (POpen (garbage <| io_count := i32 n |>)) (recv_at 0)) v0).

Lemma reading_sends N k s cs v : reading N (PSending k s cs) s v →
  ∃ cs' v', rtc (sys_step l host me) (Sys (recv_at s) v) (Sys (recv_at K) v') ∧ reading N (PSending k K cs') K v'.
Proof.
  intros H. pose proof (rd_bounds _ _ _ _ H) as [Hb _]. cbn [sent] in Hb. remember (K - s)%nat as j eqn:Hj.
  revert s cs v H Hb Hj. induction j as [|j IH]; intros s cs v H Hb Hj.
  { assert (s = K) as -> by lia. by exists cs, v. }
  destruct (reading_chunk _ _ _ _ _ _ H ltac:(lia)) as (v1 & cs1 & E & H1). pose proof (reading_client _ _ _ _ H1) as Hc.
  cbn [sent] in Hc. rewrite decide_True in Hc by lia. destruct Hc as (rest' & E' & H2).
  destruct (recv_step s ltac:(lia)) as (kk & Ek & Ek').
  destruct (IH _ _ _ H2 ltac:(lia) ltac:(lia)) as (cs' & v' & Hr & H').
  exists cs', v'. split; [|done]. eapply rtc_l; [by eapply step_thread|]. rewrite Ek.
  eapply rtc_l; [by apply step_recv|]. by rewrite Ek'.
Qed.

(** The message may be seen twice, and the second thread then have the mutex
    for ever. *)
Lemma reading_can_hold : ∃ N k v, rtc (sys_step l host me) start (Sys (recv_at K) v) ∧ reading N (PHeld k) K v.
Proof.
  pose proof reading_start as H0.
  destruct (reading_main _ _ _ _ H0) as (v1 & E1 & H1). destruct (reading_main _ _ _ _ H1) as (v2 & E2 & H2).
  destruct (reading_lock _ _ _ _ 0 H2 eq_refl ltac:(lia)) as (v3 & E3 & H3).
  destruct (reading_receive _ _ _ _ H3) as (v4 & E4 & H4).
  destruct (reading_sends _ _ _ _ _ H4) as (cs & v5 & Hr & H5).
  destruct (reading_end _ _ _ _ _ H5) as (v6 & E6 & H6).
  destruct (reading_lock _ _ _ _ 0 H6 eq_refl ltac:(lia)) as (v7 & E7 & H7).
  eexists _, 0%nat, v7. split; [|exact H7].
  eapply rtc_l; [apply step_send|]. do 2 (eapply rtc_l; [by apply step_main|]).
  do 2 (eapply rtc_l; [by eapply step_thread|]). etrans; [exact Hr|].
  eapply rtc_l; [by eapply step_thread|]. by apply rtc_once, (step_thread _ _ _ _ _ 0).
Qed.
End reading.

(** C8: a read over the network.  For every interleaving of the client, the main
    loop of the server, which may start any number of threads for the one
    message, and those threads: nothing goes wrong, something can happen until
    the client returns, and when it has returned its buffer holds the bytes of
    the file (and behind the end of the file what the cache held before).  The
    position of the file is then where whole chunks have taken it, not behind
    the bytes that were asked for; and the result is a field nobody has stored
    to. *)
Theorem read_session_correct `{OS} l host me fd n garbage buf v0 c0 rest c m s :
  os_works → 0 < n ≤ BUF_SIZE → 0 ≤ fd < 2 ^ 15 → n ≤ Z.of_nat (length buf) →
  idle fd v0 → sv_open v0 !! fd ≫= cache = Some c0 → os_reads fd (sv_calls v0) rest → aget (host_ids c) fd = Done host →
  nsteps (sys_step l host me) m (Sys (ibtl_read c garbage fd buf n) v0) s →
  ¬ sys_fault l s ∧ (returned s ∨ ∃ s', sys_step l host me s s') ∧
  ∀ r, sy_client s = Ret r →
    r = (io_stat garbage, read_bytes n c0 rest ++ drop (Z.to_nat n) buf) ∧
    (n ≤ Z.of_nat (length rest) → read_bytes n c0 rest = take (Z.to_nat n) rest) ∧
    ∃ more, sv_calls (sy_server s) = sv_calls v0 ++ more ∧
      file_pos fd (sv_calls v0) more = Z.min (Z.of_nat (chunks n) * IBVIO_CHUNK_SIZE) (Z.of_nat (length rest)).
Proof.
  intros Hos Hn Hfd Hbuf Hidle Hc0 Hrd Hh Hst. erewrite (read_start host fd n Hn Hfd garbage buf c0 rest) in Hst by done.
  eapply rstate_reachable in Hst as (d & a & Hst); [|done..]. split_and!.
  - by eapply rstate_sound.
  - eapply rstate_helps in Hst as [Hr|(ch & s' & _ & Hs)]; [by left|right|done..]. exists s'. by eapply sys_do_step.
  - intros r Hr. eapply rstate_end in Hr as [-> (more & E & _ & Hp)]; [|done..]. split_and!; [done| |by exists more].
    by apply read_bytes_file.
Qed.

(** C9: a read comes to an end.  In every run in which the client, the main loop
    and the threads are treated fairly the client returns. *)
Theorem read_session_returns `{OS} l host me fd n garbage buf v0 c0 rest c e :
  os_works → 0 < n ≤ BUF_SIZE → 0 ≤ fd < 2 ^ 15 → n ≤ Z.of_nat (length buf) →
  idle fd v0 → sv_open v0 !! fd ≫= cache = Some c0 → os_reads fd (sv_calls v0) rest → aget (host_ids c) fd = Done host →
  e 0%nat = Sys (ibtl_read c garbage fd buf n) v0 → run (moves l host me) e → fair (moves l host me) e →
  ∃ m, returned (e m).
Proof.
  intros Hos Hn Hfd Hbuf Hidle Hc0 Hrd Hh He Hrun Hfair.
  erewrite (read_start host fd n Hn Hfd garbage buf c0 rest) in He by done.
  destruct (fair_finishes (moves l host me) (rstate host me fd n garbage buf v0 c0 rest) returned) with
    (e := e) (d := (2 * chunks n + 7)%nat) (a := AClient) (n := 0%nat) as (m & _ & Hm); [..|done|done| |by exists m].
  - intros d a s Hs. eapply rstate_helps in Hs as [?|(ch & s' & <- & Hs)]; [by left|right; exists s'; by exists ch|done..].
  - intros d a s b s' Hs (ch & <- & Hm). right. by eapply rstate_step.
  - rewrite He. constructor.
Qed.

(** ** A read to evaluate on *)

Lemma sample_file_pos more : file_pos 5 [] more = Z.of_nat (sample_pos more).
Proof.
  induction more as [|c more IH] using rev_ind; [done|].
  rewrite file_pos_app, IH. cbn [file_pos app]. unfold sample_pos at 2. rewrite foldl_app. cbn [foldl].
  destruct c as [| |f k| | | |]; cbn [os_ret OS_sample]; unfold sample_pos; try lia.
  destruct (f =? 5); lia.
Qed.

Lemma sample_os_reads : os_reads 5 [] sample_file.
Proof.
  split; intros more k _.
  - rewrite sample_file_pos, Nat2Z.id. done.
  - done.
Qed.

(** The main loop sees the message twice. *)
Definition read_schedule : list choice :=
  [ByClient; ByMain; ByMain; ByThread 0; ByThread 0; ByThread 0; ByClient; ByThread 0].
Definition read_sample : system (Z * list Z) := Sys (ibtl_read sample_client sample_iopen 5 [1; 2; 3; 4] 2) sample_server.

Lemma read_session_correct_witness :
  ∃ s, nsteps (sys_step sample_locals 0 1) 8 read_sample s ∧ sy_client s = Ret (77, [10; 20; 3; 4]).
Proof.
  destruct (sys_run sample_locals 0 1 read_schedule read_sample) as [s|] eqn:E; [|by vm_compute in E].
  pose proof (sys_run_steps _ _ _ _ _ _ E) as Hrun. exists s. split; [exact Hrun|].
  assert (Hret : ∃ r, sy_client s = Ret r).
  { apply (f_equal (fmap sy_client)) in E. vm_compute in E. injection E as E. eexists. symmetry. exact E. }
  destruct Hret as [r Hret]. rewrite Hret. f_equal.
  exact (proj1 (proj2 (proj2 (read_session_correct sample_locals 0 1 5 2 sample_iopen [1; 2; 3; 4] sample_server (λ _, 0) sample_file
    sample_client 8 s sample_os_works ltac:(unfold BUF_SIZE; lia) ltac:(lia) ltac:(cbn; lia) sample_idle eq_refl sample_os_reads eq_refl Hrun))
    r Hret)).
Defined.

Definition short_schedule : list choice := [ByClient; ByMain; ByThread 0; ByThread 0; ByThread 0; ByClient; ByThread 0].

Lemma short_schedule_fair :
  run (moves sample_locals 0 1) (schedule_run sample_locals 0 1 short_schedule read_sample) ∧
  fair (moves sample_locals 0 1) (schedule_run sample_locals 0 1 short_schedule read_sample).
Proof.
  destruct (sys_run sample_locals 0 1 short_schedule read_sample) as [s|] eqn:E; [|by vm_compute in E].
  apply (schedule_run_ok _ _ _ _ _ _ E).
  assert (Hs : ∃ r, sy_client s = Ret r ∧ sv_main (sy_server s) = Probing ∧ sv_in (sy_server s) = [] ∧ sv_threads (sy_server s) = []).
  { apply (f_equal (fmap (λ s, (sy_client s, sv_main (sy_server s), sv_in (sy_server s), sv_threads (sy_server s))))) in E.
    vm_compute in E. injection E as E1 E2 E3 E4. eexists. split_and!; symmetry; eassumption. }
  destruct Hs as (r & Hc & Hm & Hi & Ht). intros [| |k]; cbn.
  - by rewrite Hc.
  - by rewrite quiet_main.
  - by rewrite quiet_thread.
Qed.

Lemma read_session_returns_witness :
  ∃ m, returned (schedule_run sample_locals 0 1 short_schedule read_sample m).
Proof.
  exact (read_session_returns sample_locals 0 1 5 2 sample_iopen [1; 2; 3; 4] sample_server (λ _, 0) sample_file
    sample_client _ sample_os_works ltac:(unfold BUF_SIZE; lia) ltac:(lia) ltac:(cbn; lia) sample_idle eq_refl sample_os_reads eq_refl
    eq_refl (proj1 short_schedule_fair) (proj2 short_schedule_fair)).
Defined.
