(* ===== verification/IbioFaults.v ===== *)
(** * src/examples: sessions that go wrong

    An empty write, which is never answered; a thread left over from a read,
    because of which no write is answered any more; and the end of a file whose
    number is next to that of a file being written. *)
From S2P Require Import Prelude Fairness Mem Queue Datatype ProcMan State Ibio IbioServer IbioSession IbioProgram IbioRead.

(** ** An empty write *)
Section empty.
Context {HOS : OS} (l : locals) (host me fd : Z) (Hfd : 0 ≤ fd < 2 ^ 15) (garbage : ibvio_open).
Implicit Types (v : server).

Lemma rest_main v : at_rest v → main_step v l = Done None.
Proof. intros (Hm & Hi & _). by apply quiet_main. Qed.
Lemma rest_thread v k : at_rest v → run_thread v k = Done None.
Proof. intros (_ & _ & Ht & _). by apply quiet_thread. Qed.

(** The header of the write is on its way. *)
Definition header_sent v : Prop :=
  ∃ v1, at_rest v1 ∧ v = v1 <| sv_in := [begin_msg me fd 0 garbage] |>.

Lemma header_main v : header_sent v → ∃ v', main_step v l = Done (Some v') ∧ at_rest v'.
Proof.
  intros (v1 & (Hm & Hi & Ht & Ho) & ->).
  erewrite (main_probe l me fd Hfd _ IBVIO_OP_WRITE_BEGIN) by (done || (unfold IBVIO_OP_WRITE_BEGIN; lia)).
  change (dispatch ?v l IBVIO_OP_WRITE_BEGIN fd) with (ibvio_swrite_begin v fd). unfold ibvio_swrite_begin, receive_open.
  erewrite receive_head by done. unfold info_at, MAX_FILE_OPEN.
  rewrite (proj2 (Z.leb_le _ _)), (proj2 (Z.ltb_lt _ _)) by lia. cbn [andb obind].
  eexists. split; [reflexivity|]. by split_and!.
Qed.

(** The three states of the system. *)
Inductive waiting : nat → system Z → Prop :=
| wt_start v : at_rest v → waiting 0 (Sys (SendWait host (tag_of fd IBVIO_OP_WRITE_BEGIN)
                                        (POpen (garbage <| io_count := i32 0 |>)) (finish host)) v)
| wt_header v : header_sent v → waiting 1 (Sys (finish host) v)
| wt_rest v : at_rest v → waiting 2 (Sys (finish host) v).

Lemma waiting_step m sy sy' : waiting m sy → sys_step l host me sy sy' → waiting (S m) sy'.
Proof.
  intros Hw Hst. destruct Hw as [v Hv|v Hv|v Hv]; inversion Hst; subst.
  all: try (by rewrite rest_main in * by done).
  all: try (by rewrite rest_thread in * by done).
  - apply wt_header. exists v. split; [done|]. destruct Hv as (_ & -> & _). done.
  - destruct Hv as (v1 & (_ & _ & _ & Ho) & ->). cbn [sv_out set_field] in *. by rewrite Ho in *.
  - destruct (header_main v Hv) as (v2 & E & H). rewrite E in *. simplify_eq. by apply wt_rest.
  - destruct Hv as (v1 & (_ & _ & Ht & _) & ->). by rewrite quiet_thread in *.
  - destruct Hv as (_ & _ & _ & Ho). by rewrite Ho in *.
Qed.
End empty.

(** C39: an empty write is never answered.  The server replies from the handler
    of the last chunk, and a write of no bytes has none: after the header has
    been taken nothing more happens, and the client does not return. *)
Theorem empty_write_hangs `{OS} l host me fd buf garbage v0 c m sy :
  0 ≤ fd < 2 ^ 15 → at_rest v0 → aget (host_ids c) fd = Done host →
  nsteps (sys_step l host me) m (Sys (ibtl_write c garbage fd buf 0) v0) sy →
  (m ≤ 2)%nat ∧ (∀ r, sy_client sy ≠ Ret r) ∧ (m = 2%nat → ∀ sy', ¬ sys_step l host me sy sy').
Proof.
  intros Hfd Hv Hh Hst.
  assert (Hw : waiting host me fd garbage m sy).
  { assert (E : ibtl_write c garbage fd buf 0 = SendWait host (tag_of fd IBVIO_OP_WRITE_BEGIN)
      (POpen (garbage <| io_count := i32 0 |>)) (finish host)).
    { unfold ibtl_write. rewrite Hh. cbn [lift].
      by rewrite !serialize_ok by (unfold IBVIO_OP_WRITE_BEGIN, IBVIO_OP_WRITE_CHUNK; lia). }
    rewrite E in Hst. revert sy Hst. induction m as [|m IH]; intros sy Hst.
    - inversion Hst; subst. by constructor.
    - apply nsteps_inv_r in Hst as (sy1 & H1 & H2). eapply waiting_step; [done|by apply IH|done]. }
  split_and!.
  - destruct Hw; lia.
  - by destruct Hw.
  - intros -> sy' Hst'. pose proof (waiting_step l host me fd Hfd garbage _ _ _ Hw Hst') as Hw'. inversion Hw'.
Qed.

Lemma empty_write_hangs_witness :
  ∃ sy, nsteps (sys_step sample_locals 0 1) 2 (Sys (ibtl_write sample_client sample_iopen 5 [] 0) sample_server) sy ∧
    ∀ sy', ¬ sys_step sample_locals 0 1 sy sy'.
Proof.
  destruct (sys_run sample_locals 0 1 [ByClient; ByMain] (Sys (ibtl_write sample_client sample_iopen 5 [] 0) sample_server))
    as [sy|] eqn:E; [|by vm_compute in E].
  pose proof (sys_run_steps _ _ _ _ _ _ E) as Hrun. exists sy. split; [exact Hrun|].
  exact (proj2 (proj2 (empty_write_hangs sample_locals 0 1 5 [] sample_iopen sample_server sample_client 2 sy
    ltac:(lia) ltac:(by split_and!) eq_refl Hrun)) eq_refl).
Defined.

(** ** A write after a read *)
Section held.
Context {HOS : OS} (l : locals) (host me fd n : Z) (buf : list Z).
Context (Hn : 0 < n ≤ BUF_SIZE) (Hbuf : n = Z.of_nat (length buf)) (Hfd : 0 ≤ fd < 2 ^ 15) (garbage : ibvio_open) (log : list os_call).
Implicit Types (v : server).
Local Notation chunk_tag := (tag_of fd IBVIO_OP_WRITE_CHUNK).

Definition stuck_thread (t : thread_state) : Prop :=
  t = TChunk fd ∨ t = TRead fd (Status me (tag_of fd IBVIO_OP_READ)) ∨ t = TReadLocked fd (Status me (tag_of fd IBVIO_OP_READ)).

(** A thread has the mutex of the file and waits for the message of a read. *)
Record held (v : server) : Prop := {
  hd_threads : Forall stuck_thread (sv_threads v);
  hd_mutex : fastmutex <$> sv_open v !! fd = Some Locked;
  hd_out : sv_out v = [];
  hd_file : file_bytes fd [] (sv_calls v) = file_bytes fd [] log;
}.
(** A write has begun, and none of it is written. *)
Record begun (v : server) : Prop := {
  bg_counts : (λ i, (write_count i, current_write_count i)) <$> sv_open v !! fd = Some (n, 0);
  bg_main : sv_main v = Probing ∨ ∃ stat, sv_main v = Spinning fd stat;
}.
Definition is_chunk_msg (m : smsg) : Prop := ∃ bs, m = SMsg me chunk_tag (PData bs).

Inductive waits_for_mutex : system Z → Prop :=
| wm_start v : held v → sv_main v = Probing → sv_in v = [] →
    waits_for_mutex (Sys (SendWait host (tag_of fd IBVIO_OP_WRITE_BEGIN) (POpen (garbage <| io_count := i32 n |>)) (client_at host fd n buf 0)) v)
| wm_header s v ms : held v → sv_main v = Probing → sv_in v = begin_msg me fd n garbage :: ms → Forall is_chunk_msg ms →
    (s ≤ chunks n)%nat → waits_for_mutex (Sys (client_at host fd n buf s) v)
| wm_begun s v : held v → begun v → Forall is_chunk_msg (sv_in v) → (s ≤ chunks n)%nat →
    waits_for_mutex (Sys (client_at host fd n buf s) v).

Lemma write_tags m : m = begin_msg me fd n garbage ∨ is_chunk_msg m → sm_tag m ≠ tag_of fd IBVIO_OP_READ.
Proof.
  assert (Hd : ∀ op, 0 ≤ op < 2 ^ 16 → op ≠ IBVIO_OP_READ → tag_of fd op ≠ tag_of fd IBVIO_OP_READ).
  { intros op Hop Hne E. apply (f_equal ibvio_deserialize_tag) in E. unfold tag_of in E.
    rewrite !deserialize_ok in E by (unfold IBVIO_OP_READ; lia). congruence. }
  intros [->|[bs ->]]; apply Hd; done || (unfold IBVIO_OP_WRITE_BEGIN, IBVIO_OP_WRITE_CHUNK; lia).
Qed.

(** No thread can move. *)
Lemma held_thread v k : held v → Forall (λ m, m = begin_msg me fd n garbage ∨ is_chunk_msg m) (sv_in v) → run_thread v k = Done None.
Proof.
  intros [Ht Hmx _ _] Hin. unfold run_thread. destruct (sv_threads v !! k) as [t|] eqn:Et; [|done].
  destruct (sv_open v !! fd) as [i|] eqn:Hi; [|done]. cbn in Hmx. injection Hmx as Hmx.
  destruct (Forall_lookup_1 _ _ _ _ Ht Et) as [->|[->| ->]]; cbn [thread_step ibvio_swrite_chunk_thread ibvio_sread].
  1, 2: rewrite (info_at_ok fd Hfd _ i Hi); cbn [obind]; unfold lock_info; by rewrite Hmx.
  - assert (E : receive v (Status me (tag_of fd IBVIO_OP_READ)) = None); [|by rewrite E].
    unfold receive. cbn [FMI_SOURCE FMI_TAG]. induction Hin as [|m ms Hm _ IH]; [done|]. cbn [take_message].
    pose proof (proj2 (Z.eqb_neq _ _) (write_tags m Hm)) as E. rewrite E, andb_false_r.
    by destruct (take_message _ _ ms) as [[p rest']|].
Qed.

Lemma held_begin v ms v' : held v → sv_main v = Probing → sv_in v = begin_msg me fd n garbage :: ms →
  main_step v l = Done (Some v') → held v' ∧ begun v' ∧ sv_in v' = ms.
Proof.
  intros [Ht Hmx Ho Hf] Hm Hin Hv. destruct (sv_open v !! fd) as [i|] eqn:Hi; [|done].
  rewrite (main_probe l me fd Hfd v IBVIO_OP_WRITE_BEGIN _ _ Hm Hin) in Hv by (unfold IBVIO_OP_WRITE_BEGIN; lia).
  change (dispatch v l IBVIO_OP_WRITE_BEGIN fd) with (ibvio_swrite_begin v fd) in Hv. unfold ibvio_swrite_begin, receive_open in Hv.
  erewrite receive_head, (info_at_ok fd Hfd _ i) in Hv by done. cbn [obind] in Hv. injection Hv as <-. split_and!; [|split|done].
  - split; try done. cbn. by rewrite lookup_insert_eq.
  - cbn. rewrite lookup_insert_eq. cbn. rewrite i32_id by (unfold is_int, INT_MIN, INT_MAX, BUF_SIZE in *; lia).
    by rewrite u64_id by (unfold BUF_SIZE in *; lia).
  - by left.
Qed.

Lemma held_chunk v m ms v' : held v → begun v → sv_main v = Probing → sv_in v = m :: ms → is_chunk_msg m →
  main_step v l = Done (Some v') → held v' ∧ begun v' ∧ sv_in v' = ms.
Proof.
  intros [Ht Hmx Ho Hf] [Hc _] Hm Hin [bs ->] Hv. destruct (sv_open v !! fd) as [i|] eqn:Hi; [|done]. injection Hmx as Hmx. injection Hc as Hw Hc.
  rewrite (main_probe l me fd Hfd v IBVIO_OP_WRITE_CHUNK _ _ Hm Hin) in Hv by (unfold IBVIO_OP_WRITE_CHUNK; lia).
  change (dispatch v l IBVIO_OP_WRITE_CHUNK fd) with (ibvio_swrite_chunk v fd) in Hv. unfold ibvio_swrite_chunk in Hv.
  erewrite (info_at_ok fd Hfd _ i Hi) in Hv. cbn [obind] in Hv. erewrite receive_head in Hv by done.
  unfold cache_write in Hv. destruct (cache i) as [c|]; [|done]. destruct (_ && _); [|done]. cbn [obind] in Hv.
  unfold ibvio_run_thread, os in Hv. destruct (negb _); [done|]. destruct (negb _); [done|]. cbn [obind] in Hv.
  injection Hv as <-. match goal with |- context [if ?b then _ else ?x] => set (v1 := x) end.
  assert (Hv1 : held v1 ∧ (λ i, (write_count i, current_write_count i)) <$> sv_open v1 !! fd = Some (n, 0) ∧ sv_in v1 = ms ∧ sv_main v1 = Probing).
  { split; [|split_and!; [|done..]].
    - split; [|by subst v1; cbn; rewrite lookup_insert_eq; cbn; rewrite Hmx|done|].
      + apply Forall_app. split; [done|]. constructor; [by left|done].
      + change (sv_calls v1) with ((sv_calls v ++ [OThreadCreate]) ++ [OThreadDetach]). by rewrite !file_bytes_other.
    - subst v1. cbn. rewrite lookup_insert_eq. cbn. by rewrite Hw, Hc. }
  destruct Hv1 as (H1 & H2 & H3 & H4). destruct (_ =? _).
  - split; [by destruct H1|]. split; [|done]. split; [done|right; by eexists].
  - split; [done|]. split; [|done]. split; [done|by left].
Qed.

(** The main loop never gets the reply off. *)
Lemma begun_main v v' : held v → begun v → Forall is_chunk_msg (sv_in v) → main_step v l = Done (Some v') →
  held v' ∧ begun v' ∧ Forall is_chunk_msg (sv_in v').
Proof.
  intros Hh Hb Hin Hv. destruct (bg_main _ Hb) as [Hm|[stat Hm]].
  - destruct (sv_in v) as [|m ms] eqn:E.
    + by rewrite quiet_main in Hv.
    + apply Forall_cons in Hin as [Hm' Hms]. destruct (held_chunk _ _ _ _ Hh Hb Hm E Hm' Hv) as (? & ? & ->). done.
  - exfalso. destruct Hh as [_ Hmx _ _], Hb as [Hc _]. destruct (sv_open v !! fd) as [i|] eqn:Hi; [|done]. injection Hc as Hw Hc.
    unfold main_step in Hv. rewrite Hm in Hv. unfold swrite_chunk_end in Hv.
    rewrite (info_at_ok fd Hfd _ i Hi) in Hv. cbn [obind] in Hv. rewrite Hw, Hc, (proj2 (Z.eqb_neq _ _)) in Hv by lia. done.
Qed.

Lemma waits_client sy tag p k v : waits_for_mutex sy → sy = Sys (SendWait host tag p k) v →
  waits_for_mutex (Sys k (v <| sv_in := sv_in v ++ [SMsg me tag p] |>)).
Proof.
  intros Hw Hsy. assert (Hh : ∀ ms, held v → held (v <| sv_in := ms |>)) by (by intros ms []).
  assert (Hb : ∀ ms, begun v → begun (v <| sv_in := ms |>)) by (by intros ms []).
  destruct Hw as [v1 Hv Hm Hi|s v1 ms Hv Hm Hi Hms Hs|s v1 Hv Hbg Hi Hs]; [|injection Hsy as Hsy ->..].
  - injection Hsy as <- <- <- ->. apply (wm_header 0 _ []); [by auto|done| |done|lia]. cbn. by rewrite Hi.
  - destruct (client_at_cases host fd n buf Hn Hbuf s Hs) as [[Hlt E]|[-> E]]; rewrite E in Hsy; [|done].
    injection Hsy as <- <- <-. apply (wm_header (S s) _ (ms ++ [SMsg me chunk_tag (PData (chunk n buf s))])); [by auto|done| | |done].
    + cbn. by rewrite Hi.
    + apply Forall_app. split; [done|]. constructor; [by eexists|done].
  - destruct (client_at_cases host fd n buf Hn Hbuf s Hs) as [[Hlt E]|[-> E]]; rewrite E in Hsy; [|done].
    injection Hsy as <- <- <-. apply wm_begun; [by auto..| |done]. cbn. apply Forall_app. split; [done|]. constructor; [by eexists|done].
Qed.

Lemma waits_msgs sy : waits_for_mutex sy →
  held (sy_server sy) ∧ Forall (λ m, m = begin_msg me fd n garbage ∨ is_chunk_msg m) (sv_in (sy_server sy)).
Proof.
  assert (Hmono : ∀ ms, Forall is_chunk_msg ms → Forall (λ m, m = begin_msg me fd n garbage ∨ is_chunk_msg m) ms).
  { intros ms H. eapply Forall_impl; [exact H|]. by right. }
  intros [v Hv Hm Hi|s v ms Hv Hm Hi Hms Hs|s v Hv Hbg Hi Hs]; cbn [sy_server]; split; try done; [by rewrite Hi| |by auto].
  rewrite Hi. constructor; [by left|by auto].
Qed.

Lemma waits_transfers sy : waits_for_mutex sy → match sy_client sy with InitVerbs _ | Connect _ _ _ => False | _ => True end.
Proof.
  intros Hw. destruct Hw as [v|s v ms _ _ _ _ Hs|s v _ _ _ Hs]; [done|..]; cbn.
  all: by destruct (client_at_cases host fd n buf Hn Hbuf s Hs) as [[_ ->]|[_ ->]].
Qed.

Lemma waits_step sy sy' : waits_for_mutex sy → sys_step l host me sy sy' → waits_for_mutex sy'.
Proof.
  intros Hw Hst. pose proof (waits_msgs _ Hw) as [Hh Hin]. destruct Hst as [k v|nm k v|tag p k v|tag k v p rest' Ht|cl v v' Hv|cl v k v' Hv].
  1, 2: exfalso; by eapply waits_transfers in Hw.
  - by eapply waits_client.
  - cbn [sy_server] in Hh. by rewrite (hd_out _ Hh) in Ht.
  - inversion Hw as [v1 _ Hm Hi|s v1 ms _ Hm Hi Hms Hs|s v1 _ Hbg Hi Hs]; subst; cbn [sy_server] in *.
    + by rewrite quiet_main in Hv.
    + destruct (held_begin _ _ _ Hh Hm Hi Hv) as (? & ? & Hi'). apply wm_begun; [done..| |done]. by rewrite Hi'.
    + destruct (begun_main _ _ Hh Hbg Hi Hv) as (? & ? & ?). by apply wm_begun.
  - cbn [sy_server] in *. by rewrite (held_thread _ k Hh Hin) in Hv.
Qed.

Lemma waits_steps m sy sy' : waits_for_mutex sy → nsteps (sys_step l host me) m sy sy' → waits_for_mutex sy'.
Proof. intros Hw Hst. induction Hst; [done|]. apply IHHst. by eapply waits_step. Qed.

Lemma waits_not_returned sy : waits_for_mutex sy → ¬ returned sy.
Proof.
  intros Hw [r Hr]. destruct Hw as [v|s v ms _ _ _ _ Hs|s v _ _ _ Hs]; cbn in Hr; [done|..].
  all: destruct (client_at_cases host fd n buf Hn Hbuf s Hs) as [[_ E]|[_ E]]; by rewrite E in Hr.
Qed.
End held.

(** C32: a read can stop all writes to its file.  There is an interleaving of
    one read, in which the main loop sees the message twice, after which the
    client has its bytes, while the thread that got no message holds the mutex
    of the file; a write of the same client that follows does not come to an end
    in any interleaving, and nothing of it reaches the file. *)
Theorem read_blocks_writes `{OS} l host me fd n garbage buf v0 c0 rest c :
  os_works → 0 < n ≤ BUF_SIZE → 0 ≤ fd < 2 ^ 15 → n ≤ Z.of_nat (length buf) →
  idle fd v0 → sv_open v0 !! fd ≫= cache = Some c0 → os_reads fd (sv_calls v0) rest → aget (host_ids c) fd = Done host →
  ∃ s, rtc (sys_step l host me) (Sys (ibtl_read c garbage fd buf n) v0) s ∧ returned s ∧
    ∀ garbage' wbuf m s', 0 < Z.of_nat (length wbuf) ≤ BUF_SIZE →
      nsteps (sys_step l host me) m (Sys (ibtl_write c garbage' fd wbuf (Z.of_nat (length wbuf))) (sy_server s)) s' →
      ¬ returned s' ∧ file_bytes fd [] (sv_calls (sy_server s')) = file_bytes fd [] (sv_calls (sy_server s)).
Proof.
  intros Hos Hn Hfd Hbuf Hidle Hc0 Hrd Hh. rewrite (read_start host fd n Hn Hfd garbage buf c0 rest c Hh).
  destruct (reading_can_hold Hos l host me fd n Hn Hfd garbage buf Hbuf v0 c0 rest Hidle Hc0 Hrd) as (N & k & v & Hr & H1).
  exists (Sys (recv_at host fd n garbage buf c0 rest (chunks n)) v). split; [exact Hr|]. split.
  { eexists. by apply recv_end. }
  intros garbage' wbuf m s' Hw Hst. erewrite client_start in Hst by done.
  destruct H1 as [_ Hm Hin Ho (i & ca & Hi & Hmx & _) [_ Ht] _].
  assert (Hwait : waits_for_mutex host me fd (Z.of_nat (length wbuf)) wbuf garbage' (sv_calls v)
    (Sys (SendWait host (tag_of fd IBVIO_OP_WRITE_BEGIN) (POpen (garbage' <| io_count := i32 (Z.of_nat (length wbuf)) |>))
      (client_at host fd (Z.of_nat (length wbuf)) wbuf 0)) v)).
  { apply wm_start; [|done..]. split; [|by rewrite Hi; cbn; rewrite Hmx| |done].
    - rewrite Ht. apply Forall_insert; [|by right; right]. apply Forall_replicate. by right; left.
    - rewrite Ho. unfold data_msgs. cbn [sent]. by rewrite Nat.sub_diag. }
  pose proof (waits_steps l host me fd _ wbuf Hw eq_refl Hfd garbage' _ _ _ _ Hwait Hst) as Hw'. split.
  - by eapply waits_not_returned.
  - apply waits_msgs in Hw' as [Hheld _]. exact (hd_file _ _ _ _ Hheld).
Qed.

Lemma read_blocks_writes_witness :
  ∃ s, rtc (sys_step sample_locals 0 1) read_sample s ∧ returned s ∧
    ∀ m s', nsteps (sys_step sample_locals 0 1) m (Sys (ibtl_write sample_client sample_iopen 5 [7; 8; 9] 3) (sy_server s)) s' → ¬ returned s'.
Proof.
  destruct (read_blocks_writes sample_locals 0 1 5 2 sample_iopen [1; 2; 3; 4] sample_server (λ _, 0) sample_file
    sample_client sample_os_works ltac:(unfold BUF_SIZE; lia) ltac:(lia) ltac:(cbn; lia) sample_idle eq_refl sample_os_reads eq_refl)
    as (s & Hr & Hret & Hw).
  exists s. split; [exact Hr|]. split; [exact Hret|]. intros m s' Hst.
  exact (proj1 (Hw sample_iopen [7; 8; 9] m s' ltac:(unfold BUF_SIZE; cbn; lia) Hst)).
Defined.

(** ** Closing a file *)
Section close.
Context {HOS : OS} (l : locals) (fd a b : Z) (Hfd : 0 ≤ fd < 2 ^ 15 - 1).
Implicit Types (v : server).

(** The two messages: the end of the file [fd] from the client [a], and a chunk
    of the file [fd + 1] from the client [b]. *)
Definition close_msg (o : ibvio_open) : smsg := SMsg a (tag_of fd IBVIO_OP_CLOSE) (POpen o).
Definition chunk_msg (bs : list Z) : smsg := SMsg b (tag_of (fd + 1) IBVIO_OP_WRITE_CHUNK) (PData bs).

(** The handler clears the entry of [fd] and all of the next entry but its
    cache. *)
Lemma close_step v o ms i c :
  sv_main v = Probing → sv_in v = close_msg o :: ms → (∀ log, os_ret log (OClose fd) = 0) →
  sv_open v !! fd = Some i → cache i = Some c →
  ∃ v', main_step v l = Done (Some v') ∧ sv_main v' = Probing ∧ sv_in v' = ms ∧ sv_threads v' = sv_threads v ∧
    sv_out v' = sv_out v ++ [SMsg a (tag_of fd IBVIO_OP_CLOSE) (POpen (o <| io_stat := 0 |>))] ∧
    sv_calls v' = sv_calls v ++ [OClose fd] ∧
    sv_open v' !! (fd + 1) = Some (zero_info <| cache := cache (default zero_info (sv_open v !! (fd + 1))) |>).
Proof.
  intros Hm Hin Hc Hi Hca. rewrite (main_probe l a fd ltac:(lia) v IBVIO_OP_CLOSE _ _ Hm Hin) by (unfold IBVIO_OP_CLOSE; lia).
  change (dispatch v l IBVIO_OP_CLOSE fd) with (ibvio_sclose v fd). unfold ibvio_sclose, receive_open.
  rewrite (receive_head _ _ _ _ _ Hin). unfold os. rewrite Hc. cbn [Z.eqb].
  rewrite (info_at_small _ fd) by lia. cbn [obind sv_open set_field send]. rewrite Hi. cbn [from_option id]. rewrite Hca.
  unfold clear_two. rewrite (info_at_small _ (fd + 1)) by lia. cbn [obind].
  eexists. split; [reflexivity|]. split_and!; try done. apply lookup_insert_eq.
Qed.

(** With counts of zero a chunk is stored, and taken for the last one. *)
Lemma zero_chunk_step v bs c ca :
  os_works → sv_main v = Probing → sv_in v = [chunk_msg bs] → sv_open v !! (fd + 1) = Some (zero_info <| cache := ca |>) →
  ca = Some c → Z.of_nat (length bs) ≤ BUF_SIZE →
  ∃ v', main_step v l = Done (Some v') ∧ sv_main v' = Spinning (fd + 1) (Status b (tag_of (fd + 1) IBVIO_OP_WRITE_CHUNK)) ∧
    sv_in v' = [] ∧ sv_out v' = sv_out v ∧ sv_calls v' = sv_calls v ++ [OThreadCreate; OThreadDetach] ∧
    sv_threads v' = sv_threads v ++ [TChunk (fd + 1)] ∧
    ∃ c', sv_open v' !! (fd + 1) = Some (zero_info <| cache := Some c' |>).
Proof.
  intros Hos Hm Hin Hi -> Hbs.
  rewrite (main_probe l b (fd + 1) ltac:(lia) v IBVIO_OP_WRITE_CHUNK _ _ Hm Hin) by (unfold IBVIO_OP_WRITE_CHUNK; lia).
  change (dispatch v l IBVIO_OP_WRITE_CHUNK (fd + 1)) with (ibvio_swrite_chunk v (fd + 1)). unfold ibvio_swrite_chunk.
  rewrite info_at_small, Hi by lia. cbn [obind from_option id]. rewrite (receive_head _ _ _ _ _ Hin).
  unfold cache_write. cbn [cache current_recv_size set_field zero_info]. rewrite Z.add_0_l, (proj2 (Z.leb_le _ _) Hbs). cbn [andb obind Z.leb Z.compare].
  unfold ibvio_run_thread, os. rewrite (ow_create Hos). cbn [Z.eqb negb]. rewrite (ow_detach Hos). cbn [Z.eqb negb obind].
  eexists. split; [reflexivity|]. split_and!; try done.
  - cbn. by rewrite <- (assoc_L (++)).
  - eexists. apply lookup_insert_eq.
Qed.

Lemma zero_spin_step v stat c :
  sv_main v = Spinning (fd + 1) stat → sv_open v !! (fd + 1) = Some (zero_info <| cache := c |>) →
  ∃ v', main_step v l = Done (Some v') ∧ sv_out v' = sv_out v ++ [SMsg (FMI_SOURCE stat) (FMI_TAG stat) (POpen (l_iopen l))] ∧
    sv_calls v' = sv_calls v ++ [OFsync (fd + 1)] ∧ sv_threads v' = sv_threads v.
Proof.
  intros Hm Hi. unfold main_step. rewrite Hm. unfold swrite_chunk_end. rewrite info_at_small, Hi by lia. cbn [obind from_option id].
  cbn [current_write_count write_count set_field zero_info Z.eqb]. eexists. by split.
Qed.
End close.

(** C33: closing a file loses data of the next one.  The handler of the close
    clears more than its entry; a chunk of the file with the next number that
    arrives then is answered as the end of a write, while nothing of it has
    been written. *)
Theorem close_breaks_neighbour `{OS} l fd a b v o bs i c i' c' :
  os_works → (∀ log, os_ret log (OClose fd) = 0) → 0 ≤ fd < 2 ^ 15 - 1 →
  sv_main v = Probing → sv_in v = [close_msg fd a o; chunk_msg fd b bs] →
  sv_open v !! fd = Some i → cache i = Some c → sv_open v !! (fd + 1) = Some i' → cache i' = Some c' →
  Z.of_nat (length bs) ≤ BUF_SIZE →
  ends (main_step v l) (λ r1, ∃ v1, r1 = Some v1 ∧ ends (main_step v1 l) (λ r2, ∃ v2, r2 = Some v2 ∧
    ends (main_step v2 l) (λ r3, ∃ v3, r3 = Some v3 ∧
      sv_out v3 = sv_out v ++ [SMsg a (tag_of fd IBVIO_OP_CLOSE) (POpen (o <| io_stat := 0 |>));
                               SMsg b (tag_of (fd + 1) IBVIO_OP_WRITE_CHUNK) (POpen (l_iopen l))] ∧
      sv_threads v3 = sv_threads v ++ [TChunk (fd + 1)] ∧
      ∀ f, file_bytes f [] (sv_calls v3) = file_bytes f [] (sv_calls v)))).
Proof.
  intros Hos Hc Hfd Hm Hin Hi Hca Hi' Hca' Hbs.
  destruct (close_step l fd a Hfd v o _ i c Hm Hin Hc Hi Hca) as (v1 & -> & Hm1 & Hin1 & Ht1 & Ho1 & Hl1 & Hi1).
  rewrite Hi' in Hi1. exists v1. split; [done|].
  destruct (zero_chunk_step l fd b Hfd v1 bs c' _ Hos Hm1 Hin1 Hi1 Hca' Hbs) as (v2 & -> & Hm2 & _ & Ho2 & Hl2 & Ht2 & c2 & Hi2).
  exists v2. split; [done|].
  destruct (zero_spin_step l fd Hfd v2 _ _ Hm2 Hi2) as (v3 & -> & Ho3 & Hl3 & Ht3). exists v3. split; [done|].
  split_and!.
  - by rewrite Ho3, Ho2, Ho1, <- (assoc_L (++)).
  - by rewrite Ht3, Ht2, Ht1.
  - intros f. rewrite Hl3, Hl2, Hl1, !file_bytes_app. cbn. by rewrite !app_nil_r.
Qed.

(** The files 5 and 6 are open; the client 1 closes the first while the client 2
    is writing to the second. *)
Definition sample_two_files : server :=
  Server (<[5 := SInfo 5 0 0 0 Unlocked (Some (λ _, 0))]> {[ 6 := SInfo 6 3 0 0 Unlocked (Some (λ _, 0)) ]}) Probing []
    [close_msg 5 1 sample_iopen; chunk_msg 5 2 [10; 20; 30]] [] [].

Lemma close_breaks_neighbour_witness :
  ends (main_step sample_two_files sample_locals) (λ r1, ∃ v1, r1 = Some v1 ∧ ends (main_step v1 sample_locals) (λ r2, ∃ v2, r2 = Some v2 ∧
    ends (main_step v2 sample_locals) (λ r3, ∃ v3, r3 = Some v3 ∧ length (sv_out v3) = 2%nat ∧ file_bytes 6 [] (sv_calls v3) = []))).
Proof.
  eapply ends_mono; [eapply (close_breaks_neighbour sample_locals 5 1 2 sample_two_files sample_iopen [10; 20; 30]);
    [exact sample_os_works|done|lia|done|done|reflexivity|done|reflexivity|done|unfold BUF_SIZE; cbn; lia]|].
  intros r1 (v1 & E1 & H1). exists v1. split; [exact E1|]. eapply ends_mono; [exact H1|].
  intros r2 (v2 & E2 & H2). exists v2. split; [exact E2|]. eapply ends_mono; [exact H2|].
  intros r3 (v3 & E3 & Ho & _ & Hf). exists v3. split; [exact E3|]. split; [by rewrite Ho|exact (Hf 6)].
Defined.
