(* ===== verification/IbioDump.v ===== *)
(** * src/examples/ibio_server.c: writing a whole buffer

    [simple_write] and [dump_ckpt], which no message leads to (the server calls
    neither): they write a buffer in a loop that goes on after a write that takes
    less than it is given. *)
From S2P Require Import Prelude Mem Queue Datatype ProcMan State Ibio IbioServer IbioSession.

(** [struct write_args], with the bytes at [addr]; the size is a [uint64_t]. *)
Record write_args := WArgs {
  wa_id : Z;
  wa_path : string;
  wa_addr : list Z;
  wa_size : Z;
  wa_offset : Z;
}.

(** The calls made so far, [dump_mutex], and the arguments, [None] when they
    have been freed. *)
Record dumper := Dumper {
  du_calls : list os_call;
  du_mutex : mutex;
  du_args : option write_args;
}.
#[export] Instance eta_dumper : Eta dumper := λ d, Dumper (du_calls d) (du_mutex d) (du_args d).

(** [O_WRONLY], [O_CREAT], [O_APPEND] and [S_IREAD | S_IWRITE] of the system's
    headers. *)
Definition O_WRONLY : Z := 1.
Definition O_CREATE : Z := 64.
Definition O_APPEND : Z := 1024.
Definition S_IREAD_IWRITE : Z := 384.

Section ops.
Context {HOS : OS}.
Implicit Types (d : dumper) (log : list os_call).

Definition du_call d (c : os_call) : Z * dumper := (os_ret (du_calls d) c, d <| du_calls := du_calls d ++ [c] |>).

(** [do ... while (n_write > 0)]; [size] and the sum are [int]s. *)
Fixpoint write_loop (fuel : nat) (fd : Z) (addr : list Z) (size n_write_sum : Z) d : outcome dumper :=
  match fuel with
  | O => Diverge
  | S fuel =>
      left <- c_int (size - n_write_sum) ;;
      bs <- slice addr n_write_sum left ;;
      let '(r, d) := du_call d (OWrite fd bs) in
      let n_write := i32 r in
      if n_write =? -1 then Fatal "Write error"
      else
        n_write_sum <- c_int (n_write_sum + n_write) ;;
        if size <=? n_write_sum then Done d
        else if 0 <? n_write then write_loop fuel fd addr size n_write_sum d
        else Done d
  end.

(** Each round but the last writes a byte at least. *)
Definition write_fuel (size : Z) : nat := S (Z.to_nat size).

(** The part the two functions have in common: from [open] to [close]. *)
Definition write_file (flags : Z) (wa : write_args) d : outcome dumper :=
  let size := i32 (wa_size wa) in
  let '(fd, d) := du_call d (OOpen (wa_path wa) flags S_IREAD_IWRITE) in
  if fd <=? 0 then Fatal "open"
  else
    d <- write_loop (write_fuel size) fd (wa_addr wa) size 0 d ;;
    let d := (du_call d (OFsync fd)).2 in
    Done (du_call d (OClose fd)).2.

(** [pthread_mutex_unlock(&dump_mutex)] *)
Definition dump_unlock d : outcome dumper :=
  match du_mutex d with
  | Locked => Done (d <| du_mutex := Unlocked |>)
  | _ => Undef
  end.

(** Its body is commented out. *)
Definition free_write_args (wa : write_args) : Z := 1.

Definition simple_write d : outcome dumper :=
  match du_args d with
  | Some wa =>
      d <- write_file (Z.lor O_WRONLY O_CREATE) wa d ;;
      let _ := free_write_args wa in
      dump_unlock d
  | None => Undef
  end.

Definition dump_ckpt d : outcome dumper :=
  match du_args d with
  | Some cwa =>
      d <- write_file (Z.lor (Z.lor O_WRONLY O_APPEND) O_CREATE) cwa d ;;
      dump_unlock (d <| du_args := None |>)
  | None => Undef
  end.
End ops.

(** [write] to the file takes some of the bytes it is given, and one at least if
    there is one. *)
Definition writes_some `{OS} (fd : Z) : Prop :=
  ∀ log bs, 0 ≤ os_ret log (OWrite fd bs) ≤ Z.of_nat (length bs) ∧ (bs ≠ [] → 0 < os_ret log (OWrite fd bs)).

Section loop.
Context {HOS : OS} (fd : Z) (addr : list Z) (size : Z) (Hw : writes_some fd) (Hsize : 0 ≤ size ≤ INT_MAX) (Haddr : size ≤ Z.of_nat (length addr)).

(** The bytes from the sum on get to the file. *)
Lemma write_loop_ok fuel sum d : 0 ≤ sum → (sum < size ∨ size = 0 ∧ sum = 0) → (Z.to_nat (size - sum) < fuel)%nat →
  ends (write_loop fuel fd addr size sum d) (λ d',
    du_mutex d' = du_mutex d ∧ du_args d' = du_args d ∧
    file_bytes fd [] (du_calls d') = file_bytes fd [] (du_calls d) ++ drop (Z.to_nat sum) (take (Z.to_nat size) addr)).
Proof.
  revert sum d. induction fuel as [|fuel IH]; intros sum d Hs Hcase Hf; [lia|]. cbn [write_loop].
  rewrite c_int_bounds by lia. cbn [obind]. unfold slice. rewrite !(proj2 (Z.leb_le _ _)) by lia. cbn [andb obind].
  set (bs := take (Z.to_nat (size - sum)) (drop (Z.to_nat sum) addr)).
  assert (Hbs : bs = drop (Z.to_nat sum) (take (Z.to_nat size) addr)).
  { unfold bs. rewrite skipn_firstn_comm. f_equal. lia. }
  assert (Hlen : Z.of_nat (length bs) = size - sum) by (unfold bs; rewrite length_take, length_drop; lia).
  destruct (Hw (du_calls d) bs) as [Hr Hpos]. unfold du_call. set (r := os_ret _ _) in *.
  rewrite i32_id by (unfold is_int, INT_MIN, INT_MAX in *; lia). rewrite (proj2 (Z.eqb_neq _ _)) by lia.
  rewrite c_int_bounds by lia. cbn [obind].
  assert (Hbytes : file_bytes fd [] (du_calls d ++ [OWrite fd bs]) = file_bytes fd [] (du_calls d) ++ take (Z.to_nat r) bs).
  { rewrite file_bytes_app. cbn. by rewrite Z.eqb_refl, app_nil_r. }
  destruct (Z.leb_spec size (sum + r)) as [Hall|Hmore].
  - cbn. split_and!; [done..|]. rewrite Hbytes, <- Hbs. f_equal. apply take_ge. lia.
  - assert (0 < r). { apply Hpos. intros E. rewrite E in Hlen. cbn in Hlen. lia. }
    rewrite (proj2 (Z.ltb_lt _ _)) by done. eapply ends_mono; [apply IH; lia|]. cbn [du_calls du_mutex du_args set_field].
    intros d' (H1 & H2 & H3). split_and!; [done..|]. rewrite H3, Hbytes, <- (assoc_L (++)). f_equal.
    rewrite <- Hbs, Hbs at 1. rewrite Z2Nat.inj_add, <- drop_drop, <- Hbs by lia. apply take_drop.
Qed.
End loop.

(** C20: a dump writes all its bytes.  When [write] takes part of what it is
    given and the file can be opened, [simple_write] and [dump_ckpt] return,
    with the mutex released and the file closed; the file has all the bytes
    behind what it had, and [dump_ckpt] has freed its arguments. *)
Theorem dump_writes_all `{OS} d wa (append : bool) :
  let flags := if append then Z.lor (Z.lor O_WRONLY O_APPEND) O_CREATE else Z.lor O_WRONLY O_CREATE in
  let fd := os_ret (du_calls d) (OOpen (wa_path wa) flags S_IREAD_IWRITE) in
  du_args d = Some wa → du_mutex d = Locked → 0 < fd → writes_some fd →
  0 ≤ wa_size wa ≤ INT_MAX → wa_size wa ≤ Z.of_nat (length (wa_addr wa)) →
  ends (if append then dump_ckpt d else simple_write d) (λ d',
    du_mutex d' = Unlocked ∧ du_args d' = (if append then None else Some wa) ∧ last (du_calls d') = Some (OClose fd) ∧
    file_bytes fd [] (du_calls d') = file_bytes fd [] (du_calls d) ++ take (Z.to_nat (wa_size wa)) (wa_addr wa)).
Proof.
  intros flags fd Hargs Hmx Hfd Hw Hsize Haddr.
  assert (Hfile : ends (write_file flags wa d) (λ d', du_mutex d' = Locked ∧ du_args d' = Some wa ∧ last (du_calls d') = Some (OClose fd) ∧
    file_bytes fd [] (du_calls d') = file_bytes fd [] (du_calls d) ++ take (Z.to_nat (wa_size wa)) (wa_addr wa))).
  { unfold write_file, du_call at 1. fold fd. rewrite (proj2 (Z.leb_gt _ _)) by done.
    rewrite i32_id by (unfold is_int, INT_MIN, INT_MAX in *; lia). apply ends_bind.
    eapply ends_mono; [apply (write_loop_ok fd (wa_addr wa) (wa_size wa)); try done; unfold write_fuel; lia|].
    intros d' (H1 & H2 & H3). cbn [ends du_call snd du_calls du_mutex du_args set_field] in *.
    split_and!; [congruence|congruence|by rewrite last_snoc|].
    rewrite !file_bytes_app. cbn [file_bytes app]. rewrite !app_nil_r, H3, file_bytes_app. cbn. by rewrite app_nil_r. }
  destruct append; cbn [flags] in *; unfold dump_ckpt, simple_write; rewrite Hargs; apply ends_bind; (eapply ends_mono; [exact Hfile|]);
    intros d' (H1 & H2 & H3 & H4); unfold dump_unlock; cbn [du_mutex set_field]; rewrite H1; by split_and!.
Qed.

(** Writes of two bytes at most. *)
Definition OS_short : OS := {|
  os_ret _ c := match c with OWrite _ bs => Z.min 2 (Z.of_nat (length bs)) | OOpen _ _ _ => 5 | _ => 0 end;
  os_data _ _ _ := [];
|}.
Lemma OS_short_writes : @writes_some OS_short 5.
Proof. intros log bs. cbn. split; [lia|]. destruct bs; [done|]. cbn [length]. lia. Qed.

Lemma dump_writes_all_witness :
  ends (@dump_ckpt OS_short (Dumper [] Locked (Some (WArgs 0 "/tmp/a" [1; 2; 3; 4; 5] 5 0))))
    (λ d', length (du_calls d') = 6%nat ∧ @file_bytes OS_short 5 [] (du_calls d') = [1; 2; 3; 4; 5]).
Proof.
  pose proof (@dump_writes_all OS_short (Dumper [] Locked (Some (WArgs 0 "/tmp/a" [1; 2; 3; 4; 5] 5 0)))
    (WArgs 0 "/tmp/a" [1; 2; 3; 4; 5] 5 0) true eq_refl eq_refl ltac:(done) OS_short_writes
    ltac:(unfold INT_MAX; cbn; lia) ltac:(cbn; lia)) as H.
  apply ends_Done in H as (d' & E & _ & _ & _ & Hf). cbn [file_bytes du_calls app] in Hf. apply ends_Done. exists d'. split; [exact E|].
  split; [|exact Hf]. vm_compute in E. injection E as <-. reflexivity.
Defined.
