(* ===== verification/Example.v ===== *)
(** * src/examples/example_client.c and example_server.c: the ping-pong programs

    The client sends its host name and prints what comes back as a string; the
    server answers each message with the rank it knows the client by, printed
    into the buffer it has received.  The client as a program of transfers, the
    server as rounds of its loop. *)
From S2P Require Import Prelude Mem Queue Datatype ProcMan State Ibio IbioServer.

(** [sizeof(buff)], [tag] and [server_hostid]; the size of an [FMI_INT]. *)
Definition BUFF_SIZE : Z := 256.
Definition TAG : Z := 5.
Definition SERVER_HOSTID : Z := 0.
Definition INT_SIZE : Z := 4.

(** ** Strings of C *)

(** The bytes before the first null byte; without one the read leaves the
    buffer. *)
Fixpoint c_string (buf : list Z) : outcome (list Z) :=
  match buf with
  | [] => Undef
  | b :: buf => if b =? 0 then Done [] else s <- c_string buf ;; Done (b :: s)
  end.

(** [sprintf(buf, "%s", s)], and what [gethostname] stores for the name [s]: the
    string must fit with its null byte. *)
Definition put_string (buf s : list Z) : outcome (list Z) := splice buf 0 (s ++ [0]).

(** What ["%d"] prints for an [int], which has ten digits at most. *)
Fixpoint digits (fuel : nat) (n : Z) : list Z :=
  match fuel with
  | O => []
  | S fuel => if n <? 10 then [48 + n] else digits fuel (n / 10) ++ [48 + n mod 10]
  end.
Definition decimal (n : Z) : list Z := if n <? 0 then 45 :: digits 10 (- n) else digits 10 n.

(** A receive of [n] bytes into a buffer; the messages of the two programs have
    the size the receive asks for. *)
Definition receive_bytes (buf : list Z) (n : Z) (p : payload) : outcome (list Z) :=
  match p with
  | PData bs => if Z.of_nat (length bs) =? n then splice buf 0 bs else Undef
  | POpen _ => Undef
  end.

(** ** The client *)

(** [main], with the name of the machine it runs on and what [buff] holds before
    it is stored to.  The result is the string printed at the end. *)
Definition client_main (argv : list string) (name garbage : list Z) : io (list Z) :=
  match argv with
  | [_; server_hostname] =>
      if (256 <=? String.length server_hostname)%nat then Fault
      else
        InitVerbs (Connect SERVER_HOSTID server_hostname (
        lift (put_string garbage name) (λ buff,
        SendWait SERVER_HOSTID TAG (PData buff) (
        lift (c_string buff) (λ _,
        RecvWait SERVER_HOSTID FMI_ANY_TAG (λ p,
        lift (receive_bytes buff INT_SIZE p) (λ buff,
        lift (c_string buff) Ret)))))))
  | _ => Fault
  end.

(** ** The server *)

(** [buff], the messages that have arrived and have not been received, and
    those sent. *)
Record ponger := Ponger {
  pg_buff : list Z;
  pg_in : list smsg;
  pg_out : list smsg;
}.

(** A round of [while (1)]. *)
Definition server_round (s : ponger) : outcome ponger :=
  match pg_in s with
  | [] => Done s
  | m :: _ =>
      let stat := Status (sm_rank m) (sm_tag m) in
      match take_message (FMI_SOURCE stat) (FMI_TAG stat) (pg_in s) with
      | Some (p, rest) =>
          buff <- receive_bytes (pg_buff s) BUFF_SIZE p ;;
          _ <- c_string buff ;;
          buff <- put_string buff (decimal (FMI_SOURCE stat)) ;;
          bs <- slice buff 0 INT_SIZE ;;
          Done (Ponger buff rest (pg_out s ++ [SMsg (FMI_SOURCE stat) (FMI_TAG stat) (PData bs)]))
      | None => Diverge
      end
  end.

(** A message arrives, or the server goes through its loop once. *)
Inductive pong_event :=
| Arrives (m : smsg)
| Round.
Definition pong_step (s : ponger) (e : pong_event) : outcome ponger :=
  match e with
  | Arrives m => Done (Ponger (pg_buff s) (pg_in s ++ [m]) (pg_out s))
  | Round => server_round s
  end.
Fixpoint pong_run (s : ponger) (es : list pong_event) : outcome ponger :=
  match es with
  | [] => Done s
  | e :: es => s <- pong_step s e ;; pong_run s es
  end.

(** ** Lemmas on strings *)

Lemma digits_length fuel n : (1 ≤ fuel → 1 ≤ length (digits fuel n) ≤ fuel)%nat.
Proof.
  revert n. induction fuel as [|fuel IH]; intros n H; [lia|]. cbn. destruct (Z.ltb_spec n 10); cbn; [lia|].
  rewrite length_app. cbn. destruct fuel as [|fuel]; [cbn; lia|]. specialize (IH (n / 10)). lia.
Qed.

Lemma digits_nonzero fuel n : 0 ≤ n → Forall (λ b, b ≠ 0) (digits fuel n).
Proof.
  revert n. induction fuel as [|fuel IH]; intros n H; cbn; [done|]. destruct (Z.ltb_spec n 10).
  - constructor; [lia|done].
  - apply Forall_app. split; [apply IH, Z.div_pos; lia|]. constructor; [|done]. pose proof (Z.mod_pos_bound n 10). lia.
Qed.

(** The digits are those of the number. *)
Lemma digits_value fuel n : 0 ≤ n < 10 ^ Z.of_nat fuel → foldl (λ a d, 10 * a + (d - 48)) 0 (digits fuel n) = n.
Proof.
  revert n. induction fuel as [|fuel IH]; intros n H; cbn [digits]; [cbn in *; lia|]. destruct (Z.ltb_spec n 10); cbn [foldl]; [lia|].
  rewrite foldl_app. cbn. rewrite IH.
  - pose proof (Z.div_mod n 10). lia.
  - rewrite Nat2Z.inj_succ, Z.pow_succ_r in H by lia. split; [apply Z.div_pos; lia|]. apply Z.div_lt_upper_bound; lia.
Qed.

Lemma decimal_digits n : 0 ≤ n → decimal n = digits 10 n.
Proof. intros H. unfold decimal. by rewrite (proj2 (Z.ltb_ge n 0)). Qed.
Lemma decimal_value n : 0 ≤ n ≤ INT_MAX → foldl (λ a d, 10 * a + (d - 48)) 0 (decimal n) = n.
Proof. intros H. rewrite decimal_digits by lia. apply digits_value. unfold INT_MAX in H. cbn. lia. Qed.
Lemma decimal_short n : 0 ≤ n < 1000 → (length (decimal n) ≤ 3)%nat.
Proof.
  intros H. rewrite decimal_digits by lia. cbn [digits]. destruct (Z.ltb_spec n 10); [cbn; lia|].
  destruct (Z.ltb_spec (n / 10) 10); [cbn; lia|]. destruct (Z.ltb_spec (n / 10 / 10) 10) as [|Hn]; [cbn; lia|].
  rewrite Z.div_div in Hn by lia. pose proof (Z.div_lt_upper_bound n (10 * 10) 10 ltac:(lia) ltac:(lia)). lia.
Qed.
Lemma decimal_long n : 1000 ≤ n → (4 ≤ length (decimal n) ≤ 10)%nat.
Proof.
  intros H. rewrite decimal_digits by lia. split; [|apply digits_length; lia].
  assert (Hd : ∀ k, 0 < k → k * 10 ≤ n → (n / k <? 10) = false).
  { intros k Hk Hn. apply Z.ltb_ge, Z.div_le_lower_bound; lia. }
  change (digits 10 n) with (if n <? 10 then [48 + n] else digits 9 (n / 10) ++ [48 + n mod 10]).
  rewrite (proj2 (Z.ltb_ge n 10)) by lia. rewrite length_app. cbn [length].
  change (digits 9 ?x) with (if x <? 10 then [48 + x] else digits 8 (x / 10) ++ [48 + x mod 10]).
  rewrite Hd by lia. rewrite length_app. cbn [length].
  change (digits 8 ?x) with (if x <? 10 then [48 + x] else digits 7 (x / 10) ++ [48 + x mod 10]).
  rewrite Z.div_div by lia. rewrite Hd by lia. rewrite length_app. cbn [length].
  pose proof (digits_length 7 (n / (10 * 10) / 10)). lia.
Qed.

Lemma c_string_app s rest : Forall (λ b, b ≠ 0) s → c_string (s ++ rest) = r <- c_string rest ;; Done (s ++ r).
Proof.
  induction 1 as [|b s Hb _ IH]; cbn; [by destruct (c_string rest)|].
  rewrite (proj2 (Z.eqb_neq _ _)), IH by done. by destruct (c_string rest).
Qed.
Lemma c_string_terminated s rest : Forall (λ b, b ≠ 0) s → c_string (s ++ 0 :: rest) = Done s.
Proof. intros H. rewrite c_string_app by done. cbn. by rewrite app_nil_r. Qed.
Lemma decimal_nonzero n : 0 ≤ n → Forall (λ b, b ≠ 0) (decimal n).
Proof. intros H. rewrite decimal_digits by done. by apply digits_nonzero. Qed.

Lemma splice_front buf bs : (length bs ≤ length buf)%nat → splice buf 0 bs = Done (bs ++ drop (length bs) buf).
Proof. intros H. unfold splice. by rewrite (proj2 (Z.leb_le _ _)), (proj2 (Z.leb_le _ _)) by lia. Qed.
Lemma slice_front buf n : (n ≤ length buf)%nat → slice buf 0 (Z.of_nat n) = Done (take n buf).
Proof. intros H. unfold slice. rewrite !(proj2 (Z.leb_le _ _)) by lia. cbn. by rewrite Nat2Z.id. Qed.

(** ** Clients and server together *)

(** A client: the rank the server knows it by, its name and what its buffer
    held. *)
Record pinger := Pinger {
  pi_rank : Z;
  pi_name : list Z;
  pi_garbage : list Z;
}.
Record pinger_ok (c : pinger) : Prop := {
  po_rank : 0 ≤ pi_rank c ≤ INT_MAX;
  po_name : Forall (λ b, b ≠ 0) (pi_name c) ∧ Z.of_nat (length (pi_name c)) < BUFF_SIZE;
  po_garbage : Z.of_nat (length (pi_garbage c)) = BUFF_SIZE;
}.

(** The buffer a client sends, and the bytes the server answers with. *)
Definition greeting (c : pinger) : list Z := pi_name c ++ 0 :: drop (S (length (pi_name c))) (pi_garbage c).
Definition answer_bytes (c : pinger) : list Z :=
  take 4 (decimal (pi_rank c) ++ 0 :: drop (S (length (decimal (pi_rank c)))) (greeting c)).
Definition hello (c : pinger) : smsg := SMsg (pi_rank c) TAG (PData (greeting c)).
Definition answer (c : pinger) : smsg := SMsg (pi_rank c) TAG (PData (answer_bytes c)).

Lemma greeting_length c : pinger_ok c → Z.of_nat (length (greeting c)) = BUFF_SIZE.
Proof. intros [_ [_ Hn] Hg]. unfold greeting. rewrite length_app. cbn. rewrite length_drop. unfold BUFF_SIZE in *. lia. Qed.
Lemma put_name c : pinger_ok c → put_string (pi_garbage c) (pi_name c) = Done (greeting c).
Proof.
  intros [_ [_ Hn] Hg]. unfold put_string, greeting. rewrite splice_front by (rewrite length_app; cbn; lia).
  f_equal. rewrite <- (assoc_L (++)), length_app. cbn. by rewrite Nat.add_1_r.
Qed.
Lemma put_rank c : pinger_ok c →
  put_string (greeting c) (decimal (pi_rank c)) = Done (decimal (pi_rank c) ++ 0 :: drop (S (length (decimal (pi_rank c)))) (greeting c)).
Proof.
  intros Hc. pose proof (greeting_length c Hc) as Hg. pose proof (po_rank c Hc). unfold put_string.
  pose proof (digits_length 10 (pi_rank c) ltac:(lia)). rewrite splice_front.
  - f_equal. rewrite <- (assoc_L (++)), length_app. cbn [length]. by rewrite Nat.add_1_r.
  - rewrite length_app, decimal_digits by lia. cbn [length]. unfold BUFF_SIZE in Hg. lia.
Qed.

(** A round answers the first client. *)
Lemma server_round_ok buff c ms outs : pinger_ok c → Z.of_nat (length buff) = BUFF_SIZE →
  ends (server_round (Ponger buff (hello c :: ms) outs)) (λ s,
    Z.of_nat (length (pg_buff s)) = BUFF_SIZE ∧ pg_in s = ms ∧ pg_out s = outs ++ [answer c]).
Proof.
  intros Hc Hb. pose proof (greeting_length c Hc) as Hg. pose proof Hc as [Hr [Hnz Hn] _].
  unfold server_round. cbn [pg_in hello sm_rank sm_tag FMI_SOURCE FMI_TAG take_message sm_data].
  rewrite !Z.eqb_refl. cbn [andb pg_buff receive_bytes]. rewrite (proj2 (Z.eqb_eq _ _) Hg), splice_front by lia. cbn [obind].
  rewrite drop_ge, app_nil_r by lia. unfold greeting at 1. rewrite c_string_terminated by done. cbn [obind].
  rewrite put_rank by done. cbn [obind].
  set (buff' := decimal (pi_rank c) ++ _).
  assert (Hb' : Z.of_nat (length buff') = BUFF_SIZE).
  { unfold buff'. rewrite length_app. cbn [length]. rewrite length_drop, decimal_digits by lia.
    pose proof (digits_length 10 (pi_rank c) ltac:(lia)). unfold BUFF_SIZE in *. lia. }
  unfold INT_SIZE. change 4 with (Z.of_nat 4) at 1. rewrite slice_front by (unfold BUFF_SIZE in Hb'; lia). by cbn.
Qed.

(** The messages that arrive in a run. *)
Definition arrivals (es : list pong_event) : list smsg :=
  flat_map (λ e, match e with Arrives m => [m] | Round => [] end) es.

Lemma pong_run_app s es1 es2 : pong_run s (es1 ++ es2) = s <- pong_run s es1 ;; pong_run s es2.
Proof. revert s. induction es1 as [|e es1 IH]; intros s; cbn; [done|]. destruct (pong_step s e); cbn; [apply IH|done..]. Qed.

(** After any run the first clients have been answered, in the order in which
    their messages arrived, and the messages of the others wait. *)
Definition served (cs : list pinger) (outs : list smsg) (s : ponger) : Prop :=
  ∃ cs1 cs2, cs = cs1 ++ cs2 ∧ Z.of_nat (length (pg_buff s)) = BUFF_SIZE ∧
    pg_in s = hello <$> cs2 ∧ pg_out s = outs ++ (answer <$> cs1).

Lemma pong_run_served es waiting cs buff outs :
  arrivals es = hello <$> cs → Forall pinger_ok (waiting ++ cs) → Z.of_nat (length buff) = BUFF_SIZE →
  ends (pong_run (Ponger buff (hello <$> waiting) outs) es) (served (waiting ++ cs) outs).
Proof.
  revert waiting cs buff outs. induction es as [|[m|] es IH]; intros waiting cs buff outs He Hok Hb; cbn in He |- *.
  - destruct cs; [|done]. exists [], waiting. cbn. by rewrite !app_nil_r.
  - destruct cs as [|c cs]; [done|]. injection He as -> He.
    replace (waiting ++ c :: cs) with ((waiting ++ [c]) ++ cs) in * by by rewrite <- (assoc_L (++)).
    specialize (IH (waiting ++ [c]) cs buff outs He Hok Hb). by rewrite fmap_app in IH.
  - destruct waiting as [|w waiting]; [by apply (IH [] cs)|]. inversion_clear Hok as [|?? Hw Hok'].
    apply ends_bind. eapply ends_mono; [by apply (server_round_ok buff w)|]. intros [buff' ins outs'] (Hb' & Hin & Hout). cbn in Hb', Hin, Hout. subst.
    eapply ends_mono; [by apply (IH waiting cs)|]. intros s (cs1 & cs2 & E & H1 & H2 & H3).
    exists (w :: cs1), cs2. cbn. by rewrite E, H3, <- (assoc_L (++)).
Qed.

Lemma rounds_serve n cs buff outs : Forall pinger_ok cs → Z.of_nat (length buff) = BUFF_SIZE → (length cs ≤ n)%nat →
  ends (pong_run (Ponger buff (hello <$> cs) outs) (replicate n Round)) (λ s, pg_in s = [] ∧ pg_out s = outs ++ (answer <$> cs)).
Proof.
  revert cs buff outs. induction n as [|n IH]; intros cs buff outs Hok Hb Hn.
  - destruct cs; [|cbn in Hn; lia]. cbn. by rewrite app_nil_r.
  - destruct cs as [|c cs]; [apply (IH []); cbn; (done || lia)|]. inversion_clear Hok as [|?? Hc Hok']. cbn [replicate pong_run pong_step fmap list_fmap].
    apply ends_bind. eapply ends_mono; [by apply (server_round_ok buff c)|]. intros [buff' ins outs'] (Hb' & Hin & Hout). cbn in Hb', Hin, Hout. subst.
    eapply ends_mono; [apply (IH cs); cbn in Hn; (done || lia)|]. intros s [H1 H2]. by rewrite H2, <- (assoc_L (++)).
Qed.

Lemma answer_length c : pinger_ok c → length (answer_bytes c) = 4%nat.
Proof.
  intros Hc. pose proof (greeting_length c Hc) as Hg. pose proof (po_rank c Hc). unfold answer_bytes.
  rewrite length_take, length_app, decimal_digits by lia. cbn [length]. rewrite length_drop.
  pose proof (digits_length 10 (pi_rank c) ltac:(lia)). unfold BUFF_SIZE in Hg. lia.
Qed.

(** What a client has in its buffer when it has received the answer. *)
Lemma client_receives c : pinger_ok c →
  receive_bytes (greeting c) INT_SIZE (sm_data (answer c)) = Done (answer_bytes c ++ drop 4 (greeting c)).
Proof.
  intros Hc. pose proof (greeting_length c Hc) as Hg. pose proof (answer_length c Hc) as Ha.
  cbn [receive_bytes answer sm_data]. unfold BUFF_SIZE in Hg. rewrite Ha, splice_front by lia. by rewrite Ha.
Qed.

Lemma answer_short c : pinger_ok c → pi_rank c < 1000 → ∃ rest, answer_bytes c = decimal (pi_rank c) ++ 0 :: rest.
Proof.
  intros Hc Hr. pose proof (po_rank c Hc). pose proof (decimal_short (pi_rank c)). unfold answer_bytes.
  rewrite take_app_ge by lia. destruct (4 - length (decimal (pi_rank c)))%nat eqn:E; [lia|]. cbn. eauto.
Qed.
Lemma answer_long c : 1000 ≤ pi_rank c → answer_bytes c = take 4 (decimal (pi_rank c)).
Proof. intros Hr. pose proof (decimal_long (pi_rank c) Hr). unfold answer_bytes. by rewrite take_app_le by lia. Qed.

(** C21: every client of the ping-pong server is answered, and what it is told is
    its number below 1000 only.  Whatever the interleaving of messages and
    rounds, the server answers the clients in the order in which their messages
    arrive, each once, and a round for each message is enough to answer all.  A
    client whose rank is below 1000 prints the digits of its rank; the answer
    holds four bytes, so that another prints the first four digits and what its
    own name leaves behind them. *)
Theorem ping_pong_answers es cs buff n server :
  arrivals es = hello <$> cs → Forall pinger_ok cs → Z.of_nat (length buff) = BUFF_SIZE → (length cs ≤ n)%nat →
  (String.length server < 256)%nat →
  ends (pong_run (Ponger buff [] []) (es ++ replicate n Round)) (λ s, pg_in s = [] ∧ pg_out s = answer <$> cs) ∧
  ∀ c arg0, c ∈ cs → ∃ k,
    client_main [arg0; server] (pi_name c) (pi_garbage c) =
      InitVerbs (Connect SERVER_HOSTID server (SendWait SERVER_HOSTID TAG (sm_data (hello c)) (RecvWait SERVER_HOSTID FMI_ANY_TAG k))) ∧
    foldl (λ a d, 10 * a + (d - 48)) 0 (decimal (pi_rank c)) = pi_rank c ∧
    k (sm_data (answer c)) =
      if pi_rank c <? 1000 then Ret (decimal (pi_rank c))
      else lift (c_string (drop 4 (greeting c))) (λ s, Ret (take 4 (decimal (pi_rank c)) ++ s)).
Proof.
  intros He Hok Hb Hn Hs. split.
  - rewrite pong_run_app. apply ends_bind. eapply ends_mono; [by apply (pong_run_served es [] cs)|].
    intros [b ins outs] (cs1 & cs2 & E & Hb' & Hin & Hout). cbn in E, Hb', Hin, Hout. subst. apply Forall_app in Hok as [_ Hok].
    rewrite length_app in Hn. eapply ends_mono; [apply (rounds_serve n cs2); (done || lia)|]. intros s [H1 H2]. by rewrite H2, <- fmap_app.
  - intros c arg0 Hin. rewrite Forall_forall in Hok. apply Hok in Hin as Hc. eexists. split; [|split].
    + unfold client_main. rewrite (proj2 (Nat.leb_gt _ _)), put_name by done. cbn [lift]. unfold greeting at 2.
      rewrite c_string_terminated by apply (po_name c Hc). cbn [lift]. reflexivity.
    + apply decimal_value, (po_rank c Hc).
    + cbv beta. rewrite client_receives by done. cbn [lift]. destruct (Z.ltb_spec (pi_rank c) 1000) as [Hr|Hr].
      * destruct (answer_short c Hc Hr) as [rest ->]. rewrite <- (assoc_L (++)). cbn [app].
        by rewrite c_string_terminated by (apply decimal_nonzero, (po_rank c Hc)).
      * rewrite answer_long, c_string_app by (try apply Forall_take, decimal_nonzero; lia). by destruct (c_string _).
Qed.

(** The clients 7 and 12345, both on [node12]. *)
Definition node12 : list Z := [110; 111; 100; 101; 49; 50].
Definition seven : pinger := Pinger 7 node12 (replicate 256 0).
Definition twelve_thousand : pinger := Pinger 12345 node12 (replicate 256 0).

Lemma ping_pong_answers_witness :
  ends (pong_run (Ponger (replicate 256 0) [] []) ([Arrives (hello seven); Round; Arrives (hello twelve_thousand)] ++ replicate 2 Round))
    (λ s, pg_out s = [SMsg 7 5 (PData [55; 0; 100; 101]); SMsg 12345 5 (PData [49; 50; 51; 52])]) ∧
  ∃ k, client_main ["client"; "server"] node12 (replicate 256 0) =
      InitVerbs (Connect 0 "server" (SendWait 0 5 (PData (node12 ++ replicate 250 0)) (RecvWait 0 FMI_ANY_TAG k))) ∧
    k (PData [49; 50; 51; 52]) = Ret [49; 50; 51; 52; 49; 50].
Proof.
  assert (Hok : Forall pinger_ok [seven; twelve_thousand]).
  { repeat constructor; cbn; unfold INT_MAX, BUFF_SIZE; lia. }
  destruct (ping_pong_answers [Arrives (hello seven); Round; Arrives (hello twelve_thousand)] [seven; twelve_thousand]
    (replicate 256 0) 2 "server" eq_refl Hok eq_refl ltac:(cbn; lia) ltac:(cbn; lia)) as [H1 H2]. split.
  - eapply ends_mono; [exact H1|]. intros s [_ Hs]. rewrite Hs. reflexivity.
  - destruct (H2 twelve_thousand "client" ltac:(by right; left)) as (k & E & _ & Ek). exists k. split; [exact E|exact Ek].
Defined.
