(* ===== verification/IbioDwrite.v ===== *)
(** * src/examples: a direct write over the network

    [ibtl_dwrite] with [ibvio_swrite]: the handler receives the chunks itself
    and writes each while it waits for the next.  Where the bytes of the first
    write come from is a local variable that is not initialised. *)
From S2P Require Import Prelude Fairness Mem Queue Datatype ProcMan State Ibio IbioServer IbioSession.

Section session.
Context {HOS : OS} (Hos : os_works) (l : locals) (Hl : l_write_size l = 0) (host me fd : Z).
Context (n : Z) (buf : list Z) (Hn : 0 < n ≤ BUF_SIZE) (Hbuf : n = Z.of_nat (length buf)) (Hfd : 0 ≤ fd < 2 ^ 15).
Context (garbage : ibvio_open) (v0 : server) (Hidle : idle fd v0).
Local Notation K := (chunks n).
Local Notation size w := (bound n (S w) - bound n w).
Local Notation tag := (tag_of fd IBVIO_OP_WRITE).
Local Notation header := (garbage <| io_count := i32 n |>).

(** The [k] chunks from the chunk [r] on. *)
Definition dchunk_msgs (r k : nat) : list smsg := map (λ i, SMsg me tag (PData (chunk n buf i))) (seq r k).

Lemma dchunk_msgs_snoc r k : dchunk_msgs r k ++ [SMsg me tag (PData (chunk n buf (r + k)))] = dchunk_msgs r (S k).
Proof. unfold dchunk_msgs. by rewrite seq_S, map_app. Qed.

Lemma header_count : io_count header = n.
Proof using Hn. clear - Hn. cbn. apply i32_id. unfold is_int, INT_MIN, INT_MAX, BUF_SIZE in *. lia. Qed.

(** The chunks that have been written when [r] have been received. *)
Definition direct_written (r : nat) (posted : bool) : nat := if posted then r else pred r.

(** [s] chunks have been sent and [r] received; [posted]: the handler waits for
    one more. *)
Record direct (s r : nat) (posted : bool) (v : server) : Prop := {
  di_bounds : (r ≤ s)%nat ∧ (s ≤ K)%nat ∧ (posted → (r < K)%nat);
  di_main : ∃ wc, (r ≠ 0%nat → wc = size (pred r)) ∧
    sv_main v = Receiving (Swrite fd (Status me tag) header (bound n r)
      (if posted then size r else if decide (r < K)%nat then IBVIO_CHUNK_SIZE else size (pred r))
      (bound n (direct_written r posted)) wc posted);
  di_in : sv_in v = dchunk_msgs r (s - r);
  di_out : sv_out v = [];
  di_threads : sv_threads v = [];
  di_info : ∃ i c, sv_open v !! fd = Some i ∧ so_fd i = fd ∧ fastmutex i = Unlocked ∧ cache i = Some c ∧ cached n buf c r;
  di_file : file_bytes fd [] (sv_calls v) =
    file_bytes fd [] (sv_calls v0) ++ take (Z.to_nat (bound n (direct_written r posted))) buf;
}.

(** The reply is the header the client has sent. *)
Record direct_replied (v : server) : Prop := {
  dr_main : sv_main v = Probing;
  dr_in : sv_in v = [];
  dr_threads : sv_threads v = [];
  dr_out : sv_out v = [SMsg me tag (POpen header)];
  dr_info : ∃ i c, sv_open v !! fd = Some i ∧ so_fd i = fd ∧ fastmutex i = Unlocked ∧ cache i = Some c;
  dr_file : file_bytes fd [] (sv_calls v) = file_bytes fd [] (sv_calls v0) ++ buf;
}.

Lemma direct_begin s v : (s ≤ K)%nat → v = v0 <| sv_in := SMsg me tag (POpen header) :: dchunk_msgs 0 s |> →
  ∃ v', main_step v l = Done (Some v') ∧ direct s 0 false v'.
Proof using Hl Hn Hfd Hidle.
  intros Hs Hv. destruct Hidle as [Hm Ht _ Ho (i & c & Hi & Hf & Hmx & Hc)].
  assert (Hin : sv_in v = SMsg me tag (POpen header) :: dchunk_msgs 0 s) by (by rewrite Hv).
  rewrite (main_probe l me fd Hfd v IBVIO_OP_WRITE _ _ ltac:(by rewrite Hv) Hin) by (unfold IBVIO_OP_WRITE; lia).
  change (dispatch v l IBVIO_OP_WRITE fd) with (ibvio_swrite v (l_write_size l) (l_write_chunk l) fd).
  unfold ibvio_swrite, receive_open. rewrite (receive_head _ _ _ _ _ Hin). cbn [obind].
  eexists. split; [reflexivity|]. rewrite Hv. pose proof (chunks_pos Hn). split; cbn; try done.
  - split_and!; [lia|lia|done].
  - exists (l_write_chunk l). split; [done|]. rewrite decide_True by lia. by rewrite Hl, (bound_0 Hn).
  - by rewrite Nat.sub_0_r.
  - exists i, c. split_and!; try done. intros j. rewrite (bound_0 Hn). lia.
  - rewrite (bound_0 Hn). cbn. by rewrite app_nil_r.
Qed.

(** The write of the chunk before the next is received, and of the last. *)
Lemma direct_write v i c r : cache i = Some c → cached n buf c r → (r ≤ K)%nat → r ≠ 0%nat →
  file_bytes fd [] (sv_calls v) = file_bytes fd [] (sv_calls v0) ++ take (Z.to_nat (bound n (pred r))) buf →
  ∃ calls, write_cache v fd i (bound n (pred r)) (size (pred r)) = Done (v <| sv_calls := calls |>) ∧
    file_bytes fd [] calls = file_bytes fd [] (sv_calls v0) ++ take (Z.to_nat (bound n r)) buf.
Proof using Hos Hn Hbuf.
  intros Hc Hca Hr H0 Hfile. unfold write_cache. rewrite (cache_read_ok Hn i c r) by (done || lia). cbn [obind].
  unfold os. rewrite (ow_write Hos), (proj2 (Z.ltb_ge _ _)) by lia. eexists. split; [reflexivity|].
  rewrite (file_bytes_write Hos), Hfile, <- (assoc_L (++)).
  replace (bound n r) with (bound n (S (pred r))) by (f_equal; lia). by rewrite (take_chunk (buf := buf) Hn) by lia.
Qed.

Lemma direct_chunk r : (r < K)%nat →
  (if n <? bound n r + IBVIO_CHUNK_SIZE then c_int (n - bound n r) else Done IBVIO_CHUNK_SIZE) = Done (size r).
Proof using Hn.
  clear - Hn. intros Hr. pose proof (bound_lt Hn r Hr) as [Hb Hlt]. pose proof (bound_range Hn r).
  unfold BUF_SIZE, IBVIO_CHUNK_SIZE in *. unfold bound at 3. unfold IBVIO_CHUNK_SIZE.
  destruct (Z.ltb_spec n (bound n r + 64 * 1024 * 1024)).
  - rewrite c_int_bounds by (unfold INT_MAX; lia). f_equal. lia.
  - f_equal. lia.
Qed.

(** A step of the handler: the receive of a chunk is posted, behind the write of
    the one before; or the receive ends. *)
Lemma direct_post s r v : direct s r false v → (r < K)%nat → ∃ v', main_step v l = Done (Some v') ∧ direct s r true v'.
Proof using Hos Hn Hbuf Hfd.
  intros [Hb (wc & Hwc & Hm) Hin Ho Ht (i & c & Hi & Hf & Hmx & Hc & Hca) Hfile] Hr. rewrite decide_True in Hm by done.
  pose proof (bound_lt Hn r Hr) as [Hbr Hlt]. pose proof (bound_range Hn r). pose proof (bound_range Hn (S r)).
  unfold main_step. rewrite Hm. unfold swrite_loop. cbn [sw_fd sw_posted sw_received sw_iopen sw_chunk sw_write_size sw_write_chunk].
  rewrite (info_at_ok _ Hfd _ i Hi). cbn [obind]. rewrite header_count, (proj2 (Z.ltb_lt _ _)) by lia.
  rewrite c_int_bounds by (unfold BUF_SIZE, IBVIO_CHUNK_SIZE, INT_MAX in *; lia). cbn [obind]. rewrite direct_chunk by done.
  cbn [obind direct_written] in *. destruct (Z.ltb_spec 0 (bound n r)) as [Hpos|Hpos].
  - assert (r ≠ 0%nat) as Hr0 by (intros ->; rewrite (bound_0 Hn) in Hpos; lia). rewrite (Hwc Hr0) in *.
    destruct (direct_write v i c r Hc Hca ltac:(lia) Hr0 Hfile) as (calls & E & Hcalls).
    cbn [sw_fd sw_write_size sw_write_chunk set_field]. cbn in E |- *. rewrite E. cbn [obind].
    assert (Hsz : bound n (pred r) + size (pred r) = bound n r) by (rewrite Zplus_minus; f_equal; lia).
    rewrite c_int_bounds by (rewrite Hsz; unfold BUF_SIZE, INT_MAX in *; lia). cbn [obind]. rewrite Hsz.
    rewrite (proj2 (Z.ltb_lt 0 (bound n r))) by lia. eexists. split; [reflexivity|]. split; try done.
    + split_and!; [lia|lia|done].
    + by exists (size (pred r)).
    + by exists i, c.
  - assert (r = 0%nat) as -> by (unfold IBVIO_CHUNK_SIZE in *; lia).
    cbn [sw_received set_field eta_swrite]. rewrite (proj2 (Z.ltb_ge 0 (bound n 0))) by lia.
    eexists. split; [reflexivity|]. split; try done.
    + split_and!; [lia|lia|done].
    + by exists wc.
    + by exists i, c.
Qed.

Lemma direct_receive s r v : direct s r true v → (r < s)%nat → ∃ v', main_step v l = Done (Some v') ∧ direct s (S r) false v'.
Proof using Hn Hbuf Hfd.
  intros [Hb (wc & Hwc & Hm) Hin Ho Ht (i & c & Hi & Hf & Hmx & Hc & Hca) Hfile] Hr.
  assert (HrK : (r < K)%nat) by lia. pose proof (bound_range Hn r). pose proof (bound_range Hn (S r)).
  assert (Hin' : sv_in v = SMsg me tag (PData (chunk n buf r)) :: dchunk_msgs (S r) (s - S r)).
  { rewrite Hin. by replace (s - r)%nat with (S (s - S r)) by lia. }
  unfold main_step. rewrite Hm. unfold swrite_loop. cbn [sw_fd sw_posted sw_received sw_iopen sw_chunk sw_write_size sw_write_chunk sw_stat].
  rewrite (info_at_ok _ Hfd _ i Hi). cbn [obind]. rewrite (receive_head _ _ _ _ _ Hin').
  rewrite (cache_write_ok Hn Hbuf i c) by done. cbn [obind]. rewrite Zplus_minus.
  rewrite c_int_bounds by (unfold BUF_SIZE, INT_MAX in *; lia). cbn [obind].
  eexists. split; [reflexivity|]. split; try done.
  - split_and!; [lia|lia|done].
  - exists (size r). split; [done|]. cbn [sv_main set_field pred direct_written]. destruct (decide (S r < K)%nat) as [Hs|Hs]; [|done].
    by rewrite (bound_step_full Hn) by done.
  - eexists _, _. split; [apply lookup_insert_eq|]. split_and!; try done. by apply (cached_store Hn Hbuf).
Qed.

Lemma direct_finish s v : direct s K false v → ∃ v', main_step v l = Done (Some v') ∧ direct_replied v'.
Proof using Hos Hn Hbuf Hfd.
  intros [Hb (wc & Hwc & Hm) Hin Ho Ht (i & c & Hi & Hf & Hmx & Hc & Hca) Hfile]. pose proof (chunks_pos Hn) as HK.
  assert (HK0 : K ≠ 0%nat) by lia. rewrite (Hwc HK0) in Hm. rewrite decide_False in Hm by lia.
  unfold main_step. rewrite Hm. unfold swrite_loop. cbn [sw_fd sw_posted sw_received sw_iopen sw_chunk sw_write_size sw_write_chunk sw_stat].
  rewrite (info_at_ok _ Hfd _ i Hi). cbn [obind]. rewrite header_count, (bound_last Hn), Z.ltb_irrefl. cbn [direct_written] in *.
  destruct (direct_write v i c K Hc Hca ltac:(lia) HK0 Hfile) as (calls & E & Hcalls).
  cbn in E |- *. rewrite E. cbn [obind].
  assert (Hsz : bound n (pred K) + size (pred K) = n).
  { rewrite Zplus_minus. transitivity (bound n K); [f_equal; lia|apply (bound_last Hn)]. }
  rewrite c_int_bounds by (rewrite Hsz; unfold BUF_SIZE, INT_MAX in *; lia). cbn [obind].
  eexists. split; [reflexivity|]. split; try done.
  - cbn. rewrite Hin. by replace (s - K)%nat with 0%nat by lia.
  - cbn. by rewrite Ho.
  - by exists i, c.
  - cbn. rewrite file_bytes_other, Hcalls, (bound_last Hn) by done. f_equal. apply take_ge. lia.
Qed.

Lemma direct_waits s v : direct s s true v → main_step v l = Done None.
Proof using Hfd.
  intros [_ (wc & _ & Hm) Hin _ _ (i & c & Hi & _) _]. unfold main_step. rewrite Hm. unfold swrite_loop. cbn [sw_fd sw_posted].
  rewrite (info_at_ok _ Hfd _ i Hi). cbn [obind]. unfold receive. by rewrite Hin, Nat.sub_diag.
Qed.

(** ** The whole session *)

Definition dclient_at (s : nat) : io Z := sender_at n buf host tag (finish host) s.
Lemma dclient_start c : aget (host_ids c) fd = Done host →
  ibtl_dwrite c garbage fd buf n = SendWait host tag (POpen header) (dclient_at 0).
Proof using Hn Hfd.
  intros Hh. unfold ibtl_dwrite. rewrite Hh. cbn [lift].
  rewrite serialize_ok by (unfold IBVIO_OP_WRITE; lia). cbn [lift]. by rewrite sender_start.
Qed.
Lemma dclient_cases s : (s ≤ K)%nat →
  (s < K)%nat ∧ dclient_at s = SendWait host tag (PData (chunk n buf s)) (dclient_at (S s)) ∨ s = K ∧ dclient_at s = finish host.
Proof using Hn Hbuf. by apply sender_cases. Qed.

Definition direct_ended (v : server) : Prop :=
  idle fd v ∧ file_bytes fd [] (sv_calls v) = file_bytes fd [] (sv_calls v0) ++ buf.

(** Where the session is after so many steps. *)
Inductive dsession : nat → system Z → Prop :=
| ds_start : dsession 0 (Sys (SendWait host tag (POpen header) (dclient_at 0)) v0)
| ds_header s v : (s ≤ K)%nat → v = v0 <| sv_in := SMsg me tag (POpen header) :: dchunk_msgs 0 s |> →
    dsession (1 + s) (Sys (dclient_at s) v)
| ds_direct s r posted v : direct s r posted v →
    dsession (2 + s + 2 * r + (if posted then 1 else 0)) (Sys (dclient_at s) v)
| ds_replied v : direct_replied v → dsession (3 * K + 3) (Sys (finish host) v)
| ds_ended v : direct_ended v → dsession (3 * K + 4) (Sys (Ret (io_stat garbage)) v).

(** What [main] can do in a session. *)
Lemma direct_main s r posted v : direct s r posted v →
  (∃ v', main_step v l = Done (Some v') ∧
    (posted = false ∧ (r < K)%nat ∧ direct s r true v' ∨ posted = true ∧ (r < s)%nat ∧ direct s (S r) false v' ∨
     posted = false ∧ r = K ∧ direct_replied v')) ∨
  main_step v l = Done None ∧ posted = true ∧ r = s ∧ (s < K)%nat.
Proof using Hos Hn Hbuf Hfd.
  intros Hd. pose proof (di_bounds _ _ _ _ Hd) as (Hrs & HsK & Hp). destruct posted.
  - specialize (Hp I). destruct (decide (r = s)) as [->|Hne].
    + right. split; [by eapply direct_waits|done].
    + left. destruct (direct_receive _ _ _ Hd ltac:(lia)) as (v' & E & H). exists v'. split; [done|]. right; left. split_and!; [done|lia|done].
  - left. destruct (decide (r = K)) as [->|Hne].
    + destruct (direct_finish _ _ Hd) as (v' & E & H). exists v'. split; [done|]. by right; right.
    + destruct (direct_post _ _ _ Hd ltac:(lia)) as (v' & E & H). exists v'. split; [done|]. left. split_and!; [done|lia|done].
Qed.

(** The server in any state of the session: its threads do nothing. *)
Lemma dsession_threads m sy : dsession m sy → sv_threads (sy_server sy) = [].
Proof using Hidle.
  intros Hd. destruct Hd as [|s v Hs ->|s r posted v Hd|v Hr|v [He _]]; cbn; [apply Hidle|apply Hidle|..].
  - apply (di_threads _ _ _ _ Hd).
  - apply Hr.
  - apply He.
Qed.

Lemma dsession_main m c v v' : dsession m (Sys c v) → main_step v l = Done (Some v') → dsession (S m) (Sys c v').
Proof using Hos Hl Hn Hbuf Hfd Hidle.
  remember (Sys c v) as sy eqn:Hsy. intros Hd Hv.
  destruct Hd as [|s v1 Hs Hv1|s r posted v1 Hd|v1 Hr|v1 [He _]]; injection Hsy as Hc Ev; subst c; [|subst v1..].
  - rewrite <- Ev in Hv. by rewrite quiet_main in Hv by apply Hidle.
  - destruct (direct_begin s v Hs Hv1) as (v2 & E & H). rewrite E in Hv. injection Hv as <-.
    replace (S (1 + s)) with (2 + s + 2 * 0 + 0)%nat by lia. by apply (ds_direct s 0 false).
  - pose proof (di_bounds _ _ _ _ Hd) as (Hrs & HsK & _).
    destruct (direct_main _ _ _ _ Hd) as [(v2 & E & [(-> & Hr & H)|[(-> & Hr & H)|(-> & -> & H)]])|(E & _)]; rewrite E in Hv; [..|done]; injection Hv as <-.
    + replace (S _) with (2 + s + 2 * r + 1)%nat by lia. by apply (ds_direct s r true).
    + replace (S _) with (2 + s + 2 * S r + 0)%nat by lia. by apply (ds_direct s (S r) false).
    + assert (s = K) as -> by lia. destruct (dclient_cases K ltac:(lia)) as [[? _]|[_ ->]]; [lia|].
      replace (S _) with (3 * K + 3)%nat by lia. by apply ds_replied.
  - by rewrite quiet_main in Hv by apply Hr.
  - by rewrite quiet_main in Hv by apply He.
Qed.

Lemma dsession_send m h t p k v : dsession m (Sys (SendWait h t p k) v) →
  dsession (S m) (Sys k (v <| sv_in := sv_in v ++ [SMsg me t p] |>)).
Proof using Hn Hbuf Hidle.
  remember (Sys (SendWait h t p k) v) as sy eqn:Hsy. intros Hd.
  destruct Hd as [|s v1 Hs Hv1|s r posted v1 Hd|v1 Hr|v1 He]; try done; [|injection Hsy as Hc ->..].
  - injection Hsy as <- <- <- <- <-. apply (ds_header 0); [lia|]. by rewrite (id_in _ _ Hidle).
  - destruct (dclient_cases s Hs) as [[Hlt E]|[-> E]]; rewrite E in Hc; [|done]. injection Hc as _ <- <- <-.
    apply (ds_header (S s)); [done|]. by rewrite Hv1, <- (dchunk_msgs_snoc 0 s).
  - pose proof (di_bounds _ _ _ _ Hd) as (Hrs & HsK & Hp). destruct (dclient_cases s HsK) as [[Hlt E]|[-> E]]; rewrite E in Hc; [|done].
    injection Hc as _ <- <- <-. replace (S _) with (2 + S s + 2 * r + (if posted then 1 else 0))%nat by lia.
    apply (ds_direct (S s) r posted). destruct Hd as [_ Hm Hin Ho Ht Hi Hf]. split; try done; [split_and!; [lia|lia|done]|].
    cbn. rewrite Hin. replace (S s - r)%nat with (S (s - r)) by lia. rewrite <- dchunk_msgs_snoc. do 4 f_equal. f_equal. lia.
Qed.

Lemma dsession_recv m h t k v p rest : dsession m (Sys (RecvWait h t k) v) → take_reply me t (sv_out v) = Some (p, rest) →
  dsession (S m) (Sys (k p) (v <| sv_out := rest |>)).
Proof using Hn Hbuf Hidle.
  remember (Sys (RecvWait h t k) v) as sy eqn:Hsy. intros Hd Ht.
  destruct Hd as [|s v1 Hs Hv1|s r posted v1 Hd|v1 Hr|v1 He]; try done; [injection Hsy as Hc ->..|].
  - rewrite Hv1 in Ht. unfold set_field in Ht; cbn in Ht. by rewrite (id_out _ _ Hidle) in Ht.
  - by rewrite (di_out _ _ _ _ Hd) in Ht.
  - unfold finish, recv_open in Hsy. injection Hsy as <- <- <- ->. rewrite (dr_out _ Hr) in Ht. cbn in Ht. rewrite Z.eqb_refl in Ht. injection Ht as <- <-.
    replace (S _) with (3 * K + 4)%nat by lia. apply ds_ended. destruct Hr as [H1 H2 H3 H4 H5 H6]. split; [by split|done].
Qed.

(** The client sends, waits for the reply or has returned. *)
Lemma dsession_client m sy : dsession m sy → match sy_client sy with SendWait _ _ _ _ | RecvWait _ _ _ | Ret _ => True | _ => False end.
Proof using Hn Hbuf.
  intros Hd. destruct Hd as [|s v Hs Hv|s r posted v Hd|v Hr|v He]; try done; cbn.
  - by destruct (dclient_cases s Hs) as [[_ ->]|[_ ->]].
  - pose proof (di_bounds _ _ _ _ Hd). by destruct (dclient_cases s ltac:(lia)) as [[_ ->]|[_ ->]].
Qed.

Lemma dsession_step m sy sy' : dsession m sy → sys_step l host me sy sy' → dsession (S m) sy'.
Proof using Hos Hl Hn Hbuf Hfd Hidle.
  intros Hd Hst. pose proof (dsession_client _ _ Hd) as Hc. pose proof (dsession_threads _ _ Hd) as Ht. destruct Hst; [done|done|..].
  - by eapply dsession_send.
  - by eapply dsession_recv.
  - by eapply dsession_main.
  - by rewrite quiet_thread in H.
Qed.

Lemma dsession_steps m c sy : aget (host_ids c) fd = Done host →
  nsteps (sys_step l host me) m (Sys (ibtl_dwrite c garbage fd buf n) v0) sy → dsession m sy.
Proof using Hos Hl Hn Hbuf Hfd Hidle.
  intros Hh. rewrite (dclient_start c Hh). revert sy. induction m as [|m IH]; intros sy H.
  - inversion H; subst. apply ds_start.
  - apply nsteps_inv_r in H as (sy1 & H1 & H2). eapply dsession_step; [by apply IH|done].
Qed.

(** What [main] does next is defined. *)
Lemma dsession_main_defined m sy : dsession m sy → ∃ r, main_step (sy_server sy) l = Done r.
Proof using Hos Hl Hn Hbuf Hfd Hidle.
  intros Hd. destruct Hd as [|s v Hs Hv|s r posted v Hd|v Hr|v [He _]]; cbn [sy_server].
  - exists None. apply quiet_main; apply Hidle.
  - destruct (direct_begin s v Hs Hv) as (v' & E & _). by exists (Some v').
  - destruct (direct_main _ _ _ _ Hd) as [(v' & E & _)|[E _]]; [by exists (Some v')|by exists None].
  - exists None. apply quiet_main; apply Hr.
  - exists None. apply quiet_main; apply He.
Qed.

Lemma dsession_sound m sy : dsession m sy → ¬ sys_fault l sy.
Proof using Hos Hl Hn Hbuf Hfd Hidle.
  intros Hd Hf. pose proof (dsession_client _ _ Hd) as Hc. destruct Hf as [E|[E|[Hm|[k Hk]]]].
  - by rewrite E in Hc.
  - by rewrite E in Hc.
  - destruct (dsession_main_defined _ _ Hd) as [r E]. by apply (Hm r).
  - apply (Hk None), quiet_thread. by eapply dsession_threads.
Qed.

(** Until the client has returned something can happen. *)
Lemma dsession_progress m sy : dsession m sy →
  (m < 3 * K + 4)%nat ∧ (∃ sy', sys_step l host me sy sy') ∨ m = (3 * K + 4)%nat ∧ ∃ r, sy_client sy = Ret r.
Proof using Hos Hl Hn Hbuf Hfd Hidle.
  intros Hd. destruct Hd as [|s v Hs Hv|s r posted v Hd|v Hr|v He]; [left..|right; by eauto]; (split; [try lia|]).
  - eexists. apply step_send.
  - destruct (direct_begin s v Hs Hv) as (v' & E & _). eexists. by apply step_main.
  - destruct (di_bounds _ _ _ _ Hd) as (Hrs & HsK & Hp). destruct posted; [specialize (Hp I)|]; lia.
  - destruct (di_bounds _ _ _ _ Hd) as (Hrs & HsK & Hp).
    destruct (direct_main _ _ _ _ Hd) as [(v' & E & _)|(_ & _ & _ & Hlt)]; [eexists; by apply step_main|].
    destruct (dclient_cases s HsK) as [[_ E]|[-> _]]; [|lia]. rewrite E. eexists. apply step_send.
  - unfold finish, recv_open. eexists. apply (step_recv _ _ _ FMI_ANY_TAG _ _ (POpen header) []). rewrite (dr_out _ Hr). cbn.
    by rewrite Z.eqb_refl.
Qed.

Lemma dsession_end m sy r : dsession m sy → sy_client sy = Ret r → r = io_stat garbage ∧ direct_ended (sy_server sy).
Proof using Hn Hbuf.
  intros Hd Hc. destruct Hd as [|s v Hs Hv|s r' posted v Hd|v Hr|v He]; try done; cbn in Hc.
  - destruct (dclient_cases s Hs) as [[_ E]|[_ E]]; by rewrite E in Hc.
  - pose proof (di_bounds _ _ _ _ Hd). destruct (dclient_cases s ltac:(lia)) as [[_ E]|[_ E]]; by rewrite E in Hc.
  - injection Hc as <-. by split.
Qed.
End session.

(** C10: the two ways to write a file do the same.  [ibtl_dwrite], whose chunks
    the handler receives itself and writes one behind, and [ibtl_write], whose
    chunks go to threads: for every interleaving nothing goes wrong, the session
    goes on until the client returns (three steps for each chunk and four more
    here), and then the file has what it has when [ibtl_write] returns, and the
    server is idle.  For [ibtl_dwrite] this holds when the local variable
    [write_size], which is not initialised, happens to be zero. *)
Theorem dwrite_equals_write `{OS} l host me fd (buf : list Z) garbage v0 c m sy :
  os_works → l_write_size l = 0 → 0 < Z.of_nat (length buf) ≤ BUF_SIZE → 0 ≤ fd < 2 ^ 15 → idle fd v0 →
  aget (host_ids c) fd = Done host →
  nsteps (sys_step l host me) m (Sys (ibtl_dwrite c garbage fd buf (Z.of_nat (length buf))) v0) sy →
  let steps := (3 * chunks (Z.of_nat (length buf)) + 4)%nat in
  ¬ sys_fault l sy ∧ (m ≤ steps)%nat ∧
  ((∃ sy', sys_step l host me sy sy') ∨ m = steps ∧ ∃ r, sy_client sy = Ret r) ∧
  ∀ r, sy_client sy = Ret r → r = io_stat garbage ∧ idle fd (sy_server sy) ∧
    file_bytes fd [] (sv_calls (sy_server sy)) = file_bytes fd [] (sv_calls v0) ++ buf ∧
    ∀ m' sy' r', nsteps (sys_step l host me) m' (Sys (ibtl_write c garbage fd buf (Z.of_nat (length buf))) v0) sy' →
      sy_client sy' = Ret r' → file_bytes fd [] (sv_calls (sy_server sy')) = file_bytes fd [] (sv_calls (sy_server sy)).
Proof.
  intros Hos Hl Hn Hfd Hidle Hh Hst steps. eapply dsession_steps in Hst as Hd; [|done..]. split_and!.
  - by eapply dsession_sound.
  - eapply dsession_progress in Hd as [[? _]|[? _]]; [| |done..]; subst steps; lia.
  - eapply dsession_progress in Hd as [[_ ?]|?]; [by left|by right|done..].
  - intros r Hr. eapply dsession_end in Hr as (-> & Hid & Hf); [|done..]. split_and!; [done..|].
    intros m' sy' r' Hst' Hr'. erewrite client_start in Hst' by done. eapply session_steps in Hst' as Hse; [|done..].
    eapply session_end in Hr' as (_ & _ & _ & Hf'); [|done..]. by rewrite Hf, Hf'.
Qed.

(** A direct write of three bytes. *)
Definition dwrite_schedule : list choice := [ByClient; ByMain; ByClient; ByMain; ByMain; ByMain; ByClient].

Lemma dwrite_equals_write_witness :
  ∃ sy, nsteps (sys_step sample_locals 0 1) 7 (Sys (ibtl_dwrite sample_client sample_iopen 5 [10; 20; 30] 3) sample_server) sy ∧
    sy_client sy = Ret 77 ∧ file_bytes 5 [] (sv_calls (sy_server sy)) = [10; 20; 30].
Proof.
  destruct (sys_run sample_locals 0 1 dwrite_schedule
    (Sys (ibtl_dwrite sample_client sample_iopen 5 [10; 20; 30] 3) sample_server)) as [sy|] eqn:E; [|by vm_compute in E].
  pose proof (sys_run_steps _ _ _ _ _ _ E) as Hrun. exists sy. split; [exact Hrun|].
  assert (Hret : sy_client sy = Ret 77).
  { apply (f_equal (fmap sy_client)) in E. vm_compute in E. by injection E. }
  split; [exact Hret|].
  destruct (dwrite_equals_write sample_locals 0 1 5 [10; 20; 30] sample_iopen sample_server sample_client 7 sy
    sample_os_works eq_refl ltac:(unfold BUF_SIZE; cbn; lia) ltac:(lia) sample_idle eq_refl Hrun) as (_ & _ & _ & H).
  destruct (H 77 Hret) as (_ & _ & Hf & _). exact Hf.
Defined.

(** Where [write_size] holds 1 the file gets other bytes of the cache. *)
Example dwrite_from_elsewhere :
  (λ s, (sy_client s, file_bytes 5 [] (sv_calls (sy_server s)))) <$>
    sys_run (Locals (λ _, 0) 1 0 sample_iopen) 0 1 dwrite_schedule
      (Sys (ibtl_dwrite sample_client sample_iopen 5 [10; 20; 30] 3) sample_server) = Some (Ret 77, [20; 30; 0]).
Proof. vm_compute. reflexivity. Qed.
