(* ===== verification/Disconnect.v ===== *)
(** * src/src/fdmi.c: from a lost connection to the report of failures

    The thread of events and [fdmi_verbs_get_failure_status] together.  The
    ranks of lost connections go to one queue, the report takes them from
    another. *)
From S2P Require Import Prelude Mem Queue Hashtable Datatype ProcMan State MrCache Query Matching Transfer Progress MsgSpec Engine Delivery Fault Net Api Connection Serving.

Section disconnect.
Context {HMalloc : Malloc} {HVerbs : Verbs} {HNet : Net} (Hm : malloc_total).
Implicit Types (r : runtime).

(** Connections have been lost to the ranks [rs], since the process was [s0]. *)
Record lost (s0 : process) (t : table) (rs : list Z) (s : process) : Prop := {
  lo_queue : ∃ ps, holds_ranks queue_rep Unlocked (disconnected_prank_q s) (ps_ints s) ps rs;
  lo_state : rs ≠ [] → state s = FDMI_FAILURE;
  lo_routes : routes t s;
  lo_failed : failed_prank_q s = failed_prank_q s0;
  lo_ft_msg : ft_msg s = ft_msg s0;
  lo_domains : ps_domains s = ps_domains s0;
}.

(** A new cell for a rank. *)
Lemma holds_ranks_snoc q (ints : heap Z) ps rs v count :
  holds_ranks queue_rep Unlocked q ints ps rs →
  let p := malloc (cells ints) in
  ends (fdmi_queue_lock_enq q p) (λ q',
    holds_ranks queue_rep Unlocked q' (Heap (<[p := v]> (cells ints)) count) (ps ++ [p]) (rs ++ [v])).
Proof using Hm.
  intros (Hq & Hn & Hnd & Hrs) p. assert (Hp : cells ints !! p = None) by (apply malloc_fresh, Hm).
  assert (Hps : p ∉ ps).
  { intros Hin. apply list_elem_of_lookup in Hin as [i Hi]. apply (Forall2_lookup_l _ _ _ _ _ Hrs) in Hi as (x & _ & Hx). congruence. }
  c_last (rep_lock_enq (rep := queue_rep)) as q' Hq'. split_and!.
  - done.
  - rewrite elem_of_app, list_elem_of_singleton. intros [?|E]; [done|]. by apply (Hm _ (cells ints)).
  - apply NoDup_app. split_and!; [done| |apply NoDup_singleton]. intros x Hx ->%list_elem_of_singleton. done.
  - apply Forall2_app; [|constructor; [apply lookup_insert_eq|constructor]].
    eapply Forall2_impl; [exact Hrs|]. cbn. intros x y Hxy. rewrite lookup_insert_ne; [done|]. intros E. congruence.
Qed.

Lemma on_disconnected_ok r s0 t rs frank id :
  lost s0 t rs (rt_proc r) → some_range (ft_failed (ft_msg s0)) frank = Done false →
  ends (on_disconnected r frank id) (λ r', lost s0 t (rs ++ [i32 (spec_get t id)]) (rt_proc r')).
Proof using Hm.
  intros [[ps Hps] Hst Hrt Hf Hft Hd] Hr. unfold on_disconnected, fdmi_need_update_ft_msg. rewrite Hft, Hr. cbn [obind Z.eqb].
  rewrite fdmi_malloc_ok by apply Hm. cbn [obind]. cbv zeta.
  c_step (itop_get_run _ t id) as [x r1] (pm & -> & -> & Hrt1 & _). cbn [fst snd] in *. cbn.
  rewrite poke_ok by (cbn; rewrite lookup_insert_eq; done). cbn.
  c_step (holds_ranks_snoc (disconnected_prank_q (rt_proc r)) (ps_ints (rt_proc r)) ps rs (i32 (spec_get t id)) (u64 (total_alloc_count (ps_ints (rt_proc r)) + 1))) as q Hq.
  split; try done.
  exists (ps ++ [malloc (cells (ps_ints (rt_proc r)))]). cbn. by rewrite insert_insert_eq.
Qed.

Lemma disconnections_ok r s0 t rs frank domain_id d ids :
  lost s0 t rs (rt_proc r) → some_range (ft_failed (ft_msg s0)) frank = Done false → aget (ps_domains s0) domain_id = Done d →
  ends (fdmi_poll_event_recv_channel r domain_id frank (map (λ id, (0, (RDMA_CM_EVENT_DISCONNECTED, id))) ids))
    (λ r', lost s0 t (rs ++ map (λ id, i32 (spec_get t id)) ids) (rt_proc r')).
Proof using Hm.
  intros Hl Hr Hd. revert r rs Hl. induction ids as [|id ids IH]; intros r rs Hl; cbn [map fdmi_poll_event_recv_channel].
  - cbn. by rewrite app_nil_r.
  - rewrite (lo_domains _ _ _ _ Hl), Hd. cbn [obind Z.eqb]. unfold fdmi_on_cm_event. rewrite obind_assoc.
    c_step (on_disconnected_ok (call r (CGetEvent (dom_rec d))).2 s0 t rs frank id) as r1 Hl1. cbn [obind].
    eapply ends_mono; [by apply IH|]. cbv beta. intros r2. by rewrite <- (assoc_L (++)).
Qed.
End disconnect.

(** C26: lost connections are noticed and never reported.  When the thread of
    events has taken the disconnections of any identifiers, the process is in
    the state of failure and [disconnected_prank_q] has their ranks, in the order
    of the events.  [fdmi_verbs_get_failure_status] takes the ranks from
    [failed_prank_q], to which the code that is reached adds nothing: as long as
    the program leaves the state alone the call does not return, and when the
    program changes it with [fdmi_set_state] the call reports no rank at all. *)
Theorem disconnections_not_reported `{Malloc} `{Verbs} `{Net} r t frank domain_id d ids :
  malloc_total → routes t (rt_proc r) → aget (ps_domains (rt_proc r)) domain_id = Done d →
  queue_rep Unlocked (disconnected_prank_q (rt_proc r)) [] → queue_rep Unlocked (failed_prank_q (rt_proc r)) [] →
  some_range (ft_failed (ft_msg (rt_proc r))) frank = Done false → ids ≠ [] →
  ends (fdmi_poll_event_recv_channel r domain_id frank (map (λ id, (0, (RDMA_CM_EVENT_DISCONNECTED, id))) ids)) (λ r',
    state (rt_proc r') = FDMI_FAILURE ∧
    (∃ ps, holds_ranks queue_rep Unlocked (disconnected_prank_q (rt_proc r')) (ps_ints (rt_proc r')) ps
       (map (λ id, i32 (spec_get t id)) ids)) ∧
    (∀ fuel, fdmi_verbs_get_failure_status fuel (λ _, rt_proc r') = Diverge) ∧
    ∀ n fuel st, n ≠ 0%nat → (n ≤ fuel)%nat → st ≠ FDMI_FAILURE →
      ends (fdmi_verbs_get_failure_status fuel (λ i, if (i <? n)%nat then rt_proc r' else fdmi_set_state (rt_proc r') st))
        (λ x, x.1 = (1, []))).
Proof.
  intros Hm Hrt Hd Hdq Hfq Hr Hids.
  assert (Hl : lost (rt_proc r) t [] (rt_proc r)).
  { split; try done. exists []. split_and!; [done|apply not_elem_of_nil|constructor|constructor]. }
  eapply ends_mono; [by eapply disconnections_ok|]. intros r' [Hq Hst _ Hf _ _]. cbn [app] in *.
  assert (Hstate : state (rt_proc r') = FDMI_FAILURE) by (apply Hst; by destruct ids). split_and!; [done|done|..].
  - intros fuel. unfold fdmi_verbs_get_failure_status. rewrite Hstate, decide_True by done.
    by rewrite failure_wait_never.
  - intros n fuel st Hn Hfuel Hne. set (obs := λ i, _). assert (Hobs0 : obs 0%nat = rt_proc r').
    { unfold obs. by rewrite (proj2 (Nat.ltb_lt _ _)) by lia. }
    assert (Hempty : ∀ j, holds_ranks queue_rep Unlocked (failed_prank_q (obs j)) (ps_ints (obs j)) [] []).
    { intros j. unfold obs. split_and!; [|apply not_elem_of_nil|constructor|constructor].
      destruct (j <? n)%nat; cbn; by rewrite Hf. }
    destruct (decide (n = 1)%nat) as [->|Hn1].
    { unfold fdmi_verbs_get_failure_status. rewrite Hobs0, Hstate. by rewrite decide_False. }
    eapply ends_mono; [apply (proj2 (failure_status_reports obs [] [] ltac:(by rewrite Hobs0) Hempty ltac:(cbn; lia)) n)|by intros x [Hx _]].
    + lia.
    + unfold obs. by rewrite (proj2 (Nat.ltb_ge _ _)) by lia.
    + intros j Hj. unfold obs. by rewrite (proj2 (Nat.ltb_lt _ _)) by lia.
    + done.
Qed.

(** The connection to rank 1 is lost. *)
Lemma disconnections_not_reported_witness :
  ends (fdmi_poll_event_recv_channel sample_accepting 0 0 [(0, (RDMA_CM_EVENT_DISCONNECTED, 1600))]) (λ r',
    state (rt_proc r') = FDMI_FAILURE ∧
    (∃ ps, holds_ranks queue_rep Unlocked (disconnected_prank_q (rt_proc r')) (ps_ints (rt_proc r')) ps [1]) ∧
    ends (fdmi_verbs_get_failure_status 3 (λ i, if (i <? 2)%nat then rt_proc r' else fdmi_set_state (rt_proc r') FDMI_COMPUTE))
      (λ x, x.1 = (1, []))).
Proof.
  eapply ends_mono; [eapply (disconnections_not_reported sample_accepting sample_table 0 0 (Domain 5 6 16) [1600])|].
  - exact Malloc_bump_total.
  - exact sample_routes.
  - reflexivity.
  - exact empty_queue_rep.
  - exact empty_queue_rep.
  - reflexivity.
  - discriminate.
  - intros r' (H1 & H2 & _ & H4). split; [exact H1|]. split; [exact H2|]. apply H4; [discriminate|lia|discriminate].
Defined.
