(* ===== verification/Sends.v ===== *)
(** * src/src/fdmi.c: the sending side

    What the program's sends, the completions of the adapter and the messages
    that end a transfer do to the requests, as a machine on lists; that the
    calls and handlers implement it for every sequence of these events; and
    what the machine promises. *)
From S2P Require Import Prelude Mem Queue Hashtable Datatype ProcMan State MrCache Query Matching Transfer Progress MsgSpec Engine Delivery Eager Api Rendezvous.

(** ** The machine *)

(** The arguments of a call of [fdmi_verbs_isend]. *)
Record isend_args := Isend {
  is_buf : Z;
  is_count : Z;
  is_dtype : fdmi_datatype;
  is_dest : Z;
  is_tag : Z;
  is_comm : Z;
  is_request : Z;
}.

(** The message fits the eager buffer. *)
Definition is_eager (p : isend_args) : bool :=
  match total_send_size (is_dtype p) (is_count p) with
  | Done total => total <=? FDMI_EAGER_BUFF_SIZE
  | _ => false
  end.

(** The unfinished sends, oldest first; the sends whose completion the adapter
    has still to report, with the kind of each; the requests. *)
Record send_state := SendState {
  ss_unfinished : list Z;
  ss_inflight : list (bool * Z);
  ss_requests : gmap Z fdmi_request;
}.

(** The program sends; the adapter reports the [i]-th send that it has not
    reported; a message that ends a transfer arrives. *)
Inductive send_event :=
| SIsend (p : isend_args)
| SSent (i : nat)
| SFin (m : fdmi_msg).

Definition with_flag (v : Z) (req : Z) (rqs : gmap Z fdmi_request) : outcome (gmap Z fdmi_request) :=
  r <- load rqs req ;; Done (<[req := r <| rq_flag := v |>]> rqs).

Definition m_send_step (st : send_state) (e : send_event) : outcome send_state :=
  let '(SendState unfinished inflight rqs) := st in
  match e with
  | SIsend p =>
      rqs <- with_flag 0 (is_request p) rqs ;;
      Done (SendState (unfinished ++ [is_request p]) (inflight ++ [(is_eager p, is_request p)]) rqs)
  | SSent i =>
      match inflight !! i with
      | Some (true, req) =>
          rqs <- with_flag 1 req rqs ;; Done (SendState (remove_first req unfinished) (delete i inflight) rqs)
      | Some (false, _) => Done (SendState unfinished (delete i inflight) rqs)
      | None => Undef
      end
  | SFin _ =>
      match unfinished with
      | [] => Done st
      | req :: unfinished => rqs <- with_flag 1 req rqs ;; Done (SendState unfinished inflight rqs)
      end
  end.

Fixpoint m_send_run (st : send_state) (es : list send_event) : outcome send_state :=
  match es with
  | [] => Done st
  | e :: es => st <- m_send_step st e ;; m_send_run st es
  end.

(** ** The process *)
Section runs.
Context {HMalloc : Malloc} {HVerbs : Verbs} (D : Z).

(** A process, the queries of the sends that the adapter has not reported and
    of the receives that are posted; messages take these in order. *)
Definition sending_process : Type := process * list Z * list Z.

Definition send_step (x : sending_process) (e : send_event) : outcome sending_process :=
  let '(s, qs, recvs) := x in
  match e with
  | SIsend p =>
      let! (_, s) := fdmi_verbs_isend s (is_buf p) (is_count p) (is_dtype p) (is_dest p) (is_tag p) (is_comm p) (is_request p) in
      Done (s, qs ++ [last_wr_id s], recvs)
  | SSent i =>
      match qs !! i with
      | Some q => s <- fdmi_poll_sendrecv_cq s D IBV_WC_SEND q ;; Done (s, delete i qs, recvs)
      | None => Diverge
      end
  | SFin m =>
      match recvs with
      | a :: recvs => s <- hca_deliver D s a m ;; Done (s, qs, recvs ++ [last_wr_id s])
      | [] => Diverge
      end
  end.

Fixpoint send_run (x : sending_process) (es : list send_event) : outcome sending_process :=
  match es with
  | [] => Done x
  | e :: es => x <- send_step x e ;; send_run x es
  end.
End runs.

Definition flag_addr (req : Z) : Z := req + offsetof_request_flag.
#[export] Instance flag_addr_inj : Inj (=) (=) flag_addr.
Proof. intros x y. unfold flag_addr. lia. Qed.

Lemma remove_first_fmap (f : Z → Z) `{!Inj (=) (=) f} x l : remove_first (f x) (f <$> l) = f <$> remove_first x l.
Proof.
  induction l as [|y l IH]; cbn; [done|]. destruct (decide (y = x)) as [->|Hne].
  - by rewrite decide_True.
  - rewrite decide_False by (by intros ?%(inj f)). cbn. by rewrite IH.
Qed.

(** ** The process implements the machine *)

(** What a call needs of the process: a connection, a communicator, sizes that
    can be computed and, for an eager message, consecutive bytes to copy. *)
Record isend_ok (s : process) (p : isend_args) : Prop := {
  io_conn : ∃ peer c, aget (ps_peers s) (is_dest p) = Done peer ∧ aget (p_conn peer) 0 = Done c ∧
    c ≠ NULL ∧ is_Some (cells (ps_conns s) !! c);
  io_comm : ∃ id, comm_id_at s (is_comm p) = Done id;
  io_size : ∃ size, reg_size (is_dtype p) (is_count p) = Done size;
  io_total : ∃ total, total_send_size (is_dtype p) (is_count p) = Done total ∧
    (total ≤ FDMI_EAGER_BUFF_SIZE → dt_count (is_dtype p) = 1 ∧
       ∃ bs, read_bytes (ps_memory s) (is_buf p) (Z.to_nat total) = Done bs);
  io_flag : flag_addr (is_request p) ≠ NULL;
}.

Definition send_event_ok (s : process) (e : send_event) : Prop :=
  match e with
  | SIsend p => isend_ok s p
  | SSent _ => True
  | SFin m => msg_type m = FDMI_COMM_FIN
  end.

(** A send that is posted and not reported. *)
Definition in_flight (s : process) (q : Z) (x : bool * Z) : Prop :=
  ∃ qu m, cells (ps_queries s) !! q = Some qu ∧ qu_conn qu ≠ NULL ∧ qu_request_flag qu = flag_addr x.2 ∧
    query_msg s q = Done m ∧ msg_type m = FDMI_COMM_INIT ∧
    msg_opcode m = if x.1 then FDMI_EAGER else FDMI_RDMA_READ.

(** The process stands as the machine does; [held] are queries of others. *)
Record sending `{Malloc} `{Verbs} (D : Z) (t : table) (aq pq held : list Z) (x : sending_process) (st : send_state) : Prop := {
  sg_inv : ∃ free, proc_inv queue_rep x.1.1 D Unlocked Unlocked free aq pq (x.2 ++ x.1.2 ++ held);
  sg_routes : routes t x.1.1;
  sg_conns : conns_ready x.1.1;
  sg_listens : Forall (listens x.1.1) x.2;
  sg_posted : x.2 ≠ [];
  sg_inflight : Forall2 (in_flight x.1.1) x.1.2 (ss_inflight st);
  sg_queue : queue_rep Unlocked (send_req_q x.1.1) (flag_addr <$> ss_unfinished st);
  sg_requests : ps_requests x.1.1 = ss_requests st;
  sg_flags : Forall (λ req, flag_addr req ≠ NULL) (ss_unfinished st);
}.

Section laws.
Context {HMalloc : Malloc} {HVerbs : Verbs} (Hm : malloc_total) (Hreg : reg_total) (Hpost : post_total).
Context (D : Z) (t : table) (aq pq held : list Z).

Lemma listens_kept s s' (P : Z → Prop) a : others_kept s s' P → P a → listens s a → listens s' a.
Proof. intros [H1 _] Ha (qa & Hqa & H). exists qa. split; [by apply H1|done]. Qed.
Lemma in_flight_kept s s' (P : Z → Prop) q x : others_kept s s' P → P q → in_flight s q x → in_flight s' q x.
Proof.
  intros [H1 H2] Hq (qu & m & Hqu & Hc & Hf & Hmsg & H). exists qu, m.
  split_and!; [by apply H1|done|done|by apply H2|apply H..].
Qed.

(** The lists after a step that keeps what concerns them. *)
Lemma lists_kept s s' (P : Z → Prop) qs recvs l :
  others_kept s s' P → (∀ x, x ∈ recvs ++ qs → P x) → Forall (listens s) recvs → Forall2 (in_flight s) qs l →
  Forall (listens s') recvs ∧ Forall2 (in_flight s') qs l.
Proof.
  intros Hk HP Hr Hq. split.
  - rewrite Forall_forall in Hr |- *. intros a Ha. eapply listens_kept; [exact Hk|apply HP; set_solver|by apply Hr].
  - apply Forall2_same_length_lookup. pose proof (Forall2_length _ _ _ Hq) as Hlen. split; [done|].
    intros i q x Hqi Hxi. eapply in_flight_kept; [exact Hk|apply HP, elem_of_app; right; by eapply list_elem_of_lookup_2|].
    by eapply Forall2_lookup_lr.
Qed.

Lemma conns_ready_steady s s' P : steady s s' P → conns_ready s → conns_ready s'.
Proof. intros (Hf & _) Hr c cn. unfold fixed_user in Hf. injection Hf as -> _ _ _ _ _ _. apply Hr. Qed.
Lemma isend_ok_steady s s' P p : steady s s' P → isend_ok s p → isend_ok s' p.
Proof.
  intros (Hf & Hme & _) []. unfold fixed_user in Hf. injection Hf as H1 _ H3 _ _ H6 _.
  split; try done; [by rewrite H6, H1|by unfold comm_id_at; rewrite H3|by rewrite Hme].
Qed.

Lemma with_flag_inv v req rqs rqs' :
  with_flag v req rqs = Done rqs' → ∃ r, rqs !! req = Some r ∧ rqs' = <[req := r <| rq_flag := v |>]> rqs.
Proof. unfold with_flag. intros (r & Hr%load_Done & [= <-])%obind_Done_inv. by exists r. Qed.

Definition param_of (p : isend_args) : fdmi_post_param :=
  isend_param (is_buf p) (is_count p) (is_dtype p) (is_dest p) (is_tag p) (is_comm p) (is_request p).

(** The work request a send posts: the header names the send, and a small
    message carries the bytes of the buffer. *)
Definition send_posted (s : process) (p : isend_args) (w : wr) : Prop :=
  ∃ qp q sges ctl bs id, w = WSend qp q sges ctl bs ∧ comm_id_at s (is_comm p) = Done id ∧
    send_header s (param_of p) id ctl ∧ msg_opcode ctl = (if is_eager p then FDMI_EAGER else FDMI_RDMA_READ) ∧
    (is_eager p = true → ∃ total, total_send_size (is_dtype p) (is_count p) = Done total ∧
       read_bytes (ps_memory s) (is_buf p) (Z.to_nat total) = Done bs) ∧ (is_eager p = false → bs = []).

(** The work requests of an event: a receive is posted again for one that a
    message has taken. *)
Definition event_posts (s : process) (e : send_event) (ws : list wr) : Prop :=
  match e with
  | SIsend p => ∃ w, ws = [w] ∧ send_posted s p w
  | SSent _ => ws = []
  | SFin _ => ∃ qp q sges, ws = [WRecv qp q sges]
  end.

Lemma event_posts_steady s s' P e ws : steady s s' P → event_posts s' e ws → event_posts s e ws.
Proof.
  intros (Hf & Hme & _). unfold fixed_user in Hf. injection Hf as _ _ H3 H4 _ _ H7.
  destruct e as [p| |]; cbn; [|done..]. intros (w & -> & qp & q & sges & ctl & bs & id & -> & Hid & Hhd & Hop & Hpay).
  eexists. split; [done|]. exists qp, q, sges, ctl, bs, id. split; [done|]. unfold comm_id_at, send_header in *.
  by rewrite <- H3, <- H4, <- H7, <- Hme.
Qed.

(** The send of a message of either kind. *)
Lemma post_any s free hd p id c size :
  linked (rep := queue_rep) D Unlocked Unlocked aq pq s free hd (param_of p) id c size → isend_ok s p →
  ends (fdmi_post_send_msg_param s (param_of p)) (λ s', ∃ a w free',
    ps_posted s' = ps_posted s ++ [w] ∧ wr_id_of w = a ∧ proc_inv queue_rep s' D Unlocked Unlocked free' aq pq (a :: hd) ∧
    steady s s' (λ x, x ≠ a) ∧ in_flight s' a (is_eager p, is_request p) ∧ send_posted s p w ∧
    ps_requests s' = ps_requests s ∧ send_req_q s' = send_req_q s ∧ ps_pm s' = ps_pm s).
Proof using Hm Hreg Hpost.
  intros Hli [_ _ _ (total & Ht & Hsmall) _].
  assert (He : is_eager p = (total <=? FDMI_EAGER_BUFF_SIZE)) by (unfold is_eager; by rewrite Ht).
  pose proof Hli as [_ _ [Hc0 _] Hid _].
  revert He. destruct (Z.leb_spec total FDMI_EAGER_BUFF_SIZE) as [Hle|Hlt]; intros He.
  - destruct (Hsmall Hle) as (Hdc & bs & Hbs).
    c_last (send_eager_ok (rep := queue_rep) Hm Hreg Hpost D Unlocked Unlocked aq pq s free hd (param_of p) c id total size bs Hli Ht Hle Hdc Hbs)
      as s' (qp & q & sges & ctl & free' & Hpo & Hhd & Hop & Hinv & Hme & Hrq & Hmsg & (qu & Hqu & Hqc & Hqf) & Hk & sp & Hsp & Es).
    exists q, (WSend qp q sges ctl bs), free'. split; [exact Hpo|]. split; [reflexivity|]. split; [exact Hinv|].
    pose proof (pooled_fixed _ _ Hsp) as (Hf & _). pose proof Hhd as (Hty & _).
    split; [|split; [|split; [|split; [exact Hrq|rewrite Es; by destruct Hsp as (?&?&?&?&?&?&?& ->)]]]].
    + split; [|by split]. rewrite Es. apply fixed_part_user in Hf as [Hf _]. exact Hf.
    + exists qu, ctl. rewrite He, Hqc, Hqf. by split_and!.
    + exists qp, q, sges, ctl, bs, id. rewrite He. split_and!; [done..| |done]. by exists total.
  - c_last (send_large_ok Hm Hreg Hpost D aq pq s free hd (param_of p) id c size total Hli Ht Hlt) as s'
      (qp & q & sge & ctl & free' & qu & sp & [Hinv Hpl Hk Hqu _ Hqc Hqf Hmsg Hhd Hop _] & ->).
    exists q, (WSend qp q [sge] ctl []), free'. pose proof (pooled_fixed _ _ Hpl) as (Hf & Hme & Hrq & Hpo).
    split; [reflexivity|]. split; [reflexivity|]. split; [apply inv_posted, Hinv|].
    split; [|split; [|split; [|split; [exact Hrq|by destruct Hpl as (?&?&?&?&?&?&?& ->)]]]].
    + split; [apply fixed_part_user in Hf as [Hf _]; exact Hf|]. split; [exact Hme|exact Hk].
    + pose proof Hhd as (Hty & _). exists qu, ctl. rewrite He, Hqc, Hqf. by split_and!.
    + exists qp, q, [sge], ctl, [], id. rewrite He. by split_and!.
Qed.

Lemma steady_weaken s s' P : steady s s' P → steady s s' (λ _, False).
Proof. intros (H1 & H2 & _). split; [done|]. split; [done|]. split; by intros. Qed.

Lemma held_distinct s free a hd x : proc_inv queue_rep s D Unlocked Unlocked free aq pq (a :: hd) → x ∈ hd → x ≠ a.
Proof. intros Hinv Hx. eapply (held_not_new (rep := queue_rep) D); [exact Hinv|set_solver]. Qed.

(** What a step has done. *)
Definition advanced (x : sending_process) (e : send_event) (y : sending_process) (st' : send_state) : Prop :=
  sending D t aq pq held y st' ∧ steady x.1.1 y.1.1 (λ _, False) ∧
  ∃ ws, ps_posted y.1.1 = ps_posted x.1.1 ++ ws ∧ event_posts x.1.1 e ws.

Lemma isend_law x st p st' :
  sending D t aq pq held x st → isend_ok x.1.1 p → m_send_step st (SIsend p) = Done st' →
  ends (send_step D x (SIsend p)) (λ y, advanced x (SIsend p) y st').
Proof using Hm Hreg Hpost.
  destruct x as [[s qs] recvs], st as [unf infl rqs]. cbn [fst snd m_send_step].
  intros [[free Hinv] Hrt Hcr Hls Hne Hin Hq Hrqs Hfl] Hp. cbn [fst snd ss_unfinished ss_inflight ss_requests] in *.
  intros (rqs' & (r & Hr & ->)%with_flag_inv & [= <-])%obind_Done_inv.
  pose proof Hp as [(peer & c & Hpe & Hpc & Hc0 & Hcc) [id Hid] [size Hsz] _ Hf0].
  cbn [send_step]. apply ends_bind. subst rqs.
  apply (isend_start D s free aq pq (recvs ++ qs ++ held) _ _ _ _ _ _ (is_request p) id c size (flag_addr <$> unf) r); try done.
  { split; try done. by exists peer. }
  intros q Hq1 Hli. set (s0 := announced s q (is_request p) r) in *.
  eapply ends_mono; [apply (post_any s0 free (recvs ++ qs ++ held) p id c size Hli)|].
  { destruct Hp. by split. }
  cbv beta. intros s' (a & w & free' & Hpo & Hw & Hinv' & Hst & Hnew & Hsp & Hrq' & Hsr & Hpm). cbn [ends].
  assert (Ha : last_wr_id s' = a) by (unfold last_wr_id; by rewrite Hpo, last_snoc). rewrite Ha.
  assert (Hst0 : steady s s' (λ x, x ≠ a)) by exact Hst.
  destruct (lists_kept s s' (λ x, x ≠ a) qs recvs infl) as [Hls' Hin']; [apply Hst0| |done|done|].
  { intros x Hx. eapply held_distinct; [exact Hinv'|]. set_solver. }
  split; [|split; [by eapply steady_weaken|exists [w]; split; [exact Hpo|]; by exists w]].
  split; cbn [fst snd ss_unfinished ss_inflight ss_requests].
  - exists free'. eapply inv_perm; [|exact Hinv']. solve_Permutation.
  - unfold routes. rewrite Hpm. exact Hrt.
  - by eapply conns_ready_steady.
  - exact Hls'.
  - done.
  - apply Forall2_app; [exact Hin'|]. by constructor.
  - rewrite Hsr, fmap_app. exact Hq1.
  - by rewrite Hrq'.
  - apply Forall_app. split; [done|]. by constructor.
Qed.

(** The report of a send. *)
Lemma sent_law x st i st' :
  sending D t aq pq held x st → m_send_step st (SSent i) = Done st' →
  ends (send_step D x (SSent i)) (λ y, advanced x (SSent i) y st').
Proof using Hm Hreg Hpost.
  destruct x as [[s qs] recvs], st as [unf infl rqs]. cbn [fst snd m_send_step].
  intros [[free Hinv] Hrt Hcr Hls Hne Hin Hq Hrqs Hfl] Hst. cbn [fst snd ss_unfinished ss_inflight ss_requests] in *.
  destruct (infl !! i) as [[e req]|] eqn:Hi; [|done].
  destruct (Forall2_lookup_r _ _ _ _ _ Hin Hi) as (q & Hqi & qu & m & Hqu & Hqc & Hqf & Hmsg & Hty & Hop). cbn [fst snd] in *.
  cbn [send_step]. rewrite Hqi. apply ends_bind. subst rqs.
  assert (Hperm : recvs ++ qs ++ held ≡ₚ q :: recvs ++ delete i qs ++ held).
  { rewrite (delete_Permutation qs i q Hqi) at 1. solve_Permutation. }
  assert (Hinv0 : proc_inv queue_rep s D Unlocked Unlocked free aq pq (q :: recvs ++ delete i qs ++ held)) by by eapply inv_perm.
  assert (Hlists : ∀ s', others_kept s s' (λ x, x ≠ q) →
    Forall (listens s') recvs ∧ Forall2 (in_flight s') (delete i qs) (delete i infl)).
  { intros s' Hk. apply (lists_kept s s' _ _ _ _ Hk); [|done|by apply Forall2_delete].
    intros x Hx. eapply held_distinct; [exact Hinv0|]. set_solver. }
  destruct e.
  - apply obind_Done_inv in Hst as (rqs' & (r & Hr & ->)%with_flag_inv & [= <-]).
    eapply ends_mono; [eapply (poll_send_ok Hm D Unlocked Unlocked aq pq t s free _ q qu m (flag_addr <$> unf) req r); try done|].
    cbv beta. intros s' (Hrq & Hl & Hinv' & Hst & Hrt' & Hpo). cbn [ends]. destruct (Hlists s') as [Hls' Hin']; [apply Hst|].
    split; [|split; [by eapply steady_weaken|exists []; by rewrite app_nil_r]].
    split; cbn [fst snd ss_unfinished ss_inflight ss_requests]; try done.
    + by exists (free ++ [q]).
    + by eapply conns_ready_steady.
    + rewrite Hqf, remove_first_fmap in Hl by apply _. exact Hl.
    + rewrite Forall_forall in Hfl |- *. intros x Hx. apply Hfl. by eapply elem_of_remove_first.
  - injection Hst as <-.
    eapply ends_mono; [eapply (announcement_sent Hm D aq pq t s free _ q); [exact Hinv0|exact Hrt|by exists qu, m]|].
    cbv beta. intros s' (Hrq & Hsr & _ & _ & Hrt' & Hinv' & Hst & Hpo). cbn [ends]. destruct (Hlists s') as [Hls' Hin']; [apply Hst|].
    split; [|split; [by eapply steady_weaken|exists []; by rewrite app_nil_r]].
    split; cbn [fst snd ss_unfinished ss_inflight ss_requests]; try done.
    + by exists (free ++ [q]).
    + by eapply conns_ready_steady.
    + by rewrite Hsr.
Qed.

(** The arrival of a message that ends a transfer. *)
Lemma fin_law x st m st' :
  sending D t aq pq held x st → msg_type m = FDMI_COMM_FIN → m_send_step st (SFin m) = Done st' →
  ends (send_step D x (SFin m)) (λ y, advanced x (SFin m) y st').
Proof using Hm Hreg Hpost.
  destruct x as [[s qs] recvs], st as [unf infl rqs]. cbn [fst snd m_send_step].
  intros [[free Hinv] Hrt Hcr Hls Hne Hin Hq Hrqs Hfl] Hty Hst. cbn [fst snd ss_unfinished ss_inflight ss_requests] in *.
  destruct recvs as [|a recvs]; [done|]. apply Forall_cons in Hls as [Ha Hls]. subst rqs. cbn [send_step]. apply ends_bind.
  assert (Heff : ∃ rqs', fin_effect s (flag_addr <$> unf) rqs' ∧ st' = SendState (tail unf) infl rqs').
  { destruct unf as [|req unf]; [injection Hst as <-; by eexists|].
    apply obind_Done_inv in Hst as (rqs' & (r & Hr & ->)%with_flag_inv & [= <-]). eexists. split; [|done].
    apply Forall_cons in Hfl as [Hf0 _]. split; [done|]. by exists req, r. }
  destruct Heff as (rqs' & Heff & ->).
  eapply ends_mono; [apply (fin_arrives Hm Hreg Hpost D aq pq t s free (recvs ++ qs ++ held) a (flag_addr <$> unf) m rqs')|];
    [by split|done|done|].
  cbv beta. intros s' (free' & a' & Hrq & Hnew & Hst' & [Hinv' Hrt' Hcr' Hls' Hfl'] & qp & sges & Hpo). cbn [ends].
  assert (Ha' : last_wr_id s' = a') by (unfold last_wr_id; by rewrite Hpo, last_snoc). rewrite Ha'.
  destruct (lists_kept s s' (λ x, x ≠ a ∧ x ≠ a') qs recvs infl) as [Hls2 Hin2]; [apply Hst'| |done|done|].
  { intros x Hx. apply Hnew. set_solver. }
  split; [|split; [by eapply steady_weaken|eexists; split; [exact Hpo|]; by exists qp, a', sges]].
  split; cbn [fst snd ss_unfinished ss_inflight ss_requests]; try done.
  - exists free'. eapply inv_perm; [|exact Hinv']. solve_Permutation.
  - apply Forall_app. split; [done|]. by constructor.
  - by destruct recvs.
  - by rewrite fmap_tail.
  - by destruct unf; [|apply Forall_cons in Hfl as [_ Hfl]].
Qed.

Lemma send_event_ok_steady s s' P e : steady s s' P → send_event_ok s e → send_event_ok s' e.
Proof. destruct e; cbn; [apply isend_ok_steady|done..]. Qed.

Lemma send_step_law x st e st' :
  sending D t aq pq held x st → send_event_ok x.1.1 e → m_send_step st e = Done st' →
  ends (send_step D x e) (λ y, advanced x e y st').
Proof using Hm Hreg Hpost. destruct e; cbn [send_event_ok]; intros; [by eapply isend_law|by eapply sent_law|by eapply fin_law]. Qed.

(** The same for a run; its work requests are those of its events. *)
Lemma send_run_law x st es st' :
  sending D t aq pq held x st → Forall (send_event_ok x.1.1) es → m_send_run st es = Done st' →
  ends (send_run D x es) (λ y, sending D t aq pq held y st' ∧ steady x.1.1 y.1.1 (λ _, False) ∧
    ∃ wss, ps_posted y.1.1 = ps_posted x.1.1 ++ concat wss ∧ Forall2 (event_posts x.1.1) es wss).
Proof using Hm Hreg Hpost.
  revert x st. induction es as [|e es IH]; intros x st Hs Hok.
  - intros [= <-]. split; [done|]. split; [by split_and!|]. exists []. by rewrite app_nil_r.
  - intros (st1 & H1 & H)%obind_Done_inv. apply Forall_cons in Hok as [Hok1 Hok]. cbn [send_run]. apply ends_bind.
    eapply ends_mono; [by eapply send_step_law|]. intros y (Hs1 & Hst1 & ws & Hpo1 & Hws).
    eapply ends_mono; [apply (IH y st1 Hs1); [|done]|].
    + eapply Forall_impl; [exact Hok|]. intros e'. by eapply send_event_ok_steady.
    + cbv beta. intros z (Hs2 & Hst2 & wss & Hpo2 & Hwss). split; [done|]. split; [by eapply steady_trans|].
      exists (ws :: wss). split; [by rewrite Hpo2, Hpo1, <- (assoc_L (++))|]. constructor; [done|].
      eapply Forall2_impl; [exact Hwss|]. intros e' w'. by eapply event_posts_steady.
Qed.
End laws.

(** ** Large sends only *)

Definition sent_requests (es : list send_event) : list Z :=
  omap (λ e, match e with SIsend p => Some (is_request p) | _ => None end) es.
Definition fins (es : list send_event) : nat := length (omap (λ e, match e with SFin m => Some m | _ => None end) es).
Definition large_only (e : send_event) : Prop := match e with SIsend p => is_eager p = false | _ => True end.

(** A message that ends a transfer answers a send, and a report is of a send:
    [n] sends have not been answered and [k] not been reported. *)
Fixpoint sensible (n k : nat) (es : list send_event) : Prop :=
  match es with
  | [] => True
  | SIsend _ :: es => sensible (S n) (S k) es
  | SSent i :: es => (i < k)%nat ∧ sensible n (pred k) es
  | SFin _ :: es => match n with O => False | S n => sensible n k es end
  end.

(** The sends [dn] are finished, those of the state are not. *)
Record in_order (dn : list Z) (st : send_state) : Prop := {
  or_nodup : NoDup (dn ++ ss_unfinished st);
  or_large : Forall (λ x, x.1 = false) (ss_inflight st);
  or_done : Forall (λ req, ∃ r, ss_requests st !! req = Some r ∧ rq_flag r = 1) dn;
  or_open : Forall (λ req, ∃ r, ss_requests st !! req = Some r ∧ rq_flag r = 0) (ss_unfinished st);
}.

Lemma with_flag_ok v req rqs r : rqs !! req = Some r → with_flag v req rqs = Done (<[req := r <| rq_flag := v |>]> rqs).
Proof. intros Hr. unfold with_flag. by rewrite (proj2 (load_Done _ _ _) Hr). Qed.

(** The requests that are not stored to. *)
Lemma flags_kept (v : Z) (l : list Z) (rqs : gmap Z fdmi_request) (req : Z) (r0 : fdmi_request) :
  req ∉ l → Forall (λ x, ∃ r, rqs !! x = Some r ∧ rq_flag r = v) l →
  Forall (λ x, ∃ r, <[req := r0]> rqs !! x = Some r ∧ rq_flag r = v) l.
Proof.
  intros Hreq Hl. rewrite Forall_forall in Hl |- *. intros x Hx. destruct (Hl x Hx) as (r & Hr & Hv). exists r.
  by rewrite lookup_insert_ne by (by intros ->).
Qed.

Lemma in_order_call dn st p r :
  in_order dn st → is_eager p = false → is_request p ∉ dn ++ ss_unfinished st → ss_requests st !! is_request p = Some r →
  in_order dn (SendState (ss_unfinished st ++ [is_request p]) (ss_inflight st ++ [(is_eager p, is_request p)])
    (<[is_request p := r <| rq_flag := 0 |>]> (ss_requests st))).
Proof.
  intros [Hnd Hla Hdn Hop] Hl1 Hfresh Hr. pose proof Hfresh as [Hf1 Hf2]%not_elem_of_app.
  split; cbn [ss_unfinished ss_inflight ss_requests].
  - rewrite (assoc_L (++)). apply NoDup_app. split_and!; [done| |apply NoDup_singleton].
    by intros x Hx ->%list_elem_of_singleton.
  - apply Forall_app. split; [done|]. rewrite Hl1. by constructor.
  - by apply flags_kept.
  - apply Forall_app. split; [by apply flags_kept|]. constructor; [|done]. eexists. by rewrite lookup_insert_eq.
Qed.

Lemma in_order_fin dn req unf infl rqs r :
  in_order dn (SendState (req :: unf) infl rqs) → rqs !! req = Some r →
  in_order (dn ++ [req]) (SendState unf infl (<[req := r <| rq_flag := 1 |>]> rqs)).
Proof.
  intros [Hnd Hla Hdn Hop] Hr. cbn [ss_unfinished ss_inflight ss_requests] in *. apply Forall_cons in Hop as [_ Hop].
  assert (Hsplit : dn ++ req :: unf = (dn ++ [req]) ++ unf) by (by rewrite <- (assoc_L (++))).
  assert (req ∉ dn ∧ req ∉ unf) as [Hout1 Hout2].
  { apply NoDup_app in Hnd as (_ & Hd & Hnd0). apply NoDup_cons in Hnd0 as [? _]. split; [|done].
    intros Hx. apply (Hd _ Hx). by left. }
  split; cbn [ss_unfinished ss_inflight ss_requests]; [by rewrite <- Hsplit|done| |by apply flags_kept].
  apply Forall_app. split; [by apply flags_kept|]. constructor; [|done]. eexists. by rewrite lookup_insert_eq.
Qed.

Lemma large_sends_run dn st es :
  in_order dn st → Forall large_only es → NoDup (dn ++ ss_unfinished st ++ sent_requests es) →
  Forall (λ req, is_Some (ss_requests st !! req)) (sent_requests es) →
  sensible (length (ss_unfinished st)) (length (ss_inflight st)) es →
  ends (m_send_run st es) (λ st', ∃ dn', in_order dn' st' ∧
    dn' ++ ss_unfinished st' = dn ++ ss_unfinished st ++ sent_requests es ∧ length dn' = (length dn + fins es)%nat).
Proof.
  revert dn st. induction es as [|e es IH]; intros dn [unf infl rqs] Hor Hlg Hnd Hlive Hse; cbn [ss_unfinished ss_inflight ss_requests] in *.
  { exists dn. cbn. rewrite app_nil_r. split_and!; [done|done|]. unfold fins. cbn. lia. }
  apply Forall_cons in Hlg as [Hl1 Hlg]. destruct e as [p|i|m]; cbn [m_send_run m_send_step large_only] in *.
  - change (sent_requests (SIsend p :: es)) with (is_request p :: sent_requests es) in *.
    change (fins (SIsend p :: es)) with (fins es). apply Forall_cons in Hlive as [[r Hr] Hlive].
    rewrite (with_flag_ok _ _ _ r) by done. cbn [obind].
    assert (Hfresh : is_request p ∉ dn ++ unf).
    { rewrite (assoc_L (++)) in Hnd. apply NoDup_app in Hnd as (_ & Hd & _). intros Hx. apply (Hd _ Hx). by left. }
    eapply ends_mono; [apply (IH dn)|]; cbn [ss_unfinished ss_inflight ss_requests]; try done.
    + by apply (in_order_call dn (SendState unf infl rqs)).
    + by rewrite <- (assoc_L (++)).
    + eapply Forall_impl; [exact Hlive|]. cbn. intros x Hx. rewrite lookup_insert. case_decide; [by eexists|done].
    + rewrite !length_app. cbn. by rewrite !Nat.add_1_r.
    + cbv beta. intros st' (dn' & H1 & H2 & H3). exists dn'. split_and!; [done| |done]. by rewrite H2, <- (assoc_L (++)).
  - destruct Hse as [Hi Hse]. change (sent_requests (SSent i :: es)) with (sent_requests es) in *.
    change (fins (SSent i :: es)) with (fins es). destruct (lookup_lt_is_Some_2 infl i Hi) as [[e req] Hx]. rewrite Hx.
    destruct Hor as [H1 Hla H3 H4]. cbn [ss_unfinished ss_inflight ss_requests] in *.
    pose proof (Forall_lookup_1 _ _ _ _ Hla Hx) as He. cbn in He. subst e. cbn [obind].
    apply (IH dn (SendState unf (delete i infl) rqs)); cbn [ss_unfinished ss_inflight ss_requests]; try done.
    + split; try done. by apply Forall_delete.
    + rewrite length_delete by (by eexists). by rewrite Nat.sub_1_r.
  - change (sent_requests (SFin m :: es)) with (sent_requests es) in *. change (fins (SFin m :: es)) with (S (fins es)).
    destruct unf as [|req unf]; [done|]. cbn [length sensible] in Hse.
    pose proof (or_open _ _ Hor) as [(r & Hr & Hv) _]%Forall_cons. cbn [ss_requests] in Hr.
    rewrite (with_flag_ok _ _ _ r) by done. cbn [obind].
    eapply ends_mono; [apply (IH (dn ++ [req])); [by apply in_order_fin|done| | |done]|]; cbn [ss_unfinished ss_requests].
    + by rewrite <- (assoc_L (++)).
    + eapply Forall_impl; [exact Hlive|]. cbn. intros x Hx. rewrite lookup_insert. case_decide; [by eexists|done].
    + cbv beta. intros st' (dn' & H1 & H2 & H3). exists dn'. rewrite H2, H3, length_app, <- !(assoc_L (++)). cbn.
      split_and!; [done|done|lia].
Qed.

(** ** Reports only *)

(** The large send [req2] is unfinished; what is in flight is its announcement
    and the small send [req1]. *)
Record starved (req1 req2 : Z) (st : send_state) : Prop := {
  sv_unfinished : ss_unfinished st = [req2];
  sv_inflight : Forall (λ x, x = (true, req1) ∨ x = (false, req2)) (ss_inflight st);
  sv_live : is_Some (ss_requests st !! req1);
  sv_unset : ∃ r, ss_requests st !! req2 = Some r ∧ rq_flag r = 0;
}.

Lemma starved_report req1 req2 st i :
  starved req1 req2 st → req1 ≠ req2 → (i < length (ss_inflight st))%nat →
  ends (m_send_step st (SSent i)) (λ st', starved req1 req2 st' ∧ ss_inflight st' = delete i (ss_inflight st)).
Proof.
  destruct st as [unf infl rqs]. intros [Hunf Hin [r1 H1] (r2 & H2 & Hv)] Hne Hi. cbn in *. subst unf.
  destruct (lookup_lt_is_Some_2 infl i Hi) as [x Hx]. rewrite Hx.
  pose proof (Forall_delete _ _ i Hin) as Hin'. destruct (Forall_lookup_1 _ _ _ _ Hin Hx) as [-> | ->].
  - rewrite (with_flag_ok _ _ _ r1) by done. cbn. rewrite decide_False by done. split; [|done].
    split; cbn; [done|done| |].
    + rewrite lookup_insert_eq. by eexists.
    + exists r2. by rewrite lookup_insert_ne.
  - cbn. split; [|done]. split; cbn; [done|done|by eexists|by exists r2].
Qed.

Lemma starved_reports `{Malloc} `{Verbs} D t aq pq held req1 req2 ks :
  malloc_total → reg_total → post_total → req1 ≠ req2 →
  ∀ y st z, sending D t aq pq held y st → starved req1 req2 st → send_run D y (SSent <$> ks) = Done z →
  ∃ st', sending D t aq pq held z st' ∧ starved req1 req2 st'.
Proof.
  intros Hm Hreg Hpost Hne. induction ks as [|i ks IH]; intros y st z Hs Hst.
  - intros [= <-]. by exists st.
  - cbn [fmap list_fmap send_run]. intros (y1 & H1 & Hz)%obind_Done_inv.
    assert (Hi : (i < length (ss_inflight st))%nat).
    { rewrite <- (Forall2_length _ _ _ (sg_inflight _ _ _ _ _ _ _ Hs)). destruct y as [[s qs] recvs]. cbn in H1 |- *.
      destruct (qs !! i) eqn:E; [by eapply lookup_lt_Some|done]. }
    pose proof (starved_report req1 req2 st i Hst Hne Hi) as Hrep. apply ends_Done in Hrep as (st1 & E1 & Hst1 & _).
    pose proof (sent_law Hm Hreg Hpost D t aq pq held y st i st1 Hs E1) as Hl. rewrite H1 in Hl. destruct Hl as (Hs1 & _).
    by eapply IH.
Qed.

(** ** The theorems *)

(** C15: the sending side implements its machine.  For every sequence of calls
    of [fdmi_verbs_isend] with small and large messages, reports of the adapter
    and messages that end a transfer, in which the machine does not get stuck,
    the process does the same: the same flags are raised, the queue of unfinished
    sends holds the machine's in the same order, every send that is not reported
    has its query, the program's memory is what it was, and each event has posted
    its work requests: a send the header that names it with the bytes of a small
    message, a message that has arrived a receive. *)
Theorem sending_refines_machine `{Malloc} `{Verbs} D t aq pq held x st es st' :
  malloc_total → reg_total → post_total →
  sending D t aq pq held x st → Forall (send_event_ok x.1.1) es → m_send_run st es = Done st' →
  ends (send_run D x es) (λ y, sending D t aq pq held y st' ∧
    ps_requests y.1.1 = ss_requests st' ∧ ps_memory y.1.1 = ps_memory x.1.1 ∧ length y.1.2 = length (ss_inflight st') ∧
    ∃ wss, ps_posted y.1.1 = ps_posted x.1.1 ++ concat wss ∧ Forall2 (event_posts x.1.1) es wss).
Proof.
  intros Hm Hreg Hpost Hs Hok Hst. eapply ends_mono; [by eapply send_run_law|].
  cbv beta. intros y (Hy & (_ & Hme & _) & Hpo). split_and!; [done|apply Hy|done| |done]. eapply Forall2_length, Hy.
Qed.

(** C16: large sends finish in the order in which they were called.  In every
    sequence of large sends with requests of their own, reports of the adapter
    and messages that end a transfer, of which none comes before the send it
    answers: the process does not get stuck, and at its end the flags that are
    raised are those of the first sends, one for each such message. *)
Theorem large_sends_finish_in_order `{Malloc} `{Verbs} D t aq pq held s recvs rqs es :
  malloc_total → reg_total → post_total →
  sending D t aq pq held (s, [], recvs) (SendState [] [] rqs) → Forall (send_event_ok s) es → Forall large_only es →
  NoDup (sent_requests es) → Forall (λ req, is_Some (rqs !! req)) (sent_requests es) → sensible 0 0 es →
  ends (send_run D (s, [], recvs) es) (λ y,
    queue_rep Unlocked (send_req_q y.1.1) (flag_addr <$> drop (fins es) (sent_requests es)) ∧
    ∀ k req, sent_requests es !! k = Some req → ∃ r, ps_requests y.1.1 !! req = Some r ∧
      rq_flag r = if (k <? fins es)%nat then 1 else 0).
Proof.
  intros Hm Hreg Hpost Hs Hok Hlg Hnd Hlive Hse.
  pose proof (large_sends_run [] (SendState [] [] rqs) es) as Hrun.
  apply ends_Done in Hrun as (st' & Hrun & dn & [_ _ Hdn Hop] & Happ & Hlen); [|by split; constructor|done..].
  cbn [app ss_unfinished length Nat.add] in Happ, Hlen.
  eapply ends_mono; [eapply (send_run_law Hm Hreg Hpost D t aq pq held); [exact Hs|exact Hok|exact Hrun]|].
  cbv beta. intros y [Hy _]. rewrite <- Happ, <- Hlen. split.
  - rewrite drop_app_length. apply Hy.
  - intros k req Hk. rewrite (sg_requests _ _ _ _ _ _ _ Hy). apply lookup_app_Some in Hk as [Hk|[Hle Hk]].
    + rewrite (proj2 (Nat.ltb_lt _ _)) by (by eapply lookup_lt_Some). by apply (Forall_lookup_1 _ _ _ _ Hdn Hk).
    + rewrite (proj2 (Nat.ltb_ge _ _)) by done. by apply (Forall_lookup_1 _ _ _ _ Hop Hk).
Qed.

(** C35: a small send beside a large one takes its end.  A message that ends a
    transfer does not say which: when it arrives while the program's small send
    is not reported, the small send is finished by it, before its completion;
    the report then finds nothing to finish, and without a further message the
    request of the large send is never raised: [fdmi_verbs_wait] on it does not
    return, whatever the adapter reports. *)
Theorem small_send_takes_end `{Malloc} `{Verbs} D t aq pq held s recvs rqs p1 p2 r1 r2 m :
  malloc_total → reg_total → post_total →
  sending D t aq pq held (s, [], recvs) (SendState [] [] rqs) → isend_ok s p1 → isend_ok s p2 → msg_type m = FDMI_COMM_FIN →
  is_eager p1 = true → is_eager p2 = false → is_request p1 ≠ is_request p2 →
  rqs !! is_request p1 = Some r1 → rqs !! is_request p2 = Some r2 →
  ends (send_run D (s, [], recvs) [SIsend p1; SIsend p2; SFin m]) (λ y,
    (∃ r, ps_requests y.1.1 !! is_request p1 = Some r ∧ rq_flag r = 1) ∧ length y.1.2 = 2%nat ∧
    (∀ i, (i < 2)%nat → ends (send_run D y [SSent i; SSent 0%nat]) (λ z, z.1.2 = [] ∧
      queue_rep Unlocked (send_req_q z.1.1) [flag_addr (is_request p2)])) ∧
    ∀ obs fuel, (∀ n, ∃ ks z, send_run D y (SSent <$> ks) = Done z ∧ obs n = z.1.1) →
      fdmi_verbs_wait fuel obs (is_request p2) false = Diverge).
Proof.
  intros Hm Hreg Hpost Hs Hp1 Hp2 Hty He1 He2 Hne H1 H2.
  set (st := SendState [is_request p2] [(true, is_request p1); (false, is_request p2)]
    (<[is_request p1 := r1 <| rq_flag := 1 |>]> (<[is_request p2 := r2 <| rq_flag := 0 |>]> rqs))).
  assert (Hrun : m_send_run (SendState [] [] rqs) [SIsend p1; SIsend p2; SFin m] = Done st).
  { cbn [m_send_run m_send_step]. rewrite (with_flag_ok 0 _ _ r1) by done. cbn [obind m_send_step].
    rewrite (with_flag_ok 0 _ _ r2) by (by rewrite lookup_insert_ne). cbn [obind app m_send_step].
    rewrite (with_flag_ok 1 _ _ (r1 <| rq_flag := 0 |>)) by (by rewrite lookup_insert_ne, lookup_insert_eq by done).
    cbn [obind]. rewrite He1, He2. unfold st. do 2 f_equal.
    apply map_eq. intros x. rewrite !lookup_insert. by repeat case_decide. }
  assert (Hst : starved (is_request p1) (is_request p2) st).
  { split; [done|constructor; [by left|constructor; [by right|constructor]]|cbn; rewrite lookup_insert_eq; by eexists|].
    exists (r2 <| rq_flag := 0 |>). cbn. by rewrite lookup_insert_ne, lookup_insert_eq by done. }
  eapply ends_mono; [eapply (send_run_law Hm Hreg Hpost D t aq pq held); [exact Hs|rewrite !Forall_cons, Forall_nil; by split_and!|exact Hrun]|].
  cbv beta. intros y [Hy _]. split_and!.
  - rewrite (sg_requests _ _ _ _ _ _ _ Hy). cbn. rewrite lookup_insert_eq. by eexists.
  - apply (Forall2_length _ _ _ (sg_inflight _ _ _ _ _ _ _ Hy)).
  - intros i Hi. pose proof (starved_report _ _ st i Hst Hne Hi) as (sta & Ea & Hsta & Hla)%ends_Done.
    assert (Hlen : length (ss_inflight sta) = 1%nat) by (rewrite Hla; destruct i as [|[|i]]; cbn in *; lia).
    pose proof (starved_report _ _ sta 0 Hsta Hne ltac:(lia)) as (stb & Eb & Hstb & Hlb)%ends_Done.
    eapply ends_mono; [eapply (send_run_law Hm Hreg Hpost D t aq pq held y st [SSent i; SSent 0%nat] stb);
      [exact Hy|rewrite !Forall_cons, Forall_nil; by split_and!|cbn [m_send_run]; rewrite Ea; cbn [obind]; by rewrite Eb]|].
    cbv beta. intros z [Hz _]. pose proof (Forall2_length _ _ _ (sg_inflight _ _ _ _ _ _ _ Hz)) as Hlz.
    rewrite Hlb, length_delete, Hlen in Hlz by (apply lookup_lt_is_Some_2; lia). split; [by destruct (z.1.2)|].
    pose proof (sg_queue _ _ _ _ _ _ _ Hz) as Hq. by rewrite (sv_unfinished _ _ _ Hstb) in Hq.
  - intros obs fuel Hobs. unfold fdmi_verbs_wait. rewrite wait_loop_never; [done|]. intros n _.
    destruct (Hobs n) as (ks & z & Hz & ->).
    destruct (starved_reports D t aq pq held _ _ ks Hm Hreg Hpost Hne y st z Hy Hst Hz) as (stz & Hsz & [_ _ _ (r & Hr & Hv)]).
    exists r. rewrite (sg_requests _ _ _ _ _ _ _ Hsz). by split.
Qed.

Lemma read_bytes_count m a n bs : read_bytes m a n = Done bs → length bs = n.
Proof.
  revert a bs. induction n as [|n IH]; intros a bs; cbn; [by intros [= <-]|].
  intros (b & _ & (bs' & Hbs & [= <-])%obind_Done_inv)%obind_Done_inv. cbn. by rewrite (IH _ _ Hbs).
Qed.

(** The size of a message as the library computes it. *)
Lemma total_send_size_u32 d n :
  wf_dtype d → dt_count d = 1 → 0 < n → dt_blength d * n ≤ INT_MAX →
  total_send_size d n = Done (payload_size d n mod 2 ^ 32).
Proof.
  intros [? ? ? ?] Hc Hn Hb. unfold total_send_size, payload_size. rewrite Hc, Z.mul_1_r.
  assert (0 ≤ dt_blength d * n) by nia. assert (dt_blength d * n * dt_size d < 2 ^ 62) by (unfold INT_MAX in *; nia).
  rewrite c_int_bounds by lia. cbn [obind]. rewrite c_int_bounds by lia. cbn [obind].
  unfold INT_MAX in *. rewrite (u64_id (_ * n)) by lia. rewrite u64_id by nia. done.
Qed.

(** C36: how many bytes a small send sends.  The size of a message is kept in 32
    bits: a message whose size, so reduced, fits the eager buffer is sent as a
    small one with that many bytes.  These are all its bytes exactly when it has
    less than 4 GiB; the request is completed in any case. *)
Theorem small_send_bytes `{Malloc} `{Verbs} D t aq pq held s recvs rqs p r :
  malloc_total → reg_total → post_total →
  sending D t aq pq held (s, [], recvs) (SendState [] [] rqs) → isend_ok s p → is_eager p = true →
  wf_dtype (is_dtype p) → dt_count (is_dtype p) = 1 → 0 < is_count p → dt_blength (is_dtype p) * is_count p ≤ INT_MAX →
  rqs !! is_request p = Some r →
  ends (send_run D (s, [], recvs) [SIsend p; SSent 0%nat]) (λ y, ∃ qp q sges ctl bs,
    ps_posted y.1.1 = ps_posted s ++ [WSend qp q sges ctl bs] ∧ msg_opcode ctl = FDMI_EAGER ∧
    Z.of_nat (length bs) = payload_size (is_dtype p) (is_count p) mod 2 ^ 32 ∧ Z.of_nat (length bs) ≤ FDMI_EAGER_BUFF_SIZE ∧
    (Z.of_nat (length bs) = payload_size (is_dtype p) (is_count p) ↔ payload_size (is_dtype p) (is_count p) < 2 ^ 32) ∧
    ∃ r', ps_requests y.1.1 !! is_request p = Some r' ∧ rq_flag r' = 1).
Proof.
  intros Hm Hreg Hpost Hs Hp He Hd Hc Hn Hb Hr.
  pose proof (total_send_size_u32 _ _ Hd Hc Hn Hb) as Ht. set (size := payload_size _ _) in *.
  assert (Hrun : m_send_run (SendState [] [] rqs) [SIsend p; SSent 0%nat] =
    Done (SendState [] [] (<[is_request p := r <| rq_flag := 0 |> <| rq_flag := 1 |>]> rqs))).
  { cbn [m_send_run m_send_step]. rewrite (with_flag_ok 0 _ _ r) by done. cbn [obind app m_send_step lookup list_lookup].
    rewrite He, (with_flag_ok 1 _ _ (r <| rq_flag := 0 |>)) by (by rewrite lookup_insert_eq). cbn [obind remove_first].
    by rewrite decide_True, insert_insert_eq. }
  eapply ends_mono; [eapply (send_run_law Hm Hreg Hpost D t aq pq held); [exact Hs| |exact Hrun]|].
  { rewrite !Forall_cons, Forall_nil. by split_and!. }
  cbv beta. intros y (Hy & _ & wss & Hpo & Hwss). cbn [fst] in Hpo, Hwss.
  apply Forall2_cons_inv_l in Hwss as (ws1 & wss1 & (w & -> & Hw) & Hwss & ->).
  apply Forall2_cons_inv_l in Hwss as (ws2 & wss2 & Hws2 & Hwss & ->). cbn in Hws2. subst ws2. apply Forall2_nil_inv_l in Hwss as ->.
  destruct Hw as (qp & q & sges & ctl & bs & id & -> & _ & _ & Hop & Hpay & _). rewrite He in Hop.
  destruct (Hpay He) as (total & Ht' & Hbs). rewrite Ht in Ht'. injection Ht' as <-.
  exists qp, q, sges, ctl, bs. rewrite (read_bytes_count _ _ _ _ Hbs).
  assert (Hmod : 0 ≤ size mod 2 ^ 32 < 2 ^ 32) by (by apply Z.mod_pos_bound).
  assert (Hpos : 0 ≤ size) by (unfold size, payload_size; destruct Hd; rewrite Hc; nia).
  rewrite Z2Nat.id by lia. split_and!; [exact Hpo|done|done| | |].
  - unfold is_eager in He. rewrite Ht in He. by apply Z.leb_le.
  - split; [intros E; rewrite <- E; lia|]. intros Hlt. by apply Z.mod_small.
  - rewrite (sg_requests _ _ _ _ _ _ _ Hy). cbn. rewrite lookup_insert_eq. by eexists.
Qed.

(** ** An example *)

(** The sender of Rendezvous.v with no send called yet: a small and a large
    send from one buffer. *)
Definition sample_small_send : isend_args := Isend 2000 2 FMI_BYTE 1 7 16 4096.
Definition sample_large_send (req : Z) : isend_args := Isend 2000 large_count FMI_BYTE 1 7 16 req.
Definition sample_fin : fdmi_msg := sample_msg <| msg_type := FDMI_COMM_FIN |>.

Definition sample_requests : gmap Z fdmi_request := <[4096 := Request 0 0 0 0]> {[ 8192 := Request 0 0 0 0 ]}.

Lemma sample_sending m :
  sending 16 sample_table [] [] [] (sample_ready <| ps_memory := m |>, [], [512]) (SendState [] [] sample_requests).
Proof.
  split; cbn [fst snd ss_unfinished ss_inflight ss_requests].
  - exists []. apply inv_memory, sample_ready_inv.
  - apply routes_memory, sample_routes.
  - apply sample_conns_ready.
  - constructor; [by eexists|done].
  - done.
  - constructor.
  - apply empty_queue_rep.
  - done.
  - constructor.
Qed.

Lemma sample_large_isend_ok req : flag_addr req ≠ NULL → isend_ok sample_large_sender (sample_large_send req).
Proof.
  intros Hreq. split; cbn [is_buf is_count is_dtype is_dest is_tag is_comm is_request sample_large_send].
  - by eexists _, _.
  - by eexists.
  - by eexists.
  - exists large_count. split; [done|]. unfold large_count. lia.
  - done.
Qed.

Lemma sample_small_isend_ok : isend_ok sample_large_sender sample_small_send.
Proof.
  split; cbn [is_buf is_count is_dtype is_dest is_tag is_comm is_request sample_small_send].
  - by eexists _, _.
  - by eexists.
  - by eexists.
  - exists 2. split; [done|]. intros _. split; [done|].
    destruct (read_bytes_ok (ps_memory sample_large_sender) 2000 2) as (bs & Hbs & _); [|by exists bs].
    intros k Hk. exists 9. apply large_buffer_lookup. unfold large_count, FDMI_EAGER_BUFF_SIZE. lia.
  - done.
Qed.

Lemma sending_refines_machine_witness :
  ends (send_run 16 (sample_large_sender, [], [512])
    [SIsend sample_small_send; SIsend (sample_large_send 8192); SSent 1%nat; SSent 0%nat; SFin sample_fin]) (λ y,
    ps_requests y.1.1 !! 4096 = Some (Request 0 0 0 1) ∧ ps_requests y.1.1 !! 8192 = Some (Request 0 0 0 1) ∧ y.1.2 = []).
Proof.
  eapply ends_mono; [eapply (sending_refines_machine 16 sample_table [] [] [] _ _ _ _ Malloc_bump_total sample_reg_total
    (λ _ _, eq_refl) (sample_sending _)); [|vm_compute; reflexivity]|].
  - rewrite !Forall_cons, Forall_nil. split_and!; try done; [apply sample_small_isend_ok|by apply sample_large_isend_ok].
  - cbv beta. intros y (_ & Hrq & _ & Hl & _). rewrite Hrq. split_and!; [vm_compute; reflexivity..|by destruct (y.1.2)].
Defined.

Lemma large_sends_finish_in_order_witness :
  ends (send_run 16 (sample_large_sender, [], [512])
    [SIsend (sample_large_send 4096); SIsend (sample_large_send 8192); SSent 1%nat; SFin sample_fin]) (λ y,
    queue_rep Unlocked (send_req_q y.1.1) [flag_addr 8192] ∧ (∃ r, ps_requests y.1.1 !! 4096 = Some r ∧ rq_flag r = 1) ∧
    ∃ r, ps_requests y.1.1 !! 8192 = Some r ∧ rq_flag r = 0).
Proof.
  eapply ends_mono; [eapply (large_sends_finish_in_order 16 sample_table [] [] [] sample_large_sender [512] sample_requests _
    Malloc_bump_total sample_reg_total (λ _ _, eq_refl) (sample_sending _))|].
  - rewrite !Forall_cons, Forall_nil. split_and!; try done; by apply sample_large_isend_ok.
  - rewrite !Forall_cons, Forall_nil. by split_and!.
  - apply NoDup_cons. split; [by intros ?%list_elem_of_singleton|apply NoDup_singleton].
  - constructor; [by eexists|]. constructor; [by eexists|]. constructor.
  - cbn. lia.
  - cbv beta. intros y [Hq Hy]. split; [exact Hq|]. split; [exact (Hy 0%nat 4096 eq_refl)|exact (Hy 1%nat 8192 eq_refl)].
Defined.

Lemma small_send_takes_end_witness :
  ends (send_run 16 (sample_large_sender, [], [512])
    [SIsend sample_small_send; SIsend (sample_large_send 8192); SFin sample_fin]) (λ y,
    (∃ r, ps_requests y.1.1 !! 4096 = Some r ∧ rq_flag r = 1) ∧
    ends (send_run 16 y [SSent 1%nat; SSent 0%nat]) (λ z, queue_rep Unlocked (send_req_q z.1.1) [flag_addr 8192])).
Proof.
  eapply ends_mono; [eapply (small_send_takes_end 16 sample_table [] [] [] sample_large_sender [512] sample_requests
    sample_small_send (sample_large_send 8192) (Request 0 0 0 0) (Request 0 0 0 0) sample_fin
    Malloc_bump_total sample_reg_total (λ _ _, eq_refl) (sample_sending _) sample_small_isend_ok);
    [by apply sample_large_isend_ok|done..]|].
  cbv beta. intros y (H1 & _ & H2 & _). split; [exact H1|].
  eapply ends_mono; [apply (H2 1%nat); lia|]. cbv beta. by intros z [_ Hq].
Defined.

(** A message of 4 GiB and 20 bytes. *)
Definition sample_huge_send : isend_args := Isend 2000 (2 ^ 30 + 5) FMI_INT 1 7 16 4096.

Lemma sample_huge_isend_ok : isend_ok sample_large_sender sample_huge_send.
Proof.
  split; cbn [is_buf is_count is_dtype is_dest is_tag is_comm is_request sample_huge_send].
  - by eexists _, _.
  - by eexists.
  - by eexists.
  - exists 20. split; [done|]. intros _. split; [done|].
    destruct (read_bytes_ok (ps_memory sample_large_sender) 2000 20) as (bs & Hbs & _); [|by exists bs].
    intros k Hk. exists 9. apply large_buffer_lookup. unfold large_count, FDMI_EAGER_BUFF_SIZE. lia.
  - done.
Qed.

Lemma small_send_bytes_witness :
  ends (send_run 16 (sample_large_sender, [], [512]) [SIsend sample_huge_send; SSent 0%nat]) (λ y, ∃ bs : list Z,
    Z.of_nat (length bs) = 20 ∧ ∃ r', ps_requests y.1.1 !! 4096 = Some r' ∧ rq_flag r' = 1).
Proof.
  eapply ends_mono; [eapply (small_send_bytes 16 sample_table [] [] [] sample_large_sender [512] sample_requests sample_huge_send
    (Request 0 0 0 0) Malloc_bump_total sample_reg_total (λ _ _, eq_refl) (sample_sending _) sample_huge_isend_ok)|].
  - reflexivity.
  - unfold INT_MAX. by split; cbn.
  - reflexivity.
  - reflexivity.
  - discriminate.
  - reflexivity.
  - cbv beta. intros y (qp & q & sges & ctl & bs & _ & _ & Hl & _ & _ & Hr). exists bs. split; [exact Hl|exact Hr].
Defined.
