(* ===== verification/Recvs.v ===== *)
(** * src/src/fdmi.c: the receiving calls

    [fdmi_verbs_irecv] clears the flag of its request and posts the receive.
    Here is what this does to the machine of MsgSpec.v, and that clearing
    flags in between changes nothing of the order in which messages are given
    to receives. *)
From S2P Require Import Prelude Mem Queue Hashtable Datatype ProcMan State MrCache Query Matching Transfer Progress MsgSpec Engine Delivery Eager Api.

(** ** Cleared flags *)
Definition clear_flag (req : Z) (rqs : gmap Z fdmi_request) : gmap Z fdmi_request :=
  alter (λ r, r <| rq_flag := 0 |>) req rqs.

Fixpoint clear_flags (reqs : list Z) (rqs : gmap Z fdmi_request) : gmap Z fdmi_request :=
  match reqs with
  | [] => rqs
  | req :: reqs => clear_flags reqs (clear_flag req rqs)
  end.

Lemma clear_flag_insert req rqs r :
  rqs !! req = Some r → clear_flag req rqs = <[req := r <| rq_flag := 0 |>]> rqs.
Proof.
  intros Hr. apply map_eq. intros x. unfold clear_flag. rewrite lookup_alter, lookup_insert. by case_decide; simplify_map_eq.
Qed.

Lemma lookup_clear_flags reqs rqs req r :
  rqs !! req = Some r → clear_flags reqs rqs !! req = Some (if decide (req ∈ reqs) then r <| rq_flag := 0 |> else r).
Proof.
  revert rqs r. induction reqs as [|x reqs IH]; intros rqs r Hr; cbn [clear_flags].
  - by rewrite decide_False by apply not_elem_of_nil.
  - unfold clear_flag. rewrite (IH _ (if decide (x = req) then r <| rq_flag := 0 |> else r)).
    + f_equal. destruct (decide (x = req)) as [->|Hne].
      * rewrite (decide_True (P := req ∈ req :: reqs)) by left. by case_decide.
      * destruct (decide (req ∈ reqs)).
        -- by rewrite decide_True by (by right).
        -- rewrite decide_False; [done|]. by intros [->|?]%elem_of_cons.
    + rewrite lookup_alter. by destruct (decide (x = req)) as [->|]; rewrite Hr.
Qed.

Lemma clear_flags_insert reqs rqs req r :
  req ∉ reqs → clear_flags reqs (<[req := r]> rqs) = <[req := r]> (clear_flags reqs rqs).
Proof.
  revert rqs. induction reqs as [|x reqs IH]; intros rqs Hreq; [done|]. cbn [clear_flags].
  apply not_elem_of_cons in Hreq as [Hne Hreq]. unfold clear_flag. rewrite alter_insert_ne by congruence. by apply IH.
Qed.

(** ** The machine *)
Implicit Types (st : mstate).

Definition cleared (reqs : list Z) st : mstate := st <| m_requests := clear_flags reqs (m_requests st) |>.

Definition m_irecv st (r : recv) : outcome mstate :=
  _ <- load (m_requests st) (rc_request r) ;; m_receive (cleared [rc_request r] st) r.

Definition m_istep st (e : mevent) : outcome mstate :=
  match e with
  | EReceive r => m_irecv st r
  | e => m_step st e
  end.

Fixpoint m_irun st (es : list mevent) : outcome mstate :=
  match es with
  | [] => Done st
  | e :: es => st <- m_istep st e ;; m_irun st es
  end.

Lemma cleared_nil st : cleared [] st = st.
Proof. by destruct st. Qed.

(** A receive whose flag is not among the cleared ones. *)
Lemma m_take_cleared reqs st m r :
  msg_opcode m = FDMI_EAGER → rc_request r ∉ reqs → is_Some (m_requests st !! rc_request r) →
  m_take (cleared reqs st) m r = (st' <- m_take st m r ;; Done (cleared reqs st')).
Proof.
  intros Hop Hr [r0 Hr0]. rewrite !m_take_eager by done. destruct st as [u p rd mem rqs ep o]. unfold cleared. cbn in *.
  destruct (eager_copy _ _ _ _ _) as [mem'| | |]; cbn [obind]; try done.
  pose proof (lookup_clear_flags reqs _ _ _ Hr0) as Hc. rewrite decide_False in Hc by done.
  rewrite (proj2 (load_Done _ _ _) Hr0), (proj2 (load_Done _ _ _) Hc). cbn. by rewrite clear_flags_insert.
Qed.

Lemma same_class_cleared reqs st ms rs : same_class st ms rs → same_class (cleared reqs st) ms rs.
Proof. intros Hc. by eapply same_class_sub. Qed.

Lemma m_take_keeps st m r st' req :
  msg_opcode m = FDMI_EAGER → m_take st m r = Done st' → is_Some (m_requests st !! req) → is_Some (m_requests st' !! req).
Proof.
  intros Hop. rewrite m_take_eager by done. intros (mem & _ & (r0 & _ & [= <-])%obind_Done_inv)%obind_Done_inv Hreq. cbn.
  rewrite lookup_insert. by case_decide; [eexists|].
Qed.

Lemma m_takes_cleared reqs st m r l :
  msg_opcode m = FDMI_EAGER → rc_request r ∉ reqs → is_Some (m_requests st !! rc_request r) →
  m_takes (cleared reqs st) ((m, r) :: l) = (st1 <- m_take st m r ;; m_takes (cleared reqs st1) l).
Proof. intros. cbn [m_takes]. rewrite m_take_cleared by done. by rewrite obind_assoc. Qed.

(** What the class says of a run from a state. *)
Record class_runs st (mw ms : list fdmi_msg) (rw rs : list recv) : Prop := {
  cr_class : same_class st (mw ++ ms) (rw ++ rs);
  cr_one : mw = [] ∨ rw = [];
  cr_nodup : NoDup (rc_request <$> rw ++ rs);
  cr_live r : r ∈ rw ++ rs → is_Some (m_requests st !! rc_request r);
}.

Lemma class_runs_cleared reqs st mw ms rw rs : class_runs st mw ms rw rs → class_runs (cleared reqs st) mw ms rw rs.
Proof.
  intros [H1 H2 H3 H4]. split; try done; [by apply same_class_cleared|].
  intros r [r0 Hr0]%H4. eexists. by apply lookup_clear_flags.
Qed.

(** A pair of the class is taken; the others remain. *)
Lemma class_runs_take st m r mw ms rw rs st' mw' ms' rw' rs' :
  class_runs st mw ms rw rs → msg_opcode m = FDMI_EAGER → m_take st m r = Done st' →
  mw' ++ ms' ⊆ mw ++ ms → rw ++ rs = r :: rw' ++ rs' → mw' = [] ∨ rw' = [] → class_runs st' mw' ms' rw' rs'.
Proof.
  intros [H1 H2 H3 H4] Hop Et Hms Hrs Hone. pose proof (m_take_queues _ _ _ _ Et) as (Hu & Hp & He).
  rewrite Hrs in H1, H3, H4. apply NoDup_cons in H3 as [_ H3]. split; [|done|done|].
  - eapply (same_class_sub _ _ _ _ _ _ H1); [done..|set_solver].
  - intros x Hx. apply (m_take_keeps st m r st'); [done|done|]. apply H4. by right.
Qed.

(** The order of MsgSpec.v, with calls of [fdmi_verbs_irecv]: as if all flags had
    been cleared at the beginning. *)
Lemma ififo_run st mw rw ms rs es :
  class_runs st mw ms rw rs → interleaves EArrive EReceive ms rs es →
  m_irun (waiting st mw rw) es =
  (st' <- m_takes (cleared (rc_request <$> rs) st) (zip (mw ++ ms) (rw ++ rs)) ;;
   Done (waiting (m_outputs st' (length ms))
           (drop (length (rw ++ rs)) (mw ++ ms)) (drop (length (mw ++ ms)) (rw ++ rs)))).
Proof.
  intros Hcr Hi. revert st mw rw Hcr.
  induction Hi as [|m ms rs es Hi IH|r ms rs es Hi IH]; intros st mw rw Hcr; pose proof Hcr as [Hc Hw Hnd Hlive].
  - rewrite !app_nil_r in *. cbn. rewrite cleared_nil.
    destruct Hw as [->| ->]; [destruct rw|destruct mw]; cbn; by rewrite m_outputs_0.
  - cbn [m_irun m_istep m_step]. destruct rw as [|r rw].
    + rewrite m_arrive_waits by (eapply (same_class_sub _ _ _ _ _ _ Hc); [done..|set_solver|set_solver]). cbn [obind].
      rewrite IH by (split; rewrite <- ?app_assoc; [by eapply (same_class_sub _ _ _ _ _ _ Hc)|by right|done|done]).
      rewrite <- !app_assoc. cbn [app].
      change (cleared (rc_request <$> rs) (m_outputs st 1)) with (m_outputs (cleared (rc_request <$> rs) st) 1).
      rewrite m_takes_outputs by (by eapply zip_eager). rewrite obind_assoc.
      destruct (m_takes (cleared _ st) _); cbn [obind]; [|done..]. by rewrite m_outputs_S.
    + destruct Hw as [->|]; [|done]. cbn [app fmap list_fmap] in Hnd. apply NoDup_cons in Hnd as [Hnew _].
      rewrite m_arrive_takes by (eapply (same_class_sub _ _ _ _ _ _ Hc); [done..|set_solver|set_solver]).
      assert (Hop : msg_opcode m = FDMI_EAGER) by (apply (sc_msg _ _ _ Hc); by left). cbn [app zip zip_with length drop].
      rewrite m_takes_cleared; [|done|intros Hx; apply Hnew; rewrite fmap_app; set_solver|apply Hlive; by left].
      rewrite !obind_assoc. destruct (m_take st m r) as [st1| | |] eqn:Et; cbn [obind]; [|done..].
      assert (Hcr1 : class_runs st1 [] ms rw rs) by (eapply class_runs_take; [exact Hcr|done|exact Et|set_solver|done|by left]).
      rewrite IH by (destruct Hcr1 as [K1 K2 K3 K4]; split; [by eapply (same_class_sub st1)|done|done|done]).
      cbn [app]. change (cleared (rc_request <$> rs) (m_outputs st1 1)) with (m_outputs (cleared (rc_request <$> rs) st1) 1).
      rewrite m_takes_outputs by (eapply zip_eager, (cr_class _ _ _ _ _ Hcr1)).
      rewrite obind_assoc. destruct (m_takes (cleared _ st1) _); cbn [obind]; [|done..]. by rewrite m_outputs_S.
  - cbn [m_irun m_istep]. unfold m_irecv. destruct (Hlive r) as [r0 Hr0]; [set_solver|].
    change (m_requests (waiting st mw rw)) with (m_requests st). rewrite (proj2 (load_Done _ _ _) Hr0). cbn [obind].
    change (cleared [rc_request r] (waiting st mw rw)) with (waiting (cleared [rc_request r] st) mw rw).
    change (cleared (rc_request <$> r :: rs) st) with (cleared (rc_request <$> rs) (cleared [rc_request r] st)).
    pose proof (class_runs_cleared [rc_request r] _ _ _ _ _ Hcr) as Hcr0. clear Hc Hlive.
    set (st0 := cleared [rc_request r] st) in *. pose proof Hcr0 as [Hc _ _ Hlive]. destruct mw as [|m mw].
    + rewrite m_receive_waits by (eapply (same_class_sub _ _ _ _ _ _ Hc); [done..|set_solver|set_solver]). cbn [obind].
      rewrite IH by (split; rewrite <- ?app_assoc; [exact Hc|by left|exact Hnd|exact Hlive]). by rewrite <- !app_assoc.
    + destruct Hw as [?| ->]; [done|]. cbn [app fmap list_fmap] in Hnd. apply NoDup_cons in Hnd as [Hnew _].
      rewrite m_receive_takes by (eapply (same_class_sub _ _ _ _ _ _ Hc); [done..|set_solver|set_solver]).
      assert (Hop : msg_opcode m = FDMI_EAGER) by (apply (sc_msg _ _ _ Hc); by left). cbn [app zip zip_with length drop].
      rewrite m_takes_cleared by (done || by apply Hlive; left).
      rewrite !obind_assoc. destruct (m_take st0 m r) as [st1| | |] eqn:Et; cbn [obind]; [|done..].
      rewrite IH; [done|]. eapply class_runs_take; [exact Hcr0|done|exact Et|set_solver|done|by right].
Qed.

(** ** The process *)

(** The arguments of a call of [fdmi_verbs_irecv], and the parameters it
    builds from them. *)
Record irecv_args := Irecv {
  ir_buf : Z;
  ir_count : Z;
  ir_dtype : fdmi_datatype;
  ir_source : Z;
  ir_tag : Z;
  ir_comm : Z;
  ir_request : Z;
}.

Definition prank_of (s : process) (v : irecv_args) : Z :=
  match fdmi_comm_get_prank (pm_store (ps_pm s)) (ir_comm v) (ir_source v) with Done r => r | _ => FMI_ANY_SOURCE end.

Section calls.
Context {HMalloc : Malloc} {HVerbs : Verbs} (D : Z).

Definition irecv_param (s : process) (v : irecv_args) : fdmi_post_param :=
  PostParam (prank_of s v) (ir_tag v) (ir_buf v) (ir_count v) (ir_dtype v) (ir_comm v)
    (ir_request v + offsetof_request_flag) (ir_request v) garbage_op.

(** The rank is that of a communicator and of a peer, or the wildcard. *)
Record irecv_ok (s : process) (v : irecv_args) : Prop := {
  ic_rank : ∃ r, fdmi_comm_get_prank (pm_store (ps_pm s)) (ir_comm v) (ir_source v) = Done r ∧
    (r = FMI_ANY_SOURCE ∨ ∃ peer, aget (ps_peers s) r = Done peer);
  ic_param : ∃ id, param_ok s (irecv_param s v) id;
}.

Inductive recv_event :=
| RArrive (m : fdmi_msg)
| RIrecv (v : irecv_args).

(** As [user_step] of Delivery.v, with the call itself. *)
Definition recv_step (x : process * list (Z * Z)) (e : recv_event) : outcome (process * list (Z * Z)) :=
  match e with
  | RArrive m => user_step D x (UArrive m)
  | RIrecv v =>
      let '(s, rq) := x in
      let! (_, s) := fdmi_verbs_irecv s (ir_buf v) (ir_count v) (ir_dtype v) (ir_source v) (ir_tag v) (ir_comm v) (ir_request v) in
      Done (s, rq)
  end.

Fixpoint recv_run (x : process * list (Z * Z)) (es : list recv_event) : outcome (process * list (Z * Z)) :=
  match es with
  | [] => Done x
  | e :: es => x <- recv_step x e ;; recv_run x es
  end.

Definition recv_event_ok (s : process) (e : recv_event) : Prop :=
  match e with
  | RArrive m => msg_type m = FDMI_COMM_INIT
  | RIrecv v => irecv_ok s v
  end.

Definition recv_machine (t : table) (s : process) (c epoch : Z) (e : recv_event) : mevent :=
  match e with
  | RArrive m => EArrive (msg_from t s c m)
  | RIrecv v => EReceive (recv_from s epoch (irecv_param s v))
  end.

Lemma irecv_param_user s s' v : fixed_user s' = fixed_user s → irecv_param s' v = irecv_param s v.
Proof. intros Hf. unfold fixed_user in Hf. injection Hf as _ _ H3 _ _ _ _. unfold irecv_param, prank_of. by rewrite H3. Qed.

Lemma recv_event_ok_user s s' e : fixed_user s' = fixed_user s → recv_event_ok s e → recv_event_ok s' e.
Proof.
  intros Hf. destruct e as [m|v]; [done|]. intros [Hr [id Hp]]. split.
  - unfold fixed_user in Hf. injection Hf as _ _ H3 _ _ H6 _. by rewrite H3, H6.
  - exists id. rewrite (irecv_param_user s s') by done. by eapply param_ok_user.
Qed.

Lemma recv_machine_user t s s' c epoch e :
  fixed_user s' = fixed_user s → recv_machine t s' c epoch e = recv_machine t s c epoch e.
Proof.
  intros Hf. destruct e as [m|v]; cbn.
  - unfold msg_from. by rewrite (rank_of_fixed t s s').
  - rewrite (irecv_param_user s s') by done. unfold recv_from, comm_id_at. unfold fixed_user in Hf. by injection Hf as _ _ -> _ _ _ _.
Qed.

Context (t : table) (c : Z).

(** A request is not part of what makes a process ready. *)
Lemma ready_requests s rq st rqs :
  ready D t c s rq st → ready D t c (s <| ps_requests := rqs |>) rq (st <| m_requests := rqs |>).
Proof.
  intros [? ? ? (free & aq & pq & reads & lost & He) ? ? ?]. split; try done.
  exists free, aq, pq, reads, lost. split; try apply He; [by apply inv_requests, He|done].
Qed.

Lemma recv_step_ok s rq st e st' :
  ready D t c s rq st → recv_event_ok s e → m_istep st (recv_machine t s c (m_epoch st) e) = Done st' →
  ends (recv_step (s, rq) e) (λ r, ready D t c r.1 r.2 st' ∧ fixed_user r.1 = fixed_user s).
Proof.
  intros Hr Hok Hst. destruct e as [m|v]; [by apply (user_step_ok D t c s rq st (UArrive m) st')|].
  cbn [recv_step recv_machine m_istep] in *. unfold m_irecv in Hst. apply obind_Done_inv in Hst as (r0 & Hr0%load_Done & Hst).
  cbn [rc_request recv_from recv_of_param pp_request irecv_param] in Hr0, Hst.
  destruct Hok as [(r & Hrk & Hpeer) [id Hp]].
  assert (Hrank : prank_of s v = r) by (unfold prank_of; by rewrite Hrk).
  pose proof (rd_implements _ _ _ _ _ _ Hr) as (?&?&?&?&?& He). rewrite <- (en_requests He) in Hr0.
  unfold fdmi_verbs_irecv. rewrite Hrk. cbn [obind].
  assert (E : ensure_connected s r = Done s).
  { destruct Hpeer as [-> | [peer Hpe]]; [done|by apply (ensure_connected_ok s r peer)]. }
  rewrite E. cbn [obind pp_request_flag]. rewrite (set_flag_of _ _ (ir_request v) r0) by (by split). cbn [obind].
  set (s1 := s <| ps_requests := _ |>).
  assert (Hr1 : ready D t c s1 rq (cleared [ir_request v] st)).
  { unfold cleared. cbn [clear_flags]. rewrite <- (en_requests He), (clear_flag_insert _ _ r0) by done. by apply ready_requests. }
  pose proof (user_step_ok D t c s1 rq _ (UReceive (irecv_param s v)) st' Hr1) as Hu.
  assert (Epp : PostParam r (ir_tag v) (ir_buf v) (ir_count v) (ir_dtype v) (ir_comm v) (ir_request v + offsetof_request_flag)
    (ir_request v) garbage_op = irecv_param s v) by (unfold irecv_param; by rewrite Hrank).
  rewrite Epp, !obind_assoc. cbn [user_step] in Hu. rewrite ends_bind in Hu |- *.
  eapply ends_mono; [apply Hu|done].
  - exists id. by apply (param_ok_user s).
  - exact Hst.
Qed.

Lemma m_istep_epoch st e st' : (∀ i, e ≠ EReadDone i) → m_istep st e = Done st' → m_epoch st' = m_epoch st.
Proof.
  destruct e as [m|r|i]; intros Hne H; cbn in H; [by eapply m_arrive_epoch| |by destruct (Hne i)].
  unfold m_irecv in H. apply obind_Done_inv in H as (? & _ & H). by apply m_receive_epoch in H.
Qed.

(** The calls and the arrivals implement the machine. *)
Lemma recv_run_ok s rq st es st' :
  ready D t c s rq st → Forall (recv_event_ok s) es →
  m_irun st (map (recv_machine t s c (m_epoch st)) es) = Done st' →
  ends (recv_run (s, rq) es) (λ r, ready D t c r.1 r.2 st' ∧ fixed_user r.1 = fixed_user s).
Proof.
  revert s rq st. induction es as [|e es IH]; intros s rq st Hr Hok; cbn; [by intros [= <-]|].
  intros (st1 & H1 & H)%obind_Done_inv. apply Forall_cons in Hok as [Hok1 Hok].
  assert (Hep : m_epoch st1 = m_epoch st) by (eapply m_istep_epoch; [|exact H1]; intros i; by destruct e).
  apply ends_bind. eapply ends_mono; [by eapply recv_step_ok|]. intros [s1 rq1] [Hr1 Hf1]. cbn [fst snd] in *.
  eapply ends_mono; [apply (IH s1 rq1 st1 Hr1)|].
  - eapply Forall_impl; [exact Hok|]. intros. by apply (recv_event_ok_user s).
  - rewrite Hep. erewrite map_ext; [exact H|]. intros. by apply recv_machine_user.
  - intros [s2 rq2] [Hr2 Hf2]. cbn [fst snd] in *. split; [done|congruence].
Qed.
End calls.
