(* ===== verification/Stream.v ===== *)
(** * src/src/fdmi.c: a stream of messages between two processes

    The sending side of Sends.v and the receiving side of Recvs.v side by
    side: every interleaving of the sender's program and adapter, of the
    network and of the receiver's program. *)
From S2P Require Import Prelude Mem Queue Hashtable Datatype ProcMan State MrCache Query Matching Transfer Progress MsgSpec Engine Delivery Eager Api Rendezvous Sends Recvs.

(** ** The two processes *)

(** What the sender has given to the network, in order. *)
Definition sends_of (l : list wr) : list (fdmi_msg * list Z) :=
  omap (λ w, match w with WSend _ _ _ ctl bs => Some (ctl, bs) | _ => None end) l.

(** The sender's program calls [fdmi_verbs_isend]; its adapter reports a send;
    the receiver's program calls [fdmi_verbs_irecv]; the oldest message under way
    arrives, with [rest] behind its payload. *)
Inductive stream_event :=
| YSend (p : isend_args)
| YReport (i : nat)
| YReceive (v : irecv_args)
| YDeliver (rest : list Z).

(** The third component counts the messages that have arrived. *)
Record system := System {
  y_sender : sending_process;
  y_receiver : process * list (Z * Z);
  y_arrived : nat;
}.

Section system.
Context {HMalloc : Malloc} {HVerbs : Verbs} (D1 D2 : Z).

Definition stream_step (y : system) (e : stream_event) : outcome system :=
  let '(System x r k) := y in
  match e with
  | YSend p => x <- send_step D1 x (SIsend p) ;; Done (System x r k)
  | YReport i => x <- send_step D1 x (SSent i) ;; Done (System x r k)
  | YReceive v => r <- recv_step D2 r (RIrecv v) ;; Done (System x r k)
  | YDeliver rest =>
      match sends_of (ps_posted x.1.1) !! k with
      | Some (ctl, bs) => r <- recv_step D2 r (RArrive (on_wire ctl bs rest)) ;; Done (System x r (S k))
      | None => Diverge
      end
  end.

Fixpoint stream_run (y : system) (es : list stream_event) : outcome system :=
  match es with
  | [] => Done y
  | e :: es => y <- stream_step y e ;; stream_run y es
  end.
End system.

(** ** The parts of a run *)
Definition sender_events (es : list stream_event) : list send_event :=
  omap (λ e, match e with YSend p => Some (SIsend p) | YReport i => Some (SSent i) | _ => None end) es.
Definition sent_args (es : list stream_event) : list isend_args :=
  omap (λ e, match e with YSend p => Some p | _ => None end) es.
Definition received (es : list stream_event) : list irecv_args :=
  omap (λ e, match e with YReceive v => Some v | _ => None end) es.
Definition delivered (es : list stream_event) : nat :=
  length (omap (λ e, match e with YDeliver rest => Some rest | _ => None end) es).

(** The messages that arrive, when [l] is under way or will be. *)
Fixpoint arrivals (l : list (fdmi_msg * list Z)) (es : list stream_event) : list fdmi_msg :=
  match es, l with
  | YDeliver rest :: es, (ctl, bs) :: l => on_wire ctl bs rest :: arrivals l es
  | _ :: es, _ => arrivals l es
  | [], _ => []
  end.
Fixpoint receiver_events (l : list (fdmi_msg * list Z)) (es : list stream_event) : list recv_event :=
  match es, l with
  | YDeliver rest :: es, (ctl, bs) :: l => RArrive (on_wire ctl bs rest) :: receiver_events l es
  | YReceive v :: es, _ => RIrecv v :: receiver_events l es
  | _ :: es, _ => receiver_events l es
  | [], _ => []
  end.

(** A message arrives after it was sent, and a report is of a send: [n] messages
    are under way and [k] sends not reported. *)
Fixpoint possible (n k : nat) (es : list stream_event) : Prop :=
  match es with
  | [] => True
  | YSend _ :: es => possible (S n) (S k) es
  | YReport i :: es => (i < k)%nat ∧ possible n (pred k) es
  | YReceive _ :: es => possible n k es
  | YDeliver _ :: es => match n with O => False | S n => possible n k es end
  end.

Lemma receiver_events_interleave l es :
  interleaves RArrive RIrecv (arrivals l es) (received es) (receiver_events l es).
Proof.
  revert l. induction es as [|[p|i|v|rest] es IH]; intros l; cbn.
  - constructor.
  - apply IH.
  - apply IH.
  - change (received (YReceive v :: es)) with (v :: received es). constructor. apply IH.
  - change (received (YDeliver rest :: es)) with (received es). destruct l as [|[ctl bs] l]; [apply IH|].
    constructor. apply IH.
Qed.

Lemma interleaves_Forall {A B C} (f : A → C) (g : B → C) (P : C → Prop) la lb lc :
  interleaves f g la lb lc → (∀ a, a ∈ la → P (f a)) → (∀ b, b ∈ lb → P (g b)) → Forall P lc.
Proof.
  induction 1 as [|a la lb lc _ IH|b la lb lc _ IH]; intros Ha Hb; [done|..].
  - constructor; [apply Ha; by left|]. apply IH; [|done]. intros x Hx. apply Ha. by right.
  - constructor; [apply Hb; by left|]. apply IH; [done|]. intros x Hx. apply Hb. by right.
Qed.

(** The sends a run of the sender posts. *)
Lemma sends_of_app l1 l2 : sends_of (l1 ++ l2) = sends_of l1 ++ sends_of l2.
Proof. apply omap_app. Qed.

Definition send_of (s : process) `{Verbs} (p : isend_args) (x : fdmi_msg * list Z) : Prop :=
  ∃ qp q sges, send_posted s p (WSend qp q sges x.1 x.2).

Lemma posted_sends `{Verbs} s es wss :
  Forall2 (event_posts s) (sender_events es) wss → Forall2 (send_of s) (sent_args es) (sends_of (concat wss)).
Proof.
  revert wss. induction es as [|e es IH]; intros wss; [by intros ->%Forall2_nil_inv_l|].
  destruct e as [p|i|v|rest].
  - change (sender_events (YSend p :: es)) with (SIsend p :: sender_events es).
    intros (ws & wss' & (w & -> & Hw) & Hes & ->)%Forall2_cons_inv_l.
    pose proof Hw as (qp & q & sges & ctl & bs & id & -> & _).
    change (sent_args (YSend p :: es)) with (p :: sent_args es). cbn. constructor; [by exists qp, q, sges|by apply IH].
  - change (sender_events (YReport i :: es)) with (SSent i :: sender_events es).
    intros (ws & wss' & Hw & Hes & ->)%Forall2_cons_inv_l. cbn in Hw. subst ws. exact (IH _ Hes).
  - apply IH.
  - apply IH.
Qed.

(** ** A run is a run of each side *)
Section split.
Context {HMalloc : Malloc} {HVerbs : Verbs} (Hm : malloc_total) (Hreg : reg_total) (Hpost : post_total).
Context (D1 D2 : Z) (t : table) (aq pq held : list Z).

Lemma sender_step_splits x e es x' :
  send_run D1 x (e :: es) = Done x' → ∃ x1, send_step D1 x e = Done x1 ∧ send_run D1 x1 es = Done x'.
Proof. cbn. intros (x1 & H1 & H2)%obind_Done_inv. by exists x1. Qed.

(** What is under way is a prefix of what the sender sends in the whole run. *)
Lemma sends_grow x st es st' x' :
  sending D1 t aq pq held x st → Forall (send_event_ok x.1.1) (sender_events es) →
  m_send_run st (sender_events es) = Done st' → send_run D1 x (sender_events es) = Done x' →
  ∃ l, sends_of (ps_posted x'.1.1) = sends_of (ps_posted x.1.1) ++ l ∧ Forall2 (send_of x.1.1) (sent_args es) l.
Proof using Hm Hreg Hpost.
  intros Hs Hok Hst Hx. pose proof (send_run_law Hm Hreg Hpost D1 t aq pq held x st _ st' Hs Hok Hst) as Hl.
  rewrite Hx in Hl. destruct Hl as (_ & _ & wss & Hpo & Hws). exists (sends_of (concat wss)).
  split; [by rewrite Hpo, sends_of_app|by apply posted_sends].
Qed.

Lemma stream_splits x st r k es st' x' r' j :
  sending D1 t aq pq held x st → Forall (send_event_ok x.1.1) (sender_events es) →
  m_send_run st (sender_events es) = Done st' → send_run D1 x (sender_events es) = Done x' →
  length (sends_of (ps_posted x.1.1)) = (k + j)%nat → possible j (length (ss_inflight st)) es →
  recv_run D2 r (receiver_events (drop k (sends_of (ps_posted x'.1.1))) es) = Done r' →
  stream_run D1 D2 (System x r k) es = Done (System x' r' (k + delivered es)).
Proof using Hm Hreg Hpost.
  revert x st r k j. induction es as [|e es IH]; intros x st r k j Hs Hok Hst Hx Hlen Hpos Hr.
  - injection Hx as ->. injection Hr as ->. cbn. by rewrite Nat.add_0_r.
  - destruct (sends_grow x st (e :: es) st' x' Hs Hok Hst Hx) as (l & Hgrow & _).
    assert (Hstep : ∀ e', sender_events (e :: es) = e' :: sender_events es →
      ∃ x1 st1 ws, send_step D1 x e' = Done x1 ∧ send_run D1 x1 (sender_events es) = Done x' ∧ m_send_step st e' = Done st1 ∧
        sending D1 t aq pq held x1 st1 ∧ Forall (send_event_ok x1.1.1) (sender_events es) ∧
        m_send_run st1 (sender_events es) = Done st' ∧ ps_posted x1.1.1 = ps_posted x.1.1 ++ ws ∧ event_posts x.1.1 e' ws).
    { intros e' E. rewrite E in *. apply sender_step_splits in Hx as (x1 & Hx1 & Hx). cbn in Hst.
      apply obind_Done_inv in Hst as (st1 & Hst1 & Hst). apply Forall_cons in Hok as [Hok1 Hok].
      pose proof (send_step_law Hm Hreg Hpost D1 t aq pq held x st e' st1 Hs Hok1 Hst1) as Hl. rewrite Hx1 in Hl.
      destruct Hl as (Hs1 & Hst0 & ws & Hpo & Hws). exists x1, st1, ws. split_and!; try done.
      eapply Forall_impl; [exact Hok|]. intros e''. by eapply send_event_ok_steady. }
    destruct e as [p|i|v|rest]; cbn [stream_run stream_step possible] in *.
    + destruct (Hstep (SIsend p) eq_refl) as (x1 & st1 & ws & -> & Hx1 & Hst1 & Hs1 & Hok1 & Hrun1 & Hpo & w & -> & qp & q & sges & ctl & bs & id & -> & _).
      cbn [obind]. apply (IH x1 st1 r k (S j)); try done.
      * rewrite Hpo, sends_of_app, length_app. cbn. lia.
      * replace (length (ss_inflight st1)) with (S (length (ss_inflight st))); [done|].
        destruct st. cbn in Hst1. apply obind_Done_inv in Hst1 as (? & _ & [= <-]). cbn. rewrite length_app. cbn. lia.
    + destruct (Hstep (SSent i) eq_refl) as (x1 & st1 & ws & -> & Hx1 & Hst1 & Hs1 & Hok1 & Hrun1 & Hpo & ->).
      cbn [obind]. destruct Hpos as [Hi Hpos]. apply (IH x1 st1 r k j); try done.
      * by rewrite Hpo, app_nil_r.
      * replace (length (ss_inflight st1)) with (pred (length (ss_inflight st))); [done|].
        destruct st as [u f rqs]. cbn in *. rewrite <- Nat.sub_1_r, <- (length_delete f i) by by apply lookup_lt_is_Some_2.
        destruct (f !! i) as [[[] ?]|]; [apply obind_Done_inv in Hst1 as (? & _ & [= <-])|injection Hst1 as <-|]; done.
    + change (recv_run D2 r (RIrecv v :: receiver_events (drop k (sends_of (ps_posted x'.1.1))) es) = Done r') in Hr.
      cbn [recv_run] in Hr. apply obind_Done_inv in Hr as (r1 & -> & Hr). cbn [obind]. by apply (IH x st r1 k j).
    + destruct j as [|j]; [done|].
      destruct (lookup_lt_is_Some_2 (sends_of (ps_posted x.1.1)) k) as [[ctl bs] Hk]; [lia|].
      assert (Hk' : sends_of (ps_posted x'.1.1) !! k = Some (ctl, bs)) by (rewrite Hgrow; by apply lookup_app_l_Some).
      rewrite (drop_S _ (ctl, bs) k Hk') in Hr.
      change (recv_run D2 r (RArrive (on_wire ctl bs rest) :: receiver_events (drop (S k) (sends_of (ps_posted x'.1.1))) es) = Done r') in Hr.
      cbn [recv_run] in Hr. apply obind_Done_inv in Hr as (r1 & Hr1 & Hr). rewrite Hk, Hr1. cbn [obind].
      change (delivered (YDeliver rest :: es)) with (S (delivered es)). rewrite <- Nat.add_succ_comm.
      apply (IH x st r1 (S k) j); try done. lia.
Qed.
End split.

(** ** The flags of small sends *)

(** The requests [sent] are those of the calls so far: the flag of each is
    raised or its send is not reported. *)
Record small_sends (sent : list Z) (st : send_state) : Prop := {
  sm_nodup : NoDup sent;
  sm_eager : Forall (λ x, x.1 = true) (ss_inflight st);
  sm_inflight : (ss_inflight st).*2 ⊆ sent;
  sm_live req : req ∈ sent → ∃ r, ss_requests st !! req = Some r ∧ (rq_flag r = 1 ∨ req ∈ (ss_inflight st).*2);
}.

Lemma small_call sent st p :
  small_sends sent st → is_eager p = true → is_request p ∉ sent → is_Some (ss_requests st !! is_request p) →
  ends (m_send_step st (SIsend p)) (λ st', small_sends (sent ++ [is_request p]) st' ∧
    length (ss_inflight st') = S (length (ss_inflight st)) ∧
    ∀ req, is_Some (ss_requests st !! req) → is_Some (ss_requests st' !! req)).
Proof.
  destruct st as [unf infl rqs]. intros [Hnd He Hin Hli] Hep Hfresh [r Hr]. cbn [ss_inflight ss_requests m_send_step] in *.
  rewrite (with_flag_ok _ _ _ r) by done. cbn [obind ends ss_inflight ss_requests]. split_and!.
  - split; cbn [ss_inflight ss_requests].
    + apply NoDup_app. split_and!; [done| |apply NoDup_singleton]. intros x Hx ->%list_elem_of_singleton. done.
    + apply Forall_app. split; [done|]. by constructor.
    + rewrite fmap_app. cbn. set_solver.
    + rewrite fmap_app. cbn [fmap list_fmap snd]. intros req [Hreq| ->%list_elem_of_singleton]%elem_of_app.
      * destruct (Hli req Hreq) as (r' & Hr' & Hf). exists r'.
        rewrite lookup_insert_ne by (by intros E; apply Hfresh; rewrite E). split; [done|]. set_solver.
      * eexists. rewrite lookup_insert_eq. split; [done|]. set_solver.
  - rewrite length_app. cbn. lia.
  - intros req Hreq. rewrite lookup_insert. case_decide; [by eexists|done].
Qed.

Lemma small_report sent st i :
  small_sends sent st → (i < length (ss_inflight st))%nat →
  ends (m_send_step st (SSent i)) (λ st', small_sends sent st' ∧
    length (ss_inflight st') = pred (length (ss_inflight st)) ∧
    ∀ req, is_Some (ss_requests st !! req) → is_Some (ss_requests st' !! req)).
Proof.
  destruct st as [unf infl rqs]. intros [Hnd He Hin Hli] Hi. cbn [ss_inflight ss_requests m_send_step] in *.
  destruct (lookup_lt_is_Some_2 infl i Hi) as [[b req] Hx]. rewrite Hx.
  pose proof (Forall_lookup_1 _ _ _ _ He Hx) as Hb. cbn in Hb. subst b. pose proof (delete_Permutation infl i _ Hx) as Hperm.
  assert (Hreq : req ∈ sent) by (apply Hin; rewrite Hperm; by left).
  destruct (Hli req Hreq) as (r & Hr & _). rewrite (with_flag_ok _ _ _ r) by done. cbn [obind ends ss_inflight ss_requests].
  split_and!.
  - split; cbn [ss_inflight ss_requests]; [done|by apply Forall_delete| |].
    + intros y Hy. apply Hin. rewrite Hperm. by right.
    + intros y Hy. destruct (Hli y Hy) as (ry & Hry & Hf). destruct (decide (y = req)) as [->|Hne].
      * eexists. rewrite lookup_insert_eq. split; [done|]. by left.
      * exists ry. rewrite lookup_insert_ne by done. split; [done|]. destruct Hf as [?|Hf]; [by left|right].
        rewrite Hperm in Hf. by apply elem_of_cons in Hf as [?|].
  - rewrite length_delete by (by eexists). lia.
  - intros x Hxx. rewrite lookup_insert. case_decide; [by eexists|done].
Qed.

Lemma small_run sent st es n :
  small_sends sent st → Forall (λ p, is_eager p = true) (sent_args es) → NoDup (sent ++ (is_request <$> sent_args es)) →
  Forall (λ p, is_Some (ss_requests st !! is_request p)) (sent_args es) → possible n (length (ss_inflight st)) es →
  ends (m_send_run st (sender_events es)) (small_sends (sent ++ (is_request <$> sent_args es))).
Proof.
  revert sent st n. induction es as [|e es IH]; intros sent st n Hss Heag Hnd Hlive Hpos; [cbn; by rewrite app_nil_r|].
  assert (Hkeep : ∀ st' : send_state, (∀ req, is_Some (ss_requests st !! req) → is_Some (ss_requests st' !! req)) →
    Forall (λ p, is_Some (ss_requests st' !! is_request p)) (sent_args es)).
  { intros st' Hk. apply Forall_forall. intros p Hp. apply Hk. rewrite Forall_forall in Hlive. apply Hlive.
    destruct e; cbn; try exact Hp. by right. }
  destruct e as [p|i|v|rest]; cbn [possible] in Hpos.
  - change (sent_args (YSend p :: es)) with (p :: sent_args es) in *.
    change (sender_events (YSend p :: es)) with (SIsend p :: sender_events es). cbn [m_send_run].
    apply Forall_cons in Heag as [Hep Heag]. apply Forall_cons in Hlive as [Hr _].
    assert (Hsplit : sent ++ (is_request <$> p :: sent_args es) = (sent ++ [is_request p]) ++ (is_request <$> sent_args es))
      by (by rewrite <- (assoc_L (++))).
    rewrite Hsplit in Hnd |- *. c_step (small_call sent st p Hss Hep) as st1 (Hss1 & Hlen & Hk).
    { intros Hx. rewrite <- (assoc_L (++)) in Hnd. apply NoDup_app in Hnd as (_ & Hd & _). apply (Hd _ Hx). by left. }
    apply (IH _ st1 (S n)); [done..|by apply Hkeep|by rewrite Hlen].
  - change (sender_events (YReport i :: es)) with (SSent i :: sender_events es). cbn [m_send_run].
    destruct Hpos as [Hi Hpos]. c_step (small_report sent st i Hss Hi) as st1 (Hss1 & Hlen & Hk).
    apply (IH _ st1 n); [done..|by apply Hkeep|by rewrite Hlen].
  - by apply (IH sent st n).
  - destruct n as [|n]; [done|]. by apply (IH sent st n).
Qed.

(** ** The messages of a class and their receives *)

(** Two buffers have no byte in common. *)
Definition apart (r1 r2 : recv) : Prop :=
  ∀ o1 o2, layout (rc_dtype r1) (rc_count r1) o1 = true → layout (rc_dtype r2) (rc_count r2) o2 = true →
    rc_addr r1 + o1 ≠ rc_addr r2 + o2.

(** The message [m], given to [r], brings the bytes of [src] at [a], wherever
    memory is mapped as in [mem]. *)
Record carries (src mem : memory) (x : fdmi_msg * recv) (a : Z) : Prop := {
  ca_eager : msg_opcode x.1 = FDMI_EAGER;
  ca_mapped o : layout (rc_dtype x.2) (rc_count x.2) o = true → is_Some (src !! (a + o));
  ca_copy mem' : (∀ y, is_Some (mem !! y) → is_Some (mem' !! y)) →
    ends (eager_copy (rc_dtype x.2) (msg_count x.1) (eager_buff x.1) mem' (rc_addr x.2)) (λ mem'', ∀ o,
      mem'' !! (rc_addr x.2 + o) =
        if layout (rc_dtype x.2) (rc_count x.2) o then src !! (a + o) else mem' !! (rc_addr x.2 + o));
}.

(** What has been given to receives: the buffers hold the data, the requests
    are complete, and nothing else has changed. *)
Record taken (src : memory) (l : list (fdmi_msg * recv)) (addrs : list Z) (st st' : mstate) : Prop := {
  tk_data j x a o : l !! j = Some x → addrs !! j = Some a → layout (rc_dtype x.2) (rc_count x.2) o = true →
    m_memory st' !! (rc_addr x.2 + o) = src !! (a + o);
  tk_request x : x ∈ l → ∃ r0, m_requests st !! rc_request x.2 = Some r0 ∧
    m_requests st' !! rc_request x.2 = Some (completed r0 (msg_rank x.1) (msg_tag x.1));
  tk_memory y : (∀ x o, x ∈ l → layout (rc_dtype x.2) (rc_count x.2) o = true → y ≠ rc_addr x.2 + o) →
    m_memory st' !! y = m_memory st !! y;
  tk_requests req : (∀ x, x ∈ l → req ≠ rc_request x.2) → m_requests st' !! req = m_requests st !! req;
}.

Lemma m_takes_ok src l addrs st :
  Forall2 (carries src (m_memory st)) l addrs → NoDup ((λ x, rc_request x.2) <$> l) →
  (∀ x, x ∈ l → is_Some (m_requests st !! rc_request x.2)) →
  (∀ i j x y, i ≠ j → l !! i = Some x → l !! j = Some y → apart x.2 y.2) →
  ends (m_takes st l) (taken src l addrs st).
Proof.
  revert addrs st. induction l as [|[m r] l IH]; intros addrs st Hca Hnd Hrq Hap.
  - cbn. split; try done. by intros x ?%elem_of_nil.
  - apply Forall2_cons_inv_l in Hca as (a & addrs' & [He Hmp Hcp] & Hca & ->). cbn [fst snd] in *.
    destruct (Hrq (m, r)) as [r0 Hr0]; [by left|]. apply NoDup_cons in Hnd as [Hnew Hnd]. cbn [m_takes snd] in *.
    rewrite m_take_eager by done. rewrite obind_assoc.
    c_step (Hcp (m_memory st)) as mem Hmem. rewrite (proj2 (load_Done _ _ _) Hr0). cbn [obind].
    assert (Hout : ∀ x, x ∈ l → rc_request x.2 ≠ rc_request r).
    { intros x Hx E. apply Hnew, list_elem_of_fmap. by exists x. }
    assert (Hgrow : ∀ y, is_Some (m_memory st !! y) → is_Some (mem !! y)).
    { intros y Hy. specialize (Hmem (y - rc_addr r)). replace (rc_addr r + (y - rc_addr r)) with y in Hmem by lia.
      rewrite Hmem. case_match; [by apply Hmp|done]. }
    eapply ends_mono; [apply (IH addrs')|]; cbn [m_memory m_requests].
    + eapply Forall2_impl; [exact Hca|]. intros x b [H1 H2 H3]. split; [done..|]. intros mem' Hmem'. apply H3. auto.
    + done.
    + intros x Hx. cbn. rewrite lookup_insert_ne by (by intros E; apply (Hout x Hx)). apply Hrq. by right.
    + intros i j x y Hij Hi Hj. by apply (Hap (S i) (S j)); [intros [=]|..].
    + cbv beta. intros st' [T1 T2 T3 T4]. cbn in T1, T2, T3, T4. split.
      * intros [|j] x b o Hx Hb Ho; cbn in Hx, Hb.
        -- injection Hx as <-. injection Hb as <-. cbn in Ho |- *. rewrite T3, Hmem, Ho; [done|].
           intros x o' [j Hj]%list_elem_of_lookup_1 Ho'. by apply (Hap 0%nat (S j) (m, r) x).
        -- by apply (T1 j x b o).
      * intros x [->|Hx]%elem_of_cons.
        -- exists r0. split; [done|]. rewrite T4; [by rewrite lookup_insert_eq|]. intros y Hy. cbn. by apply not_eq_sym, Hout.
        -- destruct (T2 x Hx) as (r1 & Hr1 & Hr1'). exists r1. split; [|done].
           by rewrite lookup_insert_ne in Hr1 by (by intros E; apply (Hout x Hx)).
      * intros y Hy. rewrite T3 by (intros x o Hx; apply Hy; by right).
        specialize (Hmem (y - rc_addr r)). replace (rc_addr r + (y - rc_addr r)) with y in Hmem by lia. rewrite Hmem.
        case_match; [|done]. exfalso. apply (Hy (m, r) (y - rc_addr r)); [by left|done|]. cbn. lia.
      * intros req Hreq. rewrite T4 by (intros x Hx; apply Hreq; by right).
        by rewrite lookup_insert_ne by (intros E; by apply (Hreq (m, r)); [left|]).
Qed.

(** A call that sends a small message of consecutive bytes over the connection
    to [dest], with the tag and the communicator of the stream. *)
Record stream_isend (s : process) (dest tag id : Z) (p : isend_args) : Prop := {
  si_ok : isend_ok s p;
  si_dest : is_dest p = dest;
  si_tag : is_tag p = tag;
  si_comm : comm_id_at s (is_comm p) = Done id;
  si_dtype : wf_dtype (is_dtype p);
  si_count : 0 < is_count p;
  si_consecutive : dt_count (is_dtype p) = 1;
  si_small : payload_size (is_dtype p) (is_count p) ≤ FDMI_EAGER_BUFF_SIZE;
  si_buffer : buffer_mapped (ps_memory s) (is_dtype p) (is_count p) (is_buf p);
}.

Section class.
Context {HMalloc : Malloc} {HVerbs : Verbs}.
Context (s1 s2 : process) (t : table) (c dest tag id : Z) (st : mstate).

(** A message of the send [p]. *)
Definition arrives (p : isend_args) (m : fdmi_msg) : Prop :=
  ∃ ctl bs rest, send_of s1 p (ctl, bs) ∧ m = on_wire ctl bs rest.

Lemma isend_total p : stream_isend s1 dest tag id p →
  total_send_size (is_dtype p) (is_count p) = Done (payload_size (is_dtype p) (is_count p)) ∧
  0 ≤ payload_size (is_dtype p) (is_count p) ∧ is_eager p = true.
Proof.
  intros [_ _ _ _ Hd Hn _ Hsm _]. destruct (total_send_size_ok (is_dtype p) (is_count p)) as [Ht H0];
    [done..|clear - Hsm; unfold FDMI_EAGER_BUFF_SIZE, INT_MAX in *; lia|].
  split_and!; [done..|]. unfold is_eager. rewrite Ht. by apply Z.leb_le.
Qed.

(** The header and the bytes of a message of the stream. *)
Lemma arrives_header p m : stream_isend s1 dest tag id p → arrives p m →
  msg_type m = FDMI_COMM_INIT ∧ msg_opcode m = FDMI_EAGER ∧ msg_epoch m = ft_epoch (ft_msg s1) ∧ msg_tag m = u64 tag ∧
  msg_count m = is_count p ∧ msg_comm_id m = id.
Proof.
  intros Hp (ctl & bs & rest & (qp & q & sges & ? & ? & ? & ? & ? & id' & E & Hid & Hhd & Hop & _) & ->).
  injection E as <- <- <- <- <-. cbn [fst] in *. rewrite (proj2 (proj2 (isend_total p Hp))) in Hop.
  rewrite (si_comm _ _ _ _ _ Hp) in Hid. injection Hid as <-.
  destruct Hhd as (H1 & H2 & _ & _ & H3 & H4 & H5 & _). cbn in H3. rewrite (si_tag _ _ _ _ _ Hp) in H3. by split_and!.
Qed.

Lemma arrives_bytes p m : stream_isend s1 dest tag id p → arrives p m →
  ∃ bs rest, eager_buff m = bs ++ rest ∧ Z.of_nat (length bs) = payload_size (is_dtype p) (is_count p) ∧
    payload_holds (ps_memory s1) (is_dtype p) (is_buf p) bs (Z.to_nat (is_count p) * Z.to_nat (dt_count (is_dtype p))).
Proof.
  intros Hp (ctl & bs & rest & (qp & q & sges & ? & ? & ? & ? & ? & id' & E & _ & _ & _ & Hpay & _) & ->).
  injection E as <- <- <- <- <-. cbn [snd] in *. destruct (isend_total p Hp) as (Ht & H0 & He).
  destruct (Hpay He) as (total & Ht' & Hbs). rewrite Ht in Ht'. injection Ht' as <-.
  exists bs, rest. split; [done|]. destruct Hp as [_ _ _ _ Hd Hn Hdc _ Hbuf].
  pose proof (eager_payload_consecutive _ _ (ps_memory s1) (is_buf p) [] Hd Hn Hdc Hbuf) as Hc.
  apply ends_Done in Hc as ([[bs' eb] off] & E & Hl & _ & Hh). unfold eager_payload in E. rewrite Hdc in E. cbn in E.
  rewrite Hbs in E. by injection E as <- _ _.
Qed.

Lemma pair_carries p m pr ep :
  stream_isend s1 dest tag id p → arrives p m → receiver t c s2 st pr (param_of p) id →
  carries (ps_memory s1) (ps_memory s2) (msg_from t s2 c m, recv_from s2 ep pr) (is_buf p).
Proof.
  intros Hp Hm Hr. pose proof (arrives_header p m Hp Hm) as (_ & Hop & _ & _ & Hcnt & _).
  destruct (arrives_bytes p m Hp Hm) as (bs & rest & Hb & Hlen & Hholds).
  destruct Hp as [_ _ _ _ Hd Hn Hdc Hsm Hbuf]. destruct Hr as [_ Edt Ecn _ _ Hmap _ _ _]. cbn in Edt, Ecn.
  rewrite Edt, Ecn in Hmap. split; cbn; [done| |].
  - rewrite Edt, Ecn. intros o Ho. by apply Hbuf.
  - intros mem' Hgrow. rewrite Edt, Ecn, Hcnt, Hb.
    assert (Hmap' : buffer_mapped mem' (is_dtype p) (is_count p) (pp_addr pr)).
    { destruct Hmap as [H1 H2]. split; [done|]. intros o Ho. destruct (H2 o Ho). by split; [|apply Hgrow]. }
    pose proof (eager_copy_ok (is_dtype p) (is_count p) (ps_memory s1) mem' (is_buf p) (pp_addr pr) bs Hd Hn Hsm
      ltac:(rewrite Hlen; done) Hholds Hmap') as Hcopy.
    apply ends_Done in Hcopy as (mem & Ecopy & Hmem). by rewrite (eager_copy_rest _ _ _ rest _ _ _ Hdc Ecopy).
Qed.

(** Any message and any receive of the stream. *)
Lemma stream_class ps prs ms :
  m_epoch st ≤ ft_epoch (ft_msg s1) → Forall (stream_isend s1 dest tag id) ps →
  Forall2 (λ pr p, receiver t c s2 st pr (param_of p) id) prs ps → (∀ m, m ∈ ms → ∃ p, p ∈ ps ∧ arrives p m) →
  same_class st (map (msg_from t s2 c) ms) (map (recv_from s2 (m_epoch st)) prs).
Proof.
  intros Hep Hps Hprs Hms. rewrite Forall_forall in Hps.
  assert (Hm : ∀ x, x ∈ map (msg_from t s2 c) ms → ∃ m p pr, x = msg_from t s2 c m ∧ msg_opcode m = FDMI_EAGER ∧
    msg_epoch m = ft_epoch (ft_msg s1) ∧ msg_tag m = u64 tag ∧ msg_comm_id m = id ∧ is_tag p = tag ∧
    receiver t c s2 st pr (param_of p) id).
  { intros x (m & -> & Hx)%list_elem_of_fmap. destruct (Hms m Hx) as (p & Hp & Ha).
    destruct (arrives_header p m (Hps p Hp) Ha) as (_ & ? & ? & ? & _ & ?). destruct (list_elem_of_lookup_1 _ _ Hp) as [j Hj].
    destruct (Forall2_lookup_r _ _ _ _ _ Hprs Hj) as (pr & _ & Hrc). exists m, p, pr. split_and!; try done. by apply Hps. }
  assert (Hr : ∀ x, x ∈ map (recv_from s2 (m_epoch st)) prs → ∃ pr p, x = recv_from s2 (m_epoch st) pr ∧
    comm_id_at s2 (pp_comm pr) = Done id ∧ stream_isend s1 dest tag id p ∧ receiver t c s2 st pr (param_of p) id).
  { intros x (pr & -> & Hx)%list_elem_of_fmap. destruct (list_elem_of_lookup_1 _ _ Hx) as [j Hj].
    destruct (Forall2_lookup_l _ _ _ _ _ Hprs Hj) as (p & Hp & Hrc). exists pr, p. split_and!; [done|apply Hrc| |done].
    by apply Hps; eapply list_elem_of_lookup_2. }
  assert (Hfresh : ∀ m, msg_epoch m = ft_epoch (ft_msg s1) → m_fresh st (msg_epoch m) = true).
  { intros m E. unfold m_fresh. rewrite E. apply negb_true_iff, Z.ltb_ge. done. }
  split.
  - intros x y (m & _ & _ & -> & _ & _ & Htag & Hid & _)%Hm (pr & p & -> & Hcid & Hp & Hrc)%Hr.
    unfold recv_matches, recv_from. cbn. rewrite Hcid, Hid, Htag, Z.eqb_refl.
    rewrite word_matches_wildcard by apply Hrc. pose proof (rr_tag _ _ _ _ _ _ _ Hrc) as Ht. cbn in Ht.
    rewrite (si_tag _ _ _ _ _ Hp) in Ht. by rewrite word_matches_wildcard.
  - intros x (m & _ & _ & -> & Hop & He & _)%Hm. split; [done|]. by apply (Hfresh m).
  - intros y (pr & p & -> & Hcid & Hp & Hrc)%Hr. split; [unfold m_fresh; cbn; by rewrite Z.ltb_irrefl|].
    destruct (io_size _ _ (si_ok _ _ _ _ _ Hp)) as [n Hn]. exists n. cbn.
    by rewrite (rr_dtype _ _ _ _ _ _ _ Hrc), (rr_count _ _ _ _ _ _ _ Hrc).
  - intros x r (m & p & pr & -> & _ & _ & Htag & Hid & Hpt & Hrc)%Hm Hin. apply andb_false_iff. right.
    apply (rr_pending _ _ _ _ _ _ _ Hrc); try done. cbn. by rewrite Hpt.
  - intros m r Hin (pr & p & -> & Hcid & Hp & Hrc)%Hr. apply andb_false_iff. right.
    apply (rr_unexpected _ _ _ _ _ _ _ Hrc); try done. unfold recv_from. by rewrite Hcid.
Qed.
End class.

Lemma arrivals_sent `{Verbs} s ps l es :
  Forall2 (send_of s) ps l → (delivered es ≤ length ps)%nat → Forall2 (arrives s) (take (delivered es) ps) (arrivals l es).
Proof.
  revert ps l. induction es as [|[p|i|v|rest] es IH]; intros ps l Hl Hle; [constructor|by apply IH..|].
  change (delivered (YDeliver rest :: es)) with (S (delivered es)) in *. destruct Hl as [|p [ctl bs] ps l Hp Hl]; cbn in Hle; [lia|].
  cbn. constructor; [by exists ctl, bs, rest|]. apply IH; [done|lia].
Qed.

Lemma possible_delivered n k es : possible n k es → (delivered es ≤ n + length (sent_args es))%nat.
Proof.
  revert n k. induction es as [|[p|i|v|rest] es IH]; intros n k; cbn [possible].
  - cbn. lia.
  - intros Hp%IH. change (sent_args (YSend p :: es)) with (p :: sent_args es). change (delivered (YSend p :: es)) with (delivered es).
    cbn. lia.
  - intros [_ Hp%IH]. exact Hp.
  - intros Hp%IH. exact Hp.
  - destruct n as [|n]; [done|]. intros Hp%IH. change (delivered (YDeliver rest :: es)) with (S (delivered es)).
    change (sent_args (YDeliver rest :: es)) with (sent_args es). lia.
Qed.

(** ** The receiver's part *)
Definition buffers_apart (v1 v2 : irecv_args) : Prop :=
  ∀ o1 o2, layout (ir_dtype v1) (ir_count v1) o1 = true → layout (ir_dtype v2) (ir_count v2) o2 = true →
    ir_buf v1 + o1 ≠ ir_buf v2 + o2.

(** What [n] messages of the calls [ps] have done to the receives [vs]: the
    first [n] buffers hold the data of the sender and their requests are
    complete, the other requests are not, and no other byte has changed. *)
Record streamed (s1 s2 s2' : process) (rank tag : Z) (ps : list isend_args) (vs : list irecv_args) (n : nat) : Prop := {
  sm_data j p v o : (j < n)%nat → ps !! j = Some p → vs !! j = Some v → layout (is_dtype p) (is_count p) o = true →
    ps_memory s2' !! (ir_buf v + o) = ps_memory s1 !! (is_buf p + o);
  sm_done j v : (j < n)%nat → vs !! j = Some v → ∃ r0, ps_requests s2 !! ir_request v = Some r0 ∧
    ps_requests s2' !! ir_request v = Some (r0 <| rq_flag := 1 |> <| rq_prank := rank |> <| rq_tag := tag |>);
  sm_waiting j v : (n ≤ j)%nat → vs !! j = Some v → ∃ r0, ps_requests s2 !! ir_request v = Some r0 ∧
    ps_requests s2' !! ir_request v = Some (r0 <| rq_flag := 0 |>);
  sm_other a : (∀ j v o, (j < n)%nat → vs !! j = Some v → layout (ir_dtype v) (ir_count v) o = true → a ≠ ir_buf v + o) →
    ps_memory s2' !! a = ps_memory s2 !! a;
}.

Section receiver.
Context {HMalloc : Malloc} {HVerbs : Verbs}.
Context (D2 : Z) (s1 s2 : process) (t : table) (c dest tag id : Z) (rq : list (Z * Z)) (st : mstate).
Context (ps : list isend_args) (vs : list irecv_args).
Context (Hready : ready D2 t c s2 rq st) (Hep : m_epoch st ≤ ft_epoch (ft_msg s1)) (Htag : is_int tag).
Context (Hps : Forall (stream_isend s1 dest tag id) ps) (Hvs : Forall (irecv_ok s2) vs).
Context (Hrcv : Forall2 (λ v p, receiver t c s2 st (irecv_param s2 v) (param_of p) id) vs ps).
Context (Hnd : NoDup (ir_request <$> vs)).
Context (Hap : ∀ i j x y, i ≠ j → vs !! i = Some x → vs !! j = Some y → buffers_apart x y).

Notation recvs := (map (λ v, recv_from s2 (m_epoch st) (irecv_param s2 v)) vs).
Notation pairs ms := (zip (map (msg_from t s2 c) ms) recvs).
Notation st0 := (cleared (rc_request <$> recvs) st).

Lemma recvs_requests : rc_request <$> recvs = ir_request <$> vs.
Proof using. clear. rewrite <- list_fmap_compose. by apply list_fmap_ext. Qed.

Lemma pairs_lookup ms n j x :
  Forall2 (arrives s1) (take n ps) ms → pairs ms !! j = Some x →
  ∃ p m v, (j < n)%nat ∧ ps !! j = Some p ∧ vs !! j = Some v ∧
    x = (msg_from t s2 c m, recv_from s2 (m_epoch st) (irecv_param s2 v)) ∧
    arrives s1 p m ∧ stream_isend s1 dest tag id p ∧ receiver t c s2 st (irecv_param s2 v) (param_of p) id.
Proof using Hps Hrcv.
  clear Hap Hnd Hready Hep Htag Hvs.
  intros Hms Hj. rewrite lookup_zip_with, !list_lookup_fmap in Hj.
  destruct (ms !! j) as [m|] eqn:Em; [|done]. destruct (vs !! j) as [v|] eqn:Ev; [|by destruct (ms !! j)].
  injection Hj as <-. destruct (Forall2_lookup_r _ _ _ _ _ Hms Em) as (p & Hp & Ha). apply lookup_take_Some in Hp as [Hp Hjn].
  destruct (Forall2_lookup_l _ _ _ _ _ Hrcv Ev) as (p' & Hp' & Hrc). rewrite Hp in Hp'. injection Hp' as <-.
  exists p, m, v. split_and!; try done. by apply (Forall_lookup_1 _ _ _ _ Hps Hp).
Qed.

Lemma elem_of_pairs ms n x :
  Forall2 (arrives s1) (take n ps) ms → x ∈ pairs ms → ∃ j p m v, (j < n)%nat ∧ ps !! j = Some p ∧ vs !! j = Some v ∧
    x = (msg_from t s2 c m, recv_from s2 (m_epoch st) (irecv_param s2 v)).
Proof using Hps Hrcv.
  clear Hap Hnd Hready Hep Htag Hvs. intros Hms [j Hj]%list_elem_of_lookup_1.
  destruct (pairs_lookup ms n j x Hms Hj) as (p & m & v & Hjn & Hp & Hpr & E & _). by exists j, p, m, v.
Qed.

Lemma elem_of_sent ms n m : Forall2 (arrives s1) (take n ps) ms → m ∈ ms → ∃ p, p ∈ ps ∧ arrives s1 p m.
Proof using.
  intros Hms [j Hj]%list_elem_of_lookup_1. destruct (Forall2_lookup_r _ _ _ _ _ Hms Hj) as (p & Hp & Ha).
  apply lookup_take_Some in Hp as [Hp _]. exists p. split; [by eapply list_elem_of_lookup_2|done].
Qed.

Lemma request_index i j v v' : vs !! i = Some v → vs !! j = Some v' → ir_request v = ir_request v' → i = j.
Proof using Hnd.
  clear - Hnd. intros Hi Hj E. rewrite NoDup_alt in Hnd. apply (Hnd i j (ir_request v)); rewrite list_lookup_fmap; [by rewrite Hi|].
  rewrite Hj. cbn. by f_equal.
Qed.

(** The requests of the receives before and after their flags are cleared. *)
Lemma live_request j v : vs !! j = Some v → ∃ r0, ps_requests s2 !! ir_request v = Some r0 ∧ m_requests st !! ir_request v = Some r0 ∧
  m_requests st0 !! ir_request v = Some (r0 <| rq_flag := 0 |>).
Proof using Hready Hrcv.
  clear Hap Hnd Hep Htag Hvs Hps. intros Hv. pose proof (rd_implements _ _ _ _ _ _ Hready) as (fr & aq & pq & reads & lost & He).
  destruct (Forall2_lookup_l _ _ _ _ _ Hrcv Hv) as (p & _ & Hrc). destruct (rr_request _ _ _ _ _ _ _ Hrc) as [r0 Hr0].
  exists r0. rewrite <- (en_requests He). split; [done|]. split; [done|]. unfold cleared. cbn [m_requests].
  change (clear_flags (rc_request <$> recvs) (m_requests st) !! ir_request v = Some (r0 <| rq_flag := 0 |>)).
  rewrite <- (en_requests He), (lookup_clear_flags _ _ _ _ Hr0), recvs_requests, decide_True; [done|].
  apply list_elem_of_fmap. exists v. split; [done|]. by eapply list_elem_of_lookup_2.
Qed.

Lemma stream_takes ms n :
  (n ≤ length ps)%nat → Forall2 (arrives s1) (take n ps) ms →
  ends (m_takes st0 (pairs ms)) (taken (ps_memory s1) (pairs ms) (is_buf <$> take n ps) st0).
Proof using Hready Hps Hrcv Hnd Hap.
  clear Htag Hep Hvs.
  intros Hn Hms. pose proof (rd_implements _ _ _ _ _ _ Hready) as (fr & aq & pq & reads & lost & He).
  pose proof (Forall2_length _ _ _ Hms) as Hlen. rewrite length_take in Hlen. pose proof (Forall2_length _ _ _ Hrcv) as Hlp.
  apply m_takes_ok.
  - apply Forall2_same_length_lookup. split.
    { rewrite length_zip_with, !length_map, length_take. lia. }
    intros j x a Hx Ha. destruct (pairs_lookup ms n j x Hms Hx) as (p & m & v & Hj & Hp & Hv & -> & Har & Hsi & Hrc).
    rewrite list_lookup_fmap, lookup_take_lt, Hp in Ha by done. injection Ha as <-.
    change (m_memory st0) with (m_memory st). rewrite <- (en_memory He).
    by apply pair_carries with (dest := dest) (tag := tag) (id := id) (st := st).
  - apply NoDup_alt. intros i j req Hi Hj. apply list_lookup_fmap_Some in Hi as (xi & -> & Hi), Hj as (xj & Hxj & Hj).
    destruct (pairs_lookup ms n i xi Hms Hi) as (_ & mi & vi & _ & _ & Hvi & -> & _).
    destruct (pairs_lookup ms n j xj Hms Hj) as (_ & mj & vj & _ & _ & Hvj & -> & _). by apply (request_index i j vi vj).
  - intros x [j Hj]%list_elem_of_lookup_1. destruct (pairs_lookup ms n j x Hms Hj) as (p & m & v & _ & _ & Hv & -> & _).
    destruct (live_request j v Hv) as (r0 & _ & _ & Hr0). by eexists.
  - intros i j xi xj Hij Hi Hj.
    destruct (pairs_lookup ms n i xi Hms Hi) as (_ & mi & vi & _ & _ & Hvi & -> & _).
    destruct (pairs_lookup ms n j xj Hms Hj) as (_ & mj & vj & _ & _ & Hvj & -> & _). exact (Hap i j vi vj Hij Hvi Hvj).
Qed.

(** The machine of the receiver. *)
Lemma stream_machine l es :
  Forall2 (send_of s1) ps l → (delivered es ≤ length ps)%nat → received es = vs →
  ends (m_irun st (map (recv_machine t s2 c (m_epoch st)) (receiver_events l es)))
    (taken (ps_memory s1) (pairs (arrivals l es)) (is_buf <$> take (delivered es) ps) st0).
Proof using Hready Hep Hps Hrcv Hnd Hap.
  clear Htag Hvs. intros Hl Hn Hrec. set (ms := arrivals l es).
  assert (Hms : Forall2 (arrives s1) (take (delivered es) ps) ms) by by apply arrivals_sent.
  assert (Hclass : same_class st (map (msg_from t s2 c) ms) recvs).
  { pose proof (stream_class s1 s2 t c dest tag id st ps (irecv_param s2 <$> vs) ms Hep Hps) as Hc.
    rewrite map_map in Hc. apply Hc; [by apply Forall2_fmap_l|]. intros m. by eapply elem_of_sent. }
  pose proof (stream_takes ms (delivered es) Hn Hms) as (st' & Htakes & [Hdata Hreq Hmem Hrest])%ends_Done.
  pose proof (receiver_events_interleave l es) as Hi. rewrite Hrec in Hi. fold ms in Hi.
  rewrite <- (waiting_nil st) at 1. rewrite (ififo_run st [] [] (map (msg_from t s2 c) ms) recvs); [|split; cbn [app]; [done|by left|by rewrite recvs_requests|]|].
  - cbn [app]. rewrite Htakes. by split.
  - intros r (v & -> & [j Hj]%list_elem_of_lookup_1)%list_elem_of_fmap. destruct (live_request j v Hj) as (r0 & _ & Hr0 & _). by exists r0.
  - by apply (interleaves_map RArrive RIrecv).
Qed.

Lemma stream_events_ok l es :
  Forall2 (send_of s1) ps l → (delivered es ≤ length ps)%nat → received es = vs →
  Forall (recv_event_ok s2) (receiver_events l es).
Proof using Hps Hvs.
  clear Hap Hnd Hready Hep Htag Hrcv. intros Hl Hn Hrec. pose proof (receiver_events_interleave l es) as Hi. rewrite Hrec in Hi.
  eapply interleaves_Forall; [exact Hi| |].
  - intros m Hm. destruct (elem_of_sent _ (delivered es) m (arrivals_sent s1 ps l es Hl Hn) Hm) as (p & Hp & Ha).
    rewrite Forall_forall in Hps. by apply (arrives_header s1 dest tag id p m (Hps p Hp) Ha).
  - rewrite Forall_forall in Hvs. exact Hvs.
Qed.

(** The receiver of the first messages. *)
Lemma receiver_streams l es :
  Forall2 (send_of s1) ps l → (delivered es ≤ length ps)%nat → received es = vs →
  ends (recv_run D2 (s2, rq) (receiver_events l es)) (λ r,
    streamed s1 s2 r.1 (rank_of t s2 c) tag ps vs (delivered es)).
Proof using Hready Hep Htag Hps Hvs Hrcv Hnd Hap.
  intros Hl Hn Hrec. pose proof (rd_implements _ _ _ _ _ _ Hready) as (fr & aq & pq & reads & lost & He).
  set (ms := arrivals l es). assert (Hms : Forall2 (arrives s1) (take (delivered es) ps) ms) by by apply arrivals_sent.
  pose proof (stream_machine l es Hl Hn Hrec) as (st2 & Hrun & [Hdata Hreq Hmem Hrest])%ends_Done. fold ms in Hdata, Hreq, Hmem, Hrest.
  eapply ends_mono; [eapply (recv_run_ok D2 t c s2 rq st _ st2 Hready); [by apply stream_events_ok|exact Hrun]|].
  intros [s' rq'] [Hr' _]. cbn [fst snd] in *.
  pose proof (rd_implements _ _ _ _ _ _ Hr') as (fr' & aq' & pq' & reads' & lost' & He2).
  assert (Hpair : ∀ j v, (j < delivered es)%nat → vs !! j = Some v → ∃ p m,
    ps !! j = Some p ∧ arrives s1 p m ∧ pairs ms !! j = Some (msg_from t s2 c m, recv_from s2 (m_epoch st) (irecv_param s2 v))).
  { intros j v Hj Hv. destruct (lookup_lt_is_Some_2 ps j) as [p Hp]; [lia|].
    destruct (Forall2_lookup_l _ _ _ _ _ Hms (proj2 (lookup_take_Some ps _ _ _) (conj Hp Hj))) as (m & Hm & Ha).
    exists p, m. split_and!; [done..|]. rewrite lookup_zip_with, !list_lookup_fmap, Hm, Hv. done. }
  split.
  - intros j p v o Hj Hp Hv Ho. destruct (Hpair j v Hj Hv) as (p' & m & Hp' & _ & Hx). rewrite Hp in Hp'. injection Hp' as <-.
    rewrite (en_memory He2). apply (Hdata j _ (is_buf p) o Hx).
    + by rewrite list_lookup_fmap, lookup_take_lt, Hp by done.
    + cbn. destruct (Forall2_lookup_l _ _ _ _ _ Hrcv Hv) as (p' & Hp' & Hrc). rewrite Hp in Hp'. injection Hp' as <-.
      pose proof (rr_dtype _ _ _ _ _ _ _ Hrc) as E1. pose proof (rr_count _ _ _ _ _ _ _ Hrc) as E2. cbn in E1, E2. by rewrite E1, E2.
  - intros j v Hj Hv. destruct (Hpair j v Hj Hv) as (p & m & Hp & Ha & Hx).
    destruct (Hreq _ (list_elem_of_lookup_2 _ _ _ Hx)) as (r1 & Hr1 & Hr1'). cbn [snd rc_request recv_from recv_of_param] in Hr1, Hr1'.
    destruct (live_request j v Hv) as (r0 & Hr0 & _ & Hr0'). exists r0. split; [done|]. rewrite (en_requests He2).
    change (m_requests st0 !! ir_request v = Some r1) in Hr1. rewrite Hr0' in Hr1. injection Hr1 as <-. etrans; [exact Hr1'|].
    unfold completed. cbn. destruct (arrives_header s1 dest tag id p m (Forall_lookup_1 _ _ _ _ Hps Hp) Ha) as (_ & _ & _ & -> & _).
    by rewrite !i32_u64 by (done || apply rank_of_int).
  - intros j v Hj Hv. destruct (live_request j v Hv) as (r0 & Hr0 & _ & Hr0'). exists r0. split; [done|].
    rewrite (en_requests He2). rewrite <- Hr0'. apply Hrest.
    intros x Hx. destruct (elem_of_pairs ms _ x Hms Hx) as (i & p & m & v' & Hi' & _ & Hv' & ->). intros E.
    assert (j = i); [|lia]. by apply (request_index j i v v').
  - intros a Ha. rewrite (en_memory He), (en_memory He2). apply Hmem.
    intros x o Hx Ho. destruct (elem_of_pairs ms _ x Hms Hx) as (i & p & m & v & Hi' & _ & Hv & ->). by apply (Ha i v o).
Qed.
End receiver.

(** ** The theorem *)

(** The completion of the query [q] is that of the request [req]. *)
Definition reports_to (s : process) (q req : Z) : Prop :=
  ∃ qu, cells (ps_queries s) !! q = Some qu ∧ qu_request_flag qu = flag_addr req.

(** C1: a stream of messages from one process to another.  A program sends small
    messages of one class with [fdmi_verbs_isend], another receives each into a
    buffer of its own with [fdmi_verbs_irecv]; whatever the order of the calls,
    of the reports of the sender's adapter and of the arrivals (a message arrives
    after it was sent, and in the order of the sends): the run ends, the [j]-th
    receive has the bytes of the [j]-th send, the source and the tag as soon as
    that message has arrived, until then its flag is down, and no other byte of
    the receiver's memory changes; the requests of the sends are complete, but
    for those the adapter has still to report. *)
Theorem stream_delivered `{Malloc} `{Verbs} D1 D2 t1 t2 aq pq held s1 recvs rqs s2 rq st c dest tag id es :
  sending D1 t1 aq pq held (s1, [], recvs) (SendState [] [] rqs) → ready D2 t2 c s2 rq st →
  m_epoch st ≤ ft_epoch (ft_msg s1) → is_int tag →
  Forall (stream_isend s1 dest tag id) (sent_args es) → NoDup (is_request <$> sent_args es) →
  Forall (λ p, is_Some (rqs !! is_request p)) (sent_args es) →
  Forall (irecv_ok s2) (received es) →
  Forall2 (λ v p, receiver t2 c s2 st (irecv_param s2 v) (param_of p) id) (received es) (sent_args es) →
  NoDup (ir_request <$> received es) →
  (∀ i j x y, i ≠ j → received es !! i = Some x → received es !! j = Some y → buffers_apart x y) →
  possible 0 0 es →
  ends (stream_run D1 D2 (System (s1, [], recvs) (s2, rq) (length (sends_of (ps_posted s1)))) es) (λ y,
    streamed s1 s2 (y_receiver y).1 (rank_of t2 s2 c) tag (sent_args es) (received es) (delivered es) ∧
    length (sends_of (ps_posted (y_sender y).1.1)) = (length (sends_of (ps_posted s1)) + length (sent_args es))%nat ∧
    ∃ unreported, Forall2 (reports_to (y_sender y).1.1) (y_sender y).1.2 unreported ∧
      ∀ p, p ∈ sent_args es → is_request p ∉ unreported →
        ∃ r, ps_requests (y_sender y).1.1 !! is_request p = Some r ∧ rq_flag r = 1).
Proof.
  intros Hs Hready Hep Htag Hps Hnd1 Hlive Hvs Hrcv Hnd2 Hap Hpos.
  pose proof Hready as [Hm Hreg Hpost _ _ _ _]. rewrite Forall_forall in Hps.
  assert (Hok : Forall (send_event_ok s1) (sender_events es)).
  { apply Forall_forall. intros e (e0 & He0 & Heq)%list_elem_of_omap. destruct e0 as [p|i|v|rest]; try done; injection Heq as <-; [|done].
    apply Hps. apply list_elem_of_omap. by exists (YSend p). }
  pose proof (small_run [] (SendState [] [] rqs) es 0) as Hrun.
  apply ends_Done in Hrun as (st' & Hrun & [_ _ _ Hflags]); [|split; cbn; try done; [constructor|by intros ? ?%elem_of_nil]| |done|done|done].
  2: { apply Forall_forall. intros p Hp. by apply (isend_total s1 dest tag id p), Hps. }
  pose proof (send_run_law Hm Hreg Hpost D1 t1 aq pq held _ _ _ st' Hs Hok Hrun) as Hx.
  apply ends_Done in Hx as (x' & Hx & Hs' & _).
  destruct (sends_grow Hm Hreg Hpost D1 t1 aq pq held _ _ es st' x' Hs Hok Hrun Hx) as (l & Hgrow & Hl). cbn [fst] in Hgrow, Hl.
  assert (Hdel : (delivered es ≤ length (sent_args es))%nat) by (by apply (possible_delivered 0 0)).
  rewrite <- Forall_forall in Hps.
  pose proof (receiver_streams D2 s1 s2 t2 c dest tag id rq st (sent_args es) (received es) Hready Hep Htag Hps Hvs Hrcv Hnd2 Hap
    l es Hl Hdel eq_refl) as (r' & Hr & Hstr)%ends_Done.
  rewrite (stream_splits Hm Hreg Hpost D1 D2 t1 aq pq held (s1, [], recvs) (SendState [] [] rqs) (s2, rq) _ es st' x' r' 0 Hs Hok Hrun Hx).
  - cbn [ends y_sender y_receiver]. split; [done|]. split.
    { by rewrite Hgrow, length_app, (Forall2_length _ _ _ Hl). }
    exists (ss_inflight st').*2. split.
    + apply Forall2_fmap_r. eapply Forall2_impl; [apply (sg_inflight _ _ _ _ _ _ _ Hs')|].
      intros q z (qu & _ & Hqu & _ & Hqf & _). by exists qu.
    + intros p Hp Hun. rewrite (sg_requests _ _ _ _ _ _ _ Hs'). cbn [app] in Hflags.
      destruct (Hflags (is_request p)) as (r & Hr1 & [Hf|Hf]); [by apply list_elem_of_fmap_2|by exists r|done].
  - cbn. lia.
  - done.
  - by rewrite Hgrow, drop_app_length.
Qed.

(** ** An example *)
Definition sample_isend (req : Z) : isend_args := Isend 2000 2 FMI_BYTE 1 7 16 req.
Definition sample_irecv (buf req : Z) : irecv_args := Irecv buf 2 FMI_BYTE FMI_ANY_SOURCE 7 16 req.
Definition sample_stream : list stream_event :=
  [YReceive (sample_irecv 1000 4096); YSend (sample_isend 4096); YSend (sample_isend 8192); YDeliver []; YReport 1%nat;
   YReceive (sample_irecv 1004 8192); YDeliver [5]; YReport 0%nat].

Definition sample_stream_sender : process := sample_ready <| ps_memory := sample_buffer 2000 9 |>.

Lemma sample_byte_mapped a v b : 0 ≤ a < 2 ^ 63 → b = a ∨ b = a + 4 → buffer_mapped (sample_buffer a v) FMI_BYTE 2 b.
Proof.
  intros Ha Hb. split; [lia|]. intros o Ho.
  assert (E : o = 0 ∨ o = 1).
  { unfold layout in Ho. change ((0 <=? o) && (o <? 2) = true) in Ho. lia. }
  clear Ho. unfold sample_buffer. cbn -[Z.add Z.of_nat]. split; [lia|].
  destruct Hb as [-> | ->], E as [-> | ->]; rewrite !lookup_insert; by repeat case_decide; [..|lia].
Qed.

Lemma sample_byte_wf : wf_dtype FMI_BYTE.
Proof. unfold INT_MAX. by split; cbn. Qed.

Lemma sample_stream_isend req : flag_addr req ≠ NULL → stream_isend sample_stream_sender 1 7 3 (sample_isend req).
Proof.
  intros Hreq. split; [|done|done|done|exact sample_byte_wf|done|done|done|by apply (sample_byte_mapped 2000 9); [|left]].
  split; cbn [is_buf is_count is_dtype is_dest is_tag is_comm is_request sample_isend].
  - by eexists _, _.
  - by eexists.
  - by eexists.
  - exists 2. split; [done|]. intros _. split; [done|]. by eexists.
  - done.
Qed.

Lemma sample_stream_receiver buf req :
  buf = 1000 ∨ buf = 1004 → req = 4096 ∨ req = 8192 →
  receiver sample_table 32 sample_ready sample_state (irecv_param sample_ready (sample_irecv buf req)) (param_of (sample_isend req)) 3.
Proof.
  intros Hbuf Hreq. split.
  - split; try done; unfold is_int, INT_MIN, INT_MAX; cbn; lia.
  - done.
  - done.
  - by left.
  - by right.
  - by apply (sample_byte_mapped 1000 0).
  - destruct Hreq as [-> | ->]; by eexists.
  - by intros r m ?%elem_of_nil.
  - by intros m r ?%elem_of_nil.
Qed.

Lemma sample_irecv_ok buf req : irecv_ok sample_ready (sample_irecv buf req).
Proof.
  split.
  - exists FMI_ANY_SOURCE. split; [done|by left].
  - exists 3. split; try done; unfold is_int, INT_MIN, INT_MAX; cbn; lia.
Qed.

Lemma sample_irecv_layout buf req o :
  layout (ir_dtype (sample_irecv buf req)) (ir_count (sample_irecv buf req)) o = true → o = 0 ∨ o = 1.
Proof. intros Ho. change ((0 <=? o) && (o <? 2) = true) in Ho. lia. Qed.

Lemma sample_apart i j x y :
  i ≠ j → received sample_stream !! i = Some x → received sample_stream !! j = Some y → buffers_apart x y.
Proof.
  change (received sample_stream) with [sample_irecv 1000 4096; sample_irecv 1004 8192].
  intros Hij Hi Hj o1 o2.
  destruct i as [|[|i]], j as [|[|j]]; cbn in Hi, Hj; simplify_eq; intros Ho1%sample_irecv_layout Ho2%sample_irecv_layout;
    cbn [ir_buf sample_irecv]; lia.
Qed.

Lemma stream_delivered_witness :
  ends (stream_run 16 16 (System (sample_stream_sender, [], [512]) (sample_ready, [(32, 512)]) 0) sample_stream) (λ y,
    ps_memory (y_receiver y).1 !! 1000 = Some 9 ∧ ps_memory (y_receiver y).1 !! 1005 = Some 9 ∧
    ps_memory (y_receiver y).1 !! 1002 = Some 0 ∧
    ps_requests (y_receiver y).1 !! 8192 = Some (Request 1 0 7 1)).
Proof.
  eapply ends_mono; [eapply (stream_delivered 16 16 sample_table sample_table [] [] [] sample_stream_sender [512] sample_requests
    sample_ready [(32, 512)] sample_state 32 1 7 3 sample_stream (sample_sending _) sample_is_ready)|].
  - done.
  - unfold is_int, INT_MIN, INT_MAX. lia.
  - constructor; [by apply sample_stream_isend|]. constructor; [by apply sample_stream_isend|constructor].
  - apply NoDup_cons. split; [by intros ?%list_elem_of_singleton|apply NoDup_singleton].
  - constructor; [by eexists|]. constructor; [by eexists|constructor].
  - constructor; [apply sample_irecv_ok|]. constructor; [apply sample_irecv_ok|constructor].
  - constructor; [by apply sample_stream_receiver; [left|left]|]. constructor; [by apply sample_stream_receiver; [right|right]|constructor].
  - apply NoDup_cons. split; [by intros ?%list_elem_of_singleton|apply NoDup_singleton].
  - exact sample_apart.
  - cbn. lia.
  - cbv beta. intros y ([Hd Hr _ Ho] & _). split_and!.
    + exact (Hd 0%nat _ _ 0 ltac:(vm_compute; lia) eq_refl eq_refl eq_refl).
    + exact (Hd 1%nat _ _ 1 ltac:(vm_compute; lia) eq_refl eq_refl eq_refl).
    + etrans; [apply Ho|reflexivity]. intros j pr o _ Hpr.
      change (received sample_stream) with [sample_irecv 1000 4096; sample_irecv 1004 8192] in Hpr.
      destruct j as [|[|j]]; cbn in Hpr; simplify_eq; intros Hl%sample_irecv_layout; cbn [ir_buf sample_irecv]; lia.
    + destruct (Hr 1%nat _ ltac:(vm_compute; lia) eq_refl) as (r0 & Hr0 & Hr1). etrans; [exact Hr1|].
      change (Some (Request 0 0 0 0) = Some r0) in Hr0. by injection Hr0 as <-.
Defined.
