(* ===== verification/Crossing.v ===== *)
(** * src/src/fdmi.c: large messages received in another order

    Two large sends of which the receiver takes the second one first. *)
From S2P Require Import Prelude Mem Queue Hashtable Datatype ProcMan State MrCache Query Matching Transfer Progress MsgSpec Engine Delivery Eager Api Rendezvous Sends.

(** The machine when a message arrives that no receive waits for. *)
Lemma m_arrive_unwanted st m :
  (∀ r, r ∈ m_pending st → recv_matches m r = false) → m_fresh st (msg_epoch m) = true →
  m_arrive st m = Done (st <| m_unexpected := m_unexpected st ++ [m] |> <| m_outs := m_outs st ++ [ORecv] |>).
Proof.
  intros Hp Hf. unfold m_arrive. rewrite (proj2 (take_first_None _ _)); [by rewrite Hf|].
  intros r Hr. by rewrite (Hp r Hr), andb_false_r.
Qed.

(** What the receives of the class [tag], [id] have to do with those that are
    posted. *)
Definition unwanted (t : table) (c : Z) (s : process) (st : mstate) (tag id : Z) : Prop :=
  ∀ m r, r ∈ m_pending st → msg_rank m = u64 (rank_of t s c) → msg_tag m = u64 tag → msg_comm_id m = id →
    recv_matches m r = false.

Section receiver.
Context {HMalloc : Malloc} {HVerbs : Verbs}.

(** A receive of another tag is as good after the arrival as before it. *)
Lemma receiver_after D t c s rq st m s' rq' pr ps id :
  ready D t c s rq st →
  ready D t c s' rq' (st <| m_unexpected := m_unexpected st ++ [m] |> <| m_outs := m_outs st ++ [ORecv] |>) →
  fixed_user s' = fixed_user s → receiver t c s st pr ps id → pp_tag pr ≠ FMI_ANY_TAG → is_int (pp_tag ps) →
  (∃ tag, is_int tag ∧ msg_tag m = u64 tag ∧ tag ≠ pp_tag ps ∧ tag ≠ FMI_ANY_TAG) →
  receiver t c s' (st <| m_unexpected := m_unexpected st ++ [m] |> <| m_outs := m_outs st ++ [ORecv] |>) pr ps id.
Proof.
  intros Hr Hr' Hf [H1 H2 H3 H4 H5 H6 H7 H8 H9] Hany Hps (tag & Htag & Hmt & Hne & Hta).
  pose proof (rd_implements _ _ _ _ _ _ Hr) as (?&?&?&?&?& He).
  pose proof (rd_implements _ _ _ _ _ _ Hr') as (?&?&?&?&?& He').
  assert (Hme : ps_memory s' = ps_memory s) by (rewrite (en_memory He), (en_memory He'); done).
  assert (Hrq : ps_requests s' = ps_requests s) by (rewrite (en_requests He), (en_requests He'); done).
  destruct H5 as [?|Ht]; [done|].
  split; rewrite ?Hme, ?Hrq, ?(rank_of_fixed t s s') by done; try done.
  - by eapply param_ok_user.
  - by right.
  - cbn. intros m' r [Hin| ->%list_elem_of_singleton]%elem_of_app Hrk Hrt Hrc; [by apply H9|].
    unfold recv_matches, word_matches at 2. rewrite Hmt, Hrt, Ht.
    assert (FMI_ANY_TAG ≠ pp_tag ps) by (rewrite <- Ht; by apply not_eq_sym).
    assert (Hneq : ∀ a b, is_int a → is_int b → a ≠ b → (u64 a =? u64 b) = false).
    { intros a b Ha Hb Hab. apply Z.eqb_neq. by intros E%u64_inj. }
    pose proof any_is_int. rewrite !Hneq by (done || by apply not_eq_sym). by rewrite !andb_false_r.
Qed.

(** Two announcements arrive; a receive takes the second one. *)
Lemma second_received D t c s rq st s1 pp1 ps id1 id ctl1 ctl2 pr total size rest1 rest2 :
  ready D t c s rq st → receiver t c s st pr ps id → unwanted t c s st (pp_tag pp1) id1 →
  send_header s1 pp1 id1 ctl1 → send_header s1 ps id ctl2 → msg_opcode ctl2 = FDMI_RDMA_READ →
  m_epoch st ≤ ft_epoch (ft_msg s1) → reg_size (pp_dtype ps) (pp_count ps) = Done size →
  total_send_size (pp_dtype ps) (pp_count ps) = Done total → FDMI_EAGER_BUFF_SIZE < total →
  is_int (pp_tag pp1) → is_int (pp_tag ps) → pp_tag pr ≠ FMI_ANY_TAG → pp_tag pp1 ≠ pp_tag ps → pp_tag pp1 ≠ FMI_ANY_TAG →
  ends (user_run D (s, rq) [UArrive (on_wire ctl1 [] rest1); UArrive (on_wire ctl2 [] rest2); UReceive pr]) (λ y,
    ∃ p qp sge, WRead qp p sge (mr_addr (msg_rdma_mr ctl2)) (mr_rkey (msg_rdma_mr ctl2)) ∈ ps_posted y.1 ∧
    ∀ mem, ends (fdmi_poll_sendrecv_cq (y.1 <| ps_memory := mem |>) D IBV_WC_RDMA_READ p) (λ s',
      (∃ rq' st', implements queue_rep D s' rq' st' ∧ msg_from t s c (on_wire ctl1 [] rest1) ∈ m_unexpected st') ∧
      ∃ l qp q sge fin, ps_posted s' = l ++ [WSend qp q [sge] fin []] ∧ msg_type fin = FDMI_COMM_FIN)).
Proof.
  intros Hr Hrc Hun Hh1 Hh2 Hop Hep Hsz Ht Hlt Hi1 Hi2 Hany Hne Hta.
  set (m1 := on_wire ctl1 [] rest1). set (st1 := st <| m_unexpected := m_unexpected st ++ [msg_from t s c m1] |> <| m_outs := m_outs st ++ [ORecv] |>).
  pose proof Hh1 as (Hty1 & Hep1 & _ & _ & Htag1 & _ & Hid1 & _). pose proof Hh2 as (Hty2 & _ & _ & _ & _ & Hcnt & _ & Hdt).
  assert (Hrun : m_run st (map (machine_event t s c (m_epoch st)) [UArrive m1]) = Done st1).
  { cbn [map machine_event m_run m_step]. rewrite m_arrive_unwanted; [done| |].
    - intros r Hin. by apply Hun.
    - unfold m_fresh. cbn. rewrite Hep1. apply negb_true_iff, Z.ltb_ge. done. }
  change (user_run D (s, rq) [UArrive m1; ?a; ?b]) with (y <- user_step D (s, rq) (UArrive m1) ;; user_run D y [a; b]).
  pose proof (user_run_ok D t c s rq st [UArrive m1] st1 Hr) as Hfirst. cbn [user_run] in Hfirst.
  apply ends_bind. apply ends_Done in Hfirst as ([s' rq'] & E & Hr1 & Hf); [|by constructor|done].
  apply obind_Done_inv in E as (y & -> & [= ->]). cbn [ends fst snd] in *.
  assert (Hrc1 : receiver t c s' st1 pr ps id).
  { apply (receiver_after D t c s rq st (msg_from t s c m1) s' rq' pr ps id); try done. by exists (pp_tag pp1). }
  pose proof Hrc1 as [Hp _ _ _ _ _ [r0 Hr0] _ _].
  pose proof (delivery_pair t c s' st1 s1 ps pr id ctl2 [] rest2 Hrc1 Hh2 Hep (ex_intro _ size Hsz)) as Hpair.
  pose proof Hr as [Hm Hreg Hpost _ _ _ _].
  eapply ends_mono; [eapply (large_received Hm Hreg Hpost D t c s' rq' st1 (on_wire ctl2 [] rest2) pr r0 total _ Hr1);
    [exact Hty2|by exists id|exact Hpair|exact Hop|cbn; by rewrite Hdt, Hcnt|done|done|by right]|].
  cbv beta. intros y (_ & p & w & Hw & (qp2 & lkey & size2 & _ & ->) & Hdone). eexists p, _, _. split; [exact Hw|].
  intros mem. eapply ends_mono; [apply Hdone|]. cbv beta. intros s3 (_ & (rq3 & st3 & Him & Hu) & _ & l & qp' & q' & sge' & Hpo).
  split.
  - exists rq3, st3. split; [exact Him|]. rewrite Hu. unfold st1. cbn. apply elem_of_app. right. by left.
  - by eexists l, qp', q', sge', _.
Qed.
End receiver.

(** C34: a large send finishes when another one does.  The program sends two
    large messages with different tags; the receiver posts a receive for the
    second one only.  The receiver reads the second buffer, and the message that
    ends this transfer raises the flag of the first send at the sender: its
    program may store to a buffer that nobody has read yet, since the first
    announcement still waits at the receiver.  The flag of the second send, whose
    data is delivered, is not raised. *)
Theorem later_read_finishes_first `{Malloc} `{Verbs} D1 t1 aq pq held s1 recvs rqs p1 p2 r1 r2
    D2 t2 c s2 rq st pr id1 id :
  sending D1 t1 aq pq held (s1, [], recvs) (SendState [] [] rqs) → isend_ok s1 p1 → isend_ok s1 p2 →
  is_eager p1 = false → is_eager p2 = false → is_request p1 ≠ is_request p2 →
  rqs !! is_request p1 = Some r1 → rqs !! is_request p2 = Some r2 →
  ready D2 t2 c s2 rq st → m_epoch st ≤ ft_epoch (ft_msg s1) → receiver t2 c s2 st pr (param_of p2) id →
  comm_id_at s1 (is_comm p1) = Done id1 → comm_id_at s1 (is_comm p2) = Done id → unwanted t2 c s2 st (is_tag p1) id1 →
  is_int (is_tag p1) → is_int (is_tag p2) → pp_tag pr ≠ FMI_ANY_TAG → is_tag p1 ≠ is_tag p2 → is_tag p1 ≠ FMI_ANY_TAG →
  ends (send_run D1 (s1, [], recvs) [SIsend p1; SIsend p2]) (λ x, ∃ qp1 q1 sge1 ctl1 qp2 q2 sge2 ctl2,
    ps_posted x.1.1 = ps_posted s1 ++ [WSend qp1 q1 sge1 ctl1 []; WSend qp2 q2 sge2 ctl2 []] ∧
    ∀ rest1 rest2, ends (user_run D2 (s2, rq) [UArrive (on_wire ctl1 [] rest1); UArrive (on_wire ctl2 [] rest2); UReceive pr]) (λ y,
      ∃ p qp sge, WRead qp p sge (mr_addr (msg_rdma_mr ctl2)) (mr_rkey (msg_rdma_mr ctl2)) ∈ ps_posted y.1 ∧
      ∀ mem, ends (fdmi_poll_sendrecv_cq (y.1 <| ps_memory := mem |>) D2 IBV_WC_RDMA_READ p) (λ s3,
        (∃ rq' st', implements queue_rep D2 s3 rq' st' ∧ msg_from t2 s2 c (on_wire ctl1 [] rest1) ∈ m_unexpected st') ∧
        ∃ l qp q sge fin, ps_posted s3 = l ++ [WSend qp q [sge] fin []] ∧
        ∀ rest, ends (send_run D1 x [SFin (on_wire fin [] rest)]) (λ z,
          (∃ r, ps_requests z.1.1 !! is_request p1 = Some r ∧ rq_flag r = 1) ∧
          ∃ r, ps_requests z.1.1 !! is_request p2 = Some r ∧ rq_flag r = 0)))).
Proof.
  intros Hs Hp1 Hp2 He1 He2 Hne Hr1 Hr2 Hready Hep Hrc Hid1 Hid Hun Hi1 Hi2 Hany Htags Hta.
  pose proof Hready as [Hm Hreg Hpost _ _ _ _].
  set (rqs1 := <[is_request p2 := r2 <| rq_flag := 0 |>]> (<[is_request p1 := r1 <| rq_flag := 0 |>]> rqs)).
  assert (Hrun : m_send_run (SendState [] [] rqs) [SIsend p1; SIsend p2] =
    Done (SendState [is_request p1; is_request p2] [(is_eager p1, is_request p1); (is_eager p2, is_request p2)] rqs1)).
  { cbn [m_send_run m_send_step]. rewrite (with_flag_ok 0 _ _ r1) by done. cbn [obind m_send_step].
    by rewrite (with_flag_ok 0 _ _ r2) by (by rewrite lookup_insert_ne). }
  eapply ends_mono; [eapply (send_run_law Hm Hreg Hpost D1 t1 aq pq held); [exact Hs| |exact Hrun]|].
  { rewrite !Forall_cons, Forall_nil. by split_and!. }
  cbv beta. intros x (Hx & _ & wss & Hpo & Hwss). cbn [fst] in Hpo, Hwss.
  apply Forall2_cons_inv_l in Hwss as (ws1 & wss1 & (w1 & -> & Hw1) & Hwss & ->).
  apply Forall2_cons_inv_l in Hwss as (ws2 & wss2 & (w2 & -> & Hw2) & Hwss & ->). apply Forall2_nil_inv_l in Hwss as ->.
  destruct Hw1 as (qp1 & q1 & sge1 & ctl1 & bs1 & id1' & -> & Hid1' & Hh1 & _ & _ & Hb1).
  destruct Hw2 as (qp2 & q2 & sge2 & ctl2 & bs2 & id' & -> & Hid' & Hh2 & Hop2 & _ & Hb2).
  rewrite Hid1 in Hid1'. injection Hid1' as <-. rewrite Hid in Hid'. injection Hid' as <-.
  rewrite (Hb1 He1), (Hb2 He2) in Hpo. rewrite He2 in Hop2.
  exists qp1, q1, sge1, ctl1, qp2, q2, sge2, ctl2. split; [exact Hpo|]. intros rest1 rest2.
  destruct (io_size _ _ Hp2) as [size Hsz]. destruct (io_total _ _ Hp2) as (total & Ht & _).
  assert (Hlt : FDMI_EAGER_BUFF_SIZE < total) by (unfold is_eager in He2; rewrite Ht in He2; by apply Z.leb_gt).
  eapply ends_mono; [apply (second_received D2 t2 c s2 rq st s1 (param_of p1) (param_of p2) id1 id ctl1 ctl2 pr total size); try done|].
  cbv beta. intros y (p & qp & sge & Hw & Hdone). exists p, qp, sge. split; [exact Hw|]. intros mem.
  eapply ends_mono; [apply Hdone|]. cbv beta. intros s3 (Hwait & l & qp' & q' & sge' & fin & Hpo3 & Hty). split; [exact Hwait|].
  exists l, qp', q', sge', fin. split; [exact Hpo3|]. intros rest.
  assert (Hfin : m_send_run (SendState [is_request p1; is_request p2] [(is_eager p1, is_request p1); (is_eager p2, is_request p2)] rqs1)
    [SFin (on_wire fin [] rest)] = Done (SendState [is_request p2] [(is_eager p1, is_request p1); (is_eager p2, is_request p2)]
      (<[is_request p1 := r1 <| rq_flag := 0 |> <| rq_flag := 1 |>]> rqs1))).
  { cbn [m_send_run m_send_step]. rewrite (with_flag_ok 1 _ _ (r1 <| rq_flag := 0 |>)); [done|].
    unfold rqs1. by rewrite lookup_insert_ne, lookup_insert_eq by done. }
  eapply ends_mono; [eapply (send_run_law Hm Hreg Hpost D1 t1 aq pq held); [exact Hx| |exact Hfin]|].
  { by constructor. }
  cbv beta. intros z (Hz & _). rewrite (sg_requests _ _ _ _ _ _ _ Hz). cbn [ss_requests]. split.
  - rewrite lookup_insert_eq. by eexists.
  - rewrite lookup_insert_ne by done. unfold rqs1. rewrite lookup_insert_eq. by eexists.
Qed.

(** ** An example *)
Definition sample_first_send : isend_args := Isend 2000 large_count FMI_BYTE 1 6 16 8192.

(** Nothing of this is about the tag. *)
Lemma isend_ok_tag `{Verbs} s buf count datatype dest tag tag' comm request :
  isend_ok s (Isend buf count datatype dest tag comm request) → isend_ok s (Isend buf count datatype dest tag' comm request).
Proof. intros []. by split. Qed.

Lemma later_read_finishes_first_witness :
  ends (send_run 16 (sample_large_sender, [], [512]) [SIsend sample_first_send; SIsend (sample_large_send 4096)]) (λ x,
    ∃ ctl1 ctl2,
    ends (user_run 16 (sample_large_ready, [(32, 512)])
      [UArrive (on_wire ctl1 [] []); UArrive (on_wire ctl2 [] []); UReceive sample_large_recv]) (λ y, ∃ p,
      ends (fdmi_poll_sendrecv_cq (y.1 <| ps_memory := large_buffer 1000 9 |>) 16 IBV_WC_RDMA_READ p) (λ s3, ∃ fin,
        ends (send_run 16 x [SFin (on_wire fin [] [])]) (λ z,
          (∃ r, ps_requests z.1.1 !! 8192 = Some r ∧ rq_flag r = 1) ∧
          ∃ r, ps_requests z.1.1 !! 4096 = Some r ∧ rq_flag r = 0)))).
Proof.
  eapply ends_mono; [eapply (later_read_finishes_first 16 sample_table [] [] [] sample_large_sender [512] sample_requests
    sample_first_send (sample_large_send 4096) (Request 0 0 0 0) (Request 0 0 0 0) 16 sample_table 32 sample_large_ready
    [(32, 512)] sample_large_state sample_large_recv 3 3 (sample_sending _))|].
  - eapply isend_ok_tag. by apply (sample_large_isend_ok 8192).
  - by apply sample_large_isend_ok.
  - reflexivity.
  - reflexivity.
  - discriminate.
  - reflexivity.
  - reflexivity.
  - exact sample_large_is_ready.
  - discriminate.
  - exact sample_large_receiver.
  - reflexivity.
  - reflexivity.
  - by intros m r ?%elem_of_nil.
  - unfold is_int, INT_MIN, INT_MAX. cbn. lia.
  - unfold is_int, INT_MIN, INT_MAX. cbn. lia.
  - discriminate.
  - discriminate.
  - discriminate.
  - cbv beta. intros x (qp1 & q1 & sge1 & ctl1 & qp2 & q2 & sge2 & ctl2 & _ & Hx). exists ctl1, ctl2.
    eapply ends_mono; [apply Hx|]. cbv beta. intros y (p & qp & sge & _ & Hy). exists p.
    eapply ends_mono; [apply Hy|]. cbv beta. intros s3 (_ & l & qp' & q' & sge' & fin & _ & Hf). exists fin. apply Hf.
Defined.
